(** * gx-kanban: board codec and board store

    A shallow embedding of the model layer of the plugin ([model/id.ts],
    [model/types.ts], [model/card.ts], [model/parse.ts],
    [model/serialize.ts], [model/cardContent.ts], [model/boardTemplate.ts])
    and of [state/BoardStore.ts], and the properties of the written
    specification stated and settled against it.

    - Text is a sequence of code units; the embedding covers the code units
      below 256 (the Latin-1 range of a JavaScript string), which is where
      all the syntax of the board format lives.
    - The regular expressions of the source are transcribed as syntax trees
      and run by a backtracking matcher that follows the ECMAScript rules
      for the constructs the source uses.
    - What the code takes from outside is a parameter: the YAML library
      ([parseYaml], [stringifyYaml]), the collation of the host
      ([localeCompare]), the clock and the random numbers behind
      [createId].
    - The store is a value; an operation of the class is a function from
      store to store.  Subscribers are not modelled: what [emit] pushes to
      them is kept in the store, in order.

    The file has three parts: the embedding, the vocabulary of the
    properties (notions of the specification in direct terms, sample
    inputs), and the properties, claim by claim. *)

From Stdlib Require Import String Ascii List Bool Arith ZArith Lia QArith Qround
  DecimalString DecimalNat Sorted.
From stdpp Require Import base option list gmap strings.
Import ListNotations.

Close Scope Q_scope.
Local Open Scope string_scope.
Local Open Scope list_scope.
Local Open Scope nat_scope.

(** ** JavaScript strings *)

Module Js.

(** [WhiteSpace] and [LineTerminator] code units below 256: what [\s] and
    [String.prototype.trim] recognise. *)
Definition isSpace (a : ascii) : bool :=
  let n := nat_of_ascii a in
  ((9 <=? n) && (n <=? 13)) || (n =? 32) || (n =? 160).

(** Line terminators below 256: what [.] refuses. *)
Definition isLineTerminator (a : ascii) : bool :=
  let n := nat_of_ascii a in (n =? 10) || (n =? 13).

Definition isDigit (a : ascii) : bool :=
  let n := nat_of_ascii a in (48 <=? n) && (n <=? 57).

Definition isUpper (a : ascii) : bool :=
  let n := nat_of_ascii a in (65 <=? n) && (n <=? 90).

Definition isLower (a : ascii) : bool :=
  let n := nat_of_ascii a in (97 <=? n) && (n <=? 122).

Definition lowerChar (a : ascii) : ascii :=
  let n := nat_of_ascii a in
  if isUpper a then ascii_of_nat (n + 32)
  else if (192 <=? n) && (n <=? 222) && negb (n =? 215) then ascii_of_nat (n + 32)
  else a.

Fixpoint toLowerCase (s : string) : string :=
  match s with
  | EmptyString => EmptyString
  | String a s' => String (lowerChar a) (toLowerCase s')
  end.

Fixpoint trimStart (s : string) : string :=
  match s with
  | String a s' => if isSpace a then trimStart s' else s
  | EmptyString => EmptyString
  end.

Fixpoint trimEnd (s : string) : string :=
  match s with
  | EmptyString => EmptyString
  | String a s' =>
      match trimEnd s' with
      | EmptyString => if isSpace a then EmptyString else String a EmptyString
      | t => String a t
      end
  end.

Definition trim (s : string) : string := trimEnd (trimStart s).

(** [a || b] on strings: the empty string is the only falsy one. *)
Definition orElse (a b : string) : string :=
  match a with EmptyString => b | _ => a end.

Definition truthy (s : string) : bool :=
  match s with EmptyString => false | _ => true end.

Fixpoint startsWith (s p : string) {struct p} : bool :=
  match p, s with
  | EmptyString, _ => true
  | String b p', String a s' => Ascii.eqb b a && startsWith s' p'
  | String _ _, EmptyString => false
  end.

(** [s.includes(p)] *)
Fixpoint includes (s p : string) : bool :=
  startsWith s p ||
  match s with
  | EmptyString => false
  | String _ s' => includes s' p
  end.

(** [s.slice(n)] for [0 <= n] *)
Fixpoint sliceFrom (n : nat) (s : string) : string :=
  match n, s with
  | 0, _ => s
  | S n', String _ s' => sliceFrom n' s'
  | S _, EmptyString => EmptyString
  end.

(** [s.slice(0, n)] for [0 <= n] *)
Fixpoint sliceTo (n : nat) (s : string) : string :=
  match n, s with
  | 0, _ => EmptyString
  | S n', String a s' => String a (sliceTo n' s')
  | S _, EmptyString => EmptyString
  end.

(** [s.split('\n')]: never empty, one more piece than there are newlines. *)
Fixpoint splitLines (s : string) : list string :=
  match s with
  | EmptyString => [EmptyString]
  | String a s' =>
      if Ascii.eqb a "010"%char then EmptyString :: splitLines s'
      else match splitLines s' with
           | l :: ls => String a l :: ls
           | [] => [String a EmptyString]
           end
  end.

(** [parts.join(sep)] *)
Fixpoint join (sep : string) (parts : list string) : string :=
  match parts with
  | [] => EmptyString
  | [p] => p
  | p :: ps => p +:+ sep +:+ join sep ps
  end.

(** [s.replace(/\r\n/g, '\n')] *)
Fixpoint replaceCrLf (s : string) : string :=
  match s with
  | String a s' =>
      match s' with
      | String b s'' =>
          if Ascii.eqb a "013"%char && Ascii.eqb b "010"%char
          then String "010"%char (replaceCrLf s'')
          else String a (replaceCrLf s')
      | EmptyString => s
      end
  | EmptyString => EmptyString
  end.

End Js.

(** ** Regular expressions

    The subset of ECMAScript patterns the source uses: character classes,
    sequence, alternation, greedy and lazy repetition, capture groups, and
    the anchors [^] and [$] (none of the anchored patterns carries the [m]
    flag).  The matcher is the backtracking one of the language
    specification, in continuation-passing style. *)

Module Re.

Inductive regex : Type :=
| Chr (p : ascii -> bool)
| Eps
| Seq (r1 r2 : regex)
| Alt (r1 r2 : regex)
| Star (greedy : bool) (r : regex)
| Group (n : nat) (r : regex)
| Bol
| Eol.

Definition captures := list (nat * string).

(** end position and captures of a successful match *)
Definition result := (nat * captures)%type.

Definition cont := nat -> string -> captures -> option result.

Definition matcher := nat -> string -> captures -> cont -> option result.

Definition final : cont := fun e _ c => Some (e, c).

(** Repetition: an iteration that consumes nothing is refused, so the
    number of iterations is bounded by the length of what is left. *)
Fixpoint iterate (fuel : nat) (greedy : bool) (step : matcher) : matcher :=
  fun pos s c k =>
    match fuel with
    | 0 => k pos s c
    | S fuel' =>
        let again :=
          step pos s c
            (fun pos' s' c' =>
               if pos <? pos' then iterate fuel' greedy step pos' s' c' k else None) in
        if greedy
        then match again with Some x => Some x | None => k pos s c end
        else match k pos s c with Some x => Some x | None => again end
    end.

Fixpoint run (r : regex) : matcher :=
  fun pos s c k =>
    match r with
    | Chr p =>
        match s with
        | String a s' => if p a then k (S pos) s' c else None
        | EmptyString => None
        end
    | Eps => k pos s c
    | Seq r1 r2 => run r1 pos s c (fun pos' s' c' => run r2 pos' s' c' k)
    | Alt r1 r2 =>
        match run r1 pos s c k with
        | Some x => Some x
        | None => run r2 pos s c k
        end
    | Star greedy r1 => iterate (S (String.length s)) greedy (run r1) pos s c k
    | Group n r1 =>
        run r1 pos s c
          (fun pos' s' c' => k pos' s' ((n, Js.sliceTo (pos' - pos) s) :: c'))
    | Bol => if pos =? 0 then k pos s c else None
    | Eol => match s with EmptyString => k pos s c | _ => None end
    end.

(** The text of capture group [n] ([match[n]]); [None] is [undefined]. *)
Fixpoint group (n : nat) (c : captures) : option string :=
  match c with
  | [] => None
  | (m, s) :: c' => if n =? m then Some s else group n c'
  end.

(** [match[n] || ''] *)
Definition groupOr (n : nat) (c : captures) : string :=
  match group n c with Some s => s | None => EmptyString end.

Record found := mkFound { index : nat; stop : nat; caps : captures }.

(** Leftmost match at or after [pos], [s] being the input from [pos] on. *)
Fixpoint searchFrom (r : regex) (pos : nat) (s : string) : option found :=
  match run r pos s [] final with
  | Some (e, c) => Some (mkFound pos e c)
  | None =>
      match s with
      | EmptyString => None
      | String _ s' => searchFrom r (S pos) s'
      end
  end.

(** [s.match(r)] and [r.exec(s)] for a pattern without the [g] flag *)
Definition exec (r : regex) (s : string) : option found := searchFrom r 0 s.

(** [r.test(s)] for a pattern without the [g] flag *)
Definition test (r : regex) (s : string) : bool :=
  match exec r s with Some _ => true | None => false end.

(** The loop [while ((m = r.exec(s)) !== null)] for a pattern with the [g]
    flag: each search starts at [lastIndex], the end of the previous match. *)
Fixpoint execAll (fuel : nat) (r : regex) (pos : nat) (s : string) : list captures :=
  match fuel with
  | 0 => []
  | S fuel' =>
      match searchFrom r pos s with
      | None => []
      | Some m => caps m :: execAll fuel' r (stop m) (Js.sliceFrom (stop m - pos) s)
      end
  end.

(** pattern builders *)
Definition chr (a : ascii) : regex := Chr (Ascii.eqb a).
Definition plus (greedy : bool) (r : regex) : regex := Seq r (Star greedy r).
Definition opt (r : regex) : regex := Alt r Eps.
Definition space : regex := Chr Js.isSpace.
Definition digit : regex := Chr Js.isDigit.
Definition dot : regex := Chr (fun a => negb (Js.isLineTerminator a)).
Definition any : regex := Chr (fun _ => true).
Definition notChr (a : ascii) : regex := Chr (fun b => negb (Ascii.eqb a b)).

Fixpoint lit (s : string) : regex :=
  match s with
  | EmptyString => Eps
  | String a s' => Seq (chr a) (lit s')
  end.

Fixpoint seqs (rs : list regex) : regex :=
  match rs with
  | [] => Eps
  | [r] => r
  | r :: rs' => Seq r (seqs rs')
  end.

End Re.

(** ** Numbers

    A JavaScript number, as far as the source looks at one: a finite value
    (every finite double is a rational), an infinity, or NaN. *)

Inductive number : Type :=
| NaN
| PosInfinity
| NegInfinity
| Finite (q : Q).

(** [n >= 0] *)
Definition nonNegative (n : number) : bool :=
  match n with
  | Finite q => Qle_bool 0 q
  | PosInfinity => true
  | NaN | NegInfinity => false
  end.

(** [Math.floor(n)] *)
Definition mathFloor (n : number) : number :=
  match n with
  | Finite q => Finite (inject_Z (Qfloor q))
  | other => other
  end.

(** ** model/types.ts *)

Inductive CardDensity : Type := normal | compact.

Record ColumnDefinition : Type := mkColumnDefinition {
  def_id : string;
  def_title : string;
  def_wipLimit : option number
}.

Record Card : Type := mkCard {
  card_id : string;
  card_title : string;
  card_description : string;
  card_checked : bool;
  card_dueDate : option string;
  card_tags : list string;
  card_searchText : string
}.

Record Column : Type := mkColumn {
  col_id : string;
  col_title : string;
  col_wipLimit : option number;
  col_cards : list Card
}.

Record BoardDocument : Type := mkBoard {
  boardTitle : string;
  boardDescription : string;
  density : CardDensity;
  columns : list Column;
  archive : list Card
}.

Record BoardFilter : Type := mkFilter {
  query : string;
  tag : string
}.

Record BoardStoreSnapshot : Type := mkSnapshot {
  snap_board : BoardDocument;
  snap_filter : BoardFilter;
  visibleColumns : list Column;
  allTags : list string
}.

(** [Omit<Card, 'tags' | 'searchText'>], the argument of [normalizeCard] *)
Record CardInput : Type := mkCardInput {
  in_id : string;
  in_title : string;
  in_description : string;
  in_checked : bool;
  in_dueDate : option string
}.

(** every card of a document, lanes first, then the archive *)
Definition allCards (b : BoardDocument) : list Card :=
  flat_map col_cards (columns b) ++ archive b.

(** ** model/id.ts

    [createId] reads the clock and draws five random digits.  Both sources
    are explicit: [dateNow k] is what the [k]-th call of [Date.now()]
    returns, [randomIndex k] is [Math.floor(Math.random() * 36)] at the
    [k]-th draw; the state counts the reads and the draws made so far. *)

Record Entropy : Type := mkEntropy {
  clockReads : nat;
  randomDraws : nat
}.

(** Computations that may create identifiers. *)
Definition Gen (A : Type) : Type := Entropy -> A * Entropy.

Definition ret {A : Type} (a : A) : Gen A := fun e => (a, e).

Definition bind {A B : Type} (m : Gen A) (f : A -> Gen B) : Gen B :=
  fun e => let (a, e') := m e in f a e'.

Notation "'let*' x ':=' m 'in' k" := (bind m (fun x => k))
  (at level 10, x name, m at level 100, k at level 200).

Definition alphabet : string := "abcdefghijklmnopqrstuvwxyz0123456789".

Definition charAt (s : string) (i : nat) : string :=
  match String.get i s with
  | Some a => String a EmptyString
  | None => EmptyString
  end.

(** [n.toString(36)] for a non-negative integer *)
Definition digit36 (d : N) : ascii :=
  if (d <? 10)%N then ascii_of_N (48 + d) else ascii_of_N (87 + d).

Fixpoint toBase36 (fuel : nat) (n : N) (acc : string) : string :=
  match fuel with
  | 0 => acc
  | S fuel' =>
      let acc' := String (digit36 (n mod 36)) acc in
      if (n <? 36)%N then acc' else toBase36 fuel' (n / 36)%N acc'
  end.

Definition toString36 (n : N) : string :=
  toBase36 (S (N.size_nat n)) n EmptyString.

Section Identifiers.

Variable dateNow : nat -> N.
Variable randomIndex : nat -> nat.

Fixpoint randomString (size : nat) (draw : nat) : string :=
  match size with
  | 0 => EmptyString
  | S size' => charAt alphabet (randomIndex draw) +:+ randomString size' (S draw)
  end.

Definition createId (prefix : string) : Gen string :=
  fun e =>
    let stamp := toString36 (dateNow (clockReads e)) in
    (prefix +:+ "-" +:+ stamp +:+ "-" +:+ randomString 5 (randomDraws e),
     mkEntropy (S (clockReads e)) (5 + randomDraws e)).

End Identifiers.

(** ** model/card.ts *)

(** [[A-Za-z0-9/_-]] *)
Definition isTagChar (a : ascii) : bool :=
  Js.isUpper a || Js.isLower a || Js.isDigit a
  || Ascii.eqb a "/" || Ascii.eqb a "_" || Ascii.eqb a "-".

(** [/(^|\s)#([A-Za-z0-9/_-]+)/g] *)
Definition tagRegex : Re.regex :=
  Re.Seq (Re.Group 1 (Re.Alt Re.Bol Re.space))
    (Re.Seq (Re.chr "#") (Re.Group 2 (Re.plus true (Re.Chr isTagChar)))).

(** [/^\d{4}-\d{2}-\d{2}$/] *)
Definition dueRegex : Re.regex :=
  Re.seqs [Re.Bol; Re.digit; Re.digit; Re.digit; Re.digit; Re.chr "-";
           Re.digit; Re.digit; Re.chr "-"; Re.digit; Re.digit; Re.Eol].

(** [new Set<string>()] keeps its members in insertion order. *)
Definition setAdd (x : string) (members : list string) : list string :=
  if existsb (String.eqb x) members then members else members ++ [x].

Definition setOf (values : list string) : list string :=
  fold_left (fun members x => setAdd x members) values [].

(** [Array.prototype.sort(compare)]: a stable sort; for a comparator that is
    a consistent order every stable sort returns the same array. *)
Fixpoint insertSorted (compare : string -> string -> comparison)
  (x : string) (sorted : list string) : list string :=
  match sorted with
  | [] => [x]
  | y :: rest =>
      match compare x y with
      | Lt => x :: sorted
      | _ => y :: insertSorted compare x rest
      end
  end.

Definition sortWith (compare : string -> string -> comparison)
  (values : list string) : list string :=
  fold_left (fun sorted x => insertSorted compare x sorted) values [].

Definition normalizeDueDate (value : option string) : option string :=
  match value with
  | None => None
  | Some v =>
      if negb (Js.truthy v) then None
      else
        let trimmed := Js.trim v in
        if negb (Re.test dueRegex trimmed) then None else Some trimmed
  end.

Definition normalizeTagFilter (tag : string) : string :=
  let normalized := Js.toLowerCase (Js.trim tag) in
  if negb (Js.truthy normalized) then EmptyString
  else if Js.startsWith normalized "#" then normalized else "#" +:+ normalized.

Definition newline : string := String "010"%char EmptyString.

Definition buildSearchText (title description : string) (tags : list string)
  (dueDate : option string) : string :=
  let parts := [title; description; Js.join " " tags; default EmptyString dueDate] in
  Js.toLowerCase (Js.join newline parts).

Section CardModel.

(** [left.localeCompare(right)], the collation of the host *)
Variable localeCompare : string -> string -> comparison.

Definition extractTags (text : string) : list string :=
  let matches := Re.execAll (S (String.length text)) tagRegex 0 text in
  let tags :=
    fold_left
      (fun tags m =>
         let tagBody := Re.groupOr 2 m in
         if Js.truthy tagBody then setAdd ("#" +:+ Js.toLowerCase tagBody) tags else tags)
      matches [] in
  sortWith localeCompare tags.

Definition normalizeCard (input : CardInput) : Card :=
  let dueDate := normalizeDueDate (in_dueDate input) in
  let tags := extractTags (in_title input +:+ newline +:+ in_description input) in
  {| card_id := in_id input;
     card_title := in_title input;
     card_description := in_description input;
     card_checked := in_checked input;
     card_dueDate := dueDate;
     card_tags := tags;
     card_searchText :=
       buildSearchText (in_title input) (in_description input) tags dueDate |}.

End CardModel.

(** A collation for running the model: code-unit order.  Any comparator can
    be put in its place. *)
Fixpoint codeUnitCompare (a b : string) : comparison :=
  match a, b with
  | EmptyString, EmptyString => Eq
  | EmptyString, String _ _ => Lt
  | String _ _, EmptyString => Gt
  | String x a', String y b' =>
      match Nat.compare (nat_of_ascii x) (nat_of_ascii y) with
      | Eq => codeUnitCompare a' b'
      | c => c
      end
  end.

(** ** model/parse.ts *)

(** What the YAML library hands back for a header: a decoded value. *)
#[warnings="-register-all"]
Inductive yaml : Type :=
| YNull
| YBool (b : bool)
| YNum (n : number)
| YStr (s : string)
| YSeq (items : list yaml)
| YMap (entries : list (string * yaml)).

(** [value.key]; [None] is [undefined] *)
Definition prop (value : yaml) (key : string) : option yaml :=
  match value with
  | YMap entries => snd <$> List.find (fun kv => String.eqb (fst kv) key) entries
  | _ => None
  end.

(** [!value || typeof value !== 'object'] is false: a mapping or a sequence *)
Definition isObject (value : yaml) : bool :=
  match value with
  | YMap _ | YSeq _ => true
  | _ => false
  end.

Definition tab : string := String "009"%char EmptyString.

(** [/^##\s+\[([^\]]+)]\s+(.+?)\s*$/] *)
Definition headingRegex : Re.regex :=
  Re.seqs [Re.Bol; Re.lit "##"; Re.plus true Re.space; Re.chr "[";
           Re.Group 1 (Re.plus true (Re.notChr "]")); Re.chr "]";
           Re.plus true Re.space; Re.Group 2 (Re.plus false Re.dot);
           Re.Star true Re.space; Re.Eol].

(** [cardRegex] of the source: [^-\s+\[([ xX])]\s+\[([^\]]+)]\s*] and then
    a third group, any run of [.], up to [$] *)
Definition cardRegex : Re.regex :=
  Re.seqs [Re.Bol; Re.chr "-"; Re.plus true Re.space; Re.chr "[";
           Re.Group 1 (Re.Chr (fun a => Ascii.eqb a " " || Ascii.eqb a "x" || Ascii.eqb a "X"));
           Re.chr "]"; Re.plus true Re.space; Re.chr "[";
           Re.Group 2 (Re.plus true (Re.notChr "]")); Re.chr "]";
           Re.Star true Re.space; Re.Group 3 (Re.Star true Re.dot); Re.Eol].

(** [/^due::\s*(\d{4}-\d{2}-\d{2})\s*$/] *)
Definition dueLineRegex : Re.regex :=
  Re.seqs [Re.Bol; Re.lit "due::"; Re.Star true Re.space;
           Re.Group 1 (Re.seqs [Re.digit; Re.digit; Re.digit; Re.digit; Re.chr "-";
                                Re.digit; Re.digit; Re.chr "-"; Re.digit; Re.digit]);
           Re.Star true Re.space; Re.Eol].

(** [/^\^[A-Za-z0-9/_-]+\s*$/] *)
Definition blockAnchorRegex : Re.regex :=
  Re.seqs [Re.Bol; Re.chr "^"; Re.plus true (Re.Chr isTagChar);
           Re.Star true Re.space; Re.Eol].

(** [/%%\s*kanban-next:archive:start\s*%%\n?([\s\S]*?)\n?%%\s*kanban-next:archive:end\s*%%/m] *)
Definition archiveBlockRegex : Re.regex :=
  Re.seqs [Re.lit "%%"; Re.Star true Re.space; Re.lit "kanban-next:archive:start";
           Re.Star true Re.space; Re.lit "%%"; Re.opt (Re.chr "010");
           Re.Group 1 (Re.Star false Re.any);
           Re.opt (Re.chr "010"); Re.lit "%%"; Re.Star true Re.space;
           Re.lit "kanban-next:archive:end"; Re.Star true Re.space; Re.lit "%%"].

(** [/^---\n([\s\S]*?)\n---\n?/] *)
Definition frontmatterRegex : Re.regex :=
  Re.seqs [Re.Bol; Re.lit "---"; Re.chr "010"; Re.Group 1 (Re.Star false Re.any);
           Re.chr "010"; Re.lit "---"; Re.opt (Re.chr "010")].

(** [/^( {2}|\t)/] *)
Definition indentRegex : Re.regex :=
  Re.Seq Re.Bol (Re.Group 1 (Re.Alt (Re.lit "  ") (Re.chr "009"))).

Record ParsedColumn : Type := mkParsedColumn {
  pc_id : string;
  pc_title : string;
  pc_cards : list Card
}.

Inductive BoardParseError : Type :=
| mkBoardParseError (message : string).

Definition message (e : BoardParseError) : string :=
  match e with mkBoardParseError m => m end.

Definition normalizeNewlines (content : string) : string := Js.replaceCrLf content.

Definition parseDensity (value : option yaml) : CardDensity :=
  match value with
  | Some (YStr "compact") => compact
  | _ => normal
  end.

Definition parseWipLimit (value : option yaml) : option number :=
  match value with
  | Some (YNum NaN) => None
  | Some (YNum n) =>
      let next := mathFloor n in
      if nonNegative next then Some next else None
  | _ => None
  end.

(** [typeof value === 'string' ? value.trim() : ''] *)
Definition trimmedString (value : option yaml) : string :=
  match value with
  | Some (YStr s) => Js.trim s
  | _ => EmptyString
  end.

Definition parseColumnDefinitions (value : option yaml) : list ColumnDefinition :=
  match value with
  | Some (YSeq entries) =>
      fold_left
        (fun columns entry =>
           if negb (isObject entry) then columns
           else
             let id := trimmedString (prop entry "id") in
             let title := trimmedString (prop entry "title") in
             if negb (Js.truthy id) || negb (Js.truthy title) then columns
             else columns ++ [mkColumnDefinition id title (parseWipLimit (prop entry "wipLimit"))])
        entries []
  | _ => []
  end.

(** [while (lines.length > 0) { ... lines.pop() }]: drop the blank lines at
    the end *)
Fixpoint popBlankLines (lines : list string) : list string :=
  match lines with
  | [] => []
  | line :: rest =>
      match popBlankLines rest with
      | [] => if Js.truthy (Js.trim line) then [line] else []
      | kept => line :: kept
      end
  end.

Definition normalizeDescription (rawLines : list string) : string * option string :=
  let lines := popBlankLines rawLines in
  let '(dueDate, bodyLines) :=
    fold_left
      (fun '(dueDate, bodyLines) line =>
         if Re.test blockAnchorRegex (Js.trim line) then (dueDate, bodyLines)
         else
           match Re.exec dueLineRegex (Js.trim line) with
           | Some dueMatch =>
               if negb (Js.truthy (default EmptyString dueDate))
               then (normalizeDueDate (Some (Re.groupOr 1 (Re.caps dueMatch))), bodyLines)
               else (dueDate, bodyLines ++ [line])
           | None => (dueDate, bodyLines ++ [line])
           end)
      lines (None, []) in
  (Js.trimEnd (Js.join newline bodyLines), dueDate).

(** [nextLine.replace(/^( {2}|\t)/, '')] *)
Definition stripIndent (line : string) : string :=
  match Re.exec indentRegex line with
  | Some m => Js.sliceFrom (Re.stop m) line
  | None => line
  end.

(** The inner loop of [parseCardsFromLines]: the lines after a card line
    that belong to its description, one indent level removed. *)
Fixpoint descriptionLinesOf (following : list string) : list string :=
  match following with
  | [] => []
  | nextLine :: rest =>
      if Re.test cardRegex nextLine || Re.test headingRegex nextLine then []
      else if negb (Js.truthy (Js.trim nextLine))
              || Js.startsWith nextLine "  " || Js.startsWith nextLine tab
      then stripIndent nextLine :: descriptionLinesOf rest
      else []
  end.

(** The inner loop of [parseColumnsFromBody]: the lines up to the next
    heading. *)
Fixpoint sectionLinesOf (following : list string) : list string :=
  match following with
  | [] => []
  | nextLine :: rest =>
      if Re.test headingRegex nextLine then [] else nextLine :: sectionLinesOf rest
  end.

Definition createDefaultBoard (title : string) : BoardDocument :=
  {| boardTitle := title;
     boardDescription := EmptyString;
     density := normal;
     columns := [];
     archive := [] |}.

Definition missingFrontmatter : string := "Kanban board is missing YAML frontmatter.".
Definition notYaml : string := "Kanban frontmatter could not be parsed as YAML.".
Definition notAnObject : string := "Kanban frontmatter must be a YAML object.".
Definition missingMarker : string := "File frontmatter is missing `kanban: true`.".

Definition mergeColumns (fromFrontmatter : list ColumnDefinition)
  (fromBody : list ParsedColumn) : list Column :=
  let bodyById : gmap string ParsedColumn :=
    fold_left (fun m column => <[pc_id column := column]> m) fromBody ∅ in
  let '(seen, columns) :=
    fold_left
      (fun '(seen, columns) definition =>
         let bodyColumn := bodyById !! def_id definition in
         (({[def_id definition]} : gset string) ∪ seen,
          columns ++
            [{| col_id := def_id definition;
                col_title :=
                  Js.orElse (def_title definition)
                    (Js.orElse (from_option pc_title EmptyString bodyColumn) "Untitled");
                col_wipLimit := def_wipLimit definition;
                col_cards := from_option pc_cards [] bodyColumn |}]))
      fromFrontmatter ((∅ : gset string), []) in
  fold_left
    (fun columns bodyColumn =>
       if decide (pc_id bodyColumn ∈ seen) then columns
       else columns ++
              [{| col_id := pc_id bodyColumn;
                  col_title := pc_title bodyColumn;
                  col_wipLimit := None;
                  col_cards := pc_cards bodyColumn |}])
    fromBody columns.

Section Codec.

Variable localeCompare : string -> string -> comparison.
Variable dateNow : nat -> N.
Variable randomIndex : nat -> nat.

(** [parse] of the YAML library; [None] when it throws *)
Variable parseYaml : string -> option yaml.

(** [stringify] of the YAML library *)
Variable stringifyYaml : yaml -> string.

Definition splitFrontmatter (content : string) : BoardParseError + yaml * string :=
  let normalized := normalizeNewlines content in
  match Re.exec frontmatterRegex normalized with
  | None => inl (mkBoardParseError missingFrontmatter)
  | Some m =>
      match parseYaml (Re.groupOr 1 (Re.caps m)) with
      | None => inl (mkBoardParseError notYaml)
      | Some parsed =>
          if negb (isObject parsed) then inl (mkBoardParseError notAnObject)
          else inr (parsed, Js.sliceFrom (Re.stop m - Re.index m) normalized)
      end
  end.

(** The loop of [parseCardsFromLines]; [skip] counts the lines the inner
    loop has consumed ([i = nextIndex]). *)
Fixpoint parseCardsAt (lines : list string) (skip : nat) : Gen (list Card) :=
  match lines with
  | [] => ret []
  | line :: rest =>
      match skip with
      | S skip' => parseCardsAt rest skip'
      | 0 =>
          match Re.exec cardRegex line with
          | None => parseCardsAt rest 0
          | Some found =>
              let cardMatch := Re.caps found in
              let checked := String.eqb (Js.toLowerCase (Re.groupOr 1 cardMatch)) "x" in
              let* cardId :=
                (let given := Js.trim (Re.groupOr 2 cardMatch) in
                 if Js.truthy given then ret given
                 else createId dateNow randomIndex "card") in
              let title := Js.trim (Re.groupOr 3 cardMatch) in
              let descriptionLines := descriptionLinesOf rest in
              let '(description, dueDate) := normalizeDescription descriptionLines in
              let card :=
                normalizeCard localeCompare
                  (mkCardInput cardId title description checked dueDate) in
              let* cards := parseCardsAt rest (List.length descriptionLines) in
              ret (card :: cards)
          end
      end
  end.

Definition parseCardsFromLines (lines : list string) : Gen (list Card) :=
  parseCardsAt lines 0.

(** The loop of [parseColumnsFromBody]; [skip] as above. *)
Fixpoint parseColumnsAt (lines : list string) (skip : nat) : Gen (list ParsedColumn) :=
  match lines with
  | [] => ret []
  | line :: rest =>
      match skip with
      | S skip' => parseColumnsAt rest skip'
      | 0 =>
          match Re.exec headingRegex line with
          | None => parseColumnsAt rest 0
          | Some found =>
              let headingMatch := Re.caps found in
              let sectionLines := sectionLinesOf rest in
              let* id :=
                (let given := Js.trim (Re.groupOr 1 headingMatch) in
                 if Js.truthy given then ret given
                 else createId dateNow randomIndex "column") in
              let title := Js.orElse (Js.trim (Re.groupOr 2 headingMatch)) "Untitled" in
              let* cards := parseCardsFromLines sectionLines in
              let* more := parseColumnsAt rest (List.length sectionLines) in
              ret (mkParsedColumn id title cards :: more)
          end
      end
  end.

Definition parseColumnsFromBody (body : string) : Gen (list ParsedColumn) :=
  parseColumnsAt (Js.splitLines (normalizeNewlines body)) 0.

Definition extractArchiveSection (body : string) : Gen (string * list Card) :=
  let normalized := normalizeNewlines body in
  match Re.exec archiveBlockRegex normalized with
  | None => ret (normalized, [])
  | Some m =>
      let archiveMarkdown := Re.groupOr 1 (Re.caps m) in
      let* archive := parseCardsFromLines (Js.splitLines archiveMarkdown) in
      let bodyWithoutArchive :=
        Js.sliceTo (Re.index m) normalized +:+ Js.sliceFrom (Re.stop m) normalized in
      ret (bodyWithoutArchive, archive)
  end.

(** What [parseBoardMarkdown] does once the header is accepted: read the
    metadata, parse archive and sections, merge. *)
Definition assembleBoard (frontmatter : yaml) (body : string) : Gen BoardDocument :=
  let title :=
    Js.orElse (trimmedString (prop frontmatter "boardTitle")) "Untitled Kanban" in
  let description := trimmedString (prop frontmatter "boardDescription") in
  let density := parseDensity (prop frontmatter "density") in
  let frontmatterColumns := parseColumnDefinitions (prop frontmatter "columns") in
  let* extracted := extractArchiveSection body in
  let* bodyColumns := parseColumnsFromBody (fst extracted) in
  let merged := mergeColumns frontmatterColumns bodyColumns in
  match merged with
  | [] =>
      let fallback := createDefaultBoard title in
      ret {| boardTitle := boardTitle fallback;
             boardDescription := description;
             density := density;
             columns := columns fallback;
             archive := snd extracted |}
  | _ =>
      ret {| boardTitle := title;
             boardDescription := description;
             density := density;
             columns := merged;
             archive := snd extracted |}
  end.

Definition parseBoardMarkdown (content : string) : Gen (BoardParseError + BoardDocument) :=
  match splitFrontmatter content with
  | inl e => ret (inl e)
  | inr (frontmatter, body) =>
      match prop frontmatter "kanban" with
      | Some (YBool true) =>
          let* document := assembleBoard frontmatter body in
          ret (inr document)
      | _ => ret (inl (mkBoardParseError missingMarker))
      end
  end.

End Codec.

(** ** model/serialize.ts *)

Definition archiveStartMarker : string := "%% kanban-next:archive:start %%".
Definition archiveEndMarker : string := "%% kanban-next:archive:end %%".

Definition normalizeColumns (board : BoardDocument) : list ColumnDefinition :=
  map
    (fun column =>
       {| def_id := col_id column;
          def_title := col_title column;
          def_wipLimit :=
            match col_wipLimit column with
            | Some n => if nonNegative n then Some n else None
            | None => None
            end |})
    (columns board).

Definition densityName (d : CardDensity) : string :=
  match d with normal => "normal" | compact => "compact" end.

(** The object literal of [buildFrontmatter], keys in the order written. *)
Definition buildFrontmatter (board : BoardDocument) : yaml :=
  YMap
    ([("kanban", YBool true);
      ("kanbanVersion", YNum (Finite 1));
      ("boardTitle", YStr (boardTitle board))]
     ++ (if Js.truthy (boardDescription board)
         then [("boardDescription", YStr (boardDescription board))] else [])
     ++ [("density", YStr (densityName (density board)));
         ("columns",
          YSeq (map
                  (fun definition =>
                     YMap [("id", YStr (def_id definition));
                           ("title", YStr (def_title definition));
                           ("wipLimit", from_option YNum YNull (def_wipLimit definition))])
                  (normalizeColumns board)))]).

(** [while (lines.length > 0 && lines[lines.length - 1] === '') lines.pop()] *)
Fixpoint popEmptyLines (lines : list string) : list string :=
  match lines with
  | [] => []
  | line :: rest =>
      match popEmptyLines rest with
      | [] => if Js.truthy line then [line] else []
      | kept => line :: kept
      end
  end.

Section Serializer.

Variable localeCompare : string -> string -> comparison.
Variable stringifyYaml : yaml -> string.

Definition serializeCard (card : Card) : list string :=
  let normalized :=
    normalizeCard localeCompare
      {| in_id := card_id card;
         in_title := Js.trim (card_title card);
         in_description := card_description card;
         in_checked := card_checked card;
         in_dueDate := normalizeDueDate (card_dueDate card) |} in
  let lines :=
    ["- [" +:+ (if card_checked normalized then "x" else " ") +:+ "] ["
       +:+ card_id normalized +:+ "] " +:+ card_title normalized;
     "  ^" +:+ card_id normalized] in
  let descriptionChunks :=
    (if Js.truthy (Js.trim (card_description normalized))
     then [Js.trimEnd (card_description normalized)] else [])
    ++ (if Js.truthy (default EmptyString (card_dueDate normalized))
        then ["due:: " +:+ default EmptyString (card_dueDate normalized)] else []) in
  let lines :=
    match descriptionChunks with
    | [] => lines
    | _ =>
        let description := Js.join newline descriptionChunks in
        lines ++ map (fun line => "  " +:+ line) (Js.splitLines description)
    end in
  lines ++ [EmptyString].

Definition serializeArchive (archived : list Card) : list string :=
  match archived with
  | [] => []
  | _ =>
      [EmptyString; archiveStartMarker; EmptyString]
      ++ flat_map serializeCard archived
      ++ [archiveEndMarker; EmptyString]
  end.

Definition serializeBoardMarkdown (board : BoardDocument) : string :=
  let frontmatter := buildFrontmatter board in
  let yamlText := Js.trimEnd (stringifyYaml frontmatter) in
  let lines :=
    ["---"; yamlText; "---"; EmptyString]
    ++ flat_map
         (fun column =>
            ["## [" +:+ col_id column +:+ "] " +:+ col_title column; EmptyString]
            ++ flat_map serializeCard (col_cards column)
            ++ [EmptyString])
         (columns board)
    ++ serializeArchive (archive board) in
  Js.join newline (popEmptyLines lines) +:+ newline.

End Serializer.

(** ** model/cardContent.ts *)

Record ParsedCardContent : Type := mkParsedCardContent {
  content_title : string;
  content_description : string
}.

Definition toEditableCardText (title description : string) : string :=
  let title := Js.trim title in
  let description := Js.trimEnd description in
  if negb (Js.truthy description) then title
  else title +:+ newline +:+ description.

(** [lines.findIndex(line => line.trim().length > 0)] and the lines after it *)
Fixpoint fromFirstContentLine (lines : list string) : option (string * list string) :=
  match lines with
  | [] => None
  | line :: rest =>
      if Js.truthy (Js.trim line) then Some (line, rest)
      else fromFirstContentLine rest
  end.

Definition fromEditableCardText (value : string) : ParsedCardContent :=
  let lines := Js.splitLines (normalizeNewlines value) in
  match fromFirstContentLine lines with
  | None => mkParsedCardContent "Untitled" EmptyString
  | Some (first, rest) =>
      let title := Js.orElse (Js.trim first) "Untitled" in
      let description := Js.trimEnd (Js.join newline rest) in
      mkParsedCardContent (Js.orElse title "Untitled") description
  end.

(** [clampEditableCardText], for a length that is a non-negative integer *)
Definition clampEditableCardText (value : string) (maxLength : nat) : string :=
  if String.length value <=? maxLength then value else Js.sliceTo maxLength value.

(** ** model/clipboard.ts *)

Record ParsedClipboardCard : Type := mkClipboardCard {
  clip_title : string;
  clip_checked : bool
}.

(** [[-*+]] *)
Definition listMarker : Re.regex :=
  Re.Chr (fun a => Ascii.eqb a "-" || Ascii.eqb a "*" || Ascii.eqb a "+").

(** [/^\s*[-*+]\s+\[([ xX])]\s+(.+)$/] *)
Definition checklistRegex : Re.regex :=
  Re.seqs [Re.Bol; Re.Star true Re.space; listMarker; Re.plus true Re.space; Re.chr "[";
           Re.Group 1 (Re.Chr (fun a => Ascii.eqb a " " || Ascii.eqb a "x" || Ascii.eqb a "X"));
           Re.chr "]"; Re.plus true Re.space; Re.Group 2 (Re.plus true Re.dot); Re.Eol].

(** [/^\s*[-*+]\s+(.+)$/] *)
Definition bulletRegex : Re.regex :=
  Re.seqs [Re.Bol; Re.Star true Re.space; listMarker; Re.plus true Re.space;
           Re.Group 1 (Re.plus true Re.dot); Re.Eol].

(** [/^\s*\d+[.)]\s+(.+)$/] *)
Definition orderedRegex : Re.regex :=
  Re.seqs [Re.Bol; Re.Star true Re.space; Re.plus true Re.digit;
           Re.Chr (fun a => Ascii.eqb a "." || Ascii.eqb a ")"); Re.plus true Re.space;
           Re.Group 1 (Re.plus true Re.dot); Re.Eol].

(** [if (title) cards.push({ title, checked })] *)
Definition pushTitled (cards : list ParsedClipboardCard) (title : string) (checked : bool)
  : list ParsedClipboardCard :=
  if Js.truthy title then cards ++ [mkClipboardCard title checked] else cards.

(** the body of the loop of [parseClipboardList], for one line *)
Definition parseClipboardLine (cards : list ParsedClipboardCard) (line : string)
  : list ParsedClipboardCard :=
  let trimmed := Js.trim line in
  if negb (Js.truthy trimmed) then cards
  else
    match Re.exec checklistRegex trimmed with
    | Some checklist =>
        pushTitled cards (Js.trim (Re.groupOr 2 (Re.caps checklist)))
          (String.eqb (Js.toLowerCase (Re.groupOr 1 (Re.caps checklist))) "x")
    | None =>
        match Re.exec bulletRegex trimmed with
        | Some bullet => pushTitled cards (Js.trim (Re.groupOr 1 (Re.caps bullet))) false
        | None =>
            match Re.exec orderedRegex trimmed with
            | Some ordered => pushTitled cards (Js.trim (Re.groupOr 1 (Re.caps ordered))) false
            | None => cards ++ [mkClipboardCard trimmed false]
            end
        end
    end.

Definition parseClipboardList (text : string) : list ParsedClipboardCard :=
  fold_left parseClipboardLine (Js.splitLines (Js.replaceCrLf text)) [].

(** ** state/BoardStore.ts

    The store holds the canonical document and the filter.  Subscribers are
    outside the embedding; what [emit] pushes to them is recorded, in order,
    in [store_emitted].  An operation of the class is a function on the store
    (with its return value, when it has one). *)

Record BoardStore : Type := mkStore {
  store_board : BoardDocument;
  store_filter : BoardFilter;
  store_emitted : list BoardStoreSnapshot
}.

Definition setColumns (b : BoardDocument) (cols : list Column) : BoardDocument :=
  {| boardTitle := boardTitle b;
     boardDescription := boardDescription b;
     density := density b;
     columns := cols;
     archive := archive b |}.

Definition setCards (c : Column) (cards : list Card) : Column :=
  {| col_id := col_id c;
     col_title := col_title c;
     col_wipLimit := col_wipLimit c;
     col_cards := cards |}.

(** [cards.splice(index, 0, ...items)] for [0 <= index <= cards.length] *)
Definition spliceIn {A : Type} (index : nat) (items : list A) (l : list A) : list A :=
  take index l ++ items ++ drop index l.

Section Store.

Variable localeCompare : string -> string -> comparison.

Definition renormalize (card : Card) : Card :=
  normalizeCard localeCompare
    {| in_id := card_id card;
       in_title := card_title card;
       in_description := card_description card;
       in_checked := card_checked card;
       in_dueDate := card_dueDate card |}.

Definition cloneBoard (b : BoardDocument) : BoardDocument :=
  {| boardTitle := boardTitle b;
     boardDescription := boardDescription b;
     density := density b;
     columns :=
       map
         (fun column =>
            {| col_id := col_id column;
               col_title := col_title column;
               col_wipLimit := col_wipLimit column;
               col_cards := map renormalize (col_cards column) |})
         (columns b);
     archive := map renormalize (archive b) |}.

Definition sortUnique (values : list string) : list string :=
  sortWith localeCompare (setOf values).

Definition getBoard (st : BoardStore) : BoardDocument :=
  cloneBoard (store_board st).

(** the test of [getSnapshot] on one card, [query] and [tag] being the
    normalized filter fields *)
Definition cardVisible (query tag : string) (card : Card) : bool :=
  if Js.truthy query && negb (Js.includes (card_searchText card) query) then false
  else if Js.truthy tag && negb (existsb (String.eqb tag) (card_tags card)) then false
  else true.

Definition getSnapshot (st : BoardStore) : BoardStoreSnapshot :=
  let query := Js.toLowerCase (Js.trim (query (store_filter st))) in
  let tag := normalizeTagFilter (tag (store_filter st)) in
  let allTags :=
    sortUnique
      (flat_map (fun column => flat_map card_tags (col_cards column))
         (columns (store_board st))) in
  if negb (Js.truthy query) && negb (Js.truthy tag) then
    let full := getBoard st in
    {| snap_board := full;
       snap_filter := store_filter st;
       visibleColumns := columns full;
       allTags := allTags |}
  else
    let visible :=
      map
        (fun column =>
           setCards column (List.filter (cardVisible query tag) (col_cards column)))
        (columns (store_board st)) in
    {| snap_board := getBoard st;
       snap_filter := store_filter st;
       visibleColumns := visible;
       allTags := allTags |}.

Definition emit (st : BoardStore) : BoardStore :=
  {| store_board := store_board st;
     store_filter := store_filter st;
     store_emitted := store_emitted st ++ [getSnapshot st] |}.

Definition withBoard (st : BoardStore) (b : BoardDocument) : BoardStore :=
  {| store_board := b;
     store_filter := store_filter st;
     store_emitted := store_emitted st |}.

Definition withFilter (st : BoardStore) (f : BoardFilter) : BoardStore :=
  {| store_board := store_board st;
     store_filter := f;
     store_emitted := store_emitted st |}.

(** [new BoardStore(board)] *)
Definition newStore (b : BoardDocument) : BoardStore :=
  {| store_board := cloneBoard b;
     store_filter := mkFilter EmptyString EmptyString;
     store_emitted := [] |}.

Definition setBoard (b : BoardDocument) (st : BoardStore) : BoardStore :=
  emit (withBoard st (cloneBoard b)).

Definition setFilterQuery (q : string) (st : BoardStore) : BoardStore :=
  emit (withFilter st (mkFilter q (tag (store_filter st)))).

Definition setFilterTag (t : string) (st : BoardStore) : BoardStore :=
  emit (withFilter st (mkFilter (query (store_filter st)) (normalizeTagFilter t))).

Definition clearFilter (st : BoardStore) : BoardStore :=
  emit (withFilter st (mkFilter EmptyString EmptyString)).

Definition setBoardMetadata (title description : string) (d : CardDensity)
  (st : BoardStore) : BoardStore :=
  let b := store_board st in
  emit (withBoard st
          {| boardTitle := Js.orElse (Js.trim title) (boardTitle b);
             boardDescription := Js.trim description;
             density := d;
             columns := columns b;
             archive := archive b |}).

(** [columns.map(column => column.id === columnId ? change(column) : column)] *)
Definition mapColumn (columnId : string) (change : Column -> Column)
  (cols : list Column) : list Column :=
  map (fun column => if decide (col_id column = columnId) then change column else column) cols.

Definition updateColumns (change : list Column -> list Column) (st : BoardStore) : BoardStore :=
  emit (withBoard st (setColumns (store_board st) (change (columns (store_board st))))).

Definition addColumn (column : Column) (st : BoardStore) : BoardStore :=
  updateColumns (fun cols => cols ++ [column]) st.

Definition renameColumn (columnId title : string) (st : BoardStore) : BoardStore :=
  updateColumns
    (mapColumn columnId
       (fun column =>
          {| col_id := col_id column;
             col_title := Js.orElse (Js.trim title) (col_title column);
             col_wipLimit := col_wipLimit column;
             col_cards := col_cards column |}))
    st.

Definition setColumnWipLimit (columnId : string) (limit : option number)
  (st : BoardStore) : BoardStore :=
  updateColumns
    (mapColumn columnId
       (fun column =>
          {| col_id := col_id column;
             col_title := col_title column;
             col_wipLimit :=
               match limit with
               | Some n => if nonNegative n then Some (mathFloor n) else None
               | None => None
               end;
             col_cards := col_cards column |}))
    st.

Definition deleteColumn (columnId : string) (st : BoardStore) : BoardStore :=
  updateColumns (fun cols => filter (fun column => col_id column <> columnId) cols) st.

(** [Math.max(0, Math.min(targetIndex, length))] *)
Definition clampIndex (targetIndex : Z) (length : nat) : Z :=
  Z.max 0 (Z.min targetIndex (Z.of_nat length)).

Definition moveColumn (sourceColumnId : string) (targetIndex : Z)
  (st : BoardStore) : BoardStore :=
  let cols := columns (store_board st) in
  match list_find (fun column => col_id column = sourceColumnId) cols with
  | None => st
  | Some (sourceIndex, moved) =>
      let remaining := delete sourceIndex cols in
      let nextIndex := clampIndex targetIndex (length remaining) in
      updateColumns (fun _ => spliceIn (Z.to_nat nextIndex) [moved] remaining) st
  end.

Inductive Placement : Type := top | bottom.

Definition addCard (columnId : string) (card : Card) (placement : Placement)
  (st : BoardStore) : BoardStore :=
  updateColumns
    (mapColumn columnId
       (fun column =>
          setCards column
            (match placement with
             | top => card :: col_cards column
             | bottom => col_cards column ++ [card]
             end)))
    st.

Inductive Position : Type := before | after.

Definition insertCardsFromParsedLines (columnId : string) (cards : list Card)
  (position : Position) (st : BoardStore) : nat * BoardStore :=
  match cards with
  | [] => (0, st)
  | _ =>
      (length cards,
       updateColumns
         (mapColumn columnId
            (fun column =>
               setCards column
                 (match position with
                  | before => cards ++ col_cards column
                  | after => col_cards column ++ cards
                  end)))
         st)
  end.

Definition getCard (columnId cardId : string) (st : BoardStore) : option Card :=
  match list_find (fun entry => col_id entry = columnId) (columns (store_board st)) with
  | None => None
  | Some (_, column) =>
      snd <$> list_find (fun entry => card_id entry = cardId) (col_cards column)
  end.

Definition updateCard (columnId cardId : string) (updater : Card -> Card)
  (st : BoardStore) : BoardStore :=
  updateColumns
    (mapColumn columnId
       (fun column =>
          setCards column
            (map
               (fun card =>
                  if decide (card_id card = cardId) then renormalize (updater card)
                  else card)
               (col_cards column))))
    st.

Definition deleteCard (columnId cardId : string) (st : BoardStore) : BoardStore :=
  updateColumns
    (mapColumn columnId
       (fun column =>
          setCards column (filter (fun card => card_id card <> cardId) (col_cards column))))
    st.

(** [column?.cards || []] *)
Definition cardsOfColumn (columnId : string) (st : BoardStore) : list Card :=
  match list_find (fun entry => col_id entry = columnId) (columns (store_board st)) with
  | Some (_, column) => col_cards column
  | None => []
  end.

Definition clearColumnCards (columnId : string) (st : BoardStore) : nat * BoardStore :=
  let count := length (cardsOfColumn columnId st) in
  match count with
  | 0 => (0, st)
  | _ => (count, updateColumns (mapColumn columnId (fun entry => setCards entry [])) st)
  end.

Definition archiveColumnCards (columnId : string) (st : BoardStore) : nat * BoardStore :=
  let cardsToArchive := cardsOfColumn columnId st in
  match cardsToArchive with
  | [] => (0, st)
  | _ =>
      let b := store_board st in
      (length cardsToArchive,
       emit (withBoard st
               {| boardTitle := boardTitle b;
                  boardDescription := boardDescription b;
                  density := density b;
                  columns := mapColumn columnId (fun entry => setCards entry []) (columns b);
                  archive := archive b ++ cardsToArchive |}))
  end.

(** [moveCard]: [nextColumns] is a copy of the lanes whose card arrays are
    then spliced in place, first the source lane, then the target lane; when
    both indices are the same the second splice sees the first. *)
Definition moveCard (sourceColumnId cardId targetColumnId : string) (targetIndex : Z)
  (st : BoardStore) : BoardStore :=
  let cols := columns (store_board st) in
  match list_find (fun column => col_id column = sourceColumnId) cols,
        list_find (fun column => col_id column = targetColumnId) cols with
  | Some (sourceColumnIndex, sourceColumn), Some (targetColumnIndex, _) =>
      match list_find (fun card => card_id card = cardId) (col_cards sourceColumn) with
      | None => st
      | Some (cardIndex, card) =>
          let nextColumns :=
            alter (fun column => setCards column (delete cardIndex (col_cards column)))
              sourceColumnIndex cols in
          match nextColumns !! targetColumnIndex with
          | None => st
          | Some nextTargetColumn =>
              let targetCards := col_cards nextTargetColumn in
              let insertIndex := clampIndex targetIndex (length targetCards) in
              let insertIndex :=
                if bool_decide (sourceColumnId = targetColumnId)
                   && (Z.of_nat cardIndex <? insertIndex)%Z
                then (insertIndex - 1)%Z else insertIndex in
              let nextColumns :=
                alter
                  (fun column =>
                     setCards column
                       (spliceIn (Z.to_nat insertIndex) [card] (col_cards column)))
                  targetColumnIndex nextColumns in
              updateColumns (fun _ => nextColumns) st
          end
      end
  | _, _ => st
  end.

Variable stringifyYaml : yaml -> string.

Definition toMarkdown (st : BoardStore) : string :=
  serializeBoardMarkdown localeCompare stringifyYaml (store_board st).

End Store.

(** ** state/SaveQueue.ts

    The queue is driven by calls of its methods and by what the host does
    later: a timer set by [window.setTimeout] fires, the promise of
    [flushFn] settles.  Each of these is an event, and a method body up to
    its first [await] is one step.  [written] records the calls of
    [flushFn], in order.  Delays are not modelled: an armed timer may fire
    at any later step. *)

(** a handle field: [null], the handle of a timer that is still to fire, or
    the handle of one that has fired *)
Inductive Timer : Type := idle | armed | spent.

Record SaveQueue : Type := mkSaveQueue {
  debounceHandle : Timer;
  maxDelayHandle : Timer;
  pendingPayload : option string;
  writing : bool;
  written : list string
}.

(** [new SaveQueue(flushFn, debounceMs, maxDelayMs)] *)
Definition newQueue : SaveQueue :=
  {| debounceHandle := idle;
     maxDelayHandle := idle;
     pendingPayload := None;
     writing := false;
     written := [] |}.

(** [!this.pendingPayload] is false *)
Definition hasPayload (q : SaveQueue) : bool :=
  match pendingPayload q with
  | Some payload => Js.truthy payload
  | None => false
  end.

Definition request (payload : string) (q : SaveQueue) : SaveQueue :=
  {| debounceHandle := armed;
     maxDelayHandle := match maxDelayHandle q with idle => armed | other => other end;
     pendingPayload := Some payload;
     writing := writing q;
     written := written q |}.

Definition clearTimers (q : SaveQueue) : SaveQueue :=
  {| debounceHandle := idle;
     maxDelayHandle := idle;
     pendingPayload := pendingPayload q;
     writing := writing q;
     written := written q |}.

Definition clearPending (q : SaveQueue) : SaveQueue :=
  clearTimers
    {| debounceHandle := debounceHandle q;
       maxDelayHandle := maxDelayHandle q;
       pendingPayload := None;
       writing := writing q;
       written := written q |}.

Definition destroy (q : SaveQueue) : SaveQueue := clearPending q.

(** [flush] up to [await this.flushFn(payload)] *)
Definition flush (q : SaveQueue) : SaveQueue :=
  if writing q || negb (hasPayload q) then q
  else
    match pendingPayload q with
    | Some payload =>
        {| debounceHandle := idle;
           maxDelayHandle := idle;
           pendingPayload := None;
           writing := true;
           written := written q ++ [payload] |}
    | None => q
    end.

Definition flushNow (q : SaveQueue) : SaveQueue := flush q.

(** [flush] from the [finally] on, the write having succeeded *)
Definition afterWrite (q : SaveQueue) : SaveQueue :=
  let q :=
    {| debounceHandle := debounceHandle q;
       maxDelayHandle := maxDelayHandle q;
       pendingPayload := pendingPayload q;
       writing := false;
       written := written q |} in
  if hasPayload q then flush q else q.

(** the [finally] alone: the write has thrown, and the error leaves [flush] *)
Definition afterFailedWrite (q : SaveQueue) : SaveQueue :=
  {| debounceHandle := debounceHandle q;
     maxDelayHandle := maxDelayHandle q;
     pendingPayload := pendingPayload q;
     writing := false;
     written := written q |}.

Inductive QueueEvent : Type :=
| Request (payload : string)
| FlushNow
| ClearPending
| DebounceFires
| MaxDelayFires
| WriteSettles (succeeded : bool).

(** One event.  A timer fires only while armed and a write settles only
    while one is under way; elsewhere these events do not occur and the
    step leaves the queue as it is. *)
Definition queueStep (q : SaveQueue) (event : QueueEvent) : SaveQueue :=
  match event with
  | Request payload => request payload q
  | FlushNow => flushNow q
  | ClearPending => clearPending q
  | DebounceFires =>
      match debounceHandle q with
      | armed =>
          flush {| debounceHandle := spent;
                   maxDelayHandle := maxDelayHandle q;
                   pendingPayload := pendingPayload q;
                   writing := writing q;
                   written := written q |}
      | _ => q
      end
  | MaxDelayFires =>
      match maxDelayHandle q with
      | armed =>
          flush {| debounceHandle := debounceHandle q;
                   maxDelayHandle := spent;
                   pendingPayload := pendingPayload q;
                   writing := writing q;
                   written := written q |}
      | _ => q
      end
  | WriteSettles succeeded =>
      if writing q then (if succeeded then afterWrite q else afterFailedWrite q) else q
  end.

Definition runQueue (events : list QueueEvent) (q : SaveQueue) : SaveQueue :=
  fold_left queueStep events q.

(** ** view/KanbanView.ts: the drop handlers

    Of the view, the fields the drop handlers read and write: the store,
    the drag states, the insertion index noted while a lane is dragged
    over, and the save queue.  What the handlers do to the page is outside
    the embedding. *)

Record CardDragState : Type := mkCardDragState {
  drag_cardId : string;
  drag_sourceColumnId : string
}.

Record KanbanView : Type := mkView {
  view_store : option BoardStore;
  cardDragState : option CardDragState;
  columnDragState : option string;
  columnDropInsertionIndex : option Z;
  saveQueue : SaveQueue
}.

Section View.

Variable localeCompare : string -> string -> comparison.
Variable stringifyYaml : yaml -> string.

Definition schedulePersist (view : KanbanView) : KanbanView :=
  match view_store view with
  | None => view
  | Some st =>
      {| view_store := view_store view;
         cardDragState := cardDragState view;
         columnDragState := columnDragState view;
         columnDropInsertionIndex := columnDropInsertionIndex view;
         saveQueue := request (toMarkdown localeCompare stringifyYaml st) (saveQueue view) |}
  end.

(** [pointerClientX < midpoint ? laneIndex : laneIndex + 1], [leftHalf]
    telling whether the pointer is left of the lane's middle *)
Definition getColumnInsertionIndex (laneIndex : nat) (leftHalf : bool) : Z :=
  if leftHalf then Z.of_nat laneIndex else (Z.of_nat laneIndex + 1)%Z.

Definition handleCardDrop (targetColumnId : string) (targetCardId : option string)
  (view : KanbanView) : KanbanView :=
  match view_store view, cardDragState view with
  | Some st, Some drag =>
      let board := getBoard localeCompare st in
      match list_find (fun column => col_id column = targetColumnId) (columns board) with
      | None => view
      | Some (_, targetColumn) =>
          let targetIndex : Z :=
            match targetCardId with
            | None => Z.of_nat (length (col_cards targetColumn))
            | Some id =>
                match list_find (fun card => card_id card = id) (col_cards targetColumn) with
                | Some (index, _) => Z.of_nat index
                | None => (-1)%Z
                end
            end in
          let st :=
            moveCard localeCompare (drag_sourceColumnId drag) (drag_cardId drag) targetColumnId
              (if (targetIndex <? 0)%Z then Z.of_nat (length (col_cards targetColumn))
               else targetIndex)
              st in
          schedulePersist
            {| view_store := Some st;
               cardDragState := None;
               columnDragState := columnDragState view;
               columnDropInsertionIndex := columnDropInsertionIndex view;
               saveQueue := saveQueue view |}
      end
  | _, _ => view
  end.

Definition handleColumnDrop (targetInsertionIndex : Z) (view : KanbanView) : KanbanView :=
  match view_store view, columnDragState view with
  | Some st, Some sourceColumnId =>
      let board := getBoard localeCompare st in
      match list_find (fun column => col_id column = sourceColumnId) (columns board) with
      | None => view
      | Some (sourceIndex, _) =>
          let targetIndex := clampIndex targetInsertionIndex (length (columns board)) in
          let targetIndex :=
            if (Z.of_nat sourceIndex <? targetIndex)%Z then (targetIndex - 1)%Z
            else targetIndex in
          if (Z.of_nat sourceIndex =? targetIndex)%Z then
            {| view_store := view_store view;
               cardDragState := cardDragState view;
               columnDragState := None;
               columnDropInsertionIndex := None;
               saveQueue := saveQueue view |}
          else
            schedulePersist
              {| view_store := Some (moveColumn localeCompare sourceColumnId targetIndex st);
                 cardDragState := cardDragState view;
                 columnDragState := None;
                 columnDropInsertionIndex := None;
                 saveQueue := saveQueue view |}
      end
  | _, _ => view
  end.

End View.

(** ** main.ts and view/KanbanView.ts: names of files *)

(** the class of the first pattern of [sanitizeFileBaseName]: backslash,
    slash, colon, asterisk, question mark, double quote, angle brackets
    and bar *)
Definition isReservedChar (a : ascii) : bool :=
  Ascii.eqb a "\" || Ascii.eqb a "/" || Ascii.eqb a ":" || Ascii.eqb a "*"
  || Ascii.eqb a "?" || Ascii.eqb a "034" || Ascii.eqb a "<" || Ascii.eqb a ">"
  || Ascii.eqb a "|".

(** the class of [sanitizeNoteBaseName]: the same and the square
    brackets *)
Definition isReservedNoteChar (a : ascii) : bool :=
  isReservedChar a || Ascii.eqb a "[" || Ascii.eqb a "]".

(** [s.replace(/[...]/g, ' ')] for a character class *)
Fixpoint blankOut (class : ascii -> bool) (s : string) : string :=
  match s with
  | EmptyString => EmptyString
  | String a s' => String (if class a then " "%char else a) (blankOut class s')
  end.

(** [s.replace(/\s+/g, ' ')]: every run of whitespace becomes one space;
    [inRun] tells that the character before was whitespace *)
Fixpoint collapseSpaces (inRun : bool) (s : string) : string :=
  match s with
  | EmptyString => EmptyString
  | String a s' =>
      if Js.isSpace a
      then if inRun then collapseSpaces true s' else String " " (collapseSpaces true s')
      else String a (collapseSpaces false s')
  end.

(** [sanitizeFileBaseName] of main.ts *)
Definition sanitizeFileBaseName (raw : string) : string :=
  Js.trim (collapseSpaces false (blankOut isReservedChar raw)).

(** [sanitizeNoteBaseName] of the view *)
Definition sanitizeNoteBaseName (raw : string) : string :=
  Js.trim (collapseSpaces false (blankOut isReservedNoteChar raw)).

(** [`${index}`] for a non-negative integer *)
Definition indexText (index : nat) : string :=
  NilZero.string_of_uint (Nat.to_uint index).

Inductive RenameOutcome : Type :=
| renameRefused
| renameNotNeeded
| renamedTo (path : string).

Section Vault.

(** [normalizePath] of the host *)
Variable normalizePath : string -> string.

(** the paths for which [vault.getAbstractFileByPath] finds a file *)
Variable vault : gset string.

(** [folder.path ? `${folder.path}/` : ''] *)
Definition folderPrefix (folderPath : string) : string :=
  if Js.truthy folderPath then folderPath +:+ "/" else EmptyString.

Definition candidatePath (prefix baseName : string) (index : nat) : string :=
  let candidateName :=
    if index =? 0 then baseName else baseName +:+ " " +:+ indexText index in
  normalizePath (prefix +:+ candidateName +:+ ".md").

(** The loop of [getNextBoardPath] and of [getNextNotePath], from [index]
    on; [fuel] bounds the number of candidates tried. *)
Fixpoint nextPathFrom (fuel : nat) (prefix baseName : string) (currentPath : option string)
  (index : nat) : option string :=
  match fuel with
  | 0 => None
  | S fuel' =>
      let candidate := candidatePath prefix baseName index in
      if negb (bool_decide (candidate ∈ vault)) || bool_decide (currentPath = Some candidate)
      then Some candidate
      else nextPathFrom fuel' prefix baseName currentPath (S index)
  end.

Definition getNextBoardPath (fuel : nat) (folderPath baseName : string)
  (currentPath : option string) : option string :=
  nextPathFrom fuel (folderPrefix folderPath) baseName currentPath 0.

Definition getNextNotePath (fuel : nat) (parentPath baseName : string) : option string :=
  nextPathFrom fuel (folderPrefix parentPath) baseName None 0.

(** [renameBoardFile], up to the call of the file manager: whether it
    throws, returns the file as it is, or renames it, and to which path *)
Definition renameBoardFile (fuel : nat) (filePath parentPath desiredTitle : string)
  : option RenameOutcome :=
  let cleanedTitle := sanitizeFileBaseName desiredTitle in
  if negb (Js.truthy cleanedTitle) then Some renameRefused
  else
    match getNextBoardPath fuel parentPath cleanedTitle (Some filePath) with
    | None => None
    | Some targetPath =>
        if String.eqb targetPath filePath then Some renameNotNeeded
        else Some (renamedTo targetPath)
    end.

End Vault.

(** ** Fixtures for running the model *)

Module Fixture.

Definition clock (k : nat) : N := 1771286400000%N.
Definition dice (k : nat) : nat := k.
Definition start : Entropy := mkEntropy 0 0.

Definition plainCard (id title : string) : Card :=
  normalizeCard codeUnitCompare (mkCardInput id title EmptyString false None).

Definition lane (cards : list Card) : Column := mkColumn "lane" "Lane" None cards.

Definition boardOf (cols : list Column) : BoardDocument :=
  mkBoard "Board" EmptyString normal cols [].

Definition emptyLane (id title : string) : Column := mkColumn id title None [].

Definition columnIds (st : BoardStore) : list string :=
  map col_id (columns (getBoard codeUnitCompare st)).

Definition cardTitles (st : BoardStore) : list (list string) :=
  map (fun column => map card_title (col_cards column))
    (columns (getBoard codeUnitCompare st)).

End Fixture.

(** * Vocabulary of the properties

    What the properties below are stated with: the notions of the written
    specification put in direct terms, to be compared with the code, and
    the sample inputs. *)

(** The date pattern in words: four digits, a dash, two digits, a dash, two
    digits, and nothing else. *)
Definition isDatePattern (s : string) : bool :=
  match s with
  | String y1 (String y2 (String y3 (String y4 (String h1
      (String m1 (String m2 (String h2 (String d1 (String d2 EmptyString))))))))) =>
      Js.isDigit y1 && (Js.isDigit y2 && (Js.isDigit y3 && (Js.isDigit y4
      && (Ascii.eqb "-" h1 && (Js.isDigit m1 && (Js.isDigit m2
      && (Ascii.eqb "-" h2 && (Js.isDigit d1 && Js.isDigit d2))))))))
  | _ => false
  end.

(** The body section a header lane takes its cards from: the one with the
    lane's id (the last one, should the body repeat an id). *)
Definition sectionWithId (id : string) (fromBody : list ParsedColumn) : option ParsedColumn :=
  last (filter (fun section => pc_id section = id) fromBody).

(** the lane [mergeColumns] makes of a header declaration *)
Definition headerColumn (fromBody : list ParsedColumn) (definition : ColumnDefinition) : Column :=
  let section := sectionWithId (def_id definition) fromBody in
  {| col_id := def_id definition;
     col_title :=
       Js.orElse (def_title definition)
         (Js.orElse (from_option pc_title EmptyString section) "Untitled");
     col_wipLimit := def_wipLimit definition;
     col_cards := from_option pc_cards [] section |}.

(** the lane [mergeColumns] makes of a body section the header does not
    declare *)
Definition bodyOnlyColumn (section : ParsedColumn) : Column :=
  {| col_id := pc_id section;
     col_title := pc_title section;
     col_wipLimit := None;
     col_cards := pc_cards section |}.

(** the body of the repository's test for the merge *)
Definition bodyAC : string :=
  newline +:+ "## [a] A" +:+ newline +:+ newline +:+ "- [ ] [x] In A" +:+ newline
  +:+ newline +:+ "## [c] C" +:+ newline +:+ newline +:+ "- [ ] [y] In C" +:+ newline.

(** a newline and three dashes: where a line of three dashes starts *)
Definition fence : string := String "010" "---".

(** The text before the first fence line start, and the text after it. *)
Fixpoint untilFence (s : string) : option (string * string) :=
  if Js.startsWith s fence then Some (EmptyString, Js.sliceFrom 4 s)
  else
    match s with
    | EmptyString => None
    | String a s' =>
        match untilFence s' with
        | Some (header, rest) => Some (String a header, rest)
        | None => None
        end
    end.

(** the end of [frontmatterRegex]: a newline, three dashes, and a newline if
    there is one *)
Definition fenceTail : Re.regex :=
  Re.seqs [Re.chr "010"; Re.lit "---"; Re.opt (Re.chr "010")].

(** Lazy repetition of [[\s\S]]: what follows is tried first at every
    position, from left to right. *)
Fixpoint firstSuffix (k : Re.cont) (pos : nat) (s : string) (c : Re.captures)
  : option Re.result :=
  match k pos s c with
  | Some x => Some x
  | None =>
      match s with
      | EmptyString => None
      | String _ s' => firstSuffix k (S pos) s' c
      end
  end.

(** the first line of a header block, with its newline *)
Definition opening : string := String "-" (String "-" (String "-" newline)).

(** The header block in words: the text opens with a line of three dashes;
    the header runs up to the first later line that starts with three
    dashes; the body starts after those dashes and one newline, if one
    follows. *)
Definition frontmatterOf (text : string) : option (string * string) :=
  if Js.startsWith text opening then
    match untilFence (Js.sliceFrom 4 text) with
    | Some (header, rest) =>
        Some (header, if Js.startsWith rest newline then Js.sliceFrom 1 rest else rest)
    | None => None
    end
  else None.

(** a text with a header block: the opening line, a header, a fence *)
Definition hasFrontmatter (text : string) : Prop :=
  exists header rest, text = opening +:+ header +:+ fence +:+ rest.

(** the run of tag characters at the head of a text *)
Fixpoint tagRun (s : string) : string :=
  match s with
  | String a s' => if isTagChar a then String a (tagRun s') else EmptyString
  | EmptyString => EmptyString
  end.

(** Hashtag tokens as the code finds them: a [#] that opens the text or
    follows a whitespace character, and the non-empty run of tag
    characters after it.  [atBoundary] tells whether the position is the
    start of the text or follows whitespace. *)
Fixpoint hashTokens (atBoundary : bool) (s : string) : list string :=
  match s with
  | EmptyString => []
  | String a s' =>
      let later := hashTokens (Js.isSpace a) s' in
      if atBoundary && Ascii.eqb "#" a && Js.truthy (tagRun s')
      then tagRun s' :: later else later
  end.

(** Hashtag tokens as the specification words them: every [#] followed by
    tag characters, wherever it stands. *)
Fixpoint hashOccurrences (s : string) : list string :=
  match s with
  | EmptyString => []
  | String a s' =>
      let later := hashOccurrences s' in
      if Ascii.eqb "#" a && Js.truthy (tagRun s') then tagRun s' :: later else later
  end.

(** the tag a token stands for *)
Definition hashtag (body : string) : string := "#" +:+ Js.toLowerCase body.

(** what the part of [tagRegex] from the [#] on matches at the head of [s]:
    end position and captures *)
Definition hashAt (pos : nat) (s : string) (c : Re.captures) : option Re.result :=
  match s with
  | String h s1 =>
      if Ascii.eqb "#" h then
        match tagRun s1 with
        | EmptyString => None
        | body => Some (String.length body + S pos, (2, body) :: c)
        end
      else None
  | EmptyString => None
  end.

(** a text that does not begin with whitespace *)
Definition headNotSpace (s : string) : Prop :=
  match s with
  | EmptyString => True
  | String a _ => Js.isSpace a = false
  end.

Section Vocabulary.

Variable localeCompare : string -> string -> comparison.
Variable dateNow : nat -> N.
Variable randomIndex : nat -> nat.
Variable parseYaml : string -> option yaml.
Variable stringifyYaml : yaml -> string.

(** a card whose id and title are [name] *)
Definition titled (name : string) : Card :=
  normalizeCard localeCompare (mkCardInput name name EmptyString false None).

(** a store with one lane, ["lane"], holding the cards of these names *)
Definition laneStore (names : list string) : BoardStore :=
  newStore localeCompare
    (mkBoard "Board" EmptyString normal
       [mkColumn "lane" "Lane" None (map titled names)] []).

(** the card ids of [getBoard()], lane by lane *)
Definition laneOrder (st : BoardStore) : list (list string) :=
  map (fun column => map card_id (col_cards column)) (columns (getBoard localeCompare st)).

(** no lane of the document has this id *)
Definition unknownColumn (columnId : string) (st : BoardStore) : Prop :=
  Forall (fun column => col_id column <> columnId) (columns (store_board st)).

(** what [parseBoardMarkdown] returns or throws *)
Definition parseOutcome (content : string) (entropy : Entropy)
  : BoardParseError + BoardDocument :=
  fst (parseBoardMarkdown localeCompare dateNow randomIndex parseYaml content entropy).

(** [tags] and [searchText] of a card are what its title, description and
    due date determine. *)
Definition derivedFieldsHold (card : Card) : Prop :=
  card_tags card
  = sortWith localeCompare
      (setOf (map hashtag
                (hashTokens true (card_title card +:+ newline +:+ card_description card))))
  /\ card_searchText card
     = Js.toLowerCase
         (Js.join newline
            [card_title card; card_description card; Js.join " " (card_tags card);
             default EmptyString (card_dueDate card)]).

(** the same, with the tokens as the specification words them *)
Definition derivedFieldsAsSpecified (card : Card) : Prop :=
  card_tags card
  = sortWith localeCompare
      (setOf (map hashtag
                (hashOccurrences (card_title card +:+ newline +:+ card_description card))))
  /\ card_searchText card
     = Js.toLowerCase
         (Js.join newline
            [card_title card; card_description card; Js.join " " (card_tags card);
             default EmptyString (card_dueDate card)]).

(** [serialize(parse(content))], when [content] parses *)
Definition roundTrip (content : string) (entropy : Entropy) : option string :=
  match fst (parseBoardMarkdown localeCompare dateNow randomIndex parseYaml content entropy) with
  | inr document => Some (serializeBoardMarkdown localeCompare stringifyYaml document)
  | inl _ => None
  end.

End Vocabulary.

(** ** A sample board file *)

Module Sample.

(** *** A stand-in for the YAML library

    It writes a header object the way the library does for the values a
    board header holds (plain scalars, one sequence of flat mappings), and
    reads back the headers it knows. *)

Definition numberText (n : number) : string :=
  match n with
  | Finite q => NilZero.string_of_int (Z.to_int (Qfloor q))
  | NaN => ".nan"
  | PosInfinity => ".inf"
  | NegInfinity => "-.inf"
  end.

Definition scalarText (value : yaml) : string :=
  match value with
  | YNull => "null"
  | YBool true => "true"
  | YBool false => "false"
  | YNum n => numberText n
  | YStr text => text
  | YSeq _ => "[]"
  | YMap _ => "{}"
  end.

Definition fieldText (indent : string) (field : string * yaml) : string :=
  indent +:+ fst field +:+ ": " +:+ scalarText (snd field).

Definition itemLines (item : yaml) : list string :=
  match item with
  | YMap (first :: others) => fieldText "  - " first :: map (fieldText "    ") others
  | other => ["  - " +:+ scalarText other]
  end.

Definition entryLines (entry : string * yaml) : list string :=
  match snd entry with
  | YSeq (item :: items) => (fst entry +:+ ":") :: flat_map itemLines (item :: items)
  | _ => [fieldText EmptyString entry]
  end.

Definition stringifyYaml (value : yaml) : string :=
  match value with
  | YMap entries => Js.join newline (flat_map entryLines entries) +:+ newline
  | other => scalarText other +:+ newline
  end.

Definition laneEntry (id title : string) (wipLimit : yaml) : yaml :=
  YMap [("id", YStr id); ("title", YStr title); ("wipLimit", wipLimit)].

Definition boardHeader (title : string) (description : list (string * yaml))
  (density : string) (lanes : list yaml) : yaml :=
  YMap ([("kanban", YBool true);
         ("kanbanVersion", YNum (Finite 1));
         ("boardTitle", YStr title)]
        ++ description
        ++ [("density", YStr density); ("columns", YSeq lanes)]).

(** the header of the one-lane sample board *)
Definition frontmatter : yaml :=
  boardHeader "Board" [] "normal" [laneEntry "lane" "Lane" YNull].

Definition header : string :=
  Js.join newline
    ["kanban: true"; "kanbanVersion: 1"; "boardTitle: Board"; "density: normal";
     "columns:"; "  - id: lane"; "    title: Lane"; "    wipLimit: null"].

(** the headers of the repository's parser tests *)
Definition productHeader : yaml :=
  boardHeader "Product Board" [("boardDescription", YStr "Sprint 3")] "compact"
    [laneEntry "todo" "To Do" (YNum (Finite 5));
     laneEntry "doing" "Doing" (YNum (Finite 2))].

Definition emptyHeader : yaml := boardHeader "Empty board" [] "normal" [].

Definition orderedHeader : yaml :=
  boardHeader "Ordered board" [] "normal" [laneEntry "b" "B" YNull; laneEntry "a" "A" YNull].

Definition known : list yaml :=
  [frontmatter; productHeader; emptyHeader; orderedHeader;
   YMap [("boardTitle", YStr "Not a board")];
   YMap [("kanban", YStr "maybe")];
   YStr "just a sentence"].

Definition parseYaml (text : string) : option yaml :=
  List.find (fun value => String.eqb (Js.trimEnd (stringifyYaml value)) text) known.

(** a file with the given header text and nothing else *)
Definition headerOnly (text : string) : string :=
  Js.join newline ["---"; text; "---"; EmptyString].

(** a board file with the sample header and the given lines under the
    heading of its one lane *)
Definition file (cardLines : list string) : string :=
  Js.join newline
    (["---"; header; "---"; EmptyString; "## [lane] Lane"; EmptyString]
     ++ cardLines ++ [EmptyString]).

Definition parse (content : string) : BoardParseError + BoardDocument :=
  fst (parseBoardMarkdown codeUnitCompare Fixture.clock Fixture.dice parseYaml
         content Fixture.start).

Definition parsed (content : string) : BoardDocument :=
  match parse content with
  | inr document => document
  | inl _ => createDefaultBoard EmptyString
  end.

Definition taggedFile : string :=
  file ["- [ ] [c1] Fix #Parser see issue#42 #ui #parser"].

(** the fixture of parser-serializer.test.ts *)
Definition productFile : string :=
  Js.join newline
    ["---"; "kanban: true"; "kanbanVersion: 1"; "boardTitle: Product Board";
     "boardDescription: Sprint 3"; "density: compact"; "columns:";
     "  - id: todo"; "    title: To Do"; "    wipLimit: 5";
     "  - id: doing"; "    title: Doing"; "    wipLimit: 2"; "---"; "";
     "## [todo] To Do"; "";
     "- [ ] [card-1] Implement parser #backend"; "  Add failing test first";
     "  due:: 2026-02-17"; "";
     "## [doing] Doing"; "";
     "- [x] [card-2] Build settings modal"; "  Keep validation strict #ui"; "";
     "%% kanban-next:archive:start %%"; "";
     "- [x] [card-3] Old archived card"; "";
     "%% kanban-next:archive:end %%"; ""].

Definition emptyFile : string :=
  Js.join newline
    ["---"; "kanban: true"; "kanbanVersion: 1"; "boardTitle: Empty board";
     "density: normal"; "columns: []"; "---"; ""].

Definition orderedFile : string :=
  Js.join newline
    ["---"; "kanban: true"; "kanbanVersion: 1"; "boardTitle: Ordered board";
     "density: normal"; "columns:";
     "  - id: b"; "    title: B"; "    wipLimit: null";
     "  - id: a"; "    title: A"; "    wipLimit: null"; "---"; "";
     "## [a] A"; ""; "- [ ] [x] In A"; "";
     "## [c] C"; ""; "- [ ] [y] In C"; ""].

(** [serialize(parse(content))] with the stand-ins *)
Definition pass (content : string) : option string :=
  roundTrip codeUnitCompare Fixture.clock Fixture.dice parseYaml stringifyYaml
    content Fixture.start.

(** the fixture after one pass *)
Definition productFirst : string :=
  Eval vm_compute in default EmptyString (pass productFile).

Definition tagged : BoardDocument := Eval vm_compute in parsed taggedFile.

End Sample.

(** the card line the specification names, under the sample header *)
Definition blankTitleFile : string := Sample.file ["- [ ] [id] "].

Definition blankTitled : BoardDocument := Eval vm_compute in Sample.parsed blankTitleFile.

(** a card with two due lines, as a hand-edited file may have it *)
Definition dueTwiceFile : string :=
  Sample.file ["- [ ] [card-1] Task"; "  due:: 2026-01-01"; "  due:: 2026-02-02"].

(** what the serializer writes for it, and what it writes for that *)
Definition firstPass : string :=
  Sample.file ["- [ ] [card-1] Task"; "  ^card-1"; "  due:: 2026-02-02"; "  due:: 2026-01-01"].

Definition secondPass : string :=
  Sample.file ["- [ ] [card-1] Task"; "  ^card-1"; "  due:: 2026-01-01"; "  due:: 2026-02-02"].

Definition dueTwiceBoard : BoardDocument := Eval vm_compute in Sample.parsed dueTwiceFile.

Definition firstPassBoard : BoardDocument := Eval vm_compute in Sample.parsed firstPass.

(** ** Vocabulary of the further properties *)

(** [p] holds of every character of [s] *)
Fixpoint allChars (p : ascii -> bool) (s : string) : bool :=
  match s with
  | EmptyString => true
  | String a s' => p a && allChars p s'
  end.

(** the first character of [s], if any, is not in the class *)
Definition headOutside (p : ascii -> bool) (s : string) : Prop :=
  match s with
  | EmptyString => True
  | String a _ => p a = false
  end.

Definition notSpace (a : ascii) : bool := negb (Js.isSpace a).

(** what [.] accepts *)
Definition notLineTerminator (a : ascii) : bool := negb (Js.isLineTerminator a).

(** *** Lanes *)

(** a lane without its cards *)
Definition laneFrame (column : Column) : string * string * option number :=
  (col_id column, col_title column, col_wipLimit column).

(** the cards that sit in lanes *)
Definition laneCards (cols : list Column) : list Card :=
  flat_map col_cards cols.

(** a limit that is absent or a non-negative whole number *)
Definition wholeLimit (limit : option number) : Prop :=
  match limit with
  | None => True
  | Some n => nonNegative n = true /\ mathFloor n = n
  end.


(** *** Tags and due dates *)

(** [compare] puts no element of [l] strictly before its left neighbour *)
Definition inOrder (compare : string -> string -> comparison) (l : list string) : Prop :=
  Sorted (fun a b => compare b a <> Lt) l.

(** [compare] never orders two strings both ways *)
Definition asymmetric (compare : string -> string -> comparison) : Prop :=
  forall a b, compare a b = Lt -> compare b a <> Lt.

(** [[a-z0-9/_-]] *)
Definition isLowerTagChar (a : ascii) : bool :=
  Js.isLower a || Js.isDigit a || Ascii.eqb a "/" || Ascii.eqb a "_" || Ascii.eqb a "-".

(** a [#] and at least one character of [[a-z0-9/_-]] after it *)
Definition isTagText (t : string) : Prop :=
  exists body, t = "#" +:+ body /\ body <> EmptyString /\ allChars isLowerTagChar body = true.

(** a due date that is absent or of the shape [YYYY-MM-DD] *)
Definition dueDateShaped (card : Card) : Prop :=
  match card_dueDate card with
  | None => True
  | Some d => isDatePattern d = true
  end.

Definition canonicalCard (compare : string -> string -> comparison) (card : Card) : Prop :=
  dueDateShaped card
  /\ NoDup (card_tags card)
  /\ Forall isTagText (card_tags card)
  /\ (asymmetric compare -> inOrder compare (card_tags card)).

(** *** Cards as written *)

(** the card line [serializeCard] writes *)
Definition cardLine (checked : bool) (id title : string) : string :=
  "- [" +:+ (if checked then "x" else " ") +:+ "] [" +:+ id +:+ "] " +:+ title.

(** [line.trim().match(blockAnchorRegex)] succeeds *)
Definition isAnchorLine (line : string) : bool := Re.test blockAnchorRegex (Js.trim line).

(** [line.trim().match(dueLineRegex)] succeeds *)
Definition isDueLine (line : string) : bool := Re.test dueLineRegex (Js.trim line).

(** a description line that the parser keeps as text *)
Definition plainLine (line : string) : Prop :=
  isAnchorLine line = false /\ isDueLine line = false.

(** the description as [serializeCard] writes it, line by line *)
Definition descriptionLines (description : string) : list string :=
  if Js.truthy (Js.trim description) then Js.splitLines (Js.trimEnd description) else [].

(** a card that [serializeCard] writes in a way [parseCardsFromLines] reads
    back: the id is a non-empty run of [[A-Za-z0-9/_-]], the trimmed title
    holds no line break, and no line of the description reads as a block
    anchor or as a due line *)
Definition readable (card : Card) : Prop :=
  card_id card <> EmptyString
  /\ allChars isTagChar (card_id card) = true
  /\ allChars notLineTerminator (Js.trim (card_title card)) = true
  /\ Forall plainLine (descriptionLines (card_description card)).

(** the card as it is read back *)
Definition readBack (localeCompare : string -> string -> comparison) (card : Card) : Card :=
  normalizeCard localeCompare
    {| in_id := card_id card;
       in_title := Js.trim (card_title card);
       in_description := Js.trimEnd (card_description card);
       in_checked := card_checked card;
       in_dueDate := normalizeDueDate (card_dueDate card) |}.

(** *** Pasted lines *)

Definition isListMarker (a : ascii) : bool :=
  Ascii.eqb a "-" || Ascii.eqb a "*" || Ascii.eqb a "+".

(** a title as the clipboard parser gives it: not empty, no whitespace at
    either end, on one line *)
Definition titleText (title : string) : Prop :=
  title <> EmptyString /\ Js.trim title = title /\ allChars notLineTerminator title = true.

(** *** Runs of the save queue *)

(** the payloads requested by a run of events, in order *)
Definition requested (events : list QueueEvent) : list string :=
  flat_map (fun event => match event with Request payload => [payload] | _ => [] end) events.

(** a payload waiting in the queue is on its way: a write is under way,
    after which the queue flushes again, or the debounce timer is armed *)
Definition pendingIsCovered (q : SaveQueue) : Prop :=
  hasPayload q = true -> writing q = true \/ debounceHandle q = armed.

Definition noFailedWrite (events : list QueueEvent) : Prop :=
  Forall (fun event => event <> WriteSettles false) events.

(** what has been written is a selection of the requests in their order,
    and a waiting payload is the latest request, made after everything
    written *)
Definition latestWaits (requests : list string) (q : SaveQueue) : Prop :=
  sublist (written q) requests
  /\ match pendingPayload q with
     | Some payload =>
         exists earlier, requests = earlier ++ [payload] /\ sublist (written q) earlier
     | None => True
     end.

(** *** Documents as written *)

(** the heading [serializeBoardMarkdown] writes over a lane *)
Definition headingLine (id title : string) : string := "## [" +:+ id +:+ "] " +:+ title.

(** the lines [serializeBoardMarkdown] writes for a lane *)
Definition laneLines (localeCompare : string -> string -> comparison) (column : Column)
  : list string :=
  [headingLine (col_id column) (col_title column); EmptyString]
  ++ flat_map (serializeCard localeCompare) (col_cards column)
  ++ [EmptyString].

(** what a heading can carry as the id of its lane *)
Definition isHeadingIdChar (a : ascii) : bool :=
  negb (Ascii.eqb "]" a) && notLineTerminator a.

(** a lane that [serializeBoardMarkdown] writes in a way
    [parseColumnsFromBody] reads back: the id is not empty, has no
    whitespace at either end and holds neither a closing bracket nor a line
    break; the title is not empty, trimmed and on one line; the cards are
    readable *)
Definition readableLane (column : Column) : Prop :=
  col_id column <> EmptyString
  /\ Js.trim (col_id column) = col_id column
  /\ allChars isHeadingIdChar (col_id column) = true
  /\ titleText (col_title column)
  /\ Forall readable (col_cards column).

(** the section as it is read back *)
Definition sectionBack (localeCompare : string -> string -> comparison) (column : Column)
  : ParsedColumn :=
  mkParsedColumn (col_id column) (col_title column)
    (map (readBack localeCompare) (col_cards column)).

Definition notCarriageReturn (a : ascii) : bool := negb (Ascii.eqb a "013").

(** the text holds no [%%], the opening of an archive marker *)
Definition noMarker (s : string) : Prop := Js.includes s "%%" = false.

(** lines as a text, each line closed by a newline *)
Definition linesText (lines : list string) : string :=
  match lines with
  | [] => EmptyString
  | _ => Js.join newline lines +:+ newline
  end.

(** a line that can sit in the body of a document: it holds no line break
    and no [%%] *)
Definition bodyLine (line : string) : Prop :=
  allChars notLineTerminator line = true /\ noMarker line.

Definition isPlainChar (a : ascii) : bool :=
  notLineTerminator a && negb (Ascii.eqb "%" a).

(** a card whose description holds no carriage return, and whose title and
    description hold no [%%] *)
Definition cleanCard (card : Card) : Prop :=
  allChars notCarriageReturn (card_description card) = true
  /\ noMarker (card_title card)
  /\ noMarker (card_description card).

(** the lane as it is read back *)
Definition laneBack (localeCompare : string -> string -> comparison) (column : Column)
  : Column :=
  {| col_id := col_id column;
     col_title := col_title column;
     col_wipLimit := col_wipLimit column;
     col_cards := map (readBack localeCompare) (col_cards column) |}.

(** the header declaration [buildFrontmatter] writes for a lane *)
Definition laneDefinition (column : Column) : ColumnDefinition :=
  {| def_id := col_id column;
     def_title := col_title column;
     def_wipLimit := col_wipLimit column |}.

(** a lane that can be written and read back: readable, with a limit that
    is absent or a non-negative whole number, and free of [%%] and of
    carriage returns in the texts of its cards *)
Definition writableLane (column : Column) : Prop :=
  readableLane column
  /\ noMarker (col_id column)
  /\ noMarker (col_title column)
  /\ wholeLimit (col_wipLimit column)
  /\ Forall cleanCard (col_cards column).

(** a document that can be written and read back: the lanes have distinct
    ids, lanes and archived cards are as above *)
Definition writable (board : BoardDocument) : Prop :=
  NoDup (map col_id (columns board))
  /\ Forall writableLane (columns board)
  /\ Forall readable (archive board)
  /\ Forall cleanCard (archive board).

(** the YAML library reads back the header it wrote for the document, and
    wrote it without a line that opens with three dashes and without a
    carriage return *)
Definition headerReadBack (parseYaml : string -> option yaml) (stringifyYaml : yaml -> string)
  (board : BoardDocument) : Prop :=
  let yamlText := Js.trimEnd (stringifyYaml (buildFrontmatter board)) in
  parseYaml yamlText = Some (buildFrontmatter board)
  /\ Js.includes yamlText fence = false
  /\ allChars notCarriageReturn yamlText = true.

(** the document as it is read back *)
Definition documentBack (localeCompare : string -> string -> comparison)
  (board : BoardDocument) : BoardDocument :=
  {| boardTitle := Js.orElse (Js.trim (boardTitle board)) "Untitled Kanban";
     boardDescription := Js.trim (boardDescription board);
     density := density board;
     columns := map (laneBack localeCompare) (columns board);
     archive := map (readBack localeCompare) (archive board) |}.

(** [k] newlines *)
Fixpoint newlines (k : nat) : string :=
  match k with
  | 0 => EmptyString
  | S k' => String "010" (newlines k')
  end.

(** the last character of a text *)
Fixpoint lastChar (s : string) : option ascii :=
  match s with
  | EmptyString => None
  | String a EmptyString => Some a
  | String _ s' => lastChar s'
  end.

(** every whitespace character is a space, and no two of them are
    neighbours *)
Fixpoint singleSpaced (s : string) : bool :=
  match s with
  | EmptyString => true
  | String a s' =>
      (if Js.isSpace a
       then Ascii.eqb a " "
            && match s' with String b _ => negb (Js.isSpace b) | EmptyString => true end
       else true)
      && singleSpaced s'
  end.

(** the shape of a sanitized name: no reserved character, no whitespace
    at either end, whitespace only as single spaces *)
Definition cleanName (class : ascii -> bool) (name : string) : Prop :=
  allChars (fun a => negb (class a)) name = true
  /\ Js.trim name = name
  /\ singleSpaced name = true.

(** * Properties *)

(** ** Strings *)

Lemma orElse_truthy (a b : string) : a <> EmptyString -> Js.orElse a b = a.
Proof. destruct a; [congruence | reflexivity]. Qed.

(** ** C10: blank titles do not overwrite *)

Section RenameProperties.

Variable localeCompare : string -> string -> comparison.

Lemma mapColumn_id (columnId : string) (change : Column -> Column) (cols : list Column) :
  (forall c, change c = c) -> mapColumn columnId change cols = cols.
Proof.
  intros Hid. unfold mapColumn.
  induction cols as [|c cols IH]; simpl; [reflexivity|].
  rewrite IH. destruct (decide (col_id c = columnId)); [rewrite Hid|]; reflexivity.
Qed.

Lemma setColumns_same (b : BoardDocument) : setColumns b (columns b) = b.
Proof. destruct b; reflexivity. Qed.

Lemma store_board_emit (st : BoardStore) :
  store_board (emit localeCompare st) = store_board st.
Proof. reflexivity. Qed.

Lemma store_board_updateColumns (change : list Column -> list Column) (st : BoardStore) :
  store_board (updateColumns localeCompare change st)
  = setColumns (store_board st) (change (columns (store_board st))).
Proof. reflexivity. Qed.

(** C10.  [renameColumn] with a title that is blank after trimming leaves
    the document as it is; otherwise the lane with that id, and only it,
    gets the trimmed title.  [setBoardMetadata] with a blank board title
    keeps the previous title and still stores the trimmed description and
    the density; lanes and archive are untouched. *)
Theorem blank_titles_never_overwrite (st : BoardStore) (columnId title description : string)
  (d : CardDensity) :
  (Js.trim title = EmptyString ->
     store_board (renameColumn localeCompare columnId title st) = store_board st
     /\ store_board (setBoardMetadata localeCompare title description d st)
        = {| boardTitle := boardTitle (store_board st);
             boardDescription := Js.trim description;
             density := d;
             columns := columns (store_board st);
             archive := archive (store_board st) |})
  /\ (Js.trim title <> EmptyString ->
        store_board (renameColumn localeCompare columnId title st)
        = setColumns (store_board st)
            (map (fun column =>
                    if decide (col_id column = columnId)
                    then {| col_id := col_id column;
                            col_title := Js.trim title;
                            col_wipLimit := col_wipLimit column;
                            col_cards := col_cards column |}
                    else column)
               (columns (store_board st)))
        /\ boardTitle (store_board (setBoardMetadata localeCompare title description d st))
           = Js.trim title).
Proof.
  split.
  - intros Hblank. split.
    + unfold renameColumn. rewrite store_board_updateColumns, Hblank.
      rewrite mapColumn_id; [apply setColumns_same|].
      intros []; reflexivity.
    + unfold setBoardMetadata. rewrite store_board_emit. simpl.
      now rewrite Hblank.
  - intros Hgiven. split.
    + unfold renameColumn. rewrite store_board_updateColumns.
      unfold mapColumn. f_equal. apply List.map_ext. intros c.
      now rewrite (orElse_truthy _ (col_title c) Hgiven).
    + unfold setBoardMetadata. rewrite store_board_emit. simpl.
      now apply orElse_truthy.
Qed.

End RenameProperties.

Lemma blank_titles_never_overwrite_witness :
  let st := newStore codeUnitCompare
              (Fixture.boardOf [Fixture.lane [Fixture.plainCard "c1" "Task"]]) in
  Js.trim "   " = EmptyString
  /\ store_board (renameColumn codeUnitCompare "lane" "   " st) = store_board st
  /\ boardTitle (store_board (setBoardMetadata codeUnitCompare "   " " notes " compact st))
     = "Board".
Proof.
  intros st.
  destruct (blank_titles_never_overwrite codeUnitCompare st "lane" "   " " notes " compact)
    as [Hblank _].
  destruct (Hblank eq_refl) as [Hrename Hmeta].
  split; [reflexivity|]. split; [exact Hrename|]. now rewrite Hmeta.
Defined.

(** ** Anchored patterns *)

Lemma searchFrom_bol_later (r : Re.regex) (s : string) (pos : nat) :
  Re.searchFrom (Re.Seq Re.Bol r) (S pos) s = None.
Proof.
  revert pos. induction s as [|a s IH]; intros pos; simpl; [reflexivity|apply IH].
Qed.

Lemma exec_bol (r : Re.regex) (s : string) :
  Re.exec (Re.Seq Re.Bol r) s
  = match Re.run r 0 s [] Re.final with
    | Some (e, c) => Some (Re.mkFound 0 e c)
    | None => None
    end.
Proof.
  unfold Re.exec. destruct s as [|a s]; simpl.
  - destruct (Re.run r 0 EmptyString [] Re.final) as [[e c]|]; reflexivity.
  - destruct (Re.run r 0 (String a s) [] Re.final) as [[e c]|]; [reflexivity|].
    apply searchFrom_bol_later.
Qed.

(** ** C6: due dates are checked against the pattern only *)

Lemma dueRegex_anchored :
  dueRegex =
  Re.Seq Re.Bol
    (Re.seqs [Re.digit; Re.digit; Re.digit; Re.digit; Re.chr "-";
              Re.digit; Re.digit; Re.chr "-"; Re.digit; Re.digit; Re.Eol]).
Proof. reflexivity. Qed.

Local Ltac case_class :=
  match goal with
  | |- context [Js.isDigit ?a] => destruct (Js.isDigit a)
  | |- context [Ascii.eqb "-" ?a] => destruct (Ascii.eqb "-" a)
  end; cbn [andb]; try reflexivity.

Lemma dueRegex_spec (s : string) : Re.test dueRegex s = isDatePattern s.
Proof.
  unfold Re.test. rewrite dueRegex_anchored, exec_bol.
  unfold isDatePattern.
  do 10 (destruct s as [|? s];
         [cbn [Re.seqs Re.run Re.digit Re.chr Re.final]; try reflexivity;
          repeat case_class|]).
  destruct s; cbn [Re.seqs Re.run Re.digit Re.chr Re.final]; try reflexivity;
    repeat case_class.
Qed.

Section DueDate.

Variable localeCompare : string -> string -> comparison.

Lemma normalizeDueDate_spec (v : string) :
  normalizeDueDate (Some v)
  = if isDatePattern (Js.trim v) then Some (Js.trim v) else None.
Proof.
  unfold normalizeDueDate. rewrite dueRegex_spec.
  destruct v as [|a v]; [reflexivity|]. simpl Js.truthy. simpl negb.
  destruct (isDatePattern (Js.trim (String a v))); reflexivity.
Qed.

(** C6.  [normalizeCard] validates [dueDate] against the pattern and
    nothing else: ["2026-02-30"], no calendar date, is kept as it is;
    ["02-20-2026"] becomes absent; and in general a value whose trimmed
    text is not of the shape [YYYY-MM-DD] becomes absent (never an error),
    while one that is of that shape is kept, trimmed. *)
Theorem due_date_is_pattern_checked (input : CardInput) (v : string) :
  in_dueDate input = Some v ->
  (v = "2026-02-30" -> card_dueDate (normalizeCard localeCompare input) = Some "2026-02-30")
  /\ (v = "02-20-2026" -> card_dueDate (normalizeCard localeCompare input) = None)
  /\ (isDatePattern (Js.trim v) = false ->
        card_dueDate (normalizeCard localeCompare input) = None)
  /\ (isDatePattern (Js.trim v) = true ->
        card_dueDate (normalizeCard localeCompare input) = Some (Js.trim v)).
Proof.
  intros Hdue. unfold normalizeCard. simpl. rewrite Hdue, normalizeDueDate_spec.
  repeat split.
  - intros ->. reflexivity.
  - intros ->. reflexivity.
  - intros ->. reflexivity.
  - intros ->. reflexivity.
Qed.

End DueDate.

Lemma due_date_is_pattern_checked_witness :
  card_dueDate
    (normalizeCard codeUnitCompare
       (mkCardInput "c" "T" EmptyString false (Some "2026-02-30")))
  = Some "2026-02-30"
  /\ card_dueDate
       (normalizeCard codeUnitCompare
          (mkCardInput "c" "T" EmptyString false (Some "02-20-2026")))
     = None.
Proof.
  split.
  - exact (proj1 (due_date_is_pattern_checked codeUnitCompare
                    (mkCardInput "c" "T" EmptyString false (Some "2026-02-30"))
                    "2026-02-30" eq_refl) eq_refl).
  - exact (proj1 (proj2 (due_date_is_pattern_checked codeUnitCompare
                           (mkCardInput "c" "T" EmptyString false (Some "02-20-2026"))
                           "02-20-2026" eq_refl)) eq_refl).
Defined.

(** ** C2: moving a card *)

Section MoveCard.

Variable localeCompare : string -> string -> comparison.

(** What [moveCard] does inside one lane, when lane and card exist: the card
    leaves position [j], the target index is clamped to the length after
    the removal, is decremented when [j] is before it, and the card goes
    in there. *)
Lemma moveCard_within_lane (st : BoardStore) (columnId cardId : string) (targetIndex : Z)
  (i j : nat) (column : Column) (card : Card) :
  list_find (fun c => col_id c = columnId) (columns (store_board st)) = Some (i, column) ->
  list_find (fun c => card_id c = cardId) (col_cards column) = Some (j, card) ->
  let remaining := delete j (col_cards column) in
  let clamped := clampIndex targetIndex (length remaining) in
  let insertIndex := if (Z.of_nat j <? clamped)%Z then (clamped - 1)%Z else clamped in
  columns (store_board (moveCard localeCompare columnId cardId columnId targetIndex st))
  = <[i := setCards column (spliceIn (Z.to_nat insertIndex) [card] remaining)]>
      (columns (store_board st)).
Proof.
  intros Hcol Hcard remaining clamped insertIndex.
  unfold moveCard. rewrite Hcol, Hcard.
  apply list_find_Some in Hcol as (Hi & _ & _).
  rewrite list_lookup_alter_eq, Hi. simpl.
  rewrite bool_decide_eq_true_2 by reflexivity. simpl andb.
  fold remaining. fold clamped. fold insertIndex.
  apply list_eq. intros k.
  destruct (decide (k = i)) as [->|Hne].
  - rewrite !list_lookup_alter_eq, Hi. simpl.
    rewrite list_lookup_insert_eq by (eapply lookup_lt_Some; eauto).
    reflexivity.
  - rewrite !list_lookup_alter_ne by congruence.
    rewrite list_lookup_insert_ne by congruence. reflexivity.
Qed.

(** C2, at the inputs the specification names.  With lane [A; B; C],
    [moveCard(lane, A, lane, 3)] removes [A], clamps 3 to the remaining
    length 2, decrements it to 1 because [A] stood before it, and leaves
    [B; A; C], not the [B; C; A] that the specification and the
    repository's own store test expect.  In [A; B; C; D], moving [B] to
    index 2 and then to index 1 gives [A; B; C; D]: the first move already
    leaves the lane as it was. *)
Theorem moveCard_to_bottom_misplaces :
  let abc := laneStore localeCompare ["A"; "B"; "C"] in
  let abcd := laneStore localeCompare ["A"; "B"; "C"; "D"] in
  laneOrder localeCompare (moveCard localeCompare "lane" "A" "lane" 3 abc)
  = [["B"; "A"; "C"]]
  /\ laneOrder localeCompare (moveCard localeCompare "lane" "A" "lane" 3 abc)
     <> [["B"; "C"; "A"]]
  /\ laneOrder localeCompare (moveCard localeCompare "lane" "B" "lane" 2 abcd)
     = [["A"; "B"; "C"; "D"]]
  /\ laneOrder localeCompare
       (moveCard localeCompare "lane" "B" "lane" 1
          (moveCard localeCompare "lane" "B" "lane" 2 abcd))
     = [["A"; "B"; "C"; "D"]].
Proof.
  intros abc abcd.
  assert (Hmoved : laneOrder localeCompare (moveCard localeCompare "lane" "A" "lane" 3 abc)
                   = [["B"; "A"; "C"]])
    by (vm_compute; reflexivity).
  split; [exact Hmoved|]. split; [rewrite Hmoved; discriminate|].
  split; vm_compute; reflexivity.
Qed.

End MoveCard.

(** ** C9: operations on an id the document does not have *)

Section UnknownIds.

Variable localeCompare : string -> string -> comparison.

Lemma filter_keeps_all {A : Type} (P : A -> Prop) `{!forall x, Decision (P x)} (l : list A) :
  Forall P l -> filter P l = l.
Proof.
  induction 1 as [|x l Hx _ IH]; [reflexivity|].
  rewrite filter_cons_True by exact Hx. now f_equal.
Qed.

Lemma mapColumn_unknown (columnId : string) (change : Column -> Column) (cols : list Column) :
  Forall (fun column => col_id column <> columnId) cols ->
  mapColumn columnId change cols = cols.
Proof.
  unfold mapColumn. induction 1 as [|c cols Hc _ IH]; simpl; [reflexivity|].
  rewrite IH. destruct (decide (col_id c = columnId)); [contradiction|reflexivity].
Qed.

Lemma find_unknown_column (columnId : string) (st : BoardStore) :
  unknownColumn columnId st ->
  list_find (fun column => col_id column = columnId) (columns (store_board st)) = None.
Proof.
  intros Hunknown. apply list_find_None. exact Hunknown.
Qed.

Lemma updateColumns_unknown (columnId : string) (change : Column -> Column) (st : BoardStore) :
  unknownColumn columnId st ->
  store_board (updateColumns localeCompare (mapColumn columnId change) st) = store_board st.
Proof.
  intros Hunknown. rewrite store_board_updateColumns.
  rewrite mapColumn_unknown by exact Hunknown. apply setColumns_same.
Qed.

(** The operations that name a lane leave the document as it is when no
    lane has that id; the counting ones then return 0. *)
Lemma unknown_column_is_noop (st : BoardStore) (columnId : string) :
  unknownColumn columnId st ->
  (forall title, store_board (renameColumn localeCompare columnId title st) = store_board st)
  /\ (forall limit,
        store_board (setColumnWipLimit localeCompare columnId limit st) = store_board st)
  /\ store_board (deleteColumn localeCompare columnId st) = store_board st
  /\ (forall targetIndex, moveColumn localeCompare columnId targetIndex st = st)
  /\ (forall card placement,
        store_board (addCard localeCompare columnId card placement st) = store_board st)
  /\ (forall cardId updater,
        store_board (updateCard localeCompare columnId cardId updater st) = store_board st)
  /\ (forall cardId, store_board (deleteCard localeCompare columnId cardId st) = store_board st)
  /\ (forall cardId other targetIndex,
        moveCard localeCompare columnId cardId other targetIndex st = st
        /\ moveCard localeCompare other cardId columnId targetIndex st = st)
  /\ clearColumnCards localeCompare columnId st = (0, st)
  /\ archiveColumnCards localeCompare columnId st = (0, st).
Proof.
  intros Hunknown. pose proof (find_unknown_column _ _ Hunknown) as Hfind.
  repeat split; intros.
  - apply updateColumns_unknown, Hunknown.
  - apply updateColumns_unknown, Hunknown.
  - unfold deleteColumn. rewrite store_board_updateColumns.
    rewrite filter_keeps_all by exact Hunknown. apply setColumns_same.
  - unfold moveColumn. now rewrite Hfind.
  - apply updateColumns_unknown, Hunknown.
  - apply updateColumns_unknown, Hunknown.
  - apply updateColumns_unknown, Hunknown.
  - unfold moveCard. now rewrite Hfind.
  - unfold moveCard. rewrite Hfind.
    destruct (list_find (fun column => col_id column = other) _) as [[? ?]|]; reflexivity.
  - unfold clearColumnCards, cardsOfColumn. now rewrite Hfind.
  - unfold archiveColumnCards, cardsOfColumn. now rewrite Hfind.
Qed.

(** A card id the source lane does not have: [moveCard] does nothing, and
    [deleteCard] and [updateCard] leave the document as it is. *)
Lemma unknown_card_is_noop (st : BoardStore) (columnId cardId : string) :
  (forall column, In column (columns (store_board st)) ->
     Forall (fun card => card_id card <> cardId) (col_cards column)) ->
  (forall target targetIndex, moveCard localeCompare columnId cardId target targetIndex st = st)
  /\ store_board (deleteCard localeCompare columnId cardId st) = store_board st
  /\ (forall updater,
        store_board (updateCard localeCompare columnId cardId updater st) = store_board st).
Proof.
  intros Hcards.
  assert (Hsame : forall change : Column -> Column,
             (forall column, In column (columns (store_board st)) -> change column = column) ->
             store_board (updateColumns localeCompare (mapColumn columnId change) st)
             = store_board st).
  { intros change Hchange. rewrite store_board_updateColumns.
    replace (mapColumn columnId change _) with (columns (store_board st));
      [apply setColumns_same|].
    symmetry. unfold mapColumn. rewrite <- (map_id (columns (store_board st))) at 2.
    apply map_ext_in. intros c Hc. destruct (decide (col_id c = columnId)); auto. }
  repeat split; intros.
  - unfold moveCard.
    destruct (list_find _ _) as [[i source]|] eqn:Hsource; [|reflexivity].
    destruct (list_find (fun column => col_id column = target) _) as [[? ?]|]; [|reflexivity].
    apply list_find_Some in Hsource as (Hi & _ & _).
    apply list_elem_of_lookup_2, list_elem_of_In, Hcards in Hi.
    now rewrite (proj2 (list_find_None _ _) Hi).
  - apply Hsame. intros c Hc. apply Hcards in Hc.
    destruct c as [i t w cards]; unfold setCards; simpl in *. f_equal.
    now apply filter_keeps_all.
  - apply Hsame. intros c Hc. apply Hcards in Hc.
    destruct c as [i t w cards]; unfold setCards; simpl in *. f_equal.
    induction Hc as [|card cards Hcard _ IH]; [reflexivity|].
    simpl. rewrite IH. now destruct (decide (card_id card = cardId)).
  Qed.

(** A lane without cards: the counting operations return 0 and do nothing. *)
Lemma empty_column_counts_zero (st : BoardStore) (columnId : string) :
  cardsOfColumn columnId st = [] ->
  clearColumnCards localeCompare columnId st = (0, st)
  /\ archiveColumnCards localeCompare columnId st = (0, st).
Proof.
  intros Hempty. unfold clearColumnCards, archiveColumnCards. now rewrite Hempty.
Qed.

(** C9, where the code departs from it.  [insertCardsFromParsedLines] on a
    lane id the document does not have inserts nothing, the document stays
    as it is, and yet the call returns the size of the batch, not the 0
    that would tell its caller that nothing changed. *)
Theorem insert_into_unknown_column_reports_batch_size
  (st : BoardStore) (columnId : string) (cards : list Card) (position : Position) :
  unknownColumn columnId st ->
  cards <> [] ->
  let (count, st') := insertCardsFromParsedLines localeCompare columnId cards position st in
  store_board st' = store_board st /\ count = length cards /\ count <> 0.
Proof.
  intros Hunknown Hcards. unfold insertCardsFromParsedLines.
  destruct cards as [|card cards]; [congruence|].
  split; [apply updateColumns_unknown, Hunknown|]. split; [reflexivity|]. discriminate.
Qed.

End UnknownIds.

Lemma insert_into_unknown_column_reports_batch_size_witness :
  let st := newStore codeUnitCompare
              (Fixture.boardOf [Fixture.lane [Fixture.plainCard "c1" "Existing"]]) in
  let pasted := [Fixture.plainCard "c2" "Pasted"] in
  let (count, st') :=
    insertCardsFromParsedLines codeUnitCompare "nowhere" pasted after st in
  store_board st' = store_board st /\ count = 1 /\ count <> 0.
Proof.
  intros st pasted.
  apply (insert_into_unknown_column_reports_batch_size codeUnitCompare st "nowhere"
           pasted after).
  - unfold unknownColumn. simpl. repeat constructor. discriminate.
  - discriminate.
Defined.

(** ** C7: filters do not touch the document *)

Section Filters.

Variable localeCompare : string -> string -> comparison.

Lemma existsb_eqb_In (x : string) (l : list string) :
  existsb (String.eqb x) l = true <-> In x l.
Proof.
  rewrite existsb_exists. split.
  - intros (y & Hy & Heq). apply String.eqb_eq in Heq. now subst.
  - intros Hx. exists x. split; [exact Hx|apply String.eqb_refl].
Qed.

Lemma cardVisible_spec (q t : string) (card : Card) :
  cardVisible q t card = true
  <-> (q <> EmptyString -> Js.includes (card_searchText card) q = true)
      /\ (t <> EmptyString -> In t (card_tags card)).
Proof.
  unfold cardVisible. rewrite <- existsb_eqb_In.
  destruct q as [|a q], t as [|b t]; simpl Js.truthy; simpl andb.
  - split; [intros _; split; congruence|reflexivity].
  - destruct (existsb _ _); simpl; split; try reflexivity; try discriminate.
    + intros _. split; [congruence|reflexivity].
    + intros [_ H]. apply H. discriminate.
  - destruct (Js.includes _ _); simpl; split; try reflexivity; try discriminate.
    + intros _. split; [reflexivity|congruence].
    + intros [H _]. apply H. discriminate.
  - destruct (Js.includes _ _); simpl.
    + destruct (existsb _ _); simpl; split; try reflexivity; try discriminate.
      * intros _. split; reflexivity.
      * intros [_ H]. apply H. discriminate.
    + split; [discriminate|]. intros [H _]. apply H. discriminate.
Qed.

(** C7.  Setting the filter query or the filter tag leaves the canonical
    document, and with it [getBoard()], the board of the snapshot and the
    tag list of the snapshot, as they were.  In a snapshot, when both
    filter fields are empty (or blank once normalized) the visible lanes
    are the lanes of [getBoard()]; otherwise they are the store's lanes,
    each keeping exactly the cards whose [searchText] contains the trimmed,
    lowercased query, when there is one, and whose [tags] contain the
    normalized filter tag, when there is one. *)
Theorem filter_changes_only_visible_columns (st : BoardStore) :
  (forall q,
     store_board (setFilterQuery localeCompare q st) = store_board st
     /\ getBoard localeCompare (setFilterQuery localeCompare q st) = getBoard localeCompare st
     /\ snap_board (getSnapshot localeCompare (setFilterQuery localeCompare q st))
        = snap_board (getSnapshot localeCompare st)
     /\ allTags (getSnapshot localeCompare (setFilterQuery localeCompare q st))
        = allTags (getSnapshot localeCompare st))
  /\ (forall t,
        store_board (setFilterTag localeCompare t st) = store_board st
        /\ getBoard localeCompare (setFilterTag localeCompare t st) = getBoard localeCompare st
        /\ snap_board (getSnapshot localeCompare (setFilterTag localeCompare t st))
           = snap_board (getSnapshot localeCompare st)
        /\ allTags (getSnapshot localeCompare (setFilterTag localeCompare t st))
           = allTags (getSnapshot localeCompare st))
  /\ (query (store_filter st) = EmptyString -> tag (store_filter st) = EmptyString ->
        visibleColumns (getSnapshot localeCompare st) = columns (getBoard localeCompare st))
  /\ (let q := Js.toLowerCase (Js.trim (query (store_filter st))) in
      let t := normalizeTagFilter (tag (store_filter st)) in
      (q = EmptyString /\ t = EmptyString ->
         visibleColumns (getSnapshot localeCompare st) = columns (getBoard localeCompare st))
      /\ (~ (q = EmptyString /\ t = EmptyString) ->
            visibleColumns (getSnapshot localeCompare st)
            = map (fun column =>
                     setCards column (List.filter (cardVisible q t) (col_cards column)))
                (columns (store_board st))
            /\ forall column card,
                 In card (List.filter (cardVisible q t) (col_cards column))
                 <-> In card (col_cards column)
                     /\ (q <> EmptyString -> Js.includes (card_searchText card) q = true)
                     /\ (t <> EmptyString -> In t (card_tags card)))).
Proof.
  assert (Hsnap : forall st1 st2, store_board st1 = store_board st2 ->
            snap_board (getSnapshot localeCompare st1) = snap_board (getSnapshot localeCompare st2)
            /\ allTags (getSnapshot localeCompare st1) = allTags (getSnapshot localeCompare st2)).
  { intros st1 st2 Hb. unfold getSnapshot, getBoard. rewrite Hb.
    destruct (negb _ && negb _), (negb _ && negb _); simpl; auto. }
  assert (Hempty : forall q t, q = EmptyString /\ t = EmptyString ->
            Js.toLowerCase (Js.trim (query (store_filter st))) = q ->
            normalizeTagFilter (tag (store_filter st)) = t ->
            visibleColumns (getSnapshot localeCompare st) = columns (getBoard localeCompare st)).
  { intros q t [-> ->] Hq Ht. unfold getSnapshot. rewrite Hq, Ht. reflexivity. }
  split; [|split; [|split; [|split]]].
  - intros q. split; [reflexivity|]. split; [reflexivity|]. now apply Hsnap.
  - intros t. split; [reflexivity|]. split; [reflexivity|]. now apply Hsnap.
  - intros Hq Ht. apply (Hempty EmptyString EmptyString); [auto| |].
    + now rewrite Hq.
    + now rewrite Ht.
  - intros H. now apply (Hempty _ _ H).
  - intros Hactive. split.
    + unfold getSnapshot.
      destruct (Js.toLowerCase (Js.trim (query (store_filter st)))) as [|a q] eqn:Hq;
        destruct (normalizeTagFilter (tag (store_filter st))) as [|b t] eqn:Ht;
        simpl; try reflexivity.
      exfalso. apply Hactive. auto.
    + intros column card. rewrite filter_In, cardVisible_spec. reflexivity.
Qed.

End Filters.

Lemma filter_changes_only_visible_columns_witness :
  let st := setFilterQuery codeUnitCompare " PARSER "
              (newStore codeUnitCompare
                 (Fixture.boardOf
                    [Fixture.lane [Fixture.plainCard "c1" "Implement parser #backend";
                                   Fixture.plainCard "c2" "Build modal"]])) in
  map (fun column => map card_id (col_cards column))
    (visibleColumns (getSnapshot codeUnitCompare st)) = [["c1"]]
  /\ map (fun column => map card_id (col_cards column))
       (columns (getBoard codeUnitCompare st)) = [["c1"; "c2"]].
Proof.
  intros st.
  destruct (filter_changes_only_visible_columns codeUnitCompare st)
    as (_ & _ & _ & _ & Hactive).
  destruct Hactive as [Hvisible _].
  - vm_compute. intros [H _]. discriminate H.
  - rewrite Hvisible. split; vm_compute; reflexivity.
Defined.

(** ** C4: merging header lanes and body sections *)

Lemma bodyById_lookup (fromBody : list ParsedColumn) (m : gmap string ParsedColumn)
  (id : string) :
  fold_left (fun m column => <[pc_id column := column]> m) fromBody m !! id
  = match sectionWithId id fromBody with
    | Some section => Some section
    | None => m !! id
    end.
Proof.
  unfold sectionWithId. revert m.
  induction fromBody as [|section rest IH]; intros m; [reflexivity|].
  simpl fold_left. rewrite IH.
  destruct (decide (pc_id section = id)) as [Heq|Hne].
  - rewrite filter_cons_True by exact Heq.
    destruct (filter _ rest) as [|next others] eqn:Hrest.
    + simpl. rewrite <- Heq. apply lookup_insert_eq.
    + rewrite last_cons_cons.
      destruct (last (next :: others)) eqn:Hlast; [reflexivity|].
      now apply last_None in Hlast.
  - rewrite filter_cons_False by exact Hne.
    destruct (last _); [reflexivity|]. now apply lookup_insert_ne.
Qed.

Lemma header_loop
  (step : gset string * list Column -> ColumnDefinition -> gset string * list Column)
  (make : ColumnDefinition -> Column) (defs : list ColumnDefinition)
  (seen : gset string) (cols : list Column) :
  (forall seen cols definition,
     step (seen, cols) definition
     = (({[def_id definition]} : gset string) ∪ seen, cols ++ [make definition])) ->
  fold_left step defs (seen, cols)
  = (list_to_set (map def_id defs) ∪ seen, cols ++ map make defs).
Proof.
  intros Hstep. revert seen cols.
  induction defs as [|d defs IH]; intros seen cols; simpl.
  - f_equal; [now rewrite (left_id_L ∅ (∪))|now rewrite app_nil_r].
  - rewrite Hstep, IH. f_equal; [|now rewrite <- app_assoc].
    rewrite (assoc_L (∪)), (comm_L (∪) (list_to_set _)). reflexivity.
Qed.

Lemma body_loop (seen : gset string) (fromBody : list ParsedColumn) (cols : list Column) :
  fold_left
    (fun cols section =>
       if decide (pc_id section ∈ seen) then cols else cols ++ [bodyOnlyColumn section])
    fromBody cols
  = cols ++ map bodyOnlyColumn (filter (fun section => pc_id section ∉ seen) fromBody).
Proof.
  revert cols. induction fromBody as [|section rest IH]; intros cols; simpl.
  - now rewrite app_nil_r.
  - rewrite IH. destruct (decide (pc_id section ∈ seen)) as [Hin|Hout].
    + rewrite filter_cons_False by (intros H; now apply H). reflexivity.
    + rewrite filter_cons_True by exact Hout. simpl. now rewrite <- app_assoc.
Qed.

Lemma mergeColumns_spec (defs : list ColumnDefinition) (fromBody : list ParsedColumn) :
  mergeColumns defs fromBody
  = map (headerColumn fromBody) defs
    ++ map bodyOnlyColumn
         (filter (fun section => pc_id section ∉ map def_id defs) fromBody).
Proof.
  unfold mergeColumns.
  rewrite (header_loop _ (headerColumn fromBody)).
  - rewrite (body_loop _ fromBody). simpl. f_equal. f_equal.
    apply list_filter_iff. intros section.
    rewrite elem_of_union, elem_of_list_to_set, elem_of_empty. tauto.
  - intros seen cols definition. unfold headerColumn.
    rewrite bodyById_lookup, lookup_empty.
    destruct (sectionWithId (def_id definition) fromBody); reflexivity.
Qed.

Section Merge.

Variable localeCompare : string -> string -> comparison.
Variable dateNow : nat -> N.
Variable randomIndex : nat -> nat.

(** C4.  [mergeColumns] returns the header-declared lanes in header order,
    each with the cards of the body section of the same id (no cards when
    there is none), and after them the body sections whose id the header
    does not declare, in body order and without a WIP limit.  A header
    declaring [b; a] over a body with sections [a; c] gives the lanes
    [b; a; c]. *)
Theorem merge_keeps_header_order_then_body_order :
  (forall defs fromBody,
     mergeColumns defs fromBody
     = map (headerColumn fromBody) defs
       ++ map bodyOnlyColumn
            (filter (fun section => pc_id section ∉ map def_id defs) fromBody))
  /\ (forall titleB limitB titleA limitA titleA' cardsA titleC cardsC,
        mergeColumns
          [mkColumnDefinition "b" titleB limitB; mkColumnDefinition "a" titleA limitA]
          [mkParsedColumn "a" titleA' cardsA; mkParsedColumn "c" titleC cardsC]
        = [mkColumn "b" (Js.orElse titleB "Untitled") limitB [];
           mkColumn "a" (Js.orElse titleA (Js.orElse titleA' "Untitled")) limitA cardsA;
           mkColumn "c" titleC None cardsC])
  /\ (forall entropy,
        map (fun column => (col_id column, map card_title (col_cards column)))
          (mergeColumns
             [mkColumnDefinition "b" "B" None; mkColumnDefinition "a" "A" None]
             (fst (parseColumnsFromBody localeCompare dateNow randomIndex bodyAC entropy)))
        = [("b", []); ("a", ["In A"]); ("c", ["In C"])]).
Proof.
  split; [exact mergeColumns_spec|]. split.
  - intros. rewrite mergeColumns_spec. reflexivity.
  - intros entropy. vm_compute. reflexivity.
Qed.

End Merge.

Local Arguments String.append : simpl nomatch.

(** ** C3: when parsing fails *)

Local Ltac by_cases_on_text :=
  repeat
    (cbn [Re.seqs Re.lit Re.opt Re.chr Re.run Re.final Js.startsWith Js.sliceFrom
          append andb Nat.add];
     try reflexivity;
     match goal with
     | |- context [match ?s with EmptyString => _ | String _ _ => _ end] =>
         is_var s; destruct s
     | |- context [Ascii.eqb ?x ?y] => destruct (Ascii.eqb x y)
     end).

Lemma fenceTail_run (pos : nat) (s : string) (c : Re.captures) :
  Re.run fenceTail pos s c Re.final
  = if Js.startsWith s fence
    then Some (if Js.startsWith (Js.sliceFrom 4 s) newline then 5 + pos else 4 + pos, c)
    else None.
Proof.
  unfold fenceTail, fence, newline. by_cases_on_text.
Qed.


Lemma lazy_any (k : Re.cont) (fuel : nat) (s : string) (pos : nat) (c : Re.captures) :
  String.length s < fuel ->
  Re.iterate fuel false (Re.run Re.any) pos s c k = firstSuffix k pos s c.
Proof.
  revert s pos. induction fuel as [|fuel IH]; intros s pos Hfuel; [lia|].
  destruct s as [|a s]; cbn [Re.iterate firstSuffix].
  - destruct (k pos EmptyString c); reflexivity.
  - destruct (k pos (String a s) c); [reflexivity|].
    cbn [Re.run Re.any]. rewrite (proj2 (Nat.ltb_lt pos (S pos)) (Nat.lt_succ_diag_r pos)).
    apply IH. simpl in Hfuel. lia.
Qed.

Lemma frontmatterRegex_anchored :
  frontmatterRegex
  = Re.Seq Re.Bol
      (Re.Seq (Re.lit "---")
         (Re.Seq (Re.chr "010") (Re.Seq (Re.Group 1 (Re.Star false Re.any)) fenceTail))).
Proof. reflexivity. Qed.

Lemma sliceTo_app (h r : string) : Js.sliceTo (String.length h) (h +:+ r) = h.
Proof. induction h as [|a h IH]; simpl; [now destruct r|now rewrite IH]. Qed.

Lemma sliceFrom_app (h r : string) : Js.sliceFrom (String.length h) (h +:+ r) = r.
Proof. induction h as [|a h IH]; simpl; [reflexivity|exact IH]. Qed.

Lemma startsWith_true (s p : string) :
  Js.startsWith s p = true -> s = p +:+ Js.sliceFrom (String.length p) s.
Proof.
  revert s. induction p as [|b p IH]; intros s; [reflexivity|].
  destruct s as [|a s]; simpl; [discriminate|].
  rewrite andb_true_iff, Ascii.eqb_eq. intros [-> Hrest]. simpl. f_equal. now apply IH.
Qed.

Lemma startsWith_app (p r : string) : Js.startsWith (p +:+ r) p = true.
Proof.
  induction p as [|b p IH]; simpl; [reflexivity|].
  now rewrite Ascii.eqb_refl, IH.
Qed.

Lemma sliceFrom_empty (n : nat) : Js.sliceFrom n EmptyString = EmptyString.
Proof. destruct n; reflexivity. Qed.

Lemma sliceFrom_add (n m : nat) (s : string) :
  Js.sliceFrom (n + m) s = Js.sliceFrom n (Js.sliceFrom m s).
Proof.
  revert s. induction m as [|m IH]; intros s.
  - now rewrite Nat.add_0_r.
  - rewrite Nat.add_succ_r. destruct s as [|a s]; simpl.
    + now rewrite sliceFrom_empty.
    + apply IH.
Qed.

Lemma untilFence_split (s header rest : string) :
  untilFence s = Some (header, rest) -> s = header +:+ fence +:+ rest.
Proof.
  revert header rest. induction s as [|a s IH]; intros header rest.
  - simpl. discriminate.
  - cbn [untilFence].
    destruct (Js.startsWith (String a s) fence) eqn:Hfence.
    + intros [= <- <-]. exact (startsWith_true _ _ Hfence).
    + destruct (untilFence s) as [[h r]|]; [|discriminate].
      intros [= <- <-]. simpl. f_equal. now apply IH.
Qed.

Lemma untilFence_unfold (s : string) :
  untilFence s
  = if Js.startsWith s fence then Some (EmptyString, Js.sliceFrom 4 s)
    else
      match s with
      | EmptyString => None
      | String a s' =>
          match untilFence s' with
          | Some (header, rest) => Some (String a header, rest)
          | None => None
          end
      end.
Proof. destruct s; reflexivity. Qed.

Lemma untilFence_finds (header rest : string) :
  untilFence (header +:+ fence +:+ rest) <> None.
Proof.
  induction header as [|a header IH].
  - change (EmptyString +:+ fence +:+ rest) with (fence +:+ rest).
    rewrite untilFence_unfold, startsWith_app. discriminate.
  - change (String a header +:+ fence +:+ rest)
      with (String a (header +:+ fence +:+ rest)).
    rewrite untilFence_unfold.
    destruct (Js.startsWith _ fence); [discriminate|].
    destruct (untilFence _) as [[h r]|]; [discriminate|exact IH].
Qed.

Lemma group_capture (t : string) (pos0 : nat) (c : Re.captures) (s : string) (pos : nat)
  (consumed : string) :
  t = consumed +:+ s -> pos = pos0 + String.length consumed ->
  firstSuffix
    (fun pos' s' c' =>
       Re.run fenceTail pos' s' ((1, Js.sliceTo (pos' - pos0) t) :: c') Re.final)
    pos s c
  = match untilFence s with
    | Some (header, rest) =>
        Some ((if Js.startsWith rest newline then 5 else 4) + String.length header + pos,
              (1, consumed +:+ header) :: c)
    | None => None
    end.
Proof.
  revert pos consumed. induction s as [|a s IH]; intros pos consumed Ht Hpos.
  - reflexivity.
  - cbn [firstSuffix untilFence]. rewrite fenceTail_run.
    destruct (Js.startsWith (String a s) fence) eqn:Hfence.
    + f_equal. f_equal.
      * destruct (Js.startsWith _ newline); simpl; lia.
      * f_equal. f_equal. subst t pos.
        replace (pos0 + String.length consumed - pos0) with (String.length consumed) by lia.
        rewrite sliceTo_app. clear. induction consumed; simpl; congruence.
    + rewrite (IH (S pos) (consumed +:+ String a EmptyString)).
      * destruct (untilFence s) as [[h r]|]; [|reflexivity].
        f_equal. f_equal; [simpl; lia|]. f_equal. f_equal.
        clear. induction consumed; simpl; congruence.
      * subst t. clear. induction consumed; simpl; congruence.
      * subst pos. clear. induction consumed; simpl; lia.
Qed.

Lemma frontmatter_exec (text : string) :
  Re.exec frontmatterRegex text
  = if Js.startsWith text opening then
      match untilFence (Js.sliceFrom 4 text) with
      | Some (header, rest) =>
          Some (Re.mkFound 0
                  ((if Js.startsWith rest newline then 5 else 4) + String.length header + 4)
                  [(1, header)])
      | None => None
      end
    else None.
Proof.
  rewrite frontmatterRegex_anchored, exec_bol. unfold opening.
  destruct text as [|a1 [|a2 [|a3 [|a4 t]]]];
    cbn [Re.lit Re.chr Re.run Js.startsWith newline andb];
    repeat match goal with
           | |- context [Ascii.eqb ?x ?y] => destruct (Ascii.eqb x y); cbn [andb]
           end; try reflexivity.
  rewrite lazy_any by lia.
  rewrite (group_capture t 4 [] t 4 EmptyString) by reflexivity.
  cbn [Js.sliceFrom].
  destruct (untilFence t) as [[header rest]|]; reflexivity.
Qed.

Lemma frontmatter_match (text : string) :
  match Re.exec frontmatterRegex text with
  | Some m =>
      frontmatterOf text
      = Some (Re.groupOr 1 (Re.caps m), Js.sliceFrom (Re.stop m - Re.index m) text)
  | None => frontmatterOf text = None
  end.
Proof.
  rewrite frontmatter_exec. unfold frontmatterOf.
  destruct (Js.startsWith text opening) eqn:Hopen; [|reflexivity].
  destruct (untilFence (Js.sliceFrom 4 text)) as [[header rest]|] eqn:Hsplit; [|reflexivity].
  unfold Re.groupOr. cbn [Re.caps Re.stop Re.index Re.group Nat.eqb].
  f_equal. f_equal.
  apply untilFence_split in Hsplit.
  rewrite Nat.sub_0_r.
  assert (Hbody : forall k,
            Js.sliceFrom (k + (4 + String.length header + 4)) text = Js.sliceFrom k rest).
  { intros k. rewrite 2 sliceFrom_add. f_equal. rewrite Hsplit.
    rewrite sliceFrom_add, sliceFrom_app. reflexivity. }
  destruct (Js.startsWith rest newline).
  - rewrite <- (Hbody 1). f_equal; lia.
  - change rest with (Js.sliceFrom 0 rest) at 1. rewrite <- (Hbody 0). f_equal; lia.
Qed.

Lemma frontmatterOf_None (text : string) :
  frontmatterOf text = None <-> ~ hasFrontmatter text.
Proof.
  unfold frontmatterOf, hasFrontmatter. split.
  - intros Hnone (header & rest & ->).
    rewrite startsWith_app in Hnone.
    change 4 with (String.length opening) in Hnone.
    rewrite sliceFrom_app in Hnone.
    destruct (untilFence _) as [[h r]|] eqn:Hsplit; [discriminate|].
    now apply untilFence_finds in Hsplit.
  - intros Hno.
    destruct (Js.startsWith text opening) eqn:Hopen; [|reflexivity].
    destruct (untilFence _) as [[h r]|] eqn:Hsplit; [|reflexivity].
    exfalso. apply Hno. exists h, r.
    apply startsWith_true in Hopen. apply untilFence_split in Hsplit.
    rewrite Hopen. f_equal. exact Hsplit.
Qed.

Section ParseErrors.

Variable localeCompare : string -> string -> comparison.
Variable dateNow : nat -> N.
Variable randomIndex : nat -> nat.
Variable parseYaml : string -> option yaml.

(** C3.  [parseBoardMarkdown] fails in three cases and in no other: the
    text (after newline normalization) has no leading header block; the
    header does not decode, or decodes to something that is not an object;
    the decoded header has no [kanban] entry that is exactly [true].  Each
    case has its own message, and every other text yields a document. *)
Theorem parse_fails_in_exactly_three_cases (content : string) (entropy : Entropy) :
  let outcome := parseOutcome localeCompare dateNow randomIndex parseYaml content entropy in
  match frontmatterOf (normalizeNewlines content) with
  | None => outcome = inl (mkBoardParseError missingFrontmatter)
  | Some (header, body) =>
      match parseYaml header with
      | None => outcome = inl (mkBoardParseError notYaml)
      | Some decoded =>
          if isObject decoded then
            match prop decoded "kanban" with
            | Some (YBool true) => exists document, outcome = inr document
            | _ => outcome = inl (mkBoardParseError missingMarker)
            end
          else outcome = inl (mkBoardParseError notAnObject)
      end
  end
  /\ (frontmatterOf (normalizeNewlines content) = None
      <-> ~ hasFrontmatter (normalizeNewlines content))
  /\ missingFrontmatter <> notYaml /\ missingFrontmatter <> notAnObject
  /\ missingFrontmatter <> missingMarker /\ notYaml <> missingMarker
  /\ notAnObject <> missingMarker /\ notYaml <> notAnObject.
Proof.
  intros outcome. split; [|split; [apply frontmatterOf_None|repeat split; discriminate]].
  subst outcome. unfold parseOutcome, parseBoardMarkdown, splitFrontmatter.
  pose proof (frontmatter_match (normalizeNewlines content)) as Hmatch.
  destruct (Re.exec frontmatterRegex (normalizeNewlines content)) as [m|];
    rewrite Hmatch; [|reflexivity].
  destruct (parseYaml (Re.groupOr 1 (Re.caps m))) as [decoded|]; [|reflexivity].
  destruct (isObject decoded); [|reflexivity]. cbn [negb].
  destruct (prop decoded "kanban") as [[| [|] | | | |]|]; try reflexivity.
  unfold bind.
  destruct (assembleBoard _ _ _ _ _ _) as [document e1].
  eexists; reflexivity.
Qed.

End ParseErrors.

(** ** C5: derived fields *)

(** Greedy repetition of a character class before a pattern that cannot
    fail: the whole run is taken. *)
Lemma greedy_class (p : ascii -> bool) (step : Re.matcher) (k : Re.cont) (fuel : nat)
  (s : string) (pos : nat) (c : Re.captures) :
  (forall pos s c k', step pos s c k' = Re.run (Re.Chr p) pos s c k') ->
  (forall pos' s' c', k pos' s' c' <> None) ->
  String.length s < fuel ->
  exists rest run,
    s = run +:+ rest
    /\ Re.iterate fuel true step pos s c k = k (String.length run + pos) rest c
    /\ (fix take (s : string) : string :=
          match s with
          | String a s' => if p a then String a (take s') else EmptyString
          | EmptyString => EmptyString
          end) s = run.
Proof.
  intros Hstep Hk. revert s pos. induction fuel as [|fuel IH]; intros s pos Hfuel; [lia|].
  cbn [Re.iterate]. rewrite Hstep. cbn [Re.run]. destruct s as [|a s].
  - exists EmptyString, EmptyString. repeat split; reflexivity.
  - destruct (p a) eqn:Hp.
    + rewrite (proj2 (Nat.ltb_lt pos (S pos)) (Nat.lt_succ_diag_r pos)).
      destruct (IH s (S pos)) as (rest & run & Hs & Hrun & Htake); [simpl in Hfuel; lia|].
      exists rest, (String a run). rewrite Hrun.
      replace (String.length (String a run) + pos) with (String.length run + S pos)
        by (simpl; lia).
      split; [simpl; now f_equal|]. split.
      * destruct (k (String.length run + S pos) rest c) eqn:Hres; [reflexivity|].
        now apply Hk in Hres.
      * now rewrite Htake.
    + exists (String a s), EmptyString. repeat split; reflexivity.
Qed.

Lemma hash_then_body (pos : nat) (s : string) (c : Re.captures) :
  Re.run (Re.Seq (Re.chr "#") (Re.Group 2 (Re.plus true (Re.Chr isTagChar)))) pos s c Re.final
  = hashAt pos s c.
Proof.
  unfold hashAt. cbn [Re.run Re.chr Re.plus].
  destruct s as [|h s1]; [reflexivity|].
  destruct (Ascii.eqb "#" h); [|reflexivity].
  destruct s1 as [|t s2]; [reflexivity|]. cbn [tagRun].
  destruct (isTagChar t); [|reflexivity].
  match goal with
  | |- Re.iterate ?fuel true ?step ?p ?s ?c ?k = _ =>
      destruct (greedy_class isTagChar step k fuel s p c)
        as (rest & run & Hs & Hrun & Htake);
      [reflexivity|discriminate|lia|]
  end.
  rewrite Hrun. fold tagRun in Htake. rewrite Htake. unfold Re.final.
  f_equal. f_equal; [simpl; lia|]. f_equal. f_equal.
  replace (String.length run + S (S pos) - S pos) with (S (String.length run)) by lia.
  cbn [Js.sliceTo]. f_equal. rewrite Hs. apply sliceTo_app.
Qed.

Lemma tag_match_at (pos : nat) (s : string) :
  Re.run tagRegex pos s [] Re.final
  = match (if (pos =? 0)%nat then hashAt pos s [(1, EmptyString)] else None) with
    | Some x => Some x
    | None =>
        match s with
        | String a s' =>
            if Js.isSpace a then hashAt (S pos) s' [(1, String a EmptyString)] else None
        | EmptyString => None
        end
    end.
Proof.
  unfold tagRegex.
  change (Re.run (Re.Seq (Re.Group 1 (Re.Alt Re.Bol Re.space)) ?r) pos s [] Re.final)
    with (match (if (pos =? 0)%nat
                 then Re.run r pos s [(1, Js.sliceTo (pos - pos) s)] Re.final else None) with
          | Some x => Some x
          | None =>
              match s with
              | String a s' =>
                  if Js.isSpace a
                  then Re.run r (S pos) s' [(1, Js.sliceTo (S pos - pos) s)] Re.final
                  else None
              | EmptyString => None
              end
          end).
  rewrite hash_then_body, Nat.sub_diag.
  replace (Js.sliceTo 0 s) with EmptyString by (now destruct s).
  destruct (if (pos =? 0)%nat then _ else None); [reflexivity|].
  destruct s as [|a s']; [reflexivity|].
  rewrite hash_then_body.
  replace (S pos - pos) with 1 by lia. reflexivity.
Qed.

Lemma searchFrom_unfold (r : Re.regex) (pos : nat) (s : string) :
  Re.searchFrom r pos s
  = match Re.run r pos s [] Re.final with
    | Some (e, c) => Some (Re.mkFound pos e c)
    | None =>
        match s with
        | EmptyString => None
        | String _ s' => Re.searchFrom r (S pos) s'
        end
    end.
Proof. destruct s; reflexivity. Qed.

Lemma tagChar_not_space (a : ascii) : isTagChar a = true -> Js.isSpace a = false.
Proof.
  destruct a as [[] [] [] [] [] [] [] []]; vm_compute; congruence.
Qed.

Lemma tagRun_length (s : string) : String.length (tagRun s) <= String.length s.
Proof.
  induction s as [|a s IH]; simpl; [lia|]. destruct (isTagChar a); simpl; lia.
Qed.

(** No token starts inside a run of tag characters. *)
Lemma hashTokens_skip_run (s : string) :
  hashTokens false s = hashTokens false (Js.sliceFrom (String.length (tagRun s)) s).
Proof.
  induction s as [|a s IH]; [reflexivity|].
  cbn [tagRun]. destruct (isTagChar a) eqn:Htag; [|reflexivity].
  cbn [String.length Js.sliceFrom hashTokens andb].
  rewrite (tagChar_not_space a Htag). exact IH.
Qed.

Lemma hashAt_spec (p : nat) (s : string) (c : Re.captures) :
  match hashAt p s c with
  | Some (e, c') =>
      exists body,
        e = String.length body + S p /\ Re.groupOr 2 c' = body
        /\ S (String.length body) <= String.length s
        /\ hashTokens true s
           = body :: hashTokens false (Js.sliceFrom (S (String.length body)) s)
  | None => hashTokens true s = hashTokens false s
  end.
Proof.
  destruct s as [|h s1]; [reflexivity|]. cbn [hashAt hashTokens andb].
  destruct (Ascii.eqb "#" h) eqn:Hhash; [|reflexivity].
  destruct (tagRun s1) as [|t body] eqn:Hrun; [reflexivity|].
  exists (String t body). cbn [Js.truthy Js.sliceFrom].
  apply Ascii.eqb_eq in Hhash. subst h.
  repeat split.
  - pose proof (tagRun_length s1) as Hlen. rewrite Hrun in Hlen. simpl in *. lia.
  - f_equal. change (Js.isSpace "#") with false.
    rewrite <- Hrun. apply hashTokens_skip_run.
Qed.

Lemma search_tokens (s : string) (pos : nat) :
  match Re.searchFrom tagRegex pos s with
  | None => hashTokens (pos =? 0)%nat s = []
  | Some m =>
      pos < Re.stop m /\ Re.stop m - pos <= String.length s
      /\ hashTokens (pos =? 0)%nat s
         = Re.groupOr 2 (Re.caps m) :: hashTokens false (Js.sliceFrom (Re.stop m - pos) s)
  end.
Proof.
  revert pos. induction s as [|a s IH]; intros pos.
  - rewrite searchFrom_unfold, tag_match_at. simpl.
    destruct (pos =? 0)%nat; reflexivity.
  - rewrite searchFrom_unfold, tag_match_at.
    assert (Hlater :
      hashTokens false (String a s) = hashTokens (Js.isSpace a) s) by reflexivity.
    (* the attempt through [^] *)
    assert (Hbol :
      match (if (pos =? 0)%nat then hashAt pos (String a s) [(1, EmptyString)] else None) with
      | Some (e, c') =>
          pos < e /\ e - pos <= String.length (String a s)
          /\ hashTokens (pos =? 0)%nat (String a s)
             = Re.groupOr 2 c' :: hashTokens false (Js.sliceFrom (e - pos) (String a s))
      | None => hashTokens (pos =? 0)%nat (String a s) = hashTokens (Js.isSpace a) s
      end).
    { destruct (pos =? 0)%nat eqn:Hpos; [|exact Hlater].
      pose proof (hashAt_spec pos (String a s) [(1, EmptyString)]) as Hat.
      destruct (hashAt pos (String a s) [(1, EmptyString)]) as [[e c']|].
      - destruct Hat as (body & -> & Hgroup & Hlen & Htokens).
        replace (String.length body + S pos - pos) with (S (String.length body)) by lia.
        rewrite Hgroup. repeat split; [lia|exact Hlen|exact Htokens].
      - now rewrite Hat. }
    destruct (if (pos =? 0)%nat then _ else None) as [[e c']|]; [exact Hbol|].
    rewrite Hbol. clear Hbol.
    (* the attempt through a whitespace character *)
    assert (Hspace :
      match (if Js.isSpace a then hashAt (S pos) s [(1, String a EmptyString)] else None) with
      | Some (e, c') =>
          pos < e /\ e - pos <= String.length (String a s)
          /\ hashTokens (Js.isSpace a) s
             = Re.groupOr 2 c' :: hashTokens false (Js.sliceFrom (e - pos) (String a s))
      | None => hashTokens (Js.isSpace a) s = hashTokens false s
      end).
    { destruct (Js.isSpace a); [|reflexivity].
      pose proof (hashAt_spec (S pos) s [(1, String a EmptyString)]) as Hat.
      destruct (hashAt (S pos) s [(1, String a EmptyString)]) as [[e c']|]; [|exact Hat].
      destruct Hat as (body & -> & Hgroup & Hlen & Htokens).
      replace (String.length body + S (S pos) - pos) with (S (S (String.length body))) by lia.
      rewrite Hgroup. repeat split; [lia|simpl; lia|exact Htokens]. }
    destruct (if Js.isSpace a then _ else None) as [[e c']|]; [exact Hspace|].
    rewrite Hspace. clear Hspace.
    (* no match here: the search moves on *)
    specialize (IH (S pos)). cbn [Nat.eqb] in IH.
    destruct (Re.searchFrom tagRegex (S pos) s) as [m|]; [|exact IH].
    destruct IH as (Hstop & Hlen & Htokens).
    replace (Re.stop m - pos) with (S (Re.stop m - S pos)) by lia.
    repeat split; [lia|simpl; lia|exact Htokens].
Qed.

Lemma sliceFrom_length (k : nat) (s : string) :
  String.length (Js.sliceFrom k s) = String.length s - k.
Proof.
  revert s. induction k as [|k IH]; intros s; [simpl; lia|].
  destruct s as [|a s]; [reflexivity|]. simpl. apply IH.
Qed.

Lemma execAll_tokens (fuel : nat) (s : string) (pos : nat) :
  String.length s < fuel ->
  map (Re.groupOr 2) (Re.execAll fuel tagRegex pos s) = hashTokens (pos =? 0)%nat s.
Proof.
  revert s pos. induction fuel as [|fuel IH]; intros s pos Hfuel; [lia|].
  cbn [Re.execAll]. pose proof (search_tokens s pos) as Hsearch.
  destruct (Re.searchFrom tagRegex pos s) as [m|]; [|now rewrite Hsearch].
  destruct Hsearch as (Hstop & Hlen & ->). cbn [map]. f_equal.
  rewrite IH.
  - destruct (Re.stop m); [lia|reflexivity].
  - rewrite sliceFrom_length. lia.
Qed.

Lemma hashTokens_truthy (b : bool) (s : string) :
  Forall (fun body => Js.truthy body = true) (hashTokens b s).
Proof.
  revert b. induction s as [|a s IH]; intros b; [constructor|].
  cbn [hashTokens].
  destruct (b && Ascii.eqb "#" a && Js.truthy (tagRun s)) eqn:Hcond; [|apply IH].
  constructor; [|apply IH].
  now apply andb_true_iff in Hcond as [_ Hcond].
Qed.

Section Tags.

Variable localeCompare : string -> string -> comparison.

(** [extractTags] in words: the tokens, lowercased behind their [#],
    without repetitions, sorted. *)
Lemma extractTags_spec (text : string) :
  extractTags localeCompare text
  = sortWith localeCompare (setOf (map hashtag (hashTokens true text))).
Proof.
  unfold extractTags, setOf. f_equal.
  pose proof (execAll_tokens (S (String.length text)) text 0 (Nat.lt_succ_diag_r _)) as Hall.
  cbn [Nat.eqb] in Hall.
  pose proof (hashTokens_truthy true text) as Htruthy. rewrite <- Hall in *. clear Hall.
  generalize (@nil string).
  induction (Re.execAll _ tagRegex 0 text) as [|m ms IH]; intros acc; [reflexivity|].
  cbn [map fold_left] in *. inversion Htruthy as [|? ? Hm Hms]; subst.
  rewrite Hm. now apply IH.
Qed.

End Tags.

(** ** Where the cards of a parsed document come from *)

Section ParsedCards.

Variable localeCompare : string -> string -> comparison.
Variable dateNow : nat -> N.
Variable randomIndex : nat -> nat.
Variable parseYaml : string -> option yaml.

(** a property that holds of every card built from a card line *)
Variable P : Card -> Prop.
Hypothesis P_card_line :
  forall id rawTitle description checked dueDate,
    P (normalizeCard localeCompare
         (mkCardInput id (Js.trim rawTitle) description checked dueDate)).

Lemma parseCardsAt_all (lines : list string) (skip : nat) (entropy : Entropy) :
  Forall P (fst (parseCardsAt localeCompare dateNow randomIndex lines skip entropy)).
Proof.
  revert skip entropy. induction lines as [|line rest IH]; intros skip entropy.
  - constructor.
  - cbn [parseCardsAt]. destruct skip as [|skip]; [|apply IH].
    destruct (Re.exec cardRegex line) as [found|]; [|apply IH].
    unfold bind.
    destruct (if Js.truthy _ then _ else _) as [cardId e1].
    destruct (normalizeDescription _) as [description dueDate].
    specialize (IH (length (descriptionLinesOf rest)) e1).
    destruct (parseCardsAt _ _ _ rest _ e1) as [cards e2].
    constructor; [apply P_card_line|exact IH].
Qed.

Lemma parseColumnsAt_all (lines : list string) (skip : nat) (entropy : Entropy) :
  Forall (fun section => Forall P (pc_cards section))
    (fst (parseColumnsAt localeCompare dateNow randomIndex lines skip entropy)).
Proof.
  revert skip entropy. induction lines as [|line rest IH]; intros skip entropy.
  - constructor.
  - cbn [parseColumnsAt]. destruct skip as [|skip]; [|apply IH].
    destruct (Re.exec headingRegex line) as [found|]; [|apply IH].
    unfold bind.
    destruct (if Js.truthy _ then _ else _) as [id e1].
    pose proof (parseCardsAt_all (sectionLinesOf rest) 0 e1) as Hcards.
    unfold parseCardsFromLines.
    destruct (parseCardsAt _ _ _ (sectionLinesOf rest) 0 e1) as [cards e2].
    specialize (IH (length (sectionLinesOf rest)) e2).
    destruct (parseColumnsAt _ _ _ rest _ e2) as [more e3].
    constructor; [exact Hcards|exact IH].
Qed.

Lemma extractArchiveSection_all (body : string) (entropy : Entropy) :
  Forall P (snd (fst (extractArchiveSection localeCompare dateNow randomIndex body entropy))).
Proof.
  unfold extractArchiveSection.
  destruct (Re.exec archiveBlockRegex _) as [m|]; [|constructor].
  unfold bind, parseCardsFromLines.
  pose proof (parseCardsAt_all (Js.splitLines (Re.groupOr 1 (Re.caps m))) 0 entropy) as H.
  destruct (parseCardsAt _ _ _ _ 0 entropy) as [cards e1]. exact H.
Qed.

Lemma mergeColumns_all (defs : list ColumnDefinition) (fromBody : list ParsedColumn) :
  Forall (fun section => Forall P (pc_cards section)) fromBody ->
  Forall (fun column => Forall P (col_cards column)) (mergeColumns defs fromBody).
Proof.
  intros Hbody. rewrite mergeColumns_spec. apply Forall_app. split.
  - apply Forall_forall. intros column Hin.
    apply list_elem_of_In, in_map_iff in Hin as (definition & <- & _).
    unfold headerColumn. simpl.
    unfold sectionWithId.
    destruct (last _) as [section|] eqn:Hlast; [|constructor]. simpl.
    apply last_Some in Hlast as [others Hothers].
    assert (Hin : section ∈ filter (fun s => pc_id s = def_id definition) fromBody)
      by (rewrite Hothers; apply elem_of_app; right; apply list_elem_of_singleton; reflexivity).
    apply list_elem_of_filter in Hin as [_ Hin].
    rewrite Forall_forall in Hbody. now apply Hbody.
  - apply Forall_forall. intros column Hin.
    apply list_elem_of_In, in_map_iff in Hin as (section & <- & Hin).
    apply list_elem_of_In, list_elem_of_filter in Hin as [_ Hin].
    rewrite Forall_forall in Hbody. now apply Hbody.
Qed.

Lemma allCards_all (document : BoardDocument) :
  Forall (fun column => Forall P (col_cards column)) (columns document) ->
  Forall P (archive document) ->
  Forall P (allCards document).
Proof.
  intros Hcols Harchive. unfold allCards. apply Forall_app. split; [|exact Harchive].
  induction Hcols as [|column cols Hcolumn _ IH]; simpl; [constructor|].
  apply Forall_app. now split.
Qed.

Lemma assembleBoard_all (frontmatter : yaml) (body : string) (entropy : Entropy) :
  Forall P (allCards (fst (assembleBoard localeCompare dateNow randomIndex
                             frontmatter body entropy))).
Proof.
  unfold assembleBoard, bind.
  pose proof (extractArchiveSection_all body entropy) as Harchive.
  destruct (extractArchiveSection _ _ _ body entropy) as [[rest archived] e1].
  pose proof (parseColumnsAt_all (Js.splitLines (normalizeNewlines rest)) 0 e1) as Hsections.
  unfold parseColumnsFromBody. cbn [fst snd] in *.
  destruct (parseColumnsAt _ _ _ _ 0 e1) as [sections e2]. cbn [fst] in Hsections.
  pose proof (mergeColumns_all (parseColumnDefinitions (prop frontmatter "columns"))
                sections Hsections) as Hmerged.
  destruct (mergeColumns _ sections) as [|column cols];
    apply allCards_all; simpl; try assumption; constructor.
Qed.

Lemma parsed_cards_all (content : string) (entropy : Entropy) (document : BoardDocument) :
  fst (parseBoardMarkdown localeCompare dateNow randomIndex parseYaml content entropy)
  = inr document ->
  Forall P (allCards document).
Proof.
  unfold parseBoardMarkdown.
  destruct (splitFrontmatter parseYaml content) as [e|[frontmatter body]]; [discriminate|].
  destruct (prop frontmatter "kanban") as [[| [|] | | | |]|]; try discriminate.
  unfold bind. pose proof (assembleBoard_all frontmatter body entropy) as Hall.
  destruct (assembleBoard _ _ _ frontmatter body entropy) as [built e1].
  intros [= <-]. exact Hall.
Qed.

End ParsedCards.

(** ** C5: tags and search text are derived *)

Section DerivedFields.

Variable localeCompare : string -> string -> comparison.
Variable dateNow : nat -> N.
Variable randomIndex : nat -> nat.
Variable parseYaml : string -> option yaml.

Lemma normalizeCard_derived (input : CardInput) :
  derivedFieldsHold localeCompare (normalizeCard localeCompare input).
Proof.
  unfold derivedFieldsHold, normalizeCard. simpl.
  split; [apply extractTags_spec|reflexivity].
Qed.

Lemma cloneBoard_derived (b : BoardDocument) :
  Forall (derivedFieldsHold localeCompare) (allCards (cloneBoard localeCompare b)).
Proof.
  apply allCards_all; simpl.
  - apply Forall_forall. intros column Hin.
    apply list_elem_of_In, in_map_iff in Hin as (source & <- & _). simpl.
    apply Forall_forall. intros card Hcard.
    apply list_elem_of_In, in_map_iff in Hcard as (original & <- & _).
    apply normalizeCard_derived.
  - apply Forall_forall. intros card Hcard.
    apply list_elem_of_In, in_map_iff in Hcard as (original & <- & _).
    apply normalizeCard_derived.
Qed.

(** C5, amended.  In every document the system hands out (the result of
    [parseBoardMarkdown], [getBoard()] and the board of [getSnapshot()] in
    any state of the store, and the visible lanes of the snapshot while the
    filter is blank) every card, in a lane or in the archive, has
    as [tags] the sorted, deduplicated, lowercased tokens of
    [title + "\n" + description], a token being a [#] at the start of the
    text or right after a whitespace character, followed by letters,
    digits, [/], [_] or [-]; and as [searchText] the lowercase join of
    title, description, tag list and due date. *)
Theorem derived_fields_follow_the_text :
  (forall input, derivedFieldsHold localeCompare (normalizeCard localeCompare input))
  /\ (forall content entropy document,
        fst (parseBoardMarkdown localeCompare dateNow randomIndex parseYaml content entropy)
        = inr document ->
        Forall (derivedFieldsHold localeCompare) (allCards document))
  /\ (forall st,
        Forall (derivedFieldsHold localeCompare) (allCards (getBoard localeCompare st))
        /\ Forall (derivedFieldsHold localeCompare)
             (allCards (snap_board (getSnapshot localeCompare st)))
        /\ (Js.toLowerCase (Js.trim (query (store_filter st))) = EmptyString ->
            normalizeTagFilter (tag (store_filter st)) = EmptyString ->
            Forall (derivedFieldsHold localeCompare)
              (flat_map col_cards (visibleColumns (getSnapshot localeCompare st))))).
Proof.
  split; [exact normalizeCard_derived|]. split.
  - intros content entropy document.
    apply (parsed_cards_all localeCompare dateNow randomIndex parseYaml
             (derivedFieldsHold localeCompare)).
    intros. apply normalizeCard_derived.
  - intros st. split; [apply cloneBoard_derived|]. split.
    + unfold getSnapshot. destruct (negb _ && negb _); apply cloneBoard_derived.
    + intros Hquery Htag. unfold getSnapshot. rewrite Hquery, Htag. simpl.
      pose proof (cloneBoard_derived (store_board st)) as Hall.
      unfold allCards in Hall. now apply Forall_app in Hall as [Hlanes _].
Qed.

End DerivedFields.

Lemma derived_fields_follow_the_text_witness :
  Sample.parse Sample.taggedFile = inr Sample.tagged
  /\ map card_tags (allCards Sample.tagged) = [["#parser"; "#ui"]]
  /\ Forall (derivedFieldsHold codeUnitCompare) (allCards Sample.tagged).
Proof.
  assert (Hparse : Sample.parse Sample.taggedFile = inr Sample.tagged)
    by (vm_compute; reflexivity).
  split; [exact Hparse|]. split; [reflexivity|].
  exact (proj1 (proj2 (derived_fields_follow_the_text codeUnitCompare Fixture.clock
                         Fixture.dice Sample.parseYaml))
           Sample.taggedFile Fixture.start Sample.tagged Hparse).
Defined.

(** C5 as the specification words it fails: [issue#42] holds a [#] followed
    by digits, and the card has no tag for it. *)
Lemma tags_skip_hash_inside_a_word :
  ~ derivedFieldsAsSpecified codeUnitCompare
      (normalizeCard codeUnitCompare (mkCardInput "c1" "see issue#42" EmptyString false None)).
Proof.
  unfold derivedFieldsAsSpecified. intros [Htags _]. vm_compute in Htags. discriminate.
Qed.

(** Under an active filter the visible lanes hold the store's own cards:
    a card that [addCard] received with derived fields that do not fit its
    text is matched by those fields and shown with them, while [getBoard()]
    derives them afresh. *)
Example filtered_view_shows_cards_as_stored :
  let stale :=
    mkCard "c1" "renamed #new" EmptyString false None ["#old"] "old title" in
  let st :=
    setFilterQuery codeUnitCompare "old"
      (addCard codeUnitCompare "lane" stale bottom
         (newStore codeUnitCompare (Fixture.boardOf [Fixture.lane []]))) in
  map (fun column => map card_tags (col_cards column))
    (visibleColumns (getSnapshot codeUnitCompare st)) = [[["#old"]]]
  /\ map (fun column => map card_tags (col_cards column))
       (columns (getBoard codeUnitCompare st)) = [[["#new"]]].
Proof. vm_compute. split; reflexivity. Qed.

(** ** C8: card titles *)

Lemma trimStart_head (s : string) : headNotSpace (Js.trimStart s).
Proof.
  induction s as [|a s IH]; simpl; [exact I|].
  destruct (Js.isSpace a) eqn:Hspace; [exact IH|exact Hspace].
Qed.

Lemma trimStart_fixed (s : string) : headNotSpace s -> Js.trimStart s = s.
Proof. destruct s as [|a s]; simpl; [reflexivity|]. now intros ->. Qed.

Lemma trimEnd_head (s : string) : headNotSpace s -> headNotSpace (Js.trimEnd s).
Proof.
  destruct s as [|a s]; simpl; [exact id|]. intros Hspace.
  destruct (Js.trimEnd s); [rewrite Hspace|]; exact Hspace.
Qed.

Lemma trimEnd_idempotent (s : string) : Js.trimEnd (Js.trimEnd s) = Js.trimEnd s.
Proof.
  induction s as [|a s IH]; [reflexivity|]. cbn [Js.trimEnd].
  destruct (Js.trimEnd s) as [|b t] eqn:Hend.
  - destruct (Js.isSpace a) eqn:Hspace; [reflexivity|]. simpl. now rewrite Hspace.
  - cbn [Js.trimEnd]. cbn [Js.trimEnd] in IH. now rewrite IH.
Qed.

Lemma trim_idempotent (s : string) : Js.trim (Js.trim s) = Js.trim s.
Proof.
  unfold Js.trim.
  rewrite (trimStart_fixed (Js.trimEnd (Js.trimStart s)))
    by apply trimEnd_head, trimStart_head.
  apply trimEnd_idempotent.
Qed.

Lemma fromEditableCardText_titled (value : string) :
  Js.trim (content_title (fromEditableCardText value)) <> EmptyString.
Proof.
  unfold fromEditableCardText.
  destruct (fromFirstContentLine _) as [[first rest]|]; [|discriminate]. simpl.
  destruct (Js.trim first) as [|a t] eqn:Hfirst; [discriminate|]. simpl Js.orElse.
  rewrite <- Hfirst, trim_idempotent, Hfirst. discriminate.
Qed.

Section CardTitles.

Variable localeCompare : string -> string -> comparison.
Variable dateNow : nat -> N.
Variable randomIndex : nat -> nat.
Variable parseYaml : string -> option yaml.

(** C8, amended.  The title of a card that the codec reconstructs from
    text has no whitespace at either end, and it may be empty: the card
    line ["- [ ] [id] "] gives a card whose title is the empty string.
    [normalizeCard], and with it the store (which passes cards through it
    when it clones or updates), keeps a title exactly as it is given; no
    placeholder is put in.  The placeholder ["Untitled"] comes
    from [fromEditableCardText], whose title is never blank. *)
Theorem card_titles_are_trimmed_not_filled :
  (forall content entropy document,
     fst (parseBoardMarkdown localeCompare dateNow randomIndex parseYaml content entropy)
     = inr document ->
     Forall (fun card => Js.trim (card_title card) = card_title card) (allCards document))
  /\ (forall entropy,
        map card_title
          (fst (parseCardsFromLines localeCompare dateNow randomIndex ["- [ ] [id] "] entropy))
        = [EmptyString])
  /\ (forall input, card_title (normalizeCard localeCompare input) = in_title input)
  /\ (forall card, card_title (renormalize localeCompare card) = card_title card)
  /\ (forall value, Js.trim (content_title (fromEditableCardText value)) <> EmptyString).
Proof.
  split; [|split; [|split; [|split]]].
  - intros content entropy document.
    apply (parsed_cards_all localeCompare dateNow randomIndex parseYaml
             (fun card => Js.trim (card_title card) = card_title card)).
    intros. simpl. apply trim_idempotent.
  - intros entropy. vm_compute. reflexivity.
  - reflexivity.
  - reflexivity.
  - exact fromEditableCardText_titled.
Qed.

End CardTitles.

Lemma card_titles_are_trimmed_not_filled_witness :
  Sample.parse blankTitleFile = inr (blankTitled)
  /\ Forall (fun card => Js.trim (card_title card) = card_title card)
       (allCards (blankTitled)).
Proof.
  assert (Hparse : Sample.parse blankTitleFile = inr (blankTitled))
    by (vm_compute; reflexivity).
  split; [exact Hparse|].
  exact (proj1 (card_titles_are_trimmed_not_filled codeUnitCompare Fixture.clock
                  Fixture.dice Sample.parseYaml)
           blankTitleFile Fixture.start (blankTitled) Hparse).
Defined.

(** C8 as the specification words it fails on the very card line it
    names: the parsed card has an empty title. *)
Lemma blank_card_line_gives_empty_title :
  ~ (forall content document,
       Sample.parse content = inr document ->
       Forall (fun card => Js.trim (card_title card) <> EmptyString) (allCards document)).
Proof.
  intros Hclaim.
  assert (Hparse : Sample.parse blankTitleFile = inr (blankTitled))
    by (vm_compute; reflexivity).
  specialize (Hclaim _ _ Hparse).
  inversion Hclaim as [|card cards Htitle _]. now apply Htitle.
Qed.

(** ** C1: a second round trip *)

Section RoundTrip.

Variable localeCompare : string -> string -> comparison.
Variable dateNow : nat -> N.
Variable randomIndex : nat -> nat.
Variable parseYaml : string -> option yaml.
Variable stringifyYaml : yaml -> string.

Local Abbreviation passes :=
  (roundTrip localeCompare dateNow randomIndex parseYaml stringifyYaml).

Lemma parse_accepts (content header body : string) (decoded : yaml) (entropy : Entropy) :
  frontmatterOf (normalizeNewlines content) = Some (header, body) ->
  parseYaml header = Some decoded ->
  isObject decoded = true ->
  prop decoded "kanban" = Some (YBool true) ->
  fst (parseBoardMarkdown localeCompare dateNow randomIndex parseYaml content entropy)
  = inr (fst (assembleBoard localeCompare dateNow randomIndex decoded body entropy)).
Proof.
  intros Hheader Hyaml Hobject Hmarker.
  unfold parseBoardMarkdown, splitFrontmatter.
  pose proof (frontmatter_match (normalizeNewlines content)) as Hmatch.
  destruct (Re.exec frontmatterRegex (normalizeNewlines content)) as [m|];
    rewrite Hheader in Hmatch; [|discriminate].
  injection Hmatch as <- <-.
  rewrite Hyaml, Hobject. cbn [negb]. rewrite Hmarker. unfold bind.
  now destruct (assembleBoard _ _ _ _ _ _).
Qed.

Hypothesis reads_header : parseYaml Sample.header = Some Sample.frontmatter.
Hypothesis writes_header : stringifyYaml Sample.frontmatter = Sample.header +:+ newline.

Lemma roundTrip_sample (cardLines : list string) (board : BoardDocument) (out : string)
  (entropy : Entropy) :
  frontmatterOf (normalizeNewlines (Sample.file cardLines))
  = Some (Sample.header, Js.sliceFrom (String.length Sample.header + 9) (Sample.file cardLines)) ->
  fst (assembleBoard localeCompare dateNow randomIndex Sample.frontmatter
         (Js.sliceFrom (String.length Sample.header + 9) (Sample.file cardLines)) entropy)
  = board ->
  buildFrontmatter board = Sample.frontmatter ->
  serializeBoardMarkdown localeCompare (fun _ => Sample.header +:+ newline) board = out ->
  passes (Sample.file cardLines) entropy = Some out.
Proof.
  intros Hheader Hboard Hfront Hout. unfold roundTrip.
  rewrite (parse_accepts _ _ _ _ entropy Hheader reads_header eq_refl eq_refl), Hboard.
  f_equal. rewrite <- Hout. unfold serializeBoardMarkdown.
  now rewrite Hfront, writes_header.
Qed.

(** C1, at a text where the code departs from it.  The file has one card
    with two due lines.  Parsing takes the first as the due date and keeps
    the second as description; serializing writes the description before
    the due date, so in the output the two lines have changed places, and
    the next parse takes the other date.  The second pass is therefore not
    byte-identical to the first: the two dates swap on every save. *)
Theorem second_round_trip_swaps_due_lines (entropy : Entropy) :
  passes dueTwiceFile entropy = Some firstPass
  /\ passes firstPass entropy = Some secondPass
  /\ firstPass <> secondPass.
Proof.
  split; [|split].
  - apply (roundTrip_sample _ dueTwiceBoard); vm_compute; reflexivity.
  - apply (roundTrip_sample _ firstPassBoard); vm_compute; reflexivity.
  - vm_compute. discriminate.
Qed.

End RoundTrip.

(** the stand-in writes the sample header as the library does *)
Example sample_header_text :
  Sample.stringifyYaml Sample.frontmatter = Sample.header +:+ newline
  /\ Sample.parseYaml Sample.header = Some Sample.frontmatter.
Proof. vm_compute. split; reflexivity. Qed.

Lemma second_round_trip_swaps_due_lines_witness :
  roundTrip codeUnitCompare Fixture.clock Fixture.dice Sample.parseYaml Sample.stringifyYaml
    firstPass Fixture.start
  = Some secondPass
  /\ firstPass <> secondPass.
Proof.
  exact (proj2 (second_round_trip_swaps_due_lines codeUnitCompare Fixture.clock Fixture.dice
                  Sample.parseYaml Sample.stringifyYaml
                  (proj2 sample_header_text) (proj1 sample_header_text) Fixture.start)).
Defined.

(** ** The repository's tests, replayed on the embedding *)

Module Replay.

Import Fixture.

(** store.test.ts, "moves columns" *)
Example moves_columns :
  columnIds
    (moveColumn codeUnitCompare "one" 2
       (newStore codeUnitCompare
          (boardOf [emptyLane "one" "One"; emptyLane "two" "Two"; emptyLane "three" "Three"])))
  = ["two"; "three"; "one"].
Proof. vm_compute. reflexivity. Qed.

(** store.test.ts, "moves columns across adjacent positions" *)
Example moves_columns_across_adjacent_positions :
  let st0 :=
    newStore codeUnitCompare
      (boardOf [emptyLane "one" "One"; emptyLane "two" "Two";
                emptyLane "three" "Three"; emptyLane "four" "Four"]) in
  let st1 := moveColumn codeUnitCompare "two" 2 st0 in
  let st2 := moveColumn codeUnitCompare "two" 1 st1 in
  let st3 := moveColumn codeUnitCompare "four" 0 st2 in
  columnIds st1 = ["one"; "three"; "two"; "four"]
  /\ columnIds st2 = ["one"; "two"; "three"; "four"]
  /\ columnIds st3 = ["four"; "one"; "two"; "three"].
Proof. vm_compute. repeat split; reflexivity. Qed.

(** store.test.ts, "archives all cards from a column" *)
Example archives_all_cards_from_a_column :
  let st0 := newStore codeUnitCompare (boardOf [lane [plainCard "a" "A"; plainCard "b" "B"]]) in
  let (moved, st1) := archiveColumnCards codeUnitCompare "lane" st0 in
  moved = 2
  /\ cardTitles st1 = [[]]
  /\ map card_title (archive (getBoard codeUnitCompare st1)) = ["A"; "B"].
Proof. vm_compute. repeat split; reflexivity. Qed.

(** store.test.ts, "inserts parsed cards before and after" *)
Example inserts_parsed_cards_before_and_after :
  let st0 := newStore codeUnitCompare (boardOf [lane [plainCard "e" "Existing"]]) in
  let st1 :=
    snd (insertCardsFromParsedLines codeUnitCompare "lane"
           [plainCard "b1" "Before 1"; plainCard "b2" "Before 2"] before st0) in
  let st2 :=
    snd (insertCardsFromParsedLines codeUnitCompare "lane" [plainCard "a1" "After 1"]
           after st1) in
  cardTitles st2 = [["Before 1"; "Before 2"; "Existing"; "After 1"]].
Proof. vm_compute. reflexivity. Qed.

(** parser-serializer.test.ts, "parses board metadata, cards, and archive" *)
Example parses_board_metadata_cards_and_archive :
  let board := Sample.parsed Sample.productFile in
  boardTitle board = "Product Board"
  /\ density board = compact
  /\ map col_id (columns board) = ["todo"; "doing"]
  /\ map (fun column => map card_dueDate (col_cards column)) (columns board)
     = [[Some "2026-02-17"]; [None]]
  /\ map (fun column => map card_tags (col_cards column)) (columns board)
     = [[["#backend"]]; [["#ui"]]]
  /\ map (fun column => map card_checked (col_cards column)) (columns board)
     = [[false]; [true]]
  /\ map card_title (archive board) = ["Old archived card"].
Proof. vm_compute. repeat split; reflexivity. Qed.

(** parser-serializer.test.ts, "round-trips deterministically" *)
Example round_trips_deterministically :
  Sample.pass Sample.productFile = Some Sample.productFirst
  /\ Js.includes Sample.productFirst "  ^card-1" = true
  /\ Sample.pass Sample.productFirst = Some Sample.productFirst.
Proof. vm_compute. repeat split; reflexivity. Qed.

(** parser-serializer.test.ts, "supports zero-column boards" *)
Example supports_zero_column_boards :
  Sample.parse Sample.emptyFile = inr (mkBoard "Empty board" EmptyString normal [] []).
Proof. vm_compute. reflexivity. Qed.

(** parser-serializer.test.ts, "keeps frontmatter columns order and appends
    body-only columns" *)
Example keeps_frontmatter_columns_order :
  map (fun column => (col_id column, map card_title (col_cards column)))
    (columns (Sample.parsed Sample.orderedFile))
  = [("b", []); ("a", ["In A"]); ("c", ["In C"])].
Proof. vm_compute. reflexivity. Qed.

(** parser-serializer.test.ts, "ignores block anchor lines inside card
    descriptions" *)
Example ignores_block_anchor_lines :
  map card_description
    (allCards
       (Sample.parsed
          (Sample.file ["- [ ] [card-1] Task"; "  ^card-1"; "  Keep this line"])))
  = ["Keep this line"].
Proof. vm_compute. reflexivity. Qed.

(** parser-serializer.test.ts, "throws when kanban frontmatter marker is
    missing", and the other ways to fail *)
Example the_ways_to_fail :
  Sample.parse (Sample.headerOnly "boardTitle: Not a board")
  = inl (mkBoardParseError missingMarker)
  /\ Sample.parse (Sample.headerOnly "kanban: maybe") = inl (mkBoardParseError missingMarker)
  /\ Sample.parse (Sample.headerOnly "just a sentence") = inl (mkBoardParseError notAnObject)
  /\ Sample.parse (Sample.headerOnly "kanban: [true") = inl (mkBoardParseError notYaml)
  /\ Sample.parse "# A note, not a board" = inl (mkBoardParseError missingFrontmatter).
Proof. vm_compute. repeat split; reflexivity. Qed.

(** A round trip that is a fixed point: one due line. *)
Example round_trip_of_a_plain_card :
  let text :=
    Sample.file ["- [x] [card-1] Implement parser #backend"; "  ^card-1";
                 "  Add failing test first"; "  due:: 2026-02-17"] in
  Sample.pass text = Some text.
Proof. vm_compute. reflexivity. Qed.

End Replay.

(** * Further properties

    Properties of the code beyond the claims: the store's operations, the
    invariants of the documents handed out, cards written and read back,
    pasted lists, the card editor's text, identifiers and the save queue. *)

(** ** Moving lanes *)

Lemma spliceIn_one_lookup {A} (k : nat) (x : A) (l : list A) :
  k <= length l -> spliceIn k [x] l !! k = Some x.
Proof.
  intros Hk. unfold spliceIn.
  rewrite lookup_app_r by (rewrite length_take; lia).
  rewrite length_take. replace (k - k `min` length l) with 0 by lia. reflexivity.
Qed.

Lemma spliceIn_one_delete {A} (k : nat) (x : A) (l : list A) :
  k <= length l -> delete k (spliceIn k [x] l) = l.
Proof.
  intros Hk. unfold spliceIn.
  replace k with (length (take k l)) at 1 by (rewrite length_take; lia).
  simpl. rewrite delete_middle. apply take_drop.
Qed.

Lemma spliceIn_one_Permutation {A} (k : nat) (x : A) (l : list A) :
  spliceIn k [x] l ≡ₚ x :: l.
Proof.
  unfold spliceIn. simpl. rewrite <- Permutation_middle. now rewrite take_drop.
Qed.

Lemma clampIndex_range (targetIndex : Z) (n : nat) :
  Z.to_nat (clampIndex targetIndex n) <= n.
Proof. unfold clampIndex. lia. Qed.

Section MoveColumn.

Variable localeCompare : string -> string -> comparison.

(** X1.  [moveColumn] on a lane the document has: the lane ends up at the
    target index clamped to [0 .. n-1] (n the number of lanes), the other
    lanes keep their order, no lane is lost or duplicated, and the
    archive and the board's fields are untouched. *)
Theorem moveColumn_places_the_lane (st : BoardStore) (sourceColumnId : string)
  (targetIndex : Z) (i : nat) (moved : Column) :
  list_find (fun column => col_id column = sourceColumnId) (columns (store_board st))
  = Some (i, moved) ->
  let cols := columns (store_board st) in
  let after := store_board (moveColumn localeCompare sourceColumnId targetIndex st) in
  let k := Z.to_nat (clampIndex targetIndex (length cols - 1)) in
  columns after !! k = Some moved
  /\ delete k (columns after) = delete i cols
  /\ columns after ≡ₚ cols
  /\ after = setColumns (store_board st) (columns after).
Proof.
  intros Hfind cols after k.
  assert (Hlen : length (delete i cols) = length cols - 1).
  { apply list_find_Some in Hfind as (Hi & _ & _).
    rewrite length_delete; [reflexivity|]. eauto. }
  assert (Hafter : columns after = spliceIn k [moved] (delete i cols)).
  { unfold after, moveColumn. rewrite Hfind. rewrite store_board_updateColumns.
    simpl. unfold k. fold cols. now rewrite Hlen. }
  assert (Hk : k <= length (delete i cols)).
  { rewrite Hlen. apply clampIndex_range. }
  repeat split.
  - rewrite Hafter. now apply spliceIn_one_lookup.
  - rewrite Hafter. now apply spliceIn_one_delete.
  - rewrite Hafter, spliceIn_one_Permutation.
    symmetry. apply delete_Permutation.
    now apply list_find_Some in Hfind as (Hi & _ & _).
  - unfold after, moveColumn. rewrite Hfind. rewrite store_board_updateColumns.
    reflexivity.
Qed.

End MoveColumn.

Lemma moveColumn_places_the_lane_witness :
  let st := newStore codeUnitCompare
              (Fixture.boardOf [Fixture.emptyLane "todo" "Todo";
                                Fixture.emptyLane "doing" "Doing";
                                Fixture.emptyLane "done" "Done"]) in
  let after := store_board (moveColumn codeUnitCompare "todo" 7 st) in
  columns after !! 2 = Some (Fixture.emptyLane "todo" "Todo")
  /\ delete 2 (columns after) = [Fixture.emptyLane "doing" "Doing"; Fixture.emptyLane "done" "Done"].
Proof.
  intros st after.
  destruct (moveColumn_places_the_lane codeUnitCompare st "todo" 7 0
              (Fixture.emptyLane "todo" "Todo") eq_refl) as (Hat & Hrest & _).
  split; [exact Hat|exact Hrest].
Defined.

(** ** Moving cards *)

Lemma alter_frame (change : Column -> Column) (i : nat) (cols : list Column) :
  (forall column, laneFrame (change column) = laneFrame column) ->
  map laneFrame (alter change i cols) = map laneFrame cols.
Proof.
  intros Hframe. revert i. induction cols as [|c cols IH]; intros [|i]; simpl; try reflexivity.
  - now rewrite Hframe.
  - f_equal. apply IH.
Qed.

Lemma alter_cards (change : Column -> Column) (i : nat) (cols : list Column) (column : Column) :
  cols !! i = Some column ->
  laneCards (alter change i cols) ++ col_cards column
  ≡ₚ laneCards cols ++ col_cards (change column).
Proof.
  revert i. induction cols as [|c cols IH]; intros [|i] Hi; simpl in *; try discriminate.
  - injection Hi as ->. unfold laneCards. simpl. solve_Permutation.
  - unfold laneCards in *. simpl. rewrite <- !app_assoc.
    apply Permutation_app_head. now apply IH.
Qed.

Section MoveCardConservation.

Variable localeCompare : string -> string -> comparison.

(** X2.  [moveCard] never loses, duplicates or alters a card: whatever
    the arguments, the cards held by the lanes afterwards are a
    rearrangement of those held before; the lanes keep their ids, titles
    and limits in the same order; archive and board fields are untouched. *)
Theorem moveCard_conserves_cards (st : BoardStore)
  (sourceColumnId cardId targetColumnId : string) (targetIndex : Z) :
  let before := store_board st in
  let after :=
    store_board (moveCard localeCompare sourceColumnId cardId targetColumnId targetIndex st) in
  laneCards (columns after) ≡ₚ laneCards (columns before)
  /\ map laneFrame (columns after) = map laneFrame (columns before)
  /\ after = setColumns before (columns after).
Proof.
  intros before after. unfold after, moveCard. fold before.
  assert (Hsame : laneCards (columns before) ≡ₚ laneCards (columns before)
                  /\ map laneFrame (columns before) = map laneFrame (columns before)
                  /\ before = setColumns before (columns before))
    by (split; [reflexivity|split; [reflexivity|symmetry; apply setColumns_same]]).
  destruct (list_find _ (columns before)) as [[i source]|] eqn:Hsource; [|exact Hsame].
  destruct (list_find (fun column => col_id column = targetColumnId) (columns before))
    as [[t target]|] eqn:Htarget; [|exact Hsame].
  destruct (list_find _ (col_cards source)) as [[j card]|] eqn:Hcard; [|exact Hsame].
  destruct (alter _ i (columns before) !! t) as [next|] eqn:Hnext; [|exact Hsame].
  rewrite store_board_updateColumns. simpl.
  apply list_find_Some in Hsource as (Hi & _ & _).
  apply list_find_Some in Hcard as (Hj & _ & _).
  repeat split.
  - pose proof (alter_cards
                  (fun column => setCards column (delete j (col_cards column)))
                  i (columns before) source Hi) as Hout.
    match goal with
    | |- laneCards (alter ?g t ?cols1) ≡ₚ _ =>
        pose proof (alter_cards g t cols1 next Hnext) as Hin
    end.
    simpl in Hout, Hin.
    pose proof (delete_Permutation _ _ _ Hj) as Hleft.
    remember (delete j (col_cards source)) as left eqn:Eleft. clear Eleft.
    rewrite spliceIn_one_Permutation in Hin.
    rewrite Hleft in Hout.
    apply (Permutation_app_inv_r (col_cards next)).
    rewrite Hin. clear Hin.
    assert (Hback : card :: laneCards (alter (fun column =>
                       setCards column (delete j (col_cards column))) i (columns before))
                    ≡ₚ laneCards (columns before)).
    { apply (Permutation_app_inv_r left). rewrite <- Hout. solve_Permutation. }
    rewrite <- Hback. solve_Permutation.
  - rewrite !alter_frame; [reflexivity| |]; intros c; reflexivity.
Qed.

(** What [moveCard] does between two lanes, when both and the card exist. *)
Lemma moveCard_between_lanes (st : BoardStore)
  (sourceColumnId cardId targetColumnId : string) (targetIndex : Z)
  (i t j : nat) (source target : Column) (card : Card) :
  sourceColumnId <> targetColumnId ->
  list_find (fun c => col_id c = sourceColumnId) (columns (store_board st)) = Some (i, source) ->
  list_find (fun c => col_id c = targetColumnId) (columns (store_board st)) = Some (t, target) ->
  list_find (fun c => card_id c = cardId) (col_cards source) = Some (j, card) ->
  let k := Z.to_nat (clampIndex targetIndex (length (col_cards target))) in
  columns (store_board
             (moveCard localeCompare sourceColumnId cardId targetColumnId targetIndex st))
  = <[t := setCards target (spliceIn k [card] (col_cards target))]>
      (<[i := setCards source (delete j (col_cards source))]> (columns (store_board st))).
Proof.
  intros Hdiff Hsource Htarget Hcard k.
  unfold moveCard. rewrite Hsource, Htarget, Hcard.
  apply list_find_Some in Hsource as (Hi & Hsid & _).
  apply list_find_Some in Htarget as (Ht & Htid & _).
  assert (Hne : i <> t) by (intros ->; congruence).
  rewrite list_lookup_alter_ne by exact Hne. rewrite Ht.
  rewrite bool_decide_eq_false_2 by exact Hdiff. simpl andb. cbv iota.
  rewrite store_board_updateColumns. simpl. fold k.
  apply list_eq. intros n.
  destruct (decide (n = t)) as [->|Hnt].
  - rewrite list_lookup_alter_eq, list_lookup_alter_ne, Ht by exact Hne.
    rewrite list_lookup_insert_eq; [reflexivity|].
    rewrite length_insert. eapply lookup_lt_Some; eauto.
  - rewrite list_lookup_alter_ne, list_lookup_insert_ne by congruence.
    destruct (decide (n = i)) as [->|Hni].
    + rewrite list_lookup_alter_eq, Hi.
      rewrite list_lookup_insert_eq; [reflexivity|]. eapply lookup_lt_Some; eauto.
    + rewrite list_lookup_alter_ne, list_lookup_insert_ne by congruence. reflexivity.
Qed.

(** X3.  [moveCard] between two different lanes that exist, for a card
    the source lane has: the card leaves its position in the source lane
    and stands in the target lane at the target index clamped to
    [0 .. length of the target lane], the cards of both lanes keeping
    their order otherwise; no other lane changes. *)
Theorem moveCard_across_lanes (st : BoardStore)
  (sourceColumnId cardId targetColumnId : string) (targetIndex : Z)
  (i t j : nat) (source target : Column) (card : Card) :
  sourceColumnId <> targetColumnId ->
  list_find (fun c => col_id c = sourceColumnId) (columns (store_board st)) = Some (i, source) ->
  list_find (fun c => col_id c = targetColumnId) (columns (store_board st)) = Some (t, target) ->
  list_find (fun c => card_id c = cardId) (col_cards source) = Some (j, card) ->
  let k := Z.to_nat (clampIndex targetIndex (length (col_cards target))) in
  let after :=
    columns (store_board
               (moveCard localeCompare sourceColumnId cardId targetColumnId targetIndex st)) in
  after !! i = Some (setCards source (delete j (col_cards source)))
  /\ (exists cards,
        after !! t = Some (setCards target cards)
        /\ cards !! k = Some card
        /\ delete k cards = col_cards target)
  /\ (forall n, n <> i -> n <> t -> after !! n = columns (store_board st) !! n)
  /\ length after = length (columns (store_board st)).
Proof.
  intros Hdiff Hsource Htarget Hcard k after.
  unfold after. rewrite (moveCard_between_lanes st sourceColumnId cardId targetColumnId
                           targetIndex i t j source target card Hdiff Hsource Htarget Hcard).
  fold k.
  apply list_find_Some in Hsource as (Hi & Hsid & _).
  apply list_find_Some in Htarget as (Ht & Htid & _).
  assert (Hne : i <> t) by (intros ->; congruence).
  assert (Hk : k <= length (col_cards target)) by apply clampIndex_range.
  split; [|split; [|split]].
  - rewrite list_lookup_insert_ne by congruence.
    apply list_lookup_insert_eq. eapply lookup_lt_Some; eauto.
  - exists (spliceIn k [card] (col_cards target)). split; [|split].
    + apply list_lookup_insert_eq. rewrite length_insert. eapply lookup_lt_Some; eauto.
    + now apply spliceIn_one_lookup.
    + now apply spliceIn_one_delete.
  - intros n Hni Hnt. now rewrite !list_lookup_insert_ne by congruence.
  - now rewrite !length_insert.
Qed.

End MoveCardConservation.

Lemma moveCard_across_lanes_witness :
  let a := Fixture.plainCard "a" "A" in
  let b := Fixture.plainCard "b" "B" in
  let c := Fixture.plainCard "c" "C" in
  let todo := mkColumn "todo" "Todo" None [a; b] in
  let done := mkColumn "done" "Done" None [c] in
  let st := newStore codeUnitCompare (Fixture.boardOf [todo; done]) in
  columns (store_board (moveCard codeUnitCompare "todo" "a" "done" 5 st)) !! 0
  = Some (mkColumn "todo" "Todo" None [b]).
Proof.
  intros a b c todo done st.
  assert (Hne : "todo" <> "done") by discriminate.
  exact (proj1 (moveCard_across_lanes codeUnitCompare st "todo" "a" "done" 5 0 1 0
                  todo done a Hne eq_refl eq_refl eq_refl)).
Defined.

(** ** Archiving and deleting *)

Lemma mapColumn_lookup (columnId : string) (change : Column -> Column) (cols : list Column)
  (k : nat) :
  mapColumn columnId change cols !! k
  = (fun column => if decide (col_id column = columnId) then change column else column)
      <$> cols !! k.
Proof. unfold mapColumn. apply list_lookup_fmap. Qed.

Lemma mapColumn_unique (columnId : string) (change : Column -> Column) (cols : list Column)
  (i : nat) (column : Column) :
  NoDup (map col_id cols) ->
  cols !! i = Some column ->
  col_id column = columnId ->
  mapColumn columnId change cols = <[i := change column]> cols.
Proof.
  intros Hunique Hi Hid. apply list_eq. intros k. rewrite mapColumn_lookup.
  destruct (decide (k = i)) as [->|Hne].
  - rewrite Hi. simpl. rewrite decide_True by exact Hid.
    rewrite list_lookup_insert_eq; [reflexivity|]. eapply lookup_lt_Some; eauto.
  - rewrite list_lookup_insert_ne by congruence.
    destruct (cols !! k) as [other|] eqn:Hk; [|reflexivity]. simpl.
    destruct (decide (col_id other = columnId)) as [Hsame|]; [|reflexivity].
    exfalso. apply Hne.
    apply (NoDup_lookup (map col_id cols) k i columnId Hunique).
    + change (map col_id cols) with (col_id <$> cols).
      now rewrite list_lookup_fmap, Hk; simpl; rewrite Hsame.
    + change (map col_id cols) with (col_id <$> cols).
      now rewrite list_lookup_fmap, Hi; simpl; rewrite Hid.
Qed.

Lemma laneCards_insert (cols : list Column) (i : nat) (column next : Column) :
  cols !! i = Some column ->
  laneCards (<[i := next]> cols) ++ col_cards column ≡ₚ laneCards cols ++ col_cards next.
Proof.
  intros Hi.
  replace (<[i := next]> cols) with (alter (fun _ => next) i cols).
  - now apply (alter_cards (fun _ => next)).
  - apply list_eq. intros k. destruct (decide (k = i)) as [->|Hne].
    + rewrite list_lookup_alter_eq, Hi. simpl.
      rewrite list_lookup_insert_eq; [reflexivity|]. eapply lookup_lt_Some; eauto.
    + rewrite list_lookup_alter_ne, list_lookup_insert_ne by congruence. reflexivity.
Qed.

Section Archiving.

Variable localeCompare : string -> string -> comparison.

(** X4.  [archiveColumnCards] on a document whose lane ids are distinct:
    it returns the number of cards the lane held, empties that lane and
    no other, appends the lane's cards to the archive in their order, and
    so keeps every card of the document. *)
Theorem archiveColumnCards_moves_the_lane (st : BoardStore) (columnId : string)
  (i : nat) (column : Column) :
  NoDup (map col_id (columns (store_board st))) ->
  list_find (fun entry => col_id entry = columnId) (columns (store_board st))
  = Some (i, column) ->
  let before := store_board st in
  let after := store_board (snd (archiveColumnCards localeCompare columnId st)) in
  fst (archiveColumnCards localeCompare columnId st) = length (col_cards column)
  /\ columns after = <[i := setCards column []]> (columns before)
  /\ archive after = archive before ++ col_cards column
  /\ allCards after ≡ₚ allCards before.
Proof.
  intros Hunique Hfind before after.
  pose proof Hfind as Hfound. apply list_find_Some in Hfound as (Hi & Hid & _).
  assert (Hshape : fst (archiveColumnCards localeCompare columnId st) = length (col_cards column)
                   /\ columns after = <[i := setCards column []]> (columns before)
                   /\ archive after = archive before ++ col_cards column).
  { subst before after. unfold archiveColumnCards, cardsOfColumn. rewrite Hfind.
    destruct (col_cards column) as [|card cards] eqn:Hcards.
    - simpl. split; [reflexivity|]. split; [|now rewrite app_nil_r].
      symmetry. apply list_insert_id.
      rewrite Hi. f_equal. destruct column; simpl in *. now subst.
    - simpl. split; [reflexivity|]. split; [|reflexivity].
      now apply (mapColumn_unique columnId (fun entry => setCards entry [])). }
  destruct Hshape as (Hcount & Hcols & Harchive).
  repeat split; try assumption.
  unfold allCards. rewrite Hcols, Harchive.
  pose proof (laneCards_insert (columns before) i column (setCards column []) Hi) as Hperm.
  simpl in Hperm. rewrite app_nil_r in Hperm. unfold laneCards in Hperm.
  rewrite <- Hperm. solve_Permutation.
Qed.

(** X5.  [deleteColumn] keeps exactly the lanes with another id, in their
    order, and leaves the archive alone (the cards of a deleted lane are
    dropped, not archived); afterwards the id is unknown to the document,
    so deleting again changes nothing. *)
Theorem deleteColumn_forgets_the_lane (st : BoardStore) (columnId : string) :
  let before := store_board st in
  let after := store_board (deleteColumn localeCompare columnId st) in
  (forall column, column ∈ columns after
                  <-> column ∈ columns before /\ col_id column <> columnId)
  /\ sublist (columns after) (columns before)
  /\ archive after = archive before
  /\ unknownColumn columnId (deleteColumn localeCompare columnId st)
  /\ store_board (deleteColumn localeCompare columnId (deleteColumn localeCompare columnId st))
     = after.
Proof.
  intros before after.
  assert (Hcols : columns after
                  = filter (fun column => col_id column <> columnId) (columns before))
    by reflexivity.
  assert (Hunknown : unknownColumn columnId (deleteColumn localeCompare columnId st)).
  { unfold unknownColumn. fold after. rewrite Hcols.
    apply Forall_forall. intros c Hc. now apply list_elem_of_filter in Hc as [Hc _]. }
  split; [|split; [|split; [|split]]].
  - intros column. rewrite Hcols, list_elem_of_filter. tauto.
  - rewrite Hcols. apply sublist_filter.
  - reflexivity.
  - exact Hunknown.
  - unfold deleteColumn at 1. rewrite store_board_updateColumns.
    rewrite filter_keeps_all by exact Hunknown. apply setColumns_same.
Qed.

End Archiving.

Lemma archiveColumnCards_moves_the_lane_witness :
  let a := Fixture.plainCard "a" "A" in
  let b := Fixture.plainCard "b" "B" in
  let c := Fixture.plainCard "c" "C" in
  let todo := mkColumn "todo" "Todo" None [a; b] in
  let done := mkColumn "done" "Done" None [c] in
  let st := newStore codeUnitCompare (mkBoard "Board" EmptyString normal [todo; done] [c]) in
  fst (archiveColumnCards codeUnitCompare "todo" st) = 2
  /\ archive (store_board (snd (archiveColumnCards codeUnitCompare "todo" st))) = [c; a; b].
Proof.
  intros a b c todo done st.
  assert (Hunique : NoDup (map col_id (columns (store_board st)))).
  { apply (bool_decide_unpack (NoDup (map col_id (columns (store_board st))))).
    vm_compute. exact I. }
  destruct (archiveColumnCards_moves_the_lane codeUnitCompare st "todo" 0 todo Hunique eq_refl)
    as (Hcount & _ & Harchive & _).
  split; [exact Hcount|exact Harchive].
Defined.

(** ** Reading a card after writing it *)

Lemma find_mapped_lane (columnId : string) (change : Column -> Column) (cols : list Column) :
  (forall column, col_id (change column) = col_id column) ->
  list_find (fun column => col_id column = columnId) (mapColumn columnId change cols)
  = prod_map id change <$> list_find (fun column => col_id column = columnId) cols.
Proof.
  intros Hid. unfold mapColumn. induction cols as [|c cols IH]; [reflexivity|].
  cbn [map list_find].
  destruct (decide (col_id c = columnId)) as [Hc|Hc].
  - rewrite decide_True by (now rewrite Hid). reflexivity.
  - rewrite decide_False by exact Hc. rewrite IH.
    destruct (list_find _ cols) as [[k found]|]; reflexivity.
Qed.

Lemma find_mapped_card (cardId : string) (change : Card -> Card) (cards : list Card)
  (j : nat) (card : Card) :
  list_find (fun entry => card_id entry = cardId) cards = Some (j, card) ->
  card_id (change card) = cardId ->
  list_find (fun entry => card_id entry = cardId)
    (map (fun entry => if decide (card_id entry = cardId) then change entry else entry) cards)
  = Some (j, change card).
Proof.
  intros Hfind Hid. revert j Hfind. induction cards as [|c cards IH]; intros j Hfind.
  - discriminate.
  - cbn [map list_find] in *.
    destruct (decide (card_id c = cardId)) as [Hc|Hc].
    + injection Hfind as <- <-. now rewrite decide_True by exact Hid.
    + rewrite decide_False by exact Hc.
      destruct (list_find _ cards) as [[k found]|] eqn:Hrest; [|discriminate].
      injection Hfind as <- <-. now rewrite (IH k eq_refl).
Qed.

Lemma renormalize_id localeCompare (card : Card) :
  card_id (renormalize localeCompare card) = card_id card.
Proof. reflexivity. Qed.

Section ReadAfterWrite.

Variable localeCompare : string -> string -> comparison.

(** X6.  [updateCard] followed by [getCard]: when [getCard] finds a card
    and the updater keeps its id, [getCard] afterwards returns the
    updater's result with its due date, tags and search text recomputed,
    whatever the updater put there. *)
Theorem updateCard_then_getCard (st : BoardStore) (columnId cardId : string)
  (updater : Card -> Card) (card : Card) :
  getCard columnId cardId st = Some card ->
  card_id (updater card) = cardId ->
  getCard columnId cardId (updateCard localeCompare columnId cardId updater st)
  = Some (renormalize localeCompare (updater card))
  /\ derivedFieldsHold localeCompare (renormalize localeCompare (updater card)).
Proof.
  intros Hget Hid. split; [|apply normalizeCard_derived].
  unfold getCard in *. unfold updateCard. rewrite store_board_updateColumns. simpl.
  rewrite find_mapped_lane by reflexivity.
  destruct (list_find _ (columns (store_board st))) as [[i column]|]; [|discriminate].
  simpl.
  destruct (list_find _ (col_cards column)) as [[j found]|] eqn:Hcard; [|discriminate].
  injection Hget as ->.
  now rewrite (find_mapped_card cardId (fun entry => renormalize localeCompare (updater entry))
                 (col_cards column) j card Hcard Hid).
Qed.

(** X7.  After [deleteCard] the lane has no card of that id: [getCard]
    returns nothing, whether or not lane and card existed, and the cards
    of the lane with other ids stay, in their order. *)
Theorem deleteCard_then_getCard (st : BoardStore) (columnId cardId other : string) :
  getCard columnId cardId (deleteCard localeCompare columnId cardId st) = None
  /\ (other <> cardId ->
      getCard columnId other (deleteCard localeCompare columnId cardId st)
      = getCard columnId other st).
Proof.
  unfold getCard, deleteCard. rewrite store_board_updateColumns. simpl.
  rewrite find_mapped_lane by reflexivity.
  destruct (list_find _ (columns (store_board st))) as [[i column]|]; simpl;
    [|split; reflexivity].
  split.
  - replace (list_find _ _) with (@None (nat * Card)); [reflexivity|].
    symmetry. apply list_find_None, Forall_forall. intros c Hc.
    now apply list_elem_of_filter in Hc as [Hc _].
  - intros Hother. induction (col_cards column) as [|c cards IH]; [reflexivity|].
    destruct (decide (card_id c = cardId)) as [Hc|Hc].
    + rewrite filter_cons_False by (intros Hn; now apply Hn).
      cbn [list_find]. rewrite decide_False by congruence.
      rewrite IH. destruct (list_find _ cards) as [[k found]|]; reflexivity.
    + rewrite filter_cons_True by exact Hc. cbn [list_find].
      destruct (decide (card_id c = other)); [reflexivity|].
      destruct (list_find _ (filter _ cards)) as [[k found]|];
        destruct (list_find _ cards) as [[k' found']|]; simpl in *; congruence.
Qed.

(** X8.  [addCard] followed by [getCard], for a lane the document has: a
    card added on top is the one found under its id; a card added at the
    bottom is found under its id only when the lane had no card of that
    id, otherwise the older card is still the one found. *)
Theorem addCard_then_getCard (st : BoardStore) (columnId : string) (card : Card)
  (i : nat) (column : Column) :
  list_find (fun entry => col_id entry = columnId) (columns (store_board st))
  = Some (i, column) ->
  getCard columnId (card_id card) (addCard localeCompare columnId card top st) = Some card
  /\ getCard columnId (card_id card) (addCard localeCompare columnId card bottom st)
     = Some (default card (getCard columnId (card_id card) st)).
Proof.
  intros Hfind. unfold getCard, addCard. rewrite !store_board_updateColumns. simpl.
  rewrite !find_mapped_lane by reflexivity. rewrite Hfind. simpl.
  split.
  - now rewrite decide_True by reflexivity.
  - induction (col_cards column) as [|c cards IH]; simpl.
    + now rewrite decide_True by reflexivity.
    + destruct (decide (card_id c = card_id card)); [reflexivity|].
      destruct (list_find _ (cards ++ [card])) as [[k found]|];
        destruct (list_find _ cards) as [[k' found']|]; simpl in *; congruence.
Qed.

End ReadAfterWrite.

Lemma updateCard_then_getCard_witness :
  let st := newStore codeUnitCompare
              (Fixture.boardOf [Fixture.lane [Fixture.plainCard "c1" "Task"]]) in
  let retitle := fun card : Card =>
    {| card_id := card_id card; card_title := "Call #Home"; card_description := EmptyString;
       card_checked := true; card_dueDate := Some "soon"; card_tags := ["#stale"];
       card_searchText := "stale" |} in
  getCard "lane" "c1" (updateCard codeUnitCompare "lane" "c1" retitle st)
  = Some {| card_id := "c1"; card_title := "Call #Home"; card_description := EmptyString;
            card_checked := true; card_dueDate := None; card_tags := ["#home"];
            card_searchText := String.concat newline ["call #home"; ""; "#home"; ""] |}.
Proof.
  intros st retitle.
  exact (proj1 (updateCard_then_getCard codeUnitCompare st "lane" "c1" retitle
                  (Fixture.plainCard "c1" "Task") eq_refl eq_refl)).
Defined.

Lemma addCard_then_getCard_witness :
  let old := Fixture.plainCard "c1" "Old" in
  let new := Fixture.plainCard "c1" "New" in
  let st := newStore codeUnitCompare (Fixture.boardOf [Fixture.lane [old]]) in
  getCard "lane" "c1" (addCard codeUnitCompare "lane" new top st) = Some new
  /\ getCard "lane" "c1" (addCard codeUnitCompare "lane" new bottom st) = Some old.
Proof.
  intros old new st.
  exact (addCard_then_getCard codeUnitCompare st "lane" new 0 (Fixture.lane [old]) eq_refl).
Defined.

(** ** Sorted sets of tags *)

Lemma setAdd_spec (x : string) (members : list string) :
  NoDup members ->
  NoDup (setAdd x members) /\ forall y, y ∈ setAdd x members <-> y = x \/ y ∈ members.
Proof.
  intros Hmembers. unfold setAdd.
  destruct (existsb (String.eqb x) members) eqn:Hx.
  - apply existsb_eqb_In, list_elem_of_In in Hx. split; [exact Hmembers|].
    intros y. split; [auto|]. intros [->|Hy]; assumption.
  - assert (Hout : x ∉ members).
    { intros Hin. apply list_elem_of_In, existsb_eqb_In in Hin. congruence. }
    split.
    + apply NoDup_app. split; [exact Hmembers|]. split; [|apply NoDup_singleton].
      intros y Hy Hy'. apply list_elem_of_singleton in Hy'. now subst.
    + intros y. rewrite elem_of_app, list_elem_of_singleton. tauto.
Qed.

Lemma setOf_loop (values members : list string) :
  NoDup members ->
  NoDup (fold_left (fun members x => setAdd x members) values members)
  /\ forall y, y ∈ fold_left (fun members x => setAdd x members) values members
               <-> y ∈ members \/ y ∈ values.
Proof.
  revert members. induction values as [|x values IH]; intros members Hmembers; simpl.
  - split; [exact Hmembers|]. intros y. rewrite elem_of_nil. tauto.
  - destruct (setAdd_spec x members Hmembers) as [Hnext Hin].
    destruct (IH _ Hnext) as [Hall Hiff]. split; [exact Hall|].
    intros y. rewrite Hiff, Hin, elem_of_cons. tauto.
Qed.

Lemma setOf_spec (values : list string) :
  NoDup (setOf values) /\ forall y, y ∈ setOf values <-> y ∈ values.
Proof.
  destruct (setOf_loop values [] (NoDup_nil_2)) as [Hall Hiff]. split; [exact Hall|].
  intros y. unfold setOf. rewrite Hiff, elem_of_nil. tauto.
Qed.

Lemma insertSorted_Permutation (compare : string -> string -> comparison) (x : string)
  (sorted : list string) :
  insertSorted compare x sorted ≡ₚ x :: sorted.
Proof.
  induction sorted as [|y rest IH]; simpl; [reflexivity|].
  destruct (compare x y); try reflexivity; rewrite IH; apply perm_swap.
Qed.

Lemma sortWith_loop (compare : string -> string -> comparison) (values sorted : list string) :
  fold_left (fun sorted x => insertSorted compare x sorted) values sorted ≡ₚ values ++ sorted.
Proof.
  revert sorted. induction values as [|x values IH]; intros sorted; simpl; [reflexivity|].
  rewrite IH, insertSorted_Permutation. solve_Permutation.
Qed.

Lemma sortWith_Permutation (compare : string -> string -> comparison) (values : list string) :
  sortWith compare values ≡ₚ values.
Proof. unfold sortWith. rewrite sortWith_loop. now rewrite app_nil_r. Qed.

Lemma insertSorted_inOrder (compare : string -> string -> comparison) (x : string)
  (sorted : list string) :
  asymmetric compare -> inOrder compare sorted -> inOrder compare (insertSorted compare x sorted).
Proof.
  intros Hasym. unfold inOrder.
  induction sorted as [|y rest IH]; intros Hsorted; simpl.
  - repeat constructor.
  - destruct (compare x y) eqn:Hxy.
    + apply Sorted_inv in Hsorted as [Hrest Hhead].
      constructor; [now apply IH|].
      destruct rest as [|z rest]; simpl.
      * constructor. congruence.
      * destruct (compare x z); constructor; try congruence;
          now apply HdRel_inv in Hhead.
    + constructor; [exact Hsorted|]. constructor. now apply Hasym.
    + apply Sorted_inv in Hsorted as [Hrest Hhead].
      constructor; [now apply IH|].
      destruct rest as [|z rest]; simpl.
      * constructor. congruence.
      * destruct (compare x z); constructor; try congruence;
          now apply HdRel_inv in Hhead.
Qed.

Lemma sortWith_inOrder (compare : string -> string -> comparison) (values : list string) :
  asymmetric compare -> inOrder compare (sortWith compare values).
Proof.
  intros Hasym. unfold sortWith.
  assert (Hloop : forall sorted, inOrder compare sorted ->
             inOrder compare
               (fold_left (fun sorted x => insertSorted compare x sorted) values sorted)).
  { induction values as [|x values IH]; intros sorted Hsorted; simpl; [exact Hsorted|].
    apply IH. now apply insertSorted_inOrder. }
  apply Hloop. constructor.
Qed.

(** a deduplicated, sorted list of strings, as [sortUnique] and
    [extractTags] build it *)
Lemma sorted_set_spec (compare : string -> string -> comparison) (values : list string) :
  NoDup (sortWith compare (setOf values))
  /\ (forall y, y ∈ sortWith compare (setOf values) <-> y ∈ values)
  /\ (asymmetric compare -> inOrder compare (sortWith compare (setOf values))).
Proof.
  destruct (setOf_spec values) as [Hall Hiff].
  split; [|split].
  - now rewrite sortWith_Permutation.
  - intros y. now rewrite sortWith_Permutation.
  - apply sortWith_inOrder.
Qed.

Lemma codeUnitCompare_asymmetric : asymmetric codeUnitCompare.
Proof.
  intros a. induction a as [|x a IH]; intros [|y b]; simpl; try discriminate.
  destruct (Nat.compare_spec (nat_of_ascii x) (nat_of_ascii y)) as [Heq|Hlt|Hgt].
  - rewrite Heq, Nat.compare_refl. apply IH.
  - intros _. rewrite (proj2 (Nat.compare_gt_iff _ _) Hlt). discriminate.
  - discriminate.
Qed.

Section SnapshotTags.

Variable localeCompare : string -> string -> comparison.

(** X9.  The tag list of a snapshot holds each tag once; it holds exactly
    the tags of the cards that sit in lanes (archived cards contribute
    none); and no entry is ordered strictly before its left neighbour,
    provided the collation never orders two strings both ways. *)
Theorem snapshot_tags_are_the_lane_tags (st : BoardStore) :
  let tags := allTags (getSnapshot localeCompare st) in
  NoDup tags
  /\ (forall t, t ∈ tags
                <-> exists column card,
                      column ∈ columns (store_board st)
                      /\ card ∈ col_cards column /\ t ∈ card_tags card)
  /\ (asymmetric localeCompare -> inOrder localeCompare tags).
Proof.
  intros tags.
  assert (Htags : tags
                  = sortWith localeCompare
                      (setOf (flat_map (fun column => flat_map card_tags (col_cards column))
                                (columns (store_board st))))).
  { unfold tags, getSnapshot. destruct (negb _ && negb _); reflexivity. }
  rewrite Htags.
  destruct (sorted_set_spec localeCompare
              (flat_map (fun column => flat_map card_tags (col_cards column))
                 (columns (store_board st)))) as (Hall & Hiff & Hsorted).
  split; [exact Hall|]. split; [|exact Hsorted].
  intros t. rewrite Hiff. rewrite list_elem_of_In, in_flat_map. split.
  - intros (column & Hcolumn & Ht). apply in_flat_map in Ht as (card & Hcard & Ht).
    exists column, card. now rewrite !list_elem_of_In.
  - intros (column & card & Hcolumn & Hcard & Ht). exists column.
    split; [now apply list_elem_of_In|]. apply in_flat_map. exists card.
    now rewrite <- !list_elem_of_In.
Qed.

End SnapshotTags.

(** ** Canonical cards *)

Lemma lowerChar_tagChar (a : ascii) :
  isTagChar a = true -> isLowerTagChar (Js.lowerChar a) = true.
Proof. destruct a as [[] [] [] [] [] [] [] []]; vm_compute; congruence. Qed.

Lemma tagRun_chars (s : string) : allChars isTagChar (tagRun s) = true.
Proof.
  induction s as [|a s IH]; simpl; [reflexivity|].
  destruct (isTagChar a) eqn:Ha; simpl; [now rewrite Ha|reflexivity].
Qed.

Lemma toLowerCase_tagChars (s : string) :
  allChars isTagChar s = true -> allChars isLowerTagChar (Js.toLowerCase s) = true.
Proof.
  induction s as [|a s IH]; simpl; [reflexivity|].
  intros H. apply andb_true_iff in H as [Ha Hs].
  now rewrite lowerChar_tagChar, IH.
Qed.

Lemma hashTokens_shape (atBoundary : bool) (s : string) :
  Forall (fun token => token <> EmptyString /\ allChars isTagChar token = true)
    (hashTokens atBoundary s).
Proof.
  revert atBoundary. induction s as [|a s IH]; intros atBoundary; cbn [hashTokens];
    [constructor|].
  destruct (atBoundary && Ascii.eqb "#" a && Js.truthy (tagRun s)) eqn:Htoken; [|apply IH].
  constructor; [|apply IH].
  apply andb_true_iff in Htoken as [_ Hrun].
  split; [|apply tagRun_chars]. destruct (tagRun s); [discriminate|congruence].
Qed.

Lemma normalizeDueDate_shaped (value : option string) :
  match normalizeDueDate value with
  | None => True
  | Some d => isDatePattern d = true /\ normalizeDueDate (Some d) = Some d
  end.
Proof.
  destruct value as [v|]; [|exact I]. rewrite normalizeDueDate_spec.
  destruct (isDatePattern (Js.trim v)) eqn:Hshape; [|exact I].
  split; [exact Hshape|]. rewrite normalizeDueDate_spec, trim_idempotent.
  now rewrite Hshape.
Qed.

Lemma normalizeDueDate_idempotent (value : option string) :
  normalizeDueDate (normalizeDueDate value) = normalizeDueDate value.
Proof.
  pose proof (normalizeDueDate_shaped value) as H.
  destruct (normalizeDueDate value) as [d|]; [apply H|reflexivity].
Qed.

Section CanonicalCards.

Variable localeCompare : string -> string -> comparison.
Variable dateNow : nat -> N.
Variable randomIndex : nat -> nat.
Variable parseYaml : string -> option yaml.

Lemma normalizeCard_canonical (input : CardInput) :
  canonicalCard localeCompare (normalizeCard localeCompare input).
Proof.
  unfold canonicalCard, dueDateShaped, normalizeCard. cbn [card_dueDate card_tags].
  split.
  { pose proof (normalizeDueDate_shaped (in_dueDate input)) as H.
    destruct (normalizeDueDate _); [apply H|exact I]. }
  rewrite extractTags_spec.
  destruct (sorted_set_spec localeCompare
              (map hashtag
                 (hashTokens true (in_title input +:+ newline +:+ in_description input))))
    as (Hall & Hiff & Hsorted).
  split; [exact Hall|]. split; [|exact Hsorted].
  apply Forall_forall. intros t Ht. apply Hiff in Ht.
  apply list_elem_of_In, in_map_iff in Ht as (token & <- & Htoken).
  pose proof (hashTokens_shape true
                (in_title input +:+ newline +:+ in_description input)) as Hshape.
  rewrite Forall_forall in Hshape.
  apply list_elem_of_In, Hshape in Htoken as [Hfilled Hchars].
  exists (Js.toLowerCase token). split; [reflexivity|].
  split; [|now apply toLowerCase_tagChars].
  destruct token; [congruence|discriminate].
Qed.

Lemma renormalize_idempotent (card : Card) :
  renormalize localeCompare (renormalize localeCompare card) = renormalize localeCompare card.
Proof.
  unfold renormalize, normalizeCard. cbn.
  now rewrite normalizeDueDate_idempotent.
Qed.

Lemma cloneBoard_all (P : Card -> Prop) (b : BoardDocument) :
  (forall input, P (normalizeCard localeCompare input)) ->
  Forall P (allCards (cloneBoard localeCompare b)).
Proof.
  intros HP. apply allCards_all; simpl.
  - apply Forall_forall. intros column Hin.
    apply list_elem_of_In, in_map_iff in Hin as (source & <- & _). simpl.
    apply Forall_forall. intros card Hcard.
    apply list_elem_of_In, in_map_iff in Hcard as (original & <- & _). apply HP.
  - apply Forall_forall. intros card Hcard.
    apply list_elem_of_In, in_map_iff in Hcard as (original & <- & _). apply HP.
Qed.

(** X10.  Copying out is stable: the copy [getBoard()] hands out is its
    own copy, so a store loaded with what another store handed out holds
    exactly that document and hands out the same again. *)
Theorem getBoard_is_a_fixed_point (st : BoardStore) (b : BoardDocument) :
  cloneBoard localeCompare (cloneBoard localeCompare b) = cloneBoard localeCompare b
  /\ store_board (newStore localeCompare (getBoard localeCompare st)) = getBoard localeCompare st
  /\ getBoard localeCompare (setBoard localeCompare (getBoard localeCompare st) st)
     = getBoard localeCompare st.
Proof.
  assert (Hclone : forall d, cloneBoard localeCompare (cloneBoard localeCompare d)
                             = cloneBoard localeCompare d).
  { intros d. unfold cloneBoard. simpl. f_equal.
    - rewrite List.map_map. apply List.map_ext. intros column. simpl. f_equal.
      rewrite List.map_map. apply List.map_ext. intros card. apply renormalize_idempotent.
    - rewrite List.map_map. apply List.map_ext. intros card. apply renormalize_idempotent. }
  split; [apply Hclone|]. split.
  - unfold newStore, getBoard. simpl. apply Hclone.
  - unfold setBoard, getBoard. simpl. now rewrite !Hclone.
Qed.

(** X11.  In every document the system hands out (a parse result,
    [getBoard()], the board of a snapshot) every card, in a lane or in
    the archive, has a due date that is absent or of the shape
    [YYYY-MM-DD], and tags that are pairwise distinct, each a [#] followed
    by at least one character of [[a-z0-9/_-]], and in the collation's
    order when the collation never orders two strings both ways. *)
Theorem handed_out_cards_are_canonical :
  (forall content entropy document,
     fst (parseBoardMarkdown localeCompare dateNow randomIndex parseYaml content entropy)
     = inr document ->
     Forall (canonicalCard localeCompare) (allCards document))
  /\ (forall st,
        Forall (canonicalCard localeCompare) (allCards (getBoard localeCompare st))
        /\ Forall (canonicalCard localeCompare)
             (allCards (snap_board (getSnapshot localeCompare st)))).
Proof.
  split.
  - intros content entropy document.
    apply (parsed_cards_all localeCompare dateNow randomIndex parseYaml
             (canonicalCard localeCompare)).
    intros. apply normalizeCard_canonical.
  - intros st. split.
    + apply cloneBoard_all, normalizeCard_canonical.
    + unfold getSnapshot.
      destruct (negb _ && negb _); apply cloneBoard_all, normalizeCard_canonical.
Qed.

End CanonicalCards.

Lemma handed_out_cards_are_canonical_witness :
  Forall (canonicalCard codeUnitCompare) (allCards Sample.tagged).
Proof.
  assert (Hparse : Sample.parse Sample.taggedFile = inr Sample.tagged)
    by (vm_compute; reflexivity).
  exact (proj1 (handed_out_cards_are_canonical codeUnitCompare Fixture.clock
                  Fixture.dice Sample.parseYaml)
           Sample.taggedFile Fixture.start Sample.tagged Hparse).
Defined.

(** ** The filter tag *)

Lemma isSpace_lowerChar (a : ascii) : Js.isSpace (Js.lowerChar a) = Js.isSpace a.
Proof. destruct a as [[] [] [] [] [] [] [] []]; vm_compute; reflexivity. Qed.

Lemma lowerChar_idempotent (a : ascii) : Js.lowerChar (Js.lowerChar a) = Js.lowerChar a.
Proof. destruct a as [[] [] [] [] [] [] [] []]; vm_compute; reflexivity. Qed.

Lemma toLowerCase_idempotent (s : string) :
  Js.toLowerCase (Js.toLowerCase s) = Js.toLowerCase s.
Proof. induction s as [|a s IH]; simpl; [reflexivity|]. now rewrite lowerChar_idempotent, IH. Qed.

Lemma trimStart_toLowerCase (s : string) :
  Js.trimStart (Js.toLowerCase s) = Js.toLowerCase (Js.trimStart s).
Proof.
  induction s as [|a s IH]; simpl; [reflexivity|].
  rewrite isSpace_lowerChar. destruct (Js.isSpace a); [exact IH|reflexivity].
Qed.

Lemma trimEnd_toLowerCase (s : string) :
  Js.trimEnd (Js.toLowerCase s) = Js.toLowerCase (Js.trimEnd s).
Proof.
  induction s as [|a s IH]; simpl; [reflexivity|].
  rewrite IH, isSpace_lowerChar.
  destruct (Js.trimEnd s); simpl; [destruct (Js.isSpace a)|]; reflexivity.
Qed.

Lemma trim_toLowerCase (s : string) :
  Js.trim (Js.toLowerCase s) = Js.toLowerCase (Js.trim s).
Proof. unfold Js.trim. now rewrite trimStart_toLowerCase, trimEnd_toLowerCase. Qed.

Lemma trimEnd_cons (a : ascii) (s : string) :
  Js.trimEnd s = s -> s <> EmptyString -> Js.trimEnd (String a s) = String a s.
Proof.
  intros Hfixed Hfilled. simpl. rewrite Hfixed. destruct s; [congruence|reflexivity].
Qed.

Section TagFilter.

Variable localeCompare : string -> string -> comparison.

(** X12.  [normalizeTagFilter] gives a canonical tag: normalizing its
    result again changes nothing; the result is empty exactly when the
    input is blank, and otherwise starts with [#]; it is lowercase and
    has no blank at either end.  So the tag [setFilterTag] stores is the
    very tag a snapshot filters by. *)
Theorem normalizeTagFilter_is_canonical (raw : string) (st : BoardStore) :
  let t := normalizeTagFilter raw in
  normalizeTagFilter t = t
  /\ (t = EmptyString <-> Js.trim raw = EmptyString)
  /\ (t <> EmptyString -> Js.startsWith t "#" = true)
  /\ Js.toLowerCase t = t
  /\ Js.trim t = t
  /\ normalizeTagFilter (tag (store_filter (setFilterTag localeCompare raw st)))
     = tag (store_filter (setFilterTag localeCompare raw st)).
Proof.
  intros t.
  assert (Hlower : Js.toLowerCase t = t).
  { unfold t, normalizeTagFilter.
    destruct (Js.toLowerCase (Js.trim raw)) as [|a x] eqn:Hx; [reflexivity|].
    cbn [Js.truthy negb].
    destruct (Js.startsWith (String a x) "#").
    - rewrite <- Hx. apply toLowerCase_idempotent.
    - change (Js.toLowerCase ("#" +:+ String a x)) with (String "#" (Js.toLowerCase (String a x))).
      rewrite <- Hx, toLowerCase_idempotent. reflexivity. }
  assert (Htrim : Js.trim t = t).
  { unfold t, normalizeTagFilter.
    destruct (Js.toLowerCase (Js.trim raw)) as [|a x] eqn:Hx; [reflexivity|].
    cbn [Js.truthy negb].
    assert (Hfixed : Js.trim (String a x) = String a x).
    { rewrite <- Hx, trim_toLowerCase, trim_idempotent. reflexivity. }
    destruct (Js.startsWith (String a x) "#"); [exact Hfixed|].
    change ("#" +:+ String a x) with (String "#" (String a x)).
    unfold Js.trim. change (Js.trimStart (String "#" (String a x))) with (String "#" (String a x)).
    apply trimEnd_cons; [|discriminate].
    assert (Hstart : Js.trimStart (String a x) = String a x).
    { apply trimStart_fixed. rewrite <- Hfixed. apply trimEnd_head, trimStart_head. }
    unfold Js.trim in Hfixed. now rewrite Hstart in Hfixed. }
  assert (Hshape : t <> EmptyString -> Js.startsWith t "#" = true).
  { unfold t, normalizeTagFilter.
    destruct (Js.toLowerCase (Js.trim raw)) as [|a x] eqn:Hx;
      [intros H; exfalso; now apply H|].
    cbn [Js.truthy negb]. intros _.
    destruct (Js.startsWith (String a x) "#") eqn:Hstart; [exact Hstart|]. reflexivity. }
  assert (Hidem : normalizeTagFilter t = t).
  { unfold normalizeTagFilter at 1. rewrite Htrim, Hlower.
    destruct t as [|a x]; [reflexivity|]. cbn [Js.truthy negb].
    now rewrite Hshape by discriminate. }
  split; [exact Hidem|]. split; [|split; [exact Hshape|split; [exact Hlower|split;
    [exact Htrim|exact Hidem]]]].
  unfold t, normalizeTagFilter.
  destruct (Js.trim raw) as [|a x]; [simpl; tauto|].
  cbn [Js.toLowerCase Js.truthy negb].
  destruct (Js.startsWith (String (Js.lowerChar a) (Js.toLowerCase x)) "#");
    split; intros H; inversion H.
Qed.

End TagFilter.

(** ** Lanes of a parsed document *)






Section ParsedLanes.

Variable localeCompare : string -> string -> comparison.
Variable dateNow : nat -> N.
Variable randomIndex : nat -> nat.
Variable parseYaml : string -> option yaml.



End ParsedLanes.





Section NamedLanes.

Variable localeCompare : string -> string -> comparison.


End NamedLanes.


(** ** Greedy matching *)

Lemma append_empty (s : string) : s +:+ EmptyString = s.
Proof. induction s as [|a s IH]; simpl; congruence. Qed.

Lemma append_assoc (a b c : string) : (a +:+ b) +:+ c = a +:+ (b +:+ c).
Proof. induction a as [|x a IH]; simpl; congruence. Qed.

Lemma append_length (a b : string) :
  String.length (a +:+ b) = String.length a + String.length b.
Proof. induction a as [|x a IH]; simpl; congruence. Qed.

Lemma sliceTo_run (run rest : string) (pos : nat) :
  Js.sliceTo (String.length run + pos - pos) (run +:+ rest) = run.
Proof. replace (String.length run + pos - pos) with (String.length run) by lia. apply sliceTo_app. Qed.

(** Greedy repetition of a character class: when the text opens with a
    run of the class that the class cannot extend, and the rest of the
    pattern matches right after the run, that is the match. *)
Lemma greedy_run (p : ascii -> bool) (step : Re.matcher) (k : Re.cont) (fuel : nat)
  (s run rest : string) (pos : nat) (c : Re.captures) (x : Re.result) :
  (forall pos s c k', step pos s c k' = Re.run (Re.Chr p) pos s c k') ->
  s = run +:+ rest ->
  allChars p run = true ->
  headOutside p rest ->
  String.length s < fuel ->
  k (String.length run + pos) rest c = Some x ->
  Re.iterate fuel true step pos s c k = Some x.
Proof.
  intros Hstep -> Hrun Hrest. revert fuel pos.
  induction run as [|a run IH]; intros fuel pos Hfuel Hk.
  - destruct fuel as [|fuel]; [lia|]. cbn [Re.iterate]. rewrite Hstep. cbn [Re.run].
    simpl in *. destruct rest as [|b rest]; [exact Hk|].
    simpl in Hrest. now rewrite Hrest.
  - destruct fuel as [|fuel]; [lia|]. cbn [Re.iterate]. rewrite Hstep.
    simpl in Hrun. apply andb_true_iff in Hrun as [Ha Hrun].
    change (String a run +:+ rest) with (String a (run +:+ rest)). cbn [Re.run].
    rewrite Ha, (proj2 (Nat.ltb_lt pos (S pos)) (Nat.lt_succ_diag_r pos)).
    rewrite (IH Hrun fuel (S pos)); [reflexivity|simpl in Hfuel; lia|].
    rewrite <- Hk. f_equal. simpl. lia.
Qed.

Lemma run_star (p : ascii -> bool) (k : Re.cont) (s run rest : string) (pos : nat)
  (c : Re.captures) (x : Re.result) :
  s = run +:+ rest ->
  allChars p run = true ->
  headOutside p rest ->
  k (String.length run + pos) rest c = Some x ->
  Re.run (Re.Star true (Re.Chr p)) pos s c k = Some x.
Proof.
  intros Hs Hrun Hrest Hk. cbn [Re.run].
  apply (greedy_run p (Re.run (Re.Chr p)) k _ s run rest); auto.
Qed.

Lemma run_plus (p : ascii -> bool) (k : Re.cont) (s run rest : string) (pos : nat)
  (c : Re.captures) (x : Re.result) :
  s = run +:+ rest ->
  run <> EmptyString ->
  allChars p run = true ->
  headOutside p rest ->
  k (String.length run + pos) rest c = Some x ->
  Re.run (Re.plus true (Re.Chr p)) pos s c k = Some x.
Proof.
  intros -> Hfilled Hrun Hrest Hk. destruct run as [|a run]; [congruence|].
  simpl in Hrun. apply andb_true_iff in Hrun as [Ha Hrun].
  unfold Re.plus. change (String a run +:+ rest) with (String a (run +:+ rest)).
  cbn [Re.run]. rewrite Ha.
  apply (greedy_run p (Re.run (Re.Chr p)) k _ (run +:+ rest) run rest); auto.
  rewrite <- Hk. f_equal. simpl. lia.
Qed.

Lemma run_seq (r1 r2 : Re.regex) (pos : nat) (s : string) (c : Re.captures) (k : Re.cont) :
  Re.run (Re.Seq r1 r2) pos s c k
  = Re.run r1 pos s c (fun pos' s' c' => Re.run r2 pos' s' c' k).
Proof. reflexivity. Qed.

Lemma run_group (n : nat) (r : Re.regex) (pos : nat) (s : string) (c : Re.captures)
  (k : Re.cont) :
  Re.run (Re.Group n r) pos s c k
  = Re.run r pos s c (fun pos' s' c' => k pos' s' ((n, Js.sliceTo (pos' - pos) s) :: c')).
Proof. reflexivity. Qed.

Lemma run_chr (a : ascii) (pos : nat) (s : string) (c : Re.captures) (k : Re.cont) :
  Re.run (Re.chr a) pos (String a s) c k = k (S pos) s c.
Proof. cbn [Re.run Re.chr]. now rewrite Ascii.eqb_refl. Qed.

Lemma run_class (p : ascii -> bool) (a : ascii) (pos : nat) (s : string) (c : Re.captures)
  (k : Re.cont) :
  p a = true -> Re.run (Re.Chr p) pos (String a s) c k = k (S pos) s c.
Proof. intros Hp. cbn [Re.run]. now rewrite Hp. Qed.

Lemma run_eol (pos : nat) (c : Re.captures) (k : Re.cont) :
  Re.run Re.Eol pos EmptyString c k = k pos EmptyString c.
Proof. reflexivity. Qed.

Lemma run_eps (pos : nat) (s : string) (c : Re.captures) (k : Re.cont) :
  Re.run Re.Eps pos s c k = k pos s c.
Proof. reflexivity. Qed.

(** one step of the matcher on a literal, a class, a group or a sequence *)
Ltac run_steps :=
  repeat (cbv beta;
          first [rewrite run_chr | rewrite run_class by assumption | rewrite run_eps
                | rewrite run_eol | rewrite run_group | rewrite run_seq]).

Lemma tagChars_not_bracket (id : string) :
  allChars isTagChar id = true -> allChars (fun b => negb (Ascii.eqb "]" b)) id = true.
Proof.
  induction id as [|a id IH]; cbn [allChars]; [reflexivity|].
  intros H. apply andb_true_iff in H as [Ha Hid]. apply andb_true_iff. split; [|auto].
  destruct (Ascii.eqb_spec "]" a) as [<-|]; [discriminate Ha|reflexivity].
Qed.

Lemma cardRegex_on_cardLine (checked : bool) (id title : string) :
  id <> EmptyString ->
  allChars isTagChar id = true ->
  allChars notLineTerminator title = true ->
  headNotSpace title ->
  exists found,
    Re.exec cardRegex (cardLine checked id title) = Some found
    /\ Re.caps found = [(3, title); (2, id); (1, if checked then "x" else " ")].
Proof.
  intros Hfilled Hid Htitle Hhead.
  assert (Hrun : Re.run
                   (Re.seqs [Re.chr "-"; Re.plus true Re.space; Re.chr "[";
                             Re.Group 1 (Re.Chr (fun a => Ascii.eqb a " " || Ascii.eqb a "x"
                                                          || Ascii.eqb a "X"));
                             Re.chr "]"; Re.plus true Re.space; Re.chr "[";
                             Re.Group 2 (Re.plus true (Re.notChr "]")); Re.chr "]";
                             Re.Star true Re.space; Re.Group 3 (Re.Star true Re.dot); Re.Eol])
                   0 (cardLine checked id title) [] Re.final
                 = Some (String.length title + (String.length id + 7 + 2),
                         [(3, title); (2, id); (1, if checked then "x" else " ")])).
  { unfold cardLine. cbn [Re.seqs].
    set (mark := if checked then "x" else " ").
    assert (Hmark : exists m, mark = String m EmptyString
                              /\ (Ascii.eqb m " " || Ascii.eqb m "x" || Ascii.eqb m "X") = true).
    { unfold mark. destruct checked; eexists; split; reflexivity. }
    clearbody mark. destruct Hmark as (m & -> & Hm).
    pose (afterId := String "]" (String " " title)).
    pose (fromId := String "[" (id +:+ afterId)).
    pose (fromMark := String "[" (String m (String "]" (String " " fromId)))).
    change ("- [" +:+ String m EmptyString +:+ "] [" +:+ id +:+ "] " +:+ title)
      with (String "-" (String " " fromMark)).
    rewrite run_seq, run_chr. rewrite run_seq.
    apply (run_plus Js.isSpace _ _ " " fromMark);
      [reflexivity|discriminate|reflexivity|reflexivity|].
    cbv beta. unfold fromMark.
    rewrite run_seq, run_chr. rewrite run_seq, run_group.
    rewrite run_class by exact Hm. cbv beta.
    rewrite run_seq, run_chr. rewrite run_seq.
    apply (run_plus Js.isSpace _ _ " " fromId);
      [reflexivity|discriminate|reflexivity|reflexivity|].
    cbv beta. unfold fromId.
    rewrite run_seq, run_chr. rewrite run_seq, run_group.
    apply (run_plus (fun b => negb (Ascii.eqb "]" b)) _ _ id afterId);
      [reflexivity|exact Hfilled|now apply tagChars_not_bracket|reflexivity|].
    cbv beta. unfold afterId.
    rewrite run_seq, run_chr. rewrite run_seq.
    apply (run_star Js.isSpace _ _ " " title);
      [reflexivity|reflexivity| |].
    { destruct title; [exact I|exact Hhead]. }
    cbv beta. rewrite run_seq, run_group.
    apply (run_star notLineTerminator _ _ title EmptyString);
      [symmetry; apply append_empty|exact Htitle|exact I|].
    cbv beta. rewrite run_eol. unfold Re.final. f_equal. f_equal; [simpl; lia|].
    f_equal; [|f_equal].
    - f_equal. rewrite <- (append_empty title) at 2. apply sliceTo_run.
    - f_equal. apply sliceTo_run. }
  unfold cardRegex. cbn [Re.seqs] in *. rewrite exec_bol, Hrun.
  eexists. split; reflexivity.
Qed.

(** ** Trimming and lines *)

Lemma truthy_trimEnd (s : string) :
  Js.truthy (Js.trimEnd s) = negb (allChars Js.isSpace s).
Proof.
  induction s as [|a s IH]; [reflexivity|]. cbn [Js.trimEnd allChars].
  destruct (Js.trimEnd s) as [|b t].
  - simpl in IH. apply (f_equal negb) in IH. rewrite negb_involutive in IH. simpl in IH.
    rewrite <- IH, andb_true_r. now destruct (Js.isSpace a).
  - simpl in IH. apply (f_equal negb) in IH. rewrite negb_involutive in IH. simpl in IH.
    rewrite <- IH, andb_false_r. reflexivity.
Qed.

Lemma truthy_trim (s : string) :
  Js.truthy (Js.trim s) = negb (allChars Js.isSpace s).
Proof.
  unfold Js.trim. rewrite truthy_trimEnd. f_equal.
  induction s as [|a s IH]; [reflexivity|]. cbn [Js.trimStart allChars].
  destruct (Js.isSpace a) eqn:Ha; [exact IH|]. cbn [allChars]. now rewrite Ha.
Qed.

Lemma trimEnd_notSpace (s : string) : allChars notSpace s = true -> Js.trimEnd s = s.
Proof.
  induction s as [|a s IH]; [reflexivity|]. cbn [allChars Js.trimEnd].
  intros H. apply andb_true_iff in H as [Ha Hs]. rewrite (IH Hs).
  unfold notSpace in Ha. apply negb_true_iff in Ha. rewrite Ha. now destruct s.
Qed.

Lemma trim_notSpace (s : string) : allChars notSpace s = true -> Js.trim s = s.
Proof.
  intros H. unfold Js.trim. rewrite trimStart_fixed; [now apply trimEnd_notSpace|].
  destruct s as [|a s]; [exact I|]. simpl in *. apply andb_true_iff in H as [Ha _].
  now apply negb_true_iff in Ha.
Qed.

Lemma allChars_weaken (p q : ascii -> bool) (s : string) :
  (forall a, p a = true -> q a = true) -> allChars p s = true -> allChars q s = true.
Proof.
  intros Hpq. induction s as [|a s IH]; [reflexivity|]. cbn [allChars].
  intros H. apply andb_true_iff in H as [Ha Hs]. now rewrite (Hpq a Ha), IH.
Qed.

Lemma tagChar_notSpace (a : ascii) : isTagChar a = true -> notSpace a = true.
Proof. intros H. unfold notSpace. now rewrite tagChar_not_space. Qed.

Lemma digit_notSpace (a : ascii) : Js.isDigit a = true -> notSpace a = true.
Proof. destruct a as [[] [] [] [] [] [] [] []]; vm_compute; congruence. Qed.

Lemma digit_notLineTerminator (a : ascii) : Js.isDigit a = true -> notLineTerminator a = true.
Proof. destruct a as [[] [] [] [] [] [] [] []]; vm_compute; congruence. Qed.

Lemma trimEnd_append (a b : string) :
  Js.trimEnd b <> EmptyString -> Js.trimEnd (a +:+ b) = a +:+ Js.trimEnd b.
Proof.
  intros Hb. induction a as [|x a IH]; [reflexivity|].
  change (String x a +:+ b) with (String x (a +:+ b)). cbn [Js.trimEnd]. rewrite IH.
  destruct a; simpl; [destruct (Js.trimEnd b); [congruence|reflexivity]|reflexivity].
Qed.

Lemma splitLines_cons (s : string) : exists l ls, Js.splitLines s = l :: ls.
Proof.
  destruct s as [|a s]; simpl; [eauto|].
  destruct (Ascii.eqb a "010"); [eauto|]. destruct (Js.splitLines s); eauto.
Qed.

Lemma join_cons (sep p : string) (ps : list string) :
  ps <> [] -> Js.join sep (p :: ps) = p +:+ sep +:+ Js.join sep ps.
Proof. destruct ps; [congruence|reflexivity]. Qed.

Lemma join_splitLines (s : string) : Js.join newline (Js.splitLines s) = s.
Proof.
  induction s as [|a s IH]; [reflexivity|]. cbn [Js.splitLines].
  destruct (splitLines_cons s) as (l & ls & Hs). rewrite Hs in *.
  destruct (Ascii.eqb_spec a "010") as [->|Hne].
  - rewrite join_cons by discriminate. now rewrite IH.
  - destruct ls as [|l' ls].
    + simpl in *. congruence.
    + rewrite join_cons by discriminate. rewrite join_cons in IH by discriminate.
      change (String a l +:+ newline +:+ Js.join newline (l' :: ls))
        with (String a (l +:+ newline +:+ Js.join newline (l' :: ls))).
      now rewrite IH.
Qed.

Lemma splitLines_append (a b : string) :
  Js.splitLines (a +:+ newline +:+ b) = Js.splitLines a ++ Js.splitLines b.
Proof.
  induction a as [|x a IH]; [reflexivity|].
  change (String x a +:+ newline +:+ b) with (String x (a +:+ newline +:+ b)).
  cbn [Js.splitLines]. rewrite IH.
  destruct (Ascii.eqb x "010"); [reflexivity|].
  destruct (splitLines_cons a) as (l & ls & ->). reflexivity.
Qed.

Lemma splitLines_single (s : string) :
  allChars notLineTerminator s = true -> Js.splitLines s = [s].
Proof.
  induction s as [|a s IH]; [reflexivity|]. cbn [allChars Js.splitLines].
  intros H. apply andb_true_iff in H as [Ha Hs]. rewrite (IH Hs).
  destruct (Ascii.eqb_spec a "010") as [->|]; [discriminate Ha|reflexivity].
Qed.

(** the last line of a text that does not end in whitespace is not blank *)
Lemma last_line_filled (t : string) :
  t <> EmptyString -> Js.trimEnd t = t ->
  exists init l, Js.splitLines t = init ++ [l] /\ Js.truthy (Js.trim l) = true.
Proof.
  induction t as [|a t IH]; [congruence|]. intros _ Hfixed.
  cbn [Js.trimEnd] in Hfixed. cbn [Js.splitLines].
  destruct t as [|b t].
  - simpl in Hfixed. destruct (Js.isSpace a) eqn:Ha; [discriminate|].
    exists [], (String a EmptyString). split.
    + simpl. destruct (Ascii.eqb_spec a "010") as [->|]; [discriminate Ha|reflexivity].
    + rewrite truthy_trim. simpl. now rewrite Ha.
  - assert (Hrest : Js.trimEnd (String b t) = String b t).
    { destruct (Js.trimEnd (String b t)) as [|c u]; [|congruence].
      destruct (Js.isSpace a); discriminate. }
    destruct (IH ltac:(discriminate) Hrest) as (init & l & Hsplit & Hl).
    rewrite Hsplit. destruct (Ascii.eqb a "010").
    + exists (EmptyString :: init), l. split; [reflexivity|exact Hl].
    + destruct init as [|first init]; simpl.
      * exists [], (String a l). split; [reflexivity|].
        rewrite truthy_trim in *. cbn [allChars]. apply negb_true_iff in Hl.
        now rewrite Hl, andb_false_r.
      * exists (String a first :: init), l. split; [reflexivity|exact Hl].
Qed.

Lemma popBlankLines_filled (lines : list string) (l : string) :
  Js.truthy (Js.trim l) = true -> popBlankLines (lines ++ [l]) = lines ++ [l].
Proof.
  intros Hl. induction lines as [|x lines IH]; simpl.
  - now rewrite Hl.
  - rewrite IH. now destruct lines.
Qed.

Lemma popBlankLines_blank (lines : list string) :
  popBlankLines (lines ++ [EmptyString]) = popBlankLines lines.
Proof.
  induction lines as [|x lines IH]; simpl; [reflexivity|]. now rewrite IH.
Qed.

(** ** The lines under a card line *)

Lemma anchor_is_anchor (id : string) :
  id <> EmptyString -> allChars isTagChar id = true -> isAnchorLine ("^" +:+ id) = true.
Proof.
  intros Hfilled Hid. unfold isAnchorLine.
  assert (Htrim : Js.trim ("^" +:+ id) = "^" +:+ id).
  { apply trim_notSpace. cbn [String.append allChars].
    apply (allChars_weaken isTagChar notSpace id tagChar_notSpace Hid). }
  rewrite Htrim. unfold Re.test, blockAnchorRegex. cbn [Re.seqs]. rewrite exec_bol.
  replace (Re.run _ 0 ("^" +:+ id) [] Re.final)
    with (Some (0 + (String.length id + 1), @nil (nat * string))); [reflexivity|].
  symmetry. change ("^" +:+ id) with (String "^" id).
  rewrite run_seq, run_chr. rewrite run_seq.
  apply (run_plus isTagChar _ _ id EmptyString);
    [symmetry; apply append_empty|exact Hfilled|exact Hid|exact I|].
  cbv beta. rewrite run_seq.
  apply (run_star Js.isSpace _ _ EmptyString EmptyString); [reflexivity|reflexivity|exact I|].
  cbv beta. rewrite run_eol. reflexivity.
Qed.

Lemma datePattern_chars (d : string) :
  isDatePattern d = true ->
  exists y1 y2 y3 y4 m1 m2 d1 d2,
    d = String y1 (String y2 (String y3 (String y4 (String "-"
          (String m1 (String m2 (String "-" (String d1 (String d2 EmptyString)))))))))
    /\ Forall (fun a => Js.isDigit a = true) [y1; y2; y3; y4; m1; m2; d1; d2].
Proof.
  unfold isDatePattern.
  do 10 (destruct d as [|? d]; [discriminate|]). destruct d; [|discriminate].
  intros H. do 9 (apply andb_true_iff in H as [? H]).
  repeat match goal with
         | Heq : Ascii.eqb "-" _ = true |- _ => apply Ascii.eqb_eq in Heq; subst
         end.
  do 8 eexists. split; [reflexivity|]. repeat constructor; assumption.
Qed.

Lemma dueLine_is_due (d : string) :
  isDatePattern d = true ->
  isAnchorLine ("due:: " +:+ d) = false
  /\ exists found,
       Re.exec dueLineRegex (Js.trim ("due:: " +:+ d)) = Some found
       /\ Re.groupOr 1 (Re.caps found) = d.
Proof.
  intros Hd. apply datePattern_chars in Hd as (y1 & y2 & y3 & y4 & m1 & m2 & d1 & d2 & -> & Hd).
  repeat match goal with
         | H : Forall _ (_ :: _) |- _ => inversion H; clear H; subst
         | H : Forall _ [] |- _ => clear H
         end.
  assert (Htrim : forall a t, allChars notSpace (String a t) = true ->
                    Js.trim ("due:: " +:+ String a t) = "due:: " +:+ String a t).
  { intros a t Ht. unfold Js.trim.
    change (Js.trimStart ("due:: " +:+ String a t)) with ("due:: " +:+ String a t).
    rewrite trimEnd_append; rewrite trimEnd_notSpace by exact Ht; [reflexivity|discriminate]. }
  unfold isAnchorLine. rewrite Htrim.
  2:{ cbn [allChars].
      repeat match goal with
             | H : Js.isDigit ?a = true |- _ => rewrite (digit_notSpace a H)
             end.
      reflexivity. }
  split; [reflexivity|].
  unfold dueLineRegex. cbn [Re.seqs]. rewrite exec_bol.
  match goal with
  | |- exists found, match ?r with _ => _ end = _ /\ _ =>
      replace r with (Some (16, [(1, String y1 (String y2 (String y3 (String y4 (String "-"
                (String m1 (String m2 (String "-" (String d1 (String d2 EmptyString))))))))))]))
  end; [eexists; split; reflexivity|].
  symmetry. cbn [String.append Re.lit]. unfold Re.digit. run_steps.
  match goal with
  | |- Re.run _ _ (String " " ?rest) _ _ = _ =>
      apply (run_star Js.isSpace _ _ " " rest); [reflexivity|reflexivity| |]
  end.
  { simpl. now apply negb_true_iff, digit_notSpace. }
  run_steps.
  apply (run_star Js.isSpace _ _ EmptyString EmptyString); [reflexivity|reflexivity|exact I|].
  run_steps. reflexivity.
Qed.

Lemma indented_line (l : string) :
  Re.test cardRegex ("  " +:+ l) = false
  /\ Re.test headingRegex ("  " +:+ l) = false
  /\ stripIndent ("  " +:+ l) = l.
Proof.
  unfold Re.test, stripIndent, cardRegex, headingRegex, indentRegex. cbn [Re.seqs].
  rewrite !exec_bol. repeat split.
Qed.

Lemma descriptionLinesOf_indented (lines rest : list string) :
  descriptionLinesOf (map (fun line => "  " +:+ line) lines ++ EmptyString :: rest)
  = lines ++ EmptyString :: descriptionLinesOf rest.
Proof.
  induction lines as [|l lines IH]; [reflexivity|].
  cbn [map app descriptionLinesOf].
  destruct (indented_line l) as (-> & -> & ->). cbn [orb].
  replace (Js.startsWith ("  " +:+ l) "  ") with true by reflexivity.
  rewrite orb_true_r. cbn [orb]. now rewrite IH.
Qed.

Lemma parseCardsAt_skip localeCompare dateNow randomIndex (lines rest : list string)
  (entropy : Entropy) :
  parseCardsAt localeCompare dateNow randomIndex (lines ++ rest) (length lines) entropy
  = parseCardsAt localeCompare dateNow randomIndex rest 0 entropy.
Proof. induction lines as [|l lines IH]; [reflexivity|exact IH]. Qed.

Lemma normalizeDescription_written (id : string) (body : list string) (due : option string) :
  id <> EmptyString ->
  allChars isTagChar id = true ->
  Forall plainLine body ->
  (body = [] \/ exists init l, body = init ++ [l] /\ Js.truthy (Js.trim l) = true) ->
  match due with Some d => isDatePattern d = true | None => True end ->
  normalizeDescription
    ((("^" +:+ id) :: body
      ++ match due with Some d => ["due:: " +:+ d] | None => [] end)
     ++ [EmptyString])
  = (Js.trimEnd (Js.join newline body), due).
Proof.
  intros Hfilled Hid Hplain Hlast Hdue.
  pose proof (anchor_is_anchor id Hfilled Hid) as Hanchor.
  unfold normalizeDescription. rewrite popBlankLines_blank.
  assert (Hkept : popBlankLines
                    (("^" +:+ id) :: body
                     ++ match due with Some d => ["due:: " +:+ d] | None => [] end)
                  = ("^" +:+ id) :: body
                    ++ match due with Some d => ["due:: " +:+ d] | None => [] end).
  { destruct due as [d|].
    - destruct (dueLine_is_due d Hdue) as (_ & found & Hfound & _).
      rewrite app_comm_cons. apply popBlankLines_filled.
      destruct (Js.trim ("due:: " +:+ d)); [|reflexivity].
      vm_compute in Hfound. discriminate.
    - rewrite app_nil_r. destruct Hlast as [->|(init & l & -> & Hl)].
      + apply (popBlankLines_filled [] ("^" +:+ id)).
        unfold isAnchorLine in Hanchor. destruct (Js.trim ("^" +:+ id)); [|reflexivity].
        vm_compute in Hanchor. discriminate.
      + rewrite app_comm_cons. now apply popBlankLines_filled. }
  rewrite Hkept. clear Hkept Hlast.
  match goal with
  | |- context [fold_left ?f _ _] => set (step := f)
  end.
  assert (Hbody : forall acc, fold_left step body (None, acc) = (None, acc ++ body)).
  { clear Hdue. induction Hplain as [|l body [Hl1 Hl2] _ IH]; intros acc.
    - now rewrite app_nil_r.
    - cbn [fold_left]. unfold step at 2. unfold isAnchorLine in Hl1. rewrite Hl1.
      unfold isDueLine, Re.test in Hl2.
      destruct (Re.exec dueLineRegex (Js.trim l)); [discriminate|].
      rewrite IH, <- app_assoc. reflexivity. }
  cbn [fold_left app]. unfold step at 2. unfold isAnchorLine in Hanchor. rewrite Hanchor.
  rewrite fold_left_app, Hbody. cbn [app].
  destruct due as [d|]; [|reflexivity].
  destruct (dueLine_is_due d Hdue) as (Hno & found & Hfound & Hgroup).
  cbn [fold_left]. unfold step. unfold isAnchorLine in Hno. rewrite Hno, Hfound.
  cbn [default Js.truthy negb]. rewrite Hgroup.
  rewrite normalizeDueDate_spec.
  assert (Htrim : Js.trim d = d).
  { apply trim_notSpace.
    apply datePattern_chars in Hdue as (y1 & y2 & y3 & y4 & m1 & m2 & d1 & d2 & -> & Hd).
    repeat match goal with
           | H : Forall _ (_ :: _) |- _ => inversion H; clear H; subst
           | H : Forall _ [] |- _ => clear H
           end.
    cbn [allChars].
    repeat match goal with
           | H : Js.isDigit ?a = true |- _ => rewrite (digit_notSpace a H)
           end.
    reflexivity. }
  now rewrite Htrim, Hdue.
Qed.

(** ** Cards written and read back *)

Lemma descriptionLines_last (description : string) :
  descriptionLines description = []
  \/ exists init l, descriptionLines description = init ++ [l] /\ Js.truthy (Js.trim l) = true.
Proof.
  unfold descriptionLines. destruct (Js.truthy (Js.trim description)) eqn:Hfilled; [|now left].
  right. apply last_line_filled; [|apply trimEnd_idempotent].
  rewrite truthy_trim in Hfilled. pose proof (truthy_trimEnd description) as H.
  rewrite Hfilled in H. now destruct (Js.trimEnd description).
Qed.

Lemma descriptionLines_join (description : string) :
  Js.trimEnd (Js.join newline (descriptionLines description)) = Js.trimEnd description.
Proof.
  unfold descriptionLines. destruct (Js.truthy (Js.trim description)) eqn:Hfilled.
  - rewrite join_splitLines. apply trimEnd_idempotent.
  - rewrite truthy_trim in Hfilled. pose proof (truthy_trimEnd description) as H.
    rewrite Hfilled in H. simpl. now destruct (Js.trimEnd description).
Qed.

Section CardRoundTrip.

Variable localeCompare : string -> string -> comparison.
Variable dateNow : nat -> N.
Variable randomIndex : nat -> nat.

(** what [serializeCard] writes, in terms of the lines above *)
Lemma serializeCard_lines (card : Card) :
  serializeCard localeCompare card
  = [cardLine (card_checked card) (card_id card) (Js.trim (card_title card));
     "  ^" +:+ card_id card]
    ++ map (fun line => "  " +:+ line)
         (descriptionLines (card_description card)
          ++ match normalizeDueDate (card_dueDate card) with
             | Some d => ["due:: " +:+ d]
             | None => []
             end)
    ++ [EmptyString].
Proof.
  unfold serializeCard, normalizeCard, descriptionLines, cardLine.
  cbn [card_checked card_id card_title card_description card_dueDate
       in_id in_title in_description in_checked in_dueDate].
  rewrite normalizeDueDate_idempotent.
  pose proof (normalizeDueDate_shaped (card_dueDate card)) as Hdue.
  destruct (normalizeDueDate (card_dueDate card)) as [d|].
  - destruct Hdue as [Hshape _].
    assert (Hd : Js.truthy d = true) by (destruct d; [discriminate Hshape|reflexivity]).
    change (default EmptyString (Some d)) with d. rewrite Hd.
    assert (Hline : allChars notLineTerminator ("due:: " +:+ d) = true).
    { apply datePattern_chars in Hshape
        as (y1 & y2 & y3 & y4 & m1 & m2 & d1 & d2 & -> & Hdigits).
      repeat match goal with
             | H : Forall _ (_ :: _) |- _ => inversion H; clear H; subst
             | H : Forall _ [] |- _ => clear H
             end.
      cbn [String.append allChars].
      repeat match goal with
             | H : Js.isDigit ?a = true |- _ => rewrite (digit_notLineTerminator a H)
             end.
      reflexivity. }
    destruct (Js.truthy (Js.trim (card_description card))).
    + cbn [app]. rewrite join_cons by discriminate. cbn [Js.join].
      rewrite splitLines_append, (splitLines_single _ Hline). reflexivity.
    + cbn [app Js.join]. rewrite (splitLines_single _ Hline). reflexivity.
  - change (Js.truthy (default EmptyString None)) with false.
    destruct (Js.truthy (Js.trim (card_description card))).
    + cbn [app Js.join]. now rewrite !app_nil_r.
    + reflexivity.
Qed.

Lemma parseCardsAt_unfold (line : string) (rest : list string) :
  parseCardsAt localeCompare dateNow randomIndex (line :: rest) 0
  = match Re.exec cardRegex line with
    | None => parseCardsAt localeCompare dateNow randomIndex rest 0
    | Some found =>
        let cardMatch := Re.caps found in
        let checked := String.eqb (Js.toLowerCase (Re.groupOr 1 cardMatch)) "x" in
        let* cardId :=
          (let given := Js.trim (Re.groupOr 2 cardMatch) in
           if Js.truthy given then ret given
           else createId dateNow randomIndex "card") in
        let title := Js.trim (Re.groupOr 3 cardMatch) in
        let descriptionLines := descriptionLinesOf rest in
        let '(description, dueDate) := normalizeDescription descriptionLines in
        let card :=
          normalizeCard localeCompare
            (mkCardInput cardId title description checked dueDate) in
        let* cards :=
          parseCardsAt localeCompare dateNow randomIndex rest (List.length descriptionLines) in
        ret (card :: cards)
    end.
Proof. reflexivity. Qed.

Lemma serializeCard_readBack (card : Card) :
  serializeCard localeCompare (readBack localeCompare card) = serializeCard localeCompare card.
Proof.
  rewrite !serializeCard_lines. unfold readBack, normalizeCard.
  cbn [card_checked card_id card_title card_description card_dueDate
       in_id in_title in_description in_checked in_dueDate].
  rewrite trim_idempotent, !normalizeDueDate_idempotent. do 4 f_equal.
  unfold descriptionLines. rewrite trimEnd_idempotent.
  now rewrite !truthy_trim, <- truthy_trimEnd, trimEnd_idempotent, truthy_trimEnd.
Qed.

Lemma descriptionLinesOf_cards (cards : list Card) :
  Forall readable cards ->
  descriptionLinesOf (flat_map (serializeCard localeCompare) cards) = [].
Proof.
  destruct 1 as [|card rest (Hfilled & Hid & Htitle & _) _]; [reflexivity|].
  cbn [flat_map]. rewrite serializeCard_lines. cbn [app descriptionLinesOf].
  destruct (cardRegex_on_cardLine (card_checked card) (card_id card)
              (Js.trim (card_title card)) Hfilled Hid Htitle) as (found & Hfound & _).
  { apply trimEnd_head, trimStart_head. }
  unfold Re.test. now rewrite Hfound.
Qed.

Lemma parse_written_card (card : Card) (rest : list string) (entropy : Entropy) :
  readable card ->
  descriptionLinesOf rest = [] ->
  parseCardsAt localeCompare dateNow randomIndex
    (serializeCard localeCompare card ++ rest) 0 entropy
  = let (cards, e) := parseCardsAt localeCompare dateNow randomIndex rest 0 entropy in
    (readBack localeCompare card :: cards, e).
Proof.
  intros (Hfilled & Hid & Htitle & Hplain) Hrest.
  rewrite serializeCard_lines.
  cbn [app]. rewrite parseCardsAt_unfold.
  destruct (cardRegex_on_cardLine (card_checked card) (card_id card)
              (Js.trim (card_title card)) Hfilled Hid Htitle)
    as (found & -> & Hcaps).
  { apply trimEnd_head, trimStart_head. }
  cbv zeta. rewrite Hcaps. unfold bind.
  change (Re.groupOr 2 [_; _; _]) with (card_id card).
  change (Re.groupOr 3 [_; _; _]) with (Js.trim (card_title card)).
  change (Re.groupOr 1 [_; _; _]) with (if card_checked card then "x" else " ").
  assert (Htrim : Js.trim (card_id card) = card_id card).
  { apply trim_notSpace, (allChars_weaken isTagChar notSpace _ tagChar_notSpace Hid). }
  rewrite Htrim, trim_idempotent.
  assert (Htruthy : Js.truthy (card_id card) = true)
    by (destruct (card_id card); [congruence|reflexivity]).
  rewrite Htruthy. unfold ret.
  rewrite <- !app_assoc. cbn [app].
  change (("  ^" +:+ card_id card)
          :: map (fun line => "  " +:+ line)
               (descriptionLines (card_description card)
                ++ match normalizeDueDate (card_dueDate card) with
                   | Some d => ["due:: " +:+ d]
                   | None => []
                   end)
          ++ EmptyString :: rest)
    with (map (fun line => "  " +:+ line)
            (("^" +:+ card_id card)
             :: descriptionLines (card_description card)
             ++ match normalizeDueDate (card_dueDate card) with
                | Some d => ["due:: " +:+ d]
                | None => []
                end)
          ++ EmptyString :: rest).
  rewrite descriptionLinesOf_indented, Hrest.
  rewrite (normalizeDescription_written (card_id card)
             (descriptionLines (card_description card))
             (normalizeDueDate (card_dueDate card)) Hfilled Hid Hplain
             (descriptionLines_last _)).
  2:{ pose proof (normalizeDueDate_shaped (card_dueDate card)) as Hdue.
      destruct (normalizeDueDate (card_dueDate card)); [apply Hdue|exact I]. }
  rewrite descriptionLines_join.
  match goal with
  | |- context [parseCardsAt _ _ _ (map ?f ?L ++ ?e :: rest) (length (?L ++ [?e]))] =>
      replace (length (L ++ [e])) with (length (map f L ++ [e]))
        by (rewrite !length_app, length_map; reflexivity);
      change (map f L ++ e :: rest) with (map f L ++ [e] ++ rest);
      rewrite (app_assoc (map f L) [e] rest)
  end.
  rewrite parseCardsAt_skip.
  destruct (parseCardsAt localeCompare dateNow randomIndex rest 0 entropy) as [cards e].
  f_equal. f_equal. unfold readBack. f_equal. now destruct (card_checked card).
Qed.

(** X15.  Cards written by [serializeCard], one after the other as in a
    lane or in the archive, are read back by [parseCardsFromLines] one
    for one and in order, with no identifier made up, when each has an id
    that is a non-empty run of [[A-Za-z0-9/_-]], a trimmed title without
    line break, and a description no line of which reads as a block anchor
    or as a due line.  A card read back has the same id and checked
    state, the trimmed title, the description without trailing whitespace
    and the normalized due date; writing the cards read back gives the
    same lines again. *)
Theorem written_cards_are_read_back (cards : list Card) (entropy : Entropy) :
  Forall readable cards ->
  parseCardsFromLines localeCompare dateNow randomIndex
    (flat_map (serializeCard localeCompare) cards) entropy
  = (map (readBack localeCompare) cards, entropy)
  /\ flat_map (serializeCard localeCompare) (map (readBack localeCompare) cards)
     = flat_map (serializeCard localeCompare) cards.
Proof.
  intros Hcards. split.
  - unfold parseCardsFromLines.
    induction Hcards as [|card cards Hcard Hcards IH]; [reflexivity|].
    cbn [flat_map map].
    rewrite (parse_written_card card _ entropy Hcard (descriptionLinesOf_cards _ Hcards)).
    now rewrite IH.
  - clear Hcards. induction cards as [|card cards IH]; [reflexivity|].
    cbn [flat_map map]. now rewrite serializeCard_readBack, IH.
Qed.

End CardRoundTrip.

Lemma written_cards_are_read_back_witness :
  let first :=
    {| card_id := "c-1"; card_title := " Ship the #Release ";
       card_description := "first line" +:+ newline +:+ "  second line" +:+ newline;
       card_checked := true; card_dueDate := Some " 2026-03-01 ";
       card_tags := []; card_searchText := EmptyString |} in
  let second := Fixture.plainCard "c-2" "Rest" in
  flat_map (serializeCard codeUnitCompare) [first; second]
  = ["- [x] [c-1] Ship the #Release"; "  ^c-1"; "  first line"; "    second line";
     "  due:: 2026-03-01"; ""; "- [ ] [c-2] Rest"; "  ^c-2"; ""]
  /\ map (fun back => (card_title back, card_description back, card_dueDate back, card_tags back))
       (fst (parseCardsFromLines codeUnitCompare Fixture.clock Fixture.dice
               (flat_map (serializeCard codeUnitCompare) [first; second]) Fixture.start))
     = [("Ship the #Release", "first line" +:+ newline +:+ "  second line",
         Some "2026-03-01", ["#release"]);
        ("Rest", EmptyString, None, [])].
Proof.
  intros first second.
  assert (Hreadable : Forall (readable) [first; second]).
  { repeat constructor; discriminate. }
  destruct (written_cards_are_read_back codeUnitCompare Fixture.clock Fixture.dice
              [first; second] Fixture.start Hreadable) as [Hback _].
  split; [reflexivity|]. rewrite Hback. reflexivity.
Defined.

(** ** Pasted lists *)

Example clipboard_parses_checklist_bullets_ordered_and_plain_lines :
  parseClipboardList
    (Js.join newline
       ["- [x] Done item"; "- [ ] Open item"; "* Bullet item"; "1. Ordered item";
        "2) Another ordered"; "Plain line"])
  = [mkClipboardCard "Done item" true; mkClipboardCard "Open item" false;
     mkClipboardCard "Bullet item" false; mkClipboardCard "Ordered item" false;
     mkClipboardCard "Another ordered" false; mkClipboardCard "Plain line" false].
Proof. vm_compute. reflexivity. Qed.

Example clipboard_ignores_empty_lines :
  parseClipboardList (newline +:+ newline +:+ "- item" +:+ newline +:+ newline)
  = [mkClipboardCard "item" false].
Proof. vm_compute. reflexivity. Qed.

Lemma trim_filled (s : string) : Js.truthy (Js.trim s) = true -> Js.trim s <> EmptyString.
Proof. destruct (Js.trim s); [discriminate|discriminate]. Qed.

Lemma parseClipboardLine_grows (cards : list ParsedClipboardCard) (line : string) :
  exists added,
    parseClipboardLine cards line = cards ++ added
    /\ length added <= 1
    /\ (Js.trim line = EmptyString -> added = [])
    /\ Forall (fun card => clip_title card <> EmptyString
                           /\ Js.trim (clip_title card) = clip_title card) added.
Proof.
  assert (Hpush : forall raw checked,
            exists added,
              pushTitled cards (Js.trim raw) checked = cards ++ added
              /\ length added <= 1
              /\ Forall (fun card => clip_title card <> EmptyString
                                     /\ Js.trim (clip_title card) = clip_title card) added).
  { intros raw checked. unfold pushTitled. destruct (Js.truthy (Js.trim raw)) eqn:Hraw.
    - eexists. split; [reflexivity|]. split; [simpl; lia|].
      repeat constructor; simpl; [now apply trim_filled|apply trim_idempotent].
    - exists []. rewrite app_nil_r. repeat split; [simpl; lia|constructor]. }
  unfold parseClipboardLine. cbv zeta.
  destruct (Js.truthy (Js.trim line)) eqn:Hline; cbn [negb].
  2:{ exists []. rewrite app_nil_r. repeat split; [simpl; lia|constructor]. }
  assert (Hfilled : Js.trim line = EmptyString -> forall added : list ParsedClipboardCard,
                      added = []).
  { intros Hblank. rewrite Hblank in Hline. discriminate. }
  destruct (Re.exec checklistRegex (Js.trim line)) as [checklist|].
  { destruct (Hpush (Re.groupOr 2 (Re.caps checklist))
                (String.eqb (Js.toLowerCase (Re.groupOr 1 (Re.caps checklist))) "x"))
      as (added & -> & Hlen & Hall). exists added. repeat split; auto. }
  destruct (Re.exec bulletRegex (Js.trim line)) as [bullet|].
  { destruct (Hpush (Re.groupOr 1 (Re.caps bullet)) false) as (added & -> & Hlen & Hall).
    exists added. repeat split; auto. }
  destruct (Re.exec orderedRegex (Js.trim line)) as [ordered|].
  { destruct (Hpush (Re.groupOr 1 (Re.caps ordered)) false) as (added & -> & Hlen & Hall).
    exists added. repeat split; auto. }
  eexists. split; [reflexivity|]. split; [simpl; lia|]. split; [auto|].
  repeat constructor; simpl; [now apply trim_filled|apply trim_idempotent].
Qed.

(** X16.  Whatever text is pasted, [parseClipboardList] gives cards whose
    titles are non-empty and carry no whitespace at either end, at most
    one card for each line that is not blank, and none at all for a text
    of blank lines. *)
Theorem clipboard_titles_are_filled_and_trimmed (text : string) :
  let lines := Js.splitLines (Js.replaceCrLf text) in
  Forall (fun card => clip_title card <> EmptyString
                      /\ Js.trim (clip_title card) = clip_title card)
    (parseClipboardList text)
  /\ length (parseClipboardList text)
     <= length (List.filter (fun line => Js.truthy (Js.trim line)) lines)
  /\ (Forall (fun line => Js.trim line = EmptyString) lines -> parseClipboardList text = []).
Proof.
  intros lines. unfold parseClipboardList. fold lines.
  assert (Hloop : forall cards,
            exists added,
              fold_left parseClipboardLine lines cards = cards ++ added
              /\ Forall (fun card => clip_title card <> EmptyString
                                     /\ Js.trim (clip_title card) = clip_title card) added
              /\ length added
                 <= length (List.filter (fun line => Js.truthy (Js.trim line)) lines)
              /\ (Forall (fun line => Js.trim line = EmptyString) lines -> added = [])).
  { induction lines as [|line rest IH]; intros cards.
    - exists []. rewrite app_nil_r. repeat split; [constructor|simpl; lia].
    - cbn [fold_left].
      destruct (parseClipboardLine_grows cards line) as (one & -> & Hone & Hblank & Hgood).
      destruct (IH (cards ++ one)) as (more & -> & Hmore & Hcount & Hnone).
      exists (one ++ more). rewrite app_assoc. split; [reflexivity|].
      split; [now apply Forall_app|]. split.
      + rewrite length_app. cbn [List.filter].
        destruct (Js.truthy (Js.trim line)) eqn:Hline; simpl; [lia|].
        rewrite Hblank; [simpl; lia|]. now destruct (Js.trim line).
      + intros Hall. inversion Hall as [|? ? Hline Hrest]; subst.
        now rewrite (Hblank Hline), (Hnone Hrest). }
  destruct (Hloop []) as (added & -> & Hgood & Hcount & Hnone).
  simpl. auto.
Qed.

Lemma star_stop (p : ascii -> bool) (k : Re.cont) (s : string) (pos : nat) (c : Re.captures) :
  headOutside p s -> Re.run (Re.Star true (Re.Chr p)) pos s c k = k pos s c.
Proof.
  intros Hs. cbn [Re.run Re.iterate]. destruct s as [|a s]; [reflexivity|].
  simpl in Hs. now rewrite Hs.
Qed.

Lemma plus_one (p : ascii -> bool) (k : Re.cont) (a : ascii) (rest : string) (pos : nat)
  (c : Re.captures) :
  p a = true -> headOutside p rest ->
  Re.run (Re.plus true (Re.Chr p)) pos (String a rest) c k = k (S pos) rest c.
Proof.
  intros Ha Hrest. unfold Re.plus. rewrite run_seq, run_class by exact Ha.
  now apply star_stop.
Qed.

Lemma run_class_fail (p : ascii -> bool) (a : ascii) (pos : nat) (s : string) (c : Re.captures)
  (k : Re.cont) :
  p a = false -> Re.run (Re.Chr p) pos (String a s) c k = None.
Proof. intros Hp. cbn [Re.run]. now rewrite Hp. Qed.

Lemma replaceCrLf_single (s : string) :
  allChars notLineTerminator s = true -> Js.replaceCrLf s = s.
Proof.
  induction s as [|a s IH]; [reflexivity|]. cbn [allChars]. intros H.
  apply andb_true_iff in H as [Ha Hs]. cbn [Js.replaceCrLf].
  destruct s as [|b s]; [reflexivity|]. rewrite (IH Hs).
  destruct (Ascii.eqb_spec a "013") as [->|]; [discriminate Ha|reflexivity].
Qed.

Lemma titleText_head (title : string) : titleText title -> headNotSpace title.
Proof. intros (_ & <- & _). apply trimEnd_head, trimStart_head. Qed.

Lemma titleText_trimEnd (title : string) : titleText title -> Js.trimEnd title = title.
Proof.
  intros Htitle. pose proof (titleText_head title Htitle) as Hhead.
  destruct Htitle as (_ & Htrim & _). unfold Js.trim in Htrim.
  now rewrite (trimStart_fixed title Hhead) in Htrim.
Qed.

Lemma marker_notSpace (a : ascii) : isListMarker a = true -> Js.isSpace a = false.
Proof. destruct a as [[] [] [] [] [] [] [] []]; vm_compute; congruence. Qed.

Lemma digit_not_marker (a : ascii) : Js.isDigit a = true -> isListMarker a = false.
Proof. destruct a as [[] [] [] [] [] [] [] []]; vm_compute; congruence. Qed.

(** the text of one line, pasted *)
Lemma parseClipboardList_line (line : string) :
  allChars notLineTerminator line = true ->
  parseClipboardList line = parseClipboardLine [] line.
Proof.
  intros Hline. unfold parseClipboardList.
  now rewrite (replaceCrLf_single line Hline), (splitLines_single line Hline).
Qed.

Lemma trim_prefixed (prefix title : string) :
  headNotSpace prefix -> prefix <> EmptyString -> titleText title ->
  Js.trim (prefix +:+ title) = prefix +:+ title.
Proof.
  intros Hhead Hprefix Htitle. unfold Js.trim.
  rewrite trimStart_fixed by (destruct prefix; [congruence|exact Hhead]).
  rewrite trimEnd_append; rewrite (titleText_trimEnd title Htitle); [reflexivity|apply Htitle].
Qed.

Lemma allChars_append (p : ascii -> bool) (a b : string) :
  allChars p (a +:+ b) = allChars p a && allChars p b.
Proof. induction a as [|x a IH]; [reflexivity|]. simpl. now rewrite IH, andb_assoc. Qed.

Lemma title_captured (n : nat) (title : string) (pos : nat) (c : Re.captures) :
  titleText title ->
  Re.run (Re.Seq (Re.Group n (Re.plus true Re.dot)) Re.Eol) pos title c Re.final
  = Some (String.length title + pos, (n, title) :: c).
Proof.
  intros (Hfilled & _ & Hline). rewrite run_seq, run_group.
  apply (run_plus notLineTerminator _ _ title EmptyString);
    [symmetry; apply append_empty|exact Hfilled|exact Hline|exact I|].
  cbv beta. rewrite run_eol. unfold Re.final.
  assert (Hslice : Js.sliceTo (String.length title + pos - pos) title = title)
    by (rewrite <- (append_empty title) at 2; apply sliceTo_run).
  now rewrite Hslice.
Qed.

(** X17.  What [parseClipboardList] makes of one pasted line, [title]
    being a non-empty text on one line without whitespace at either end:
    a checklist item [- [x] title] (marker [-], [*] or [+]; box [ ], [x]
    or [X]) gives the title, checked exactly when the box holds [x] or
    [X]; a bullet [- title] whose title does not open with a bracket, and
    a numbered item [12. title] or [12) title], give the title, unchecked;
    a line that opens with neither a list marker nor a digit is taken
    whole, unchecked. *)
Theorem clipboard_reads_list_items (marker box stop : ascii) (number title : string) :
  titleText title ->
  (isListMarker marker = true ->
   (Ascii.eqb box " " || Ascii.eqb box "x" || Ascii.eqb box "X") = true ->
   parseClipboardList (String marker (" [" +:+ String box ("] " +:+ title)))
   = [mkClipboardCard title (negb (Ascii.eqb box " "))])
  /\ (isListMarker marker = true -> Js.startsWith title "[" = false ->
      parseClipboardList (String marker (" " +:+ title)) = [mkClipboardCard title false])
  /\ (number <> EmptyString -> allChars Js.isDigit number = true ->
      (Ascii.eqb stop "." || Ascii.eqb stop ")") = true ->
      parseClipboardList (number +:+ String stop (" " +:+ title))
      = [mkClipboardCard title false])
  /\ (match title with
      | String a _ => isListMarker a = false /\ Js.isDigit a = false
      | EmptyString => False
      end ->
      parseClipboardList title = [mkClipboardCard title false]).
Proof.
  intros Htitle.
  pose proof (titleText_head title Htitle) as Hhead.
  pose proof (title_captured) as Hcapture.
  pose proof Htitle as (Hfilled & Htrim & Hline).
  assert (Hspace : headOutside Js.isSpace title) by (destruct title; [exact I|exact Hhead]).
  assert (Htruthy : Js.truthy title = true) by (destruct title; [congruence|reflexivity]).
  split; [|split; [|split]].
  - intros Hmarker Hbox.
    rewrite parseClipboardList_line.
    2:{ cbn [String.append allChars]. rewrite Hline.
        destruct marker as [[] [] [] [] [] [] [] []]; try discriminate Hmarker;
          destruct box as [[] [] [] [] [] [] [] []]; try discriminate Hbox; reflexivity. }
    unfold parseClipboardLine. cbv zeta.
    change (String marker (" [" +:+ String box ("] " +:+ title)))
      with (String marker (" [" +:+ String box "] ") +:+ title).
    rewrite (trim_prefixed (String marker (" [" +:+ String box "] ")) title);
      [|now apply marker_notSpace|discriminate|exact Htitle].
    cbn [String.append Js.truthy negb].
    unfold checklistRegex, listMarker, Re.space. cbn [Re.seqs]. rewrite exec_bol.
    replace (Re.run _ 0 _ [] Re.final)
      with (Some (String.length title + 6, [(2, title); (1, String box EmptyString)])).
    + cbn [Re.caps]. change (Re.groupOr 2 _) with title.
      change (Re.groupOr 1 _) with (String box EmptyString).
      rewrite Htrim. unfold pushTitled. rewrite Htruthy. cbn [app]. do 2 f_equal.
      destruct box as [[] [] [] [] [] [] [] []]; try discriminate Hbox; reflexivity.
    + symmetry. rewrite run_seq.
      rewrite star_stop by (simpl; now apply marker_notSpace).
      rewrite run_seq, run_class by exact Hmarker. rewrite run_seq.
      rewrite (plus_one Js.isSpace) by reflexivity.
      rewrite run_seq, run_chr. rewrite run_seq, run_group, run_class by exact Hbox.
      cbv beta. rewrite run_seq, run_chr. rewrite run_seq.
      rewrite (plus_one Js.isSpace) by (try reflexivity; exact Hspace).
      now rewrite Hcapture by exact Htitle.
  - intros Hmarker Hbracket.
    rewrite parseClipboardList_line.
    2:{ cbn [String.append allChars]. rewrite Hline.
        destruct marker as [[] [] [] [] [] [] [] []]; try discriminate Hmarker; reflexivity. }
    unfold parseClipboardLine. cbv zeta.
    change (String marker (" " +:+ title)) with (String marker " " +:+ title).
    rewrite (trim_prefixed (String marker " ") title);
      [|now apply marker_notSpace|discriminate|exact Htitle].
    cbn [String.append Js.truthy negb].
    assert (Hnone : Re.exec checklistRegex (String marker (String " " title)) = None).
    { unfold checklistRegex, listMarker, Re.space. cbn [Re.seqs]. rewrite exec_bol.
      replace (Re.run _ 0 _ [] Re.final) with (@None Re.result); [reflexivity|].
      symmetry. rewrite run_seq.
      rewrite star_stop by (simpl; now apply marker_notSpace).
      rewrite run_seq, run_class by exact Hmarker. rewrite run_seq.
      rewrite (plus_one Js.isSpace) by (try reflexivity; exact Hspace).
      rewrite run_seq. destruct title as [|a rest]; [reflexivity|].
      apply run_class_fail. simpl in Hbracket. now rewrite andb_true_r in Hbracket. }
    rewrite Hnone.
    unfold bulletRegex, listMarker, Re.space. cbn [Re.seqs]. rewrite exec_bol.
    replace (Re.run _ 0 _ [] Re.final)
      with (Some (String.length title + 2, [(1, title)])).
    + cbn [Re.caps]. change (Re.groupOr 1 _) with title.
      rewrite Htrim. unfold pushTitled. now rewrite Htruthy.
    + symmetry. rewrite run_seq.
      rewrite star_stop by (simpl; now apply marker_notSpace).
      rewrite run_seq, run_class by exact Hmarker. rewrite run_seq.
      rewrite (plus_one Js.isSpace) by (try reflexivity; exact Hspace).
      apply Hcapture. exact Htitle.
  - intros Hnumber Hdigits Hstop.
    destruct number as [|d digits]; [congruence|].
    pose proof Hdigits as Hd. cbn [allChars] in Hd. apply andb_true_iff in Hd as [Hd _].
    assert (Hstop' : Js.isSpace stop = false /\ Js.isDigit stop = false
                     /\ notLineTerminator stop = true).
    { destruct stop as [[] [] [] [] [] [] [] []]; try discriminate Hstop; repeat split. }
    destruct Hstop' as (Hstop1 & Hstop2 & Hstop3).
    rewrite parseClipboardList_line.
    2:{ rewrite allChars_append.
        rewrite (allChars_weaken Js.isDigit notLineTerminator _
                   digit_notLineTerminator Hdigits).
        cbn [String.append allChars]. now rewrite Hline, Hstop3. }
    unfold parseClipboardLine. cbv zeta.
    replace (String d digits +:+ String stop (" " +:+ title))
      with ((String d digits +:+ String stop " ") +:+ title)
      by (rewrite append_assoc; reflexivity).
    rewrite (trim_prefixed (String d digits +:+ String stop " ") title);
      [|simpl; now apply negb_true_iff, digit_notSpace|discriminate|exact Htitle].
    rewrite append_assoc.
    change (String d digits +:+ String stop " " +:+ title)
      with (String d (digits +:+ String stop (String " " title))).
    cbn [Js.truthy negb].
    assert (Hhead_d : headOutside Js.isSpace (String d (digits +:+ String stop (String " " title)))).
    { simpl. now apply negb_true_iff, digit_notSpace. }
    assert (Hnone1 : Re.exec checklistRegex
                       (String d (digits +:+ String stop (String " " title))) = None).
    { unfold checklistRegex, listMarker, Re.space. cbn [Re.seqs]. rewrite exec_bol.
      replace (Re.run _ 0 _ [] Re.final) with (@None Re.result); [reflexivity|].
      symmetry. rewrite run_seq, star_stop by exact Hhead_d.
      rewrite run_seq. apply run_class_fail. now apply digit_not_marker. }
    assert (Hnone2 : Re.exec bulletRegex
                       (String d (digits +:+ String stop (String " " title))) = None).
    { unfold bulletRegex, listMarker, Re.space. cbn [Re.seqs]. rewrite exec_bol.
      replace (Re.run _ 0 _ [] Re.final) with (@None Re.result); [reflexivity|].
      symmetry. rewrite run_seq, star_stop by exact Hhead_d.
      rewrite run_seq. apply run_class_fail. now apply digit_not_marker. }
    rewrite Hnone1, Hnone2.
    unfold orderedRegex, Re.space. cbn [Re.seqs]. rewrite exec_bol.
    replace (Re.run _ 0 _ [] Re.final)
      with (Some (String.length title + (S (S (String.length (String d digits) + 0))),
                  [(1, title)])).
    + cbn [Re.caps]. change (Re.groupOr 1 _) with title.
      rewrite Htrim. unfold pushTitled. now rewrite Htruthy.
    + symmetry. rewrite run_seq, star_stop by exact Hhead_d.
      rewrite run_seq. unfold Re.digit.
      apply (run_plus Js.isDigit _ _ (String d digits) (String stop (String " " title)));
        [reflexivity|discriminate|exact Hdigits|exact Hstop2|].
      cbv beta. rewrite run_seq, run_class by exact Hstop. rewrite run_seq.
      rewrite (plus_one Js.isSpace) by (try reflexivity; exact Hspace).
      apply Hcapture. exact Htitle.
  - intros Hplain. destruct title as [|a rest]; [contradiction|]. destruct Hplain as [Hm Hd].
    rewrite parseClipboardList_line by exact Hline.
    unfold parseClipboardLine. cbv zeta. rewrite Htrim. cbn [Js.truthy negb].
    assert (Hnone1 : Re.exec checklistRegex (String a rest) = None).
    { unfold checklistRegex, listMarker, Re.space. cbn [Re.seqs]. rewrite exec_bol.
      replace (Re.run _ 0 _ [] Re.final) with (@None Re.result); [reflexivity|].
      symmetry. rewrite run_seq, star_stop by exact Hspace.
      rewrite run_seq. now apply run_class_fail. }
    assert (Hnone2 : Re.exec bulletRegex (String a rest) = None).
    { unfold bulletRegex, listMarker, Re.space. cbn [Re.seqs]. rewrite exec_bol.
      replace (Re.run _ 0 _ [] Re.final) with (@None Re.result); [reflexivity|].
      symmetry. rewrite run_seq, star_stop by exact Hspace.
      rewrite run_seq. now apply run_class_fail. }
    assert (Hnone3 : Re.exec orderedRegex (String a rest) = None).
    { unfold orderedRegex, Re.space. cbn [Re.seqs]. rewrite exec_bol.
      replace (Re.run _ 0 _ [] Re.final) with (@None Re.result); [reflexivity|].
      symmetry. rewrite run_seq, star_stop by exact Hspace.
      rewrite run_seq. unfold Re.plus, Re.digit. rewrite run_seq.
      now apply run_class_fail. }
    now rewrite Hnone1, Hnone2, Hnone3.
Qed.

Lemma clipboard_reads_list_items_witness :
  parseClipboardList "* [X] Buy milk" = [mkClipboardCard "Buy milk" true]
  /\ parseClipboardList "+ Buy milk" = [mkClipboardCard "Buy milk" false]
  /\ parseClipboardList "12) Buy milk" = [mkClipboardCard "Buy milk" false]
  /\ parseClipboardList "Buy milk" = [mkClipboardCard "Buy milk" false].
Proof.
  assert (Htitle : titleText "Buy milk") by (repeat split; discriminate).
  destruct (clipboard_reads_list_items "*" "X" ")" "12" "Buy milk" Htitle)
    as (Hcheck & _).
  destruct (clipboard_reads_list_items "+" " " ")" "12" "Buy milk" Htitle)
    as (_ & Hbullet & Hordered & Hplain).
  split; [exact (Hcheck eq_refl eq_refl)|].
  split; [exact (Hbullet eq_refl eq_refl)|].
  split; [apply Hordered; [discriminate|reflexivity|reflexivity]|].
  apply Hplain. split; reflexivity.
Defined.

(** ** The text of the card editor *)

Lemma replaceCrLf_prefixed (t rest : string) :
  allChars notLineTerminator t = true ->
  Js.replaceCrLf (t +:+ newline +:+ rest) = t +:+ newline +:+ Js.replaceCrLf rest.
Proof.
  induction t as [|a t IH]; intros Ht.
  - change (EmptyString +:+ newline +:+ rest) with (String "010" rest).
    cbn [Js.replaceCrLf]. destruct rest; reflexivity.
  - cbn [allChars] in Ht. apply andb_true_iff in Ht as [Ha Ht].
    change (String a t +:+ newline +:+ rest) with (String a (t +:+ newline +:+ rest)).
    cbn [Js.replaceCrLf]. rewrite (IH Ht).
    destruct (Ascii.eqb_spec a "013") as [->|]; [discriminate Ha|].
    destruct t; reflexivity.
Qed.

(** X18.  Opening a card in the editor and saving it unchanged:
    [fromEditableCardText] applied to what [toEditableCardText] wrote
    gives the trimmed title back whenever that is a non-empty text on one
    line, and as description the original without trailing whitespace
    (with each carriage return and line feed pair made one line feed).
    With a blank title the editor text opens with the description, and
    its first non-blank line is taken for the title. *)
Theorem editable_text_reads_back (title description : string) :
  (Js.trim title <> EmptyString ->
   allChars notLineTerminator (Js.trim title) = true ->
   fromEditableCardText (toEditableCardText title description)
   = mkParsedCardContent (Js.trim title)
       (Js.trimEnd (normalizeNewlines (Js.trimEnd description))))
  /\ (Js.trim title = EmptyString ->
      fromEditableCardText (toEditableCardText title description)
      = fromEditableCardText (Js.trimEnd description)).
Proof.
  split.
  - intros Hfilled Hline. unfold toEditableCardText, fromEditableCardText. cbv zeta.
    assert (Htruthy : Js.truthy (Js.trim (Js.trim title)) = true).
    { rewrite trim_idempotent. now destruct (Js.trim title). }
    destruct (Js.trimEnd description) as [|a d] eqn:Hd; cbn [Js.truthy negb].
    + unfold normalizeNewlines.
      rewrite (replaceCrLf_single _ Hline), (splitLines_single _ Hline).
      cbn [fromFirstContentLine]. rewrite Htruthy, trim_idempotent.
      repeat rewrite (orElse_truthy (Js.trim title) "Untitled" Hfilled). reflexivity.
    + unfold normalizeNewlines. rewrite (replaceCrLf_prefixed _ _ Hline).
      rewrite splitLines_append, (splitLines_single _ Hline).
      cbn [app fromFirstContentLine]. rewrite Htruthy, trim_idempotent.
      repeat rewrite (orElse_truthy (Js.trim title) "Untitled" Hfilled). now rewrite join_splitLines.
  - intros Hblank. unfold toEditableCardText. cbv zeta. rewrite Hblank.
    destruct (Js.trimEnd description) as [|a d] eqn:Hd; [reflexivity|].
    cbn [Js.truthy negb]. change (EmptyString +:+ newline +:+ String a d)
      with (String "010" (String a d)).
    unfold fromEditableCardText, normalizeNewlines.
    replace (Js.replaceCrLf (String "010" (String a d)))
      with (String "010" (Js.replaceCrLf (String a d))) by reflexivity.
    cbn [Js.splitLines]. change (Ascii.eqb "010" "010") with true. cbv iota.
    cbn [fromFirstContentLine]. reflexivity.
Qed.

Lemma editable_text_reads_back_witness :
  fromEditableCardText (toEditableCardText " Plan " ("step one" +:+ newline +:+ "step two  "))
  = mkParsedCardContent "Plan" ("step one" +:+ newline +:+ "step two").
Proof.
  assert (Hfilled : Js.trim " Plan " <> EmptyString) by discriminate.
  exact (proj1 (editable_text_reads_back " Plan " ("step one" +:+ newline +:+ "step two  "))
           Hfilled eq_refl).
Defined.

Lemma sliceTo_length (n : nat) (s : string) :
  String.length (Js.sliceTo n s) = Nat.min n (String.length s).
Proof.
  revert s. induction n as [|n IH]; intros [|a s]; simpl; try reflexivity. now rewrite IH.
Qed.

Lemma sliceTo_sliceFrom (n : nat) (s : string) : Js.sliceTo n s +:+ Js.sliceFrom n s = s.
Proof.
  revert s. induction n as [|n IH]; intros [|a s]; simpl; try reflexivity. now rewrite IH.
Qed.

(** X19.  [clampEditableCardText] cuts a text at the limit and nowhere
    else: the result is the text's first [min(length, limit)] characters,
    so it is never longer than the limit, it is the text itself when that
    fits, and clamping again changes nothing. *)
Theorem clamped_text_is_a_prefix (value : string) (maxLength : nat) :
  let clamped := clampEditableCardText value maxLength in
  String.length clamped = Nat.min (String.length value) maxLength
  /\ (exists cut, value = clamped +:+ cut)
  /\ (String.length value <= maxLength -> clamped = value)
  /\ clampEditableCardText clamped maxLength = clamped.
Proof.
  intros clamped. unfold clamped, clampEditableCardText.
  destruct (Nat.leb_spec (String.length value) maxLength) as [Hfits|Hlong].
  - rewrite (proj2 (Nat.leb_le _ _) Hfits). repeat split; [lia|].
    exists EmptyString. now rewrite append_empty.
  - repeat split.
    + rewrite sliceTo_length. lia.
    + exists (Js.sliceFrom maxLength value). now rewrite sliceTo_sliceFrom.
    + lia.
    + rewrite sliceTo_length.
      now rewrite (proj2 (Nat.leb_le _ _) (Nat.le_min_l maxLength (String.length value))).
Qed.

(** ** Generated identifiers *)

Lemma digit36_tagChar (d : N) : (d < 36)%N -> isTagChar (digit36 d) = true.
Proof.
  intros Hd. assert (Hn : exists n, n < 36 /\ d = N.of_nat n).
  { exists (N.to_nat d). split; lia. }
  destruct Hn as (n & Hn & ->).
  do 36 (destruct n as [|n]; [reflexivity|]). lia.
Qed.

Lemma toBase36_tagChars (fuel : nat) (n : N) (acc : string) :
  allChars isTagChar acc = true -> allChars isTagChar (toBase36 fuel n acc) = true.
Proof.
  revert n acc. induction fuel as [|fuel IH]; intros n acc Hacc; [exact Hacc|].
  cbn [toBase36].
  assert (Hnext : allChars isTagChar (String (digit36 (n mod 36)) acc) = true).
  { cbn [allChars]. rewrite digit36_tagChar, Hacc; [reflexivity|].
    apply N.mod_lt. discriminate. }
  destruct (n <? 36)%N; [exact Hnext|now apply IH].
Qed.

Lemma toBase36_filled (fuel : nat) (n : N) (acc : string) :
  acc <> EmptyString \/ 0 < fuel -> toBase36 fuel n acc <> EmptyString.
Proof.
  revert n acc. induction fuel as [|fuel IH]; intros n acc Hacc.
  - destruct Hacc; [assumption|lia].
  - cbn [toBase36]. destruct (n <? 36)%N; [discriminate|]. apply IH. left. discriminate.
Qed.

Section GeneratedIds.

Variable dateNow : nat -> N.
Variable randomIndex : nat -> nat.

Hypothesis randomIndex_range : forall draw, randomIndex draw < 36.

Lemma randomString_tagChars (size draw : nat) :
  allChars isTagChar (randomString randomIndex size draw) = true
  /\ String.length (randomString randomIndex size draw) = size.
Proof.
  revert draw. induction size as [|size IH]; intros draw; [split; reflexivity|].
  cbn [randomString]. destruct (IH (S draw)) as [Hchars Hlength].
  pose proof (randomIndex_range draw) as Hrange.
  assert (Hchar : exists a, charAt alphabet (randomIndex draw) = String a EmptyString
                            /\ isTagChar a = true).
  { generalize dependent (randomIndex draw). intros n Hn.
    do 36 (destruct n as [|n]; [eexists; split; reflexivity|]). lia. }
  destruct Hchar as (a & -> & Ha).
  change (String a EmptyString +:+ randomString randomIndex size (S draw))
    with (String a (randomString randomIndex size (S draw))).
  cbn [allChars String.length]. now rewrite Ha, Hchars, Hlength.
Qed.

(** X20.  An identifier made by [createId], the random index being below
    36 as [Math.floor(Math.random() * 36)] is: it is the prefix, a dash,
    the clock in base 36, a dash and five characters of the alphabet; when
    the prefix is made of [[A-Za-z0-9/_-]] so is the identifier, which a
    card then keeps through a round trip and whose anchor line the parser
    recognizes; one clock reading and five random draws are used. *)
Theorem createId_is_an_anchor_name (prefix : string) (entropy : Entropy) :
  allChars isTagChar prefix = true ->
  let id := fst (createId dateNow randomIndex prefix entropy) in
  let after := snd (createId dateNow randomIndex prefix entropy) in
  (exists stamp suffix,
     id = prefix +:+ "-" +:+ stamp +:+ "-" +:+ suffix
     /\ stamp = toString36 (dateNow (clockReads entropy))
     /\ stamp <> EmptyString
     /\ String.length suffix = 5)
  /\ id <> EmptyString
  /\ allChars isTagChar id = true
  /\ isAnchorLine ("^" +:+ id) = true
  /\ clockReads after = S (clockReads entropy)
  /\ randomDraws after = 5 + randomDraws entropy.
Proof.
  intros Hprefix id after.
  destruct (randomString_tagChars 5 (randomDraws entropy)) as [Hchars Hlength].
  assert (Hstamp : allChars isTagChar (toString36 (dateNow (clockReads entropy))) = true)
    by (apply toBase36_tagChars; reflexivity).
  assert (Hfilled : id <> EmptyString).
  { unfold id, createId. cbn [fst]. destruct prefix; discriminate. }
  assert (Hid : allChars isTagChar id = true).
  { unfold id, createId. cbn [fst].
    rewrite !allChars_append, Hprefix, Hstamp, Hchars. reflexivity. }
  split; [|split; [exact Hfilled|split; [exact Hid|split; [|split; reflexivity]]]].
  - exists (toString36 (dateNow (clockReads entropy))),
      (randomString randomIndex 5 (randomDraws entropy)).
    split; [reflexivity|]. split; [reflexivity|]. split; [|exact Hlength].
    apply toBase36_filled. right. lia.
  - now apply anchor_is_anchor.
Qed.

End GeneratedIds.

Lemma createId_is_an_anchor_name_witness :
  fst (createId Fixture.clock (fun draw => draw mod 36) "card" Fixture.start)
  = "card-mlpu6tc0-abcde"
  /\ isAnchorLine ("^" +:+ "card-mlpu6tc0-abcde") = true.
Proof.
  assert (Hrange : forall draw, draw mod 36 < 36)
    by (intros draw; apply Nat.mod_upper_bound; discriminate).
  destruct (createId_is_an_anchor_name Fixture.clock (fun draw => draw mod 36) Hrange
              "card" Fixture.start eq_refl) as (_ & _ & _ & Hanchor & _).
  split; [reflexivity|exact Hanchor].
Defined.

(** ** The save queue *)

Lemma runQueue_snoc (events : list QueueEvent) (event : QueueEvent) (q : SaveQueue) :
  runQueue (events ++ [event]) q = queueStep (runQueue events q) event.
Proof. unfold runQueue. now rewrite fold_left_app. Qed.

Lemma requested_snoc (events : list QueueEvent) (event : QueueEvent) :
  requested (events ++ [event])
  = requested events ++ match event with Request payload => [payload] | _ => [] end.
Proof. unfold requested. rewrite flat_map_app. simpl. now rewrite app_nil_r. Qed.

(** what [flush] does, by cases *)
Lemma flush_cases (q : SaveQueue) :
  (flush q = q /\ (writing q = true \/ hasPayload q = false))
  \/ (exists payload,
        pendingPayload q = Some payload /\ payload <> EmptyString /\ writing q = false
        /\ flush q = {| debounceHandle := idle; maxDelayHandle := idle;
                        pendingPayload := None; writing := true;
                        written := written q ++ [payload] |}).
Proof.
  unfold flush, hasPayload. destruct (writing q) eqn:Hwriting; [left; auto|].
  destruct (pendingPayload q) as [payload|] eqn:Hpending; [|left; auto].
  destruct payload as [|a payload]; [left; auto|].
  right. exists (String a payload). repeat split. discriminate.
Qed.

Lemma latestWaits_flush (requests : list string) (q : SaveQueue) :
  latestWaits requests q -> latestWaits requests (flush q).
Proof.
  intros [Hsub Hpending].
  destruct (flush_cases q) as [[-> _]|(payload & Hpayload & _ & _ & ->)]; [now split|].
  rewrite Hpayload in Hpending. destruct Hpending as (earlier & -> & Hearlier).
  split; simpl; [|exact I]. now apply sublist_app.
Qed.

Lemma latestWaits_step (events : list QueueEvent) (event : QueueEvent) (q : SaveQueue) :
  latestWaits (requested events) q ->
  latestWaits (requested (events ++ [event])) (queueStep q event).
Proof.
  intros Hq. rewrite requested_snoc.
  assert (Hkeep : forall q', pendingPayload q' = pendingPayload q -> written q' = written q ->
                             latestWaits (requested events) q').
  { intros q' Hp Hw. unfold latestWaits. rewrite Hp, Hw. exact Hq. }
  destruct event as [payload| | | | |succeeded]; cbn [queueStep]; rewrite ?app_nil_r.
  - destruct Hq as [Hsub _]. split; simpl.
    + now apply sublist_inserts_r.
    + exists (requested events). now split.
  - now apply latestWaits_flush.
  - destruct Hq as [Hsub _]. now split.
  - destruct (debounceHandle q); try exact Hq. apply latestWaits_flush. now apply Hkeep.
  - destruct (maxDelayHandle q); try exact Hq. apply latestWaits_flush. now apply Hkeep.
  - destruct (writing q); [|exact Hq]. destruct succeeded.
    + unfold afterWrite. cbv zeta. destruct (hasPayload _).
      * apply latestWaits_flush. now apply Hkeep.
      * now apply Hkeep.
    + now apply Hkeep.
Qed.

Lemma latestWaits_run (events : list QueueEvent) :
  latestWaits (requested events) (runQueue events newQueue).
Proof.
  induction events as [|event events IH] using rev_ind.
  - split; [constructor|exact I].
  - rewrite runQueue_snoc. now apply latestWaits_step.
Qed.

(** X21.  The save queue writes one payload at a time and never a stale
    one: in any run of requests, timers and settling writes, a step calls
    [flushFn] only while no write is under way, or as the write under way
    settles, and then with the latest payload requested; so the payloads
    written are a selection of the payloads requested, in the order of
    the requests, and a payload that waits is the latest request. *)
Theorem queue_writes_the_latest_request (events : list QueueEvent) (event : QueueEvent) :
  let q := runQueue events newQueue in
  sublist (written q) (requested events)
  /\ (forall payload, pendingPayload q = Some payload ->
        exists earlier, requested events = earlier ++ [payload])
  /\ (written (queueStep q event) = written q
      \/ exists earlier payload,
           requested events = earlier ++ [payload]
           /\ written (queueStep q event) = written q ++ [payload]
           /\ (writing q = false \/ event = WriteSettles true)
           /\ writing (queueStep q event) = true).
Proof.
  intros q. pose proof (latestWaits_run events) as [Hsub Hpending]. fold q in Hsub, Hpending.
  split; [exact Hsub|]. split.
  { intros payload Hp. rewrite Hp in Hpending. destruct Hpending as (earlier & Hreq & _).
    now exists earlier. }
  assert (Hflush : forall q', pendingPayload q' = pendingPayload q -> written q' = written q ->
                              written (flush q') = written q
                              \/ exists earlier payload,
                                   requested events = earlier ++ [payload]
                                   /\ written (flush q') = written q ++ [payload]
                                   /\ writing q' = false
                                   /\ writing (flush q') = true).
  { intros q' Hp Hw.
    destruct (flush_cases q') as [[-> _]|(payload & Hpayload & _ & Hidle & ->)]; [now left|].
    right. rewrite Hp in Hpayload. rewrite Hpayload in Hpending.
    destruct Hpending as (earlier & Hreq & _). exists earlier, payload.
    simpl. now rewrite Hw. }
  assert (Hcall : forall q', pendingPayload q' = pendingPayload q -> written q' = written q ->
                             (writing q' = false -> writing q = false \/ event = WriteSettles true) ->
                             written (flush q') = written q
                             \/ exists earlier payload,
                                  requested events = earlier ++ [payload]
                                  /\ written (flush q') = written q ++ [payload]
                                  /\ (writing q = false \/ event = WriteSettles true)
                                  /\ writing (flush q') = true).
  { intros q' Hp Hw Hidle.
    destruct (Hflush q' Hp Hw) as [Hsame|(earlier & payload & H1 & H2 & H3 & H4)];
      [now left|]. right. exists earlier, payload. auto. }
  destruct event as [payload| | | | |succeeded]; cbn [queueStep].
  - now left.
  - apply Hcall; auto.
  - now left.
  - destruct (debounceHandle q); try (now left). apply Hcall; auto.
  - destruct (maxDelayHandle q); try (now left). apply Hcall; auto.
  - destruct (writing q) eqn:Hwriting; [|now left]. destruct succeeded; [|now left].
    unfold afterWrite. cbv zeta. destruct (hasPayload _); [|now left].
    apply Hcall; auto.
Qed.

Lemma covered_step (q : SaveQueue) (event : QueueEvent) :
  event <> WriteSettles false -> pendingIsCovered q -> pendingIsCovered (queueStep q event).
Proof.
  intros Hevent Hq.
  assert (Hflush : forall q', (writing q' = true -> pendingIsCovered q') ->
                              pendingIsCovered (flush q')).
  { intros q' Hq'.
    destruct (flush_cases q') as [[-> [Hwriting|Hnone]]|(payload & _ & _ & _ & ->)].
    - now apply Hq'.
    - intros Hsome. congruence.
    - intros _. now left. }
  destruct event as [payload| | | | |succeeded]; cbn [queueStep].
  - intros _. now right.
  - apply Hflush. intros _. exact Hq.
  - intros Hsome. discriminate Hsome.
  - destruct (debounceHandle q); try exact Hq. apply Hflush. intros Hw _. now left.
  - destruct (maxDelayHandle q) eqn:Hmax; try exact Hq. apply Hflush. intros Hw _. now left.
  - destruct (writing q) eqn:Hwriting; [|exact Hq]. destruct succeeded; [|congruence].
    unfold afterWrite. cbv zeta.
    match goal with
    | |- context [hasPayload ?q'] => destruct (hasPayload q') eqn:Hsome
    end.
    + apply Hflush. intros Hw. discriminate Hw.
    + intros Hsome'. unfold hasPayload in *. simpl in *. congruence.
Qed.

(** X22.  As long as no write fails, a payload that waits in the queue is
    on its way: a write is under way, after which the queue flushes
    again, or the debounce timer is armed.  A failed write breaks this:
    when both timers have fired during the write, the payload requested
    meanwhile waits with no timer armed and no write under way, and no
    timer or settling event changes the queue any more. *)
Theorem pending_payload_is_covered_unless_a_write_fails :
  (forall events, noFailedWrite events -> pendingIsCovered (runQueue events newQueue))
  /\ (let stuck :=
        runQueue [Request "a"; DebounceFires; Request "b"; DebounceFires; MaxDelayFires;
                  WriteSettles false] newQueue in
      pendingPayload stuck = Some "b"
      /\ written stuck = ["a"]
      /\ ~ pendingIsCovered stuck
      /\ forall events,
           Forall (fun event => event = DebounceFires \/ event = MaxDelayFires
                                \/ exists succeeded, event = WriteSettles succeeded) events ->
           runQueue events stuck = stuck).
Proof.
  split.
  - intros events Hevents.
    induction events as [|event events IH] using rev_ind.
    + intros Hsome. discriminate Hsome.
    + apply Forall_app in Hevents as [Hbefore Hevent].
      rewrite runQueue_snoc. apply covered_step; [|now apply IH].
      now inversion Hevent.
  - intros stuck. split; [reflexivity|]. split; [reflexivity|]. split.
    + intros Hcovered. destruct (Hcovered eq_refl) as [H|H]; discriminate H.
    + intros events Hevents. induction Hevents as [|event events Hevent _ IH]; [reflexivity|].
      unfold runQueue in *. cbn [fold_left].
      destruct Hevent as [->|[->|[succeeded ->]]]; exact IH.
Qed.

Lemma queue_writes_the_latest_request_trace :
  written
    (runQueue [Request "a"; Request "b"; DebounceFires; Request "c"; Request "d";
               MaxDelayFires; WriteSettles true; WriteSettles true] newQueue)
  = ["b"; "d"].
Proof. reflexivity. Qed.

(** ** Dropping lanes and cards *)

Lemma list_find_map_keep {A : Type} (P : A -> Prop) `{!forall x, Decision (P x)}
  (f : A -> A) (l : list A) :
  (forall x, P (f x) <-> P x) ->
  list_find P (map f l) = prod_map id f <$> list_find P l.
Proof.
  intros Hkeep. induction l as [|x l IH]; [reflexivity|]. cbn [map list_find].
  destruct (decide (P x)) as [Hx|Hx].
  - rewrite decide_True by (now apply Hkeep). reflexivity.
  - rewrite decide_False by (now rewrite Hkeep). rewrite IH.
    destruct (list_find P l) as [[k found]|]; reflexivity.
Qed.

Lemma spliceIn_delete_same {A : Type} (l : list A) (i : nat) (x : A) :
  l !! i = Some x -> spliceIn i [x] (delete i l) = l.
Proof.
  intros Hi. unfold spliceIn. rewrite delete_take_drop.
  assert (Hlen : length (take i l) = i).
  { rewrite length_take. apply lookup_lt_Some in Hi. lia. }
  rewrite take_app_le, drop_app_ge by lia.
  rewrite take_take, Nat.min_id, Hlen, Nat.sub_diag. simpl.
  now apply take_drop_middle.
Qed.

Lemma take_delete_gap {A : Type} (l : list A) (i g : nat) :
  i < length l -> g <= length l ->
  take (if i <? g then g - 1 else g) (delete i l)
  = if i <? g then delete i (take g l) else take g l.
Proof.
  intros Hi Hg. rewrite !delete_take_drop.
  assert (Hlen : length (take i l) = i) by (rewrite length_take; lia).
  destruct (Nat.ltb_spec i g) as [Hlt|Hge].
  - rewrite take_app_ge by lia. rewrite Hlen.
    rewrite take_take. replace (i `min` g) with i by lia. f_equal.
    rewrite take_drop_commute. f_equal. f_equal. lia.
  - rewrite take_app_le by lia. rewrite take_take. f_equal. lia.
Qed.

Section DropHandlers.

Variable localeCompare : string -> string -> comparison.
Variable stringifyYaml : yaml -> string.

Lemma find_lane_in_copy (columnId : string) (st : BoardStore) :
  list_find (fun column => col_id column = columnId) (columns (getBoard localeCompare st))
  = prod_map id
      (fun column =>
         {| col_id := col_id column;
            col_title := col_title column;
            col_wipLimit := col_wipLimit column;
            col_cards := map (renormalize localeCompare) (col_cards column) |})
    <$> list_find (fun column => col_id column = columnId) (columns (store_board st)).
Proof.
  unfold getBoard, cloneBoard. cbn [columns].
  now apply (list_find_map_keep (fun column => col_id column = columnId)).
Qed.

Lemma find_card_in_copy (cardId : string) (cards : list Card) :
  list_find (fun card => card_id card = cardId) (map (renormalize localeCompare) cards)
  = prod_map id (renormalize localeCompare)
    <$> list_find (fun card => card_id card = cardId) cards.
Proof. now apply (list_find_map_keep (fun card => card_id card = cardId)). Qed.

(** X23.  Dropping a dragged lane into a gap between lanes, [gap] being
    the number of lanes left of the gap (it is clamped to the number of
    lanes): the lane is taken out and put back among the others so that
    exactly the other lanes that were left of the gap are left of it.
    When the gap borders the lane itself the store is not touched and
    nothing is queued for saving; otherwise the new document is queued.
    Either way the drag is over. *)
Theorem column_drop_lands_in_the_gap (view : KanbanView) (st : BoardStore)
  (sourceColumnId : string) (gap : Z) (i : nat) (moved : Column) :
  view_store view = Some st ->
  columnDragState view = Some sourceColumnId ->
  list_find (fun column => col_id column = sourceColumnId) (columns (store_board st))
  = Some (i, moved) ->
  let cols := columns (store_board st) in
  let g := Z.to_nat (clampIndex gap (length cols)) in
  let p := if i <? g then g - 1 else g in
  let after := handleColumnDrop localeCompare stringifyYaml gap view in
  (exists st',
     view_store after = Some st'
     /\ columns (store_board st') = spliceIn p [moved] (delete i cols)
     /\ (p = i -> st' = st /\ saveQueue after = saveQueue view)
     /\ (p <> i ->
         pendingPayload (saveQueue after)
         = Some (toMarkdown localeCompare stringifyYaml st')))
  /\ take p (delete i cols) = (if i <? g then delete i (take g cols) else take g cols)
  /\ columnDragState after = None
  /\ columnDropInsertionIndex after = None.
Proof.
  intros Hstore Hdrag Hfind cols g p after. subst cols.
  pose proof Hfind as Hfound. apply list_find_Some in Hfound as (Hi & _ & _).
  assert (Hlt : i < length (columns (store_board st))) by (eapply lookup_lt_Some; eauto).
  assert (Hg : g <= length (columns (store_board st))) by (unfold g, clampIndex; lia).
  assert (Hcopy : length (columns (getBoard localeCompare st))
                  = length (columns (store_board st))).
  { unfold getBoard, cloneBoard. cbn [columns]. apply length_map. }
  set (n := length (columns (store_board st))) in *.
  assert (Htarget : (if (Z.of_nat i <? clampIndex gap n)%Z
                     then (clampIndex gap n - 1)%Z
                     else clampIndex gap n) = Z.of_nat p).
  { unfold p, g. destruct (Z.ltb_spec (Z.of_nat i) (clampIndex gap n));
      destruct (Nat.ltb_spec i (Z.to_nat (clampIndex gap n)));
      unfold clampIndex in *; lia. }
  assert (Hp : p <= n - 1).
  { unfold p. destruct (Nat.ltb_spec i g); lia. }
  unfold after, handleColumnDrop. rewrite Hstore, Hdrag, find_lane_in_copy.
  rewrite Hfind. cbn [fmap option_fmap option_map prod_map fst snd id].
  rewrite Hcopy, Htarget.
  split; [|split; [now apply take_delete_gap|]].
  - destruct (Z.eqb_spec (Z.of_nat i) (Z.of_nat p)) as [Heq|Hne].
    + apply Nat2Z.inj in Heq. exists st. cbn [view_store saveQueue]. split; [reflexivity|].
      split; [|split; [auto|congruence]].
      rewrite <- Heq. symmetry. now apply spliceIn_delete_same.
    + unfold schedulePersist. cbn [view_store saveQueue].
      exists (moveColumn localeCompare sourceColumnId (Z.of_nat p) st).
      split; [reflexivity|]. split; [|split; [intros ->; congruence|reflexivity]].
      unfold moveColumn. rewrite Hfind. rewrite store_board_updateColumns.
      cbn [columns setColumns]. do 2 f_equal.
      rewrite length_delete by eauto. unfold clampIndex. lia.
  - destruct (Z.of_nat i =? Z.of_nat p)%Z; [split; reflexivity|].
    unfold schedulePersist. cbn [view_store]. split; reflexivity.
Qed.

End DropHandlers.

Lemma column_drop_lands_in_the_gap_witness :
  let st := newStore codeUnitCompare
              (Fixture.boardOf [Fixture.emptyLane "a" "A"; Fixture.emptyLane "b" "B";
                                Fixture.emptyLane "c" "C"; Fixture.emptyLane "d" "D"]) in
  let view := mkView (Some st) None (Some "b") None newQueue in
  (exists st',
     view_store (handleColumnDrop codeUnitCompare Sample.stringifyYaml 3 view) = Some st'
     /\ map col_id (columns (store_board st')) = ["a"; "c"; "b"; "d"])
  /\ handleColumnDrop codeUnitCompare Sample.stringifyYaml 2 view
     = mkView (Some st) None None None newQueue.
Proof.
  intros st view.
  destruct (column_drop_lands_in_the_gap codeUnitCompare Sample.stringifyYaml view st "b" 3 1
              (Fixture.emptyLane "b" "B") eq_refl eq_refl eq_refl)
    as ((st' & Hstore & Hcols & _) & _).
  split; [|reflexivity].
  exists st'. split; [exact Hstore|]. rewrite Hcols. reflexivity.
Defined.

Section CardDrops.

Variable localeCompare : string -> string -> comparison.
Variable stringifyYaml : yaml -> string.

(** the index and the length that [handleCardDrop] reads off the copy are
    those of the store's own lane *)
Lemma handleCardDrop_moves (view : KanbanView) (st : BoardStore) (drag : CardDragState)
  (targetColumnId : string) (targetCardId : option string) (t : nat) (target : Column) :
  view_store view = Some st ->
  cardDragState view = Some drag ->
  list_find (fun column => col_id column = targetColumnId) (columns (store_board st))
  = Some (t, target) ->
  let targetIndex :=
    match targetCardId with
    | None => length (col_cards target)
    | Some id =>
        match list_find (fun card => card_id card = id) (col_cards target) with
        | Some (index, _) => index
        | None => length (col_cards target)
        end
    end in
  let st' :=
    moveCard localeCompare (drag_sourceColumnId drag) (drag_cardId drag) targetColumnId
      (Z.of_nat targetIndex) st in
  handleCardDrop localeCompare stringifyYaml targetColumnId targetCardId view
  = {| view_store := Some st';
       cardDragState := None;
       columnDragState := columnDragState view;
       columnDropInsertionIndex := columnDropInsertionIndex view;
       saveQueue := request (toMarkdown localeCompare stringifyYaml st') (saveQueue view) |}.
Proof.
  intros Hstore Hdrag Hfind targetIndex st'.
  unfold handleCardDrop. rewrite Hstore, Hdrag, find_lane_in_copy, Hfind.
  cbn [fmap option_fmap option_map prod_map fst snd id col_cards].
  unfold schedulePersist. cbn [view_store cardDragState columnDragState
                                 columnDropInsertionIndex saveQueue].
  assert (Hindex : (if (match targetCardId with
                        | None => Z.of_nat (length (map (renormalize localeCompare)
                                                      (col_cards target)))
                        | Some id =>
                            match list_find (fun card => card_id card = id)
                                    (map (renormalize localeCompare) (col_cards target)) with
                            | Some (index, _) => Z.of_nat index
                            | None => (-1)%Z
                            end
                        end <? 0)%Z
                    then Z.of_nat (length (map (renormalize localeCompare) (col_cards target)))
                    else match targetCardId with
                         | None => Z.of_nat (length (map (renormalize localeCompare)
                                                       (col_cards target)))
                         | Some id =>
                             match list_find (fun card => card_id card = id)
                                     (map (renormalize localeCompare) (col_cards target)) with
                             | Some (index, _) => Z.of_nat index
                             | None => (-1)%Z
                             end
                         end)
                   = Z.of_nat targetIndex).
  { unfold targetIndex. rewrite length_map. destruct targetCardId as [id|].
    - rewrite find_card_in_copy.
      destruct (list_find _ (col_cards target)) as [[index found]|]; simpl.
      + destruct (Z.ltb_spec (Z.of_nat index) 0); [lia|reflexivity].
      + reflexivity.
    - destruct (Z.ltb_spec (Z.of_nat (length (col_cards target))) 0); [lia|reflexivity]. }
  rewrite Hindex. reflexivity.
Qed.

(** X24.  Dropping a dragged card onto another card puts it right before
    that card: in the card's own lane as well as in another lane, the
    lane dropped on then holds its other cards in their order with the
    dragged card inserted at the position of the card dropped on.  The
    drag is over and the new document is queued for saving. *)
Theorem card_drop_lands_before_the_card (view : KanbanView) (st : BoardStore)
  (drag : CardDragState) (targetColumnId targetCardId : string)
  (i t j m : nat) (source target : Column) (card targetCard : Card) :
  view_store view = Some st ->
  cardDragState view = Some drag ->
  list_find (fun column => col_id column = drag_sourceColumnId drag)
    (columns (store_board st)) = Some (i, source) ->
  list_find (fun column => col_id column = targetColumnId) (columns (store_board st))
  = Some (t, target) ->
  list_find (fun entry => card_id entry = drag_cardId drag) (col_cards source)
  = Some (j, card) ->
  list_find (fun entry => card_id entry = targetCardId) (col_cards target)
  = Some (m, targetCard) ->
  targetCardId <> drag_cardId drag ->
  let sameLane := bool_decide (drag_sourceColumnId drag = targetColumnId) in
  let others := if sameLane then delete j (col_cards target) else col_cards target in
  let p := if sameLane && (j <? m) then m - 1 else m in
  let after :=
    handleCardDrop localeCompare stringifyYaml targetColumnId (Some targetCardId) view in
  others !! p = Some targetCard
  /\ exists st',
       view_store after = Some st'
       /\ columns (store_board st') !! t = Some (setCards target (spliceIn p [card] others))
       /\ (sameLane = false ->
           columns (store_board st') !! i
           = Some (setCards source (delete j (col_cards source))))
       /\ pendingPayload (saveQueue after)
          = Some (toMarkdown localeCompare stringifyYaml st')
       /\ cardDragState after = None.
Proof.
  intros Hstore Hdrag Hsource Htarget Hcard Hdropped Hother sameLane others p after.
  unfold after.
  rewrite (handleCardDrop_moves view st drag targetColumnId (Some targetCardId) t target
             Hstore Hdrag Htarget).
  rewrite Hdropped. cbn [view_store saveQueue cardDragState request pendingPayload].
  pose proof Hdropped as Hm. apply list_find_Some in Hm as (Hm & Hmid & _).
  pose proof Hcard as Hj. apply list_find_Some in Hj as (Hj & Hjid & _).
  assert (Hmlt : m < length (col_cards target)) by (eapply lookup_lt_Some; eauto).
  subst sameLane others p.
  destruct (decide (drag_sourceColumnId drag = targetColumnId)) as [Hsame|Hdiff].
  - rewrite bool_decide_eq_true_2 by exact Hsame. cbn [andb].
    rewrite Hsame in Hsource. rewrite Htarget in Hsource. injection Hsource as <- <-.
    assert (Hne : m <> j) by (intros ->; congruence).
    assert (Hjlt : j < length (col_cards target)) by (eapply lookup_lt_Some; eauto).
    split.
    + destruct (Nat.ltb_spec j m).
      * rewrite list_lookup_delete_ge by lia. now replace (S (m - 1)) with m by lia.
      * rewrite list_lookup_delete_lt by lia. exact Hm.
    + eexists. split; [reflexivity|]. split; [|split; [discriminate|split; reflexivity]].
      rewrite Hsame.
      rewrite (moveCard_within_lane localeCompare st targetColumnId (drag_cardId drag)
                 (Z.of_nat m) t j target card Htarget Hcard).
      apply list_find_Some in Htarget as (Ht & _ & _).
      rewrite list_lookup_insert_eq by (eapply lookup_lt_Some; eauto).
      do 3 f_equal. rewrite length_delete by eauto.
      unfold clampIndex.
      destruct (Nat.ltb_spec j m);
        destruct (Z.ltb_spec (Z.of_nat j)
                    (Z.max 0 (Z.min (Z.of_nat m)
                                (Z.of_nat (length (col_cards target) - 1))))); lia.
  - rewrite bool_decide_eq_false_2 by exact Hdiff. cbn [andb].
    split; [exact Hm|].
    eexists. split; [reflexivity|].
    rewrite (moveCard_between_lanes localeCompare st (drag_sourceColumnId drag)
               (drag_cardId drag) targetColumnId (Z.of_nat m) i t j source target card
               Hdiff Hsource Htarget Hcard).
    apply list_find_Some in Hsource as (Hi & Hsid & _).
    apply list_find_Some in Htarget as (Ht & Htid & _).
    assert (Hne : i <> t) by (intros ->; congruence).
    split; [|split; [|split; reflexivity]].
    + rewrite list_lookup_insert_eq by (rewrite length_insert; eapply lookup_lt_Some; eauto).
      do 3 f_equal. unfold clampIndex. lia.
    + intros _. rewrite list_lookup_insert_ne by congruence.
      apply list_lookup_insert_eq. eapply lookup_lt_Some; eauto.
Qed.

(** X25.  Dropping a dragged card on a lane, not on one of its cards: in
    another lane the card goes to the end.  In its own lane it does not:
    the lane's length is taken with the card still in it, and the card
    lands before the last of the other cards; only when it was the last
    card already does it stay last.  The drag is over and the document is
    queued for saving. *)
Theorem card_drop_on_a_lane (view : KanbanView) (st : BoardStore)
  (drag : CardDragState) (targetColumnId : string)
  (i t j : nat) (source target : Column) (card : Card) :
  view_store view = Some st ->
  cardDragState view = Some drag ->
  list_find (fun column => col_id column = drag_sourceColumnId drag)
    (columns (store_board st)) = Some (i, source) ->
  list_find (fun column => col_id column = targetColumnId) (columns (store_board st))
  = Some (t, target) ->
  list_find (fun entry => card_id entry = drag_cardId drag) (col_cards source)
  = Some (j, card) ->
  let after := handleCardDrop localeCompare stringifyYaml targetColumnId None view in
  exists st',
    view_store after = Some st'
    /\ (drag_sourceColumnId drag <> targetColumnId ->
        columns (store_board st') !! t = Some (setCards target (col_cards target ++ [card]))
        /\ columns (store_board st') !! i
           = Some (setCards source (delete j (col_cards source))))
    /\ (drag_sourceColumnId drag = targetColumnId ->
        let others := delete j (col_cards target) in
        (S j < length (col_cards target) ->
         columns (store_board st') !! t
         = Some (setCards target (spliceIn (length others - 1) [card] others)))
        /\ (S j = length (col_cards target) ->
            columns (store_board st') !! t = Some target))
    /\ pendingPayload (saveQueue after) = Some (toMarkdown localeCompare stringifyYaml st')
    /\ cardDragState after = None.
Proof.
  intros Hstore Hdrag Hsource Htarget Hcard after. unfold after.
  rewrite (handleCardDrop_moves view st drag targetColumnId None t target
             Hstore Hdrag Htarget).
  cbn [view_store saveQueue cardDragState request pendingPayload].
  eexists. split; [reflexivity|]. split; [|split; [|split; reflexivity]].
  - intros Hdiff.
    rewrite (moveCard_between_lanes localeCompare st (drag_sourceColumnId drag)
               (drag_cardId drag) targetColumnId _ i t j source target card
               Hdiff Hsource Htarget Hcard).
    apply list_find_Some in Hsource as (Hi & Hsid & _).
    apply list_find_Some in Htarget as (Ht & Htid & _).
    assert (Hne : i <> t) by (intros ->; congruence).
    split.
    + rewrite list_lookup_insert_eq by (rewrite length_insert; eapply lookup_lt_Some; eauto).
      do 2 f_equal. unfold spliceIn.
      replace (Z.to_nat (clampIndex (Z.of_nat (length (col_cards target)))
                           (length (col_cards target))))
        with (length (col_cards target)) by (unfold clampIndex; lia).
      now rewrite take_ge, drop_ge by lia.
    + rewrite list_lookup_insert_ne by congruence.
      apply list_lookup_insert_eq. eapply lookup_lt_Some; eauto.
  - intros Hsame. set (others := delete j (col_cards target)).
    rewrite Hsame in Hsource. rewrite Htarget in Hsource.
    injection Hsource as <- <-. rewrite Hsame.
    rewrite (moveCard_within_lane localeCompare st targetColumnId (drag_cardId drag)
               _ t j target card Htarget Hcard).
    pose proof Hcard as Hj. apply list_find_Some in Hj as (Hj & _ & _).
    apply list_find_Some in Htarget as (Ht & _ & _).
    rewrite list_lookup_insert_eq by (eapply lookup_lt_Some; eauto).
    assert (Hlen : length others = length (col_cards target) - 1)
      by (unfold others; rewrite length_delete; eauto).
    fold others. rewrite Hlen. split.
    + intros Hmiddle. do 3 f_equal. unfold clampIndex.
      destruct (Z.ltb_spec (Z.of_nat j)
                  (Z.max 0 (Z.min (Z.of_nat (length (col_cards target)))
                              (Z.of_nat (length (col_cards target) - 1))))); lia.
    + intros Hlast. f_equal.
      replace (Z.to_nat _) with j.
      * unfold others. rewrite (spliceIn_delete_same _ _ _ Hj). now destruct target.
      * unfold clampIndex.
        destruct (Z.ltb_spec (Z.of_nat j)
                    (Z.max 0 (Z.min (Z.of_nat (length (col_cards target)))
                                (Z.of_nat (length (col_cards target) - 1))))); lia.
Qed.

End CardDrops.

Lemma card_drop_lands_before_the_card_witness :
  let a := Fixture.plainCard "a" "A" in
  let b := Fixture.plainCard "b" "B" in
  let c := Fixture.plainCard "c" "C" in
  let d := Fixture.plainCard "d" "D" in
  let st := newStore codeUnitCompare (Fixture.boardOf [Fixture.lane [a; b; c; d]]) in
  let view := mkView (Some st) (Some (mkCardDragState "a" "lane")) None None newQueue in
  exists st',
    view_store (handleCardDrop codeUnitCompare Sample.stringifyYaml "lane" (Some "c") view)
    = Some st'
    /\ columns (store_board st') !! 0 = Some (Fixture.lane [b; a; c; d]).
Proof.
  intros a b c d st view.
  assert (Hne : "c" <> "a") by discriminate.
  destruct (card_drop_lands_before_the_card codeUnitCompare Sample.stringifyYaml view st
              (mkCardDragState "a" "lane") "lane" "c" 0 0 0 2
              (Fixture.lane [a; b; c; d]) (Fixture.lane [a; b; c; d]) a c
              eq_refl eq_refl eq_refl eq_refl eq_refl eq_refl Hne)
    as (_ & st' & Hstore & Hlane & _).
  exists st'. split; [exact Hstore|exact Hlane].
Defined.

Lemma card_drop_on_a_lane_witness :
  let a := Fixture.plainCard "a" "A" in
  let b := Fixture.plainCard "b" "B" in
  let c := Fixture.plainCard "c" "C" in
  let st := newStore codeUnitCompare (Fixture.boardOf [Fixture.lane [a; b; c]]) in
  let view := mkView (Some st) (Some (mkCardDragState "a" "lane")) None None newQueue in
  exists st',
    view_store (handleCardDrop codeUnitCompare Sample.stringifyYaml "lane" None view)
    = Some st'
    /\ columns (store_board st') !! 0 = Some (Fixture.lane [b; a; c]).
Proof.
  intros a b c st view.
  destruct (card_drop_on_a_lane codeUnitCompare Sample.stringifyYaml view st
              (mkCardDragState "a" "lane") "lane" 0 0 0
              (Fixture.lane [a; b; c]) (Fixture.lane [a; b; c]) a
              eq_refl eq_refl eq_refl eq_refl eq_refl)
    as (st' & Hstore & _ & Hsame & _).
  exists st'. split; [exact Hstore|].
  apply (proj1 (Hsame eq_refl)). simpl. lia.
Defined.

(** ** Blank lines at the end of a section *)

Lemma popBlankLines_blanks (lines : list string) (k : nat) :
  popBlankLines (lines ++ replicate k EmptyString) = popBlankLines lines.
Proof.
  revert lines. induction k as [|k IH]; intros lines; [now rewrite app_nil_r|].
  change (replicate (S k) EmptyString) with ([EmptyString] ++ replicate k EmptyString).
  now rewrite app_assoc, IH, popBlankLines_blank.
Qed.

Lemma normalizeDescription_blanks (lines : list string) (k : nat) :
  normalizeDescription (lines ++ replicate k EmptyString) = normalizeDescription lines.
Proof. unfold normalizeDescription. now rewrite popBlankLines_blanks. Qed.

Lemma descriptionLinesOf_blanks (rest : list string) (k : nat) :
  descriptionLinesOf (rest ++ replicate k EmptyString)
  = descriptionLinesOf rest
    ++ (if length (descriptionLinesOf rest) =? length rest
        then replicate k EmptyString else []).
Proof.
  induction rest as [|line rest IH].
  - cbn [app length descriptionLinesOf Nat.eqb].
    induction k as [|k IHk]; [reflexivity|].
    change (descriptionLinesOf (replicate (S k) EmptyString))
      with (EmptyString :: descriptionLinesOf (replicate k EmptyString)).
    now rewrite IHk.
  - cbn [app descriptionLinesOf].
    destruct (Re.test cardRegex line || Re.test headingRegex line); [reflexivity|].
    destruct (negb (Js.truthy (Js.trim line)) || Js.startsWith line "  "
              || Js.startsWith line tab); [|reflexivity].
    rewrite IH. reflexivity.
Qed.

Lemma sectionLinesOf_blanks (rest : list string) (k : nat) :
  sectionLinesOf (rest ++ replicate k EmptyString)
  = sectionLinesOf rest
    ++ (if length (sectionLinesOf rest) =? length rest
        then replicate k EmptyString else []).
Proof.
  induction rest as [|line rest IH].
  - cbn [app length sectionLinesOf Nat.eqb].
    induction k as [|k IHk]; [reflexivity|].
    change (sectionLinesOf (replicate (S k) EmptyString))
      with (EmptyString :: sectionLinesOf (replicate k EmptyString)).
    now rewrite IHk.
  - cbn [app sectionLinesOf].
    destruct (Re.test headingRegex line); [reflexivity|].
    rewrite IH. reflexivity.
Qed.

Section BlankTail.

Variable localeCompare : string -> string -> comparison.
Variable dateNow : nat -> N.
Variable randomIndex : nat -> nat.

Lemma parseCardsAt_past (lines : list string) (k skip : nat) (entropy : Entropy) :
  length lines <= skip ->
  parseCardsAt localeCompare dateNow randomIndex (lines ++ replicate k EmptyString) skip entropy
  = ([], entropy).
Proof.
  revert skip. induction lines as [|line lines IH]; intros skip Hskip.
  - clear Hskip. cbn [app]. revert skip.
    induction k as [|k IHk]; intros skip; [reflexivity|].
    destruct skip as [|skip]; [|exact (IHk skip)].
    change (replicate (S k) EmptyString) with (EmptyString :: replicate k EmptyString).
    rewrite parseCardsAt_unfold. exact (IHk 0).
  - destruct skip as [|skip]; [simpl in Hskip; lia|].
    cbn [app parseCardsAt]. apply IH. simpl in Hskip. lia.
Qed.

Lemma parseCardsAt_blanks (lines : list string) (k skip : nat) (entropy : Entropy) :
  parseCardsAt localeCompare dateNow randomIndex (lines ++ replicate k EmptyString) skip entropy
  = parseCardsAt localeCompare dateNow randomIndex lines skip entropy.
Proof.
  revert skip entropy. induction lines as [|line lines IH]; intros skip entropy.
  - now rewrite (parseCardsAt_past [] k skip entropy) by (simpl; lia).
  - destruct skip as [|skip]; [|exact (IH skip entropy)].
    change ((line :: lines) ++ replicate k EmptyString)
      with (line :: (lines ++ replicate k EmptyString)).
    rewrite !parseCardsAt_unfold.
    destruct (Re.exec cardRegex line) as [found|]; [|exact (IH 0 entropy)].
    cbv zeta. unfold bind.
    match goal with
    | |- context [(if ?b then ret ?given else ?make) entropy] =>
        destruct ((if b then ret given else make) entropy) as [cardId e]
    end.
    rewrite descriptionLinesOf_blanks.
    destruct (length (descriptionLinesOf lines) =? length lines) eqn:Hend.
    + apply Nat.eqb_eq in Hend.
      rewrite normalizeDescription_blanks.
      destruct (normalizeDescription (descriptionLinesOf lines)) as [description dueDate].
      rewrite parseCardsAt_past by (rewrite length_app; lia).
      pose proof (parseCardsAt_past lines 0 (length (descriptionLinesOf lines)) e) as Hpast.
      cbn [replicate] in Hpast. rewrite app_nil_r in Hpast.
      rewrite Hpast by lia. reflexivity.
    + rewrite app_nil_r.
      destruct (normalizeDescription (descriptionLinesOf lines)) as [description dueDate].
      now rewrite IH.
Qed.

Lemma parseColumnsAt_unfold (line : string) (rest : list string) :
  parseColumnsAt localeCompare dateNow randomIndex (line :: rest) 0
  = match Re.exec headingRegex line with
    | None => parseColumnsAt localeCompare dateNow randomIndex rest 0
    | Some found =>
        let headingMatch := Re.caps found in
        let sectionLines := sectionLinesOf rest in
        let* id :=
          (let given := Js.trim (Re.groupOr 1 headingMatch) in
           if Js.truthy given then ret given
           else createId dateNow randomIndex "column") in
        let title := Js.orElse (Js.trim (Re.groupOr 2 headingMatch)) "Untitled" in
        let* cards := parseCardsFromLines localeCompare dateNow randomIndex sectionLines in
        let* more :=
          parseColumnsAt localeCompare dateNow randomIndex rest (List.length sectionLines) in
        ret (mkParsedColumn id title cards :: more)
    end.
Proof. reflexivity. Qed.

Lemma parseColumnsAt_past (lines : list string) (k skip : nat) (entropy : Entropy) :
  length lines <= skip ->
  parseColumnsAt localeCompare dateNow randomIndex (lines ++ replicate k EmptyString) skip entropy
  = ([], entropy).
Proof.
  revert skip. induction lines as [|line lines IH]; intros skip Hskip.
  - clear Hskip. cbn [app]. revert skip.
    induction k as [|k IHk]; intros skip; [reflexivity|].
    destruct skip as [|skip]; [|exact (IHk skip)].
    change (replicate (S k) EmptyString) with (EmptyString :: replicate k EmptyString).
    rewrite parseColumnsAt_unfold. exact (IHk 0).
  - destruct skip as [|skip]; [simpl in Hskip; lia|].
    cbn [app parseColumnsAt]. apply IH. simpl in Hskip. lia.
Qed.

Lemma parseColumnsAt_blanks (lines : list string) (k skip : nat) (entropy : Entropy) :
  parseColumnsAt localeCompare dateNow randomIndex (lines ++ replicate k EmptyString) skip entropy
  = parseColumnsAt localeCompare dateNow randomIndex lines skip entropy.
Proof.
  revert skip entropy. induction lines as [|line lines IH]; intros skip entropy.
  - now rewrite (parseColumnsAt_past [] k skip entropy) by (simpl; lia).
  - destruct skip as [|skip]; [|exact (IH skip entropy)].
    change ((line :: lines) ++ replicate k EmptyString)
      with (line :: (lines ++ replicate k EmptyString)).
    rewrite !parseColumnsAt_unfold.
    destruct (Re.exec headingRegex line) as [found|]; [|exact (IH 0 entropy)].
    cbv zeta. unfold bind.
    match goal with
    | |- context [(if ?b then ret ?given else ?make) entropy] =>
        destruct ((if b then ret given else make) entropy) as [id e]
    end.
    unfold parseCardsFromLines.
    rewrite sectionLinesOf_blanks.
    destruct (length (sectionLinesOf lines) =? length lines) eqn:Hend.
    + apply Nat.eqb_eq in Hend.
      rewrite parseCardsAt_blanks.
      destruct (parseCardsAt localeCompare dateNow randomIndex (sectionLinesOf lines) 0 e)
        as [cards e'].
      rewrite parseColumnsAt_past by (rewrite length_app; lia).
      pose proof (parseColumnsAt_past lines 0 (length (sectionLinesOf lines)) e') as Hpast.
      cbn [replicate] in Hpast. rewrite app_nil_r in Hpast.
      rewrite Hpast by lia. reflexivity.
    + rewrite app_nil_r.
      destruct (parseCardsAt localeCompare dateNow randomIndex (sectionLinesOf lines) 0 e)
        as [cards e'].
      now rewrite IH.
Qed.

End BlankTail.

(** ** Headings *)

(** Lazy repetition of a character class: when the rest of the pattern
    fails wherever text is left, and matches at the end, the repetition
    runs to the end. *)
Lemma lazy_run (p : ascii -> bool) (k : Re.cont) (fuel : nat) (s : string) (pos : nat)
  (c : Re.captures) (x : Re.result) :
  allChars p s = true ->
  (forall a b, s = a +:+ b -> b <> EmptyString -> k (String.length a + pos) b c = None) ->
  k (String.length s + pos) EmptyString c = Some x ->
  String.length s < fuel ->
  Re.iterate fuel false (Re.run (Re.Chr p)) pos s c k = Some x.
Proof.
  revert fuel pos. induction s as [|a s IH]; intros fuel pos Hs Hfail Hend Hfuel.
  - destruct fuel as [|fuel]; [simpl in Hfuel; lia|]. cbn [Re.iterate].
    simpl in Hend. now rewrite Hend.
  - destruct fuel as [|fuel]; [simpl in Hfuel; lia|]. cbn [Re.iterate].
    pose proof (Hfail EmptyString (String a s) eq_refl) as Hhere.
    cbn [String.length Nat.add] in Hhere. rewrite Hhere by discriminate.
    simpl in Hs. apply andb_true_iff in Hs as [Ha Hs].
    cbn [Re.run]. rewrite Ha, (proj2 (Nat.ltb_lt pos (S pos)) (Nat.lt_succ_diag_r pos)).
    apply IH; [exact Hs| | |simpl in Hfuel; lia].
    + intros a' b -> Hb.
      replace (String.length a' + S pos) with (String.length (String a a') + pos)
        by (simpl; lia).
      now apply Hfail.
    + rewrite <- Hend. f_equal. simpl. lia.
Qed.

(** [\s*$] fails on a text that holds more than whitespace *)
Lemma spaces_to_the_end (fuel : nat) (s : string) (pos : nat) (c : Re.captures)
  (k : Re.cont) :
  allChars Js.isSpace s = false ->
  Re.iterate fuel true (Re.run Re.space) pos s c
    (fun pos' s' c' => Re.run Re.Eol pos' s' c' k) = None.
Proof.
  change Re.space with (Re.Chr Js.isSpace).
  revert fuel pos. induction s as [|a s IH]; intros fuel pos Hs; [discriminate Hs|].
  destruct fuel as [|fuel]; [reflexivity|]. cbn [Re.iterate].
  cbn [allChars] in Hs.
  destruct (Js.isSpace a) eqn:Ha.
  - rewrite (run_class Js.isSpace a pos s c _ Ha).
    rewrite (proj2 (Nat.ltb_lt pos (S pos)) (Nat.lt_succ_diag_r pos)).
    now rewrite (IH fuel (S pos) Hs).
  - cbn [Re.run]. now rewrite Ha.
Qed.

Lemma suffix_not_blank (a b : string) :
  Js.trimEnd (a +:+ b) = a +:+ b -> b <> EmptyString -> allChars Js.isSpace b = false.
Proof.
  induction a as [|x a IH]; intros Hfixed Hb.
  - change (EmptyString +:+ b) with b in Hfixed.
    pose proof (truthy_trimEnd b) as H. rewrite Hfixed in H.
    destruct b as [|y b]; [congruence|]. cbn [Js.truthy] in H.
    now destruct (allChars Js.isSpace (String y b)).
  - change (String x a +:+ b) with (String x (a +:+ b)) in Hfixed.
    cbn [Js.trimEnd] in Hfixed.
    destruct (Js.trimEnd (a +:+ b)) as [|y t] eqn:Hend.
    + assert (a +:+ b = EmptyString) as Hempty
        by (destruct (Js.isSpace x); [discriminate Hfixed|now injection Hfixed]).
      destruct a; [now simpl in Hempty|discriminate Hempty].
    + injection Hfixed as Ht. apply IH; [exact Ht|exact Hb].
Qed.

Lemma trim_fixed_ends (s : string) :
  Js.trim s = s -> headNotSpace s /\ Js.trimEnd s = s.
Proof.
  intros Hs. split.
  - rewrite <- Hs. apply trimEnd_head, trimStart_head.
  - rewrite <- Hs at 1. unfold Js.trim. rewrite trimEnd_idempotent. exact Hs.
Qed.

Lemma headingRegex_on_heading (id title : string) :
  id <> EmptyString ->
  allChars (fun b => negb (Ascii.eqb "]" b)) id = true ->
  titleText title ->
  exists found,
    Re.exec headingRegex (headingLine id title) = Some found
    /\ Re.caps found = [(2, title); (1, id)].
Proof.
  intros Hfilled Hid (Htitle & Htrim & Hline).
  destruct (trim_fixed_ends title Htrim) as [Hhead Hend].
  destruct title as [|t title]; [congruence|]. clear Htitle.
  cbn [allChars] in Hline. apply andb_true_iff in Hline as [Ht Hline].
  assert (Hrun : Re.run
                   (Re.seqs [Re.lit "##"; Re.plus true Re.space; Re.chr "[";
                             Re.Group 1 (Re.plus true (Re.notChr "]")); Re.chr "]";
                             Re.plus true Re.space; Re.Group 2 (Re.plus false Re.dot);
                             Re.Star true Re.space; Re.Eol])
                   0 (headingLine id (String t title)) [] Re.final
                 = Some (String.length title + S (String.length id + 4 + 2),
                         [(2, String t title); (1, id)])).
  { unfold headingLine. cbn [Re.seqs Re.lit].
    pose (afterId := String "]" (String " " (String t title))).
    pose (fromId := String "[" (id +:+ afterId)).
    change ("## [" +:+ id +:+ "] " +:+ String t title)
      with (String "#" (String "#" (String " " fromId))).
    rewrite run_seq. rewrite run_seq, run_chr. cbv beta.
    rewrite run_seq, run_chr. cbv beta. rewrite run_eps. cbv beta. rewrite run_seq.
    apply (run_plus Js.isSpace _ _ " " fromId);
      [reflexivity|discriminate|reflexivity|reflexivity|].
    cbv beta. unfold fromId.
    rewrite run_seq, run_chr. rewrite run_seq, run_group.
    apply (run_plus (fun b => negb (Ascii.eqb "]" b)) _ _ id afterId);
      [reflexivity|exact Hfilled|exact Hid|reflexivity|].
    cbv beta. unfold afterId.
    rewrite run_seq, run_chr. rewrite run_seq.
    apply (run_plus Js.isSpace _ _ " " (String t title));
      [reflexivity|discriminate|reflexivity|exact Hhead|].
    cbv beta. rewrite run_seq, run_group. unfold Re.plus at 1, Re.dot.
    rewrite run_seq. rewrite run_class by exact Ht. cbv beta.
    cbn [Re.run].
    apply lazy_run; [exact Hline| | |lia].
    - intros a b -> Hb.
      apply spaces_to_the_end.
      apply (suffix_not_blank (String t a) b); [exact Hend|exact Hb].
    - cbn [Re.iterate Re.run Re.space]. unfold Re.final. f_equal. f_equal; [simpl; lia|].
      f_equal; [|f_equal].
      + f_equal.
        transitivity (Js.sliceTo (String.length (String t title))
                        (String t title +:+ EmptyString)).
        * rewrite append_empty. f_equal. simpl. lia.
        * apply sliceTo_app.
      + f_equal. apply sliceTo_run. }
  unfold headingRegex. cbn [Re.seqs] in *. rewrite exec_bol, Hrun.
  eexists. split; reflexivity.
Qed.

Lemma blank_is_no_heading : Re.test headingRegex EmptyString = false.
Proof. reflexivity. Qed.

Lemma cardLine_is_no_heading (checked : bool) (id title : string) :
  Re.test headingRegex (cardLine checked id title) = false.
Proof.
  unfold Re.test, headingRegex, cardLine. cbn [Re.seqs]. now rewrite exec_bol.
Qed.

(** ** Lanes written and read back *)

Lemma sectionLinesOf_app (lines rest : list string) :
  Forall (fun line => Re.test headingRegex line = false) lines ->
  sectionLinesOf (lines ++ rest) = lines ++ sectionLinesOf rest.
Proof.
  induction 1 as [|line lines Hline _ IH]; [reflexivity|].
  cbn [app sectionLinesOf]. now rewrite Hline, IH.
Qed.

Lemma parseColumnsAt_skip localeCompare dateNow randomIndex (lines rest : list string)
  (entropy : Entropy) :
  parseColumnsAt localeCompare dateNow randomIndex (lines ++ rest) (length lines) entropy
  = parseColumnsAt localeCompare dateNow randomIndex rest 0 entropy.
Proof. induction lines as [|l lines IH]; [reflexivity|exact IH]. Qed.

Section LaneRoundTrip.

Variable localeCompare : string -> string -> comparison.
Variable dateNow : nat -> N.
Variable randomIndex : nat -> nat.

Lemma serializeCard_no_heading (card : Card) :
  Forall (fun line => Re.test headingRegex line = false) (serializeCard localeCompare card).
Proof.
  rewrite serializeCard_lines. cbn [app].
  constructor; [apply cardLine_is_no_heading|].
  constructor; [apply (indented_line ("^" +:+ card_id card))|].
  apply Forall_app. split; [|now constructor].
  apply Forall_forall. intros line Hin. apply list_elem_of_fmap in Hin as (l & -> & _).
  apply (indented_line l).
Qed.

Lemma cards_no_heading (cards : list Card) :
  Forall (fun line => Re.test headingRegex line = false)
    (flat_map (serializeCard localeCompare) cards).
Proof.
  induction cards as [|card cards IH]; [constructor|].
  cbn [flat_map]. apply Forall_app. split; [apply serializeCard_no_heading|exact IH].
Qed.

Lemma parse_written_cards (cards : list Card) (entropy : Entropy) :
  Forall readable cards ->
  parseCardsAt localeCompare dateNow randomIndex
    (flat_map (serializeCard localeCompare) cards) 0 entropy
  = (map (readBack localeCompare) cards, entropy).
Proof.
  induction 1 as [|card cards Hcard Hcards IH]; [reflexivity|].
  cbn [flat_map map].
  rewrite (parse_written_card localeCompare dateNow randomIndex card _ entropy Hcard
             (descriptionLinesOf_cards localeCompare _ Hcards)).
  now rewrite IH.
Qed.

Lemma headingId_not_bracket (id : string) :
  allChars isHeadingIdChar id = true -> allChars (fun b => negb (Ascii.eqb "]" b)) id = true.
Proof.
  apply allChars_weaken. intros a Ha. unfold isHeadingIdChar in Ha.
  now apply andb_true_iff in Ha as [Ha _].
Qed.

Lemma sectionLinesOf_lanes (lanes : list Column) :
  Forall readableLane lanes ->
  sectionLinesOf (flat_map (laneLines localeCompare) lanes) = [].
Proof.
  destruct 1 as [|lane lanes (Hfilled & _ & Hid & Htitle & _) _]; [reflexivity|].
  cbn [flat_map laneLines app sectionLinesOf].
  destruct (headingRegex_on_heading (col_id lane) (col_title lane) Hfilled
              (headingId_not_bracket _ Hid) Htitle) as (found & Hfound & _).
  unfold Re.test. now rewrite Hfound.
Qed.

Lemma parse_written_lane (lane : Column) (rest : list string) (entropy : Entropy) :
  readableLane lane ->
  sectionLinesOf rest = [] ->
  parseColumnsAt localeCompare dateNow randomIndex
    (laneLines localeCompare lane ++ rest) 0 entropy
  = let (sections, e) := parseColumnsAt localeCompare dateNow randomIndex rest 0 entropy in
    (sectionBack localeCompare lane :: sections, e).
Proof.
  intros (Hfilled & Htrim & Hid & Htitle & Hcards) Hrest.
  unfold laneLines. cbn [app]. rewrite parseColumnsAt_unfold.
  destruct (headingRegex_on_heading (col_id lane) (col_title lane) Hfilled
              (headingId_not_bracket _ Hid) Htitle) as (found & -> & Hcaps).
  cbv zeta. rewrite Hcaps. unfold bind.
  change (Re.groupOr 1 [_; _]) with (col_id lane).
  change (Re.groupOr 2 [_; _]) with (col_title lane).
  destruct Htitle as (Htitled & Htitle & _).
  rewrite Htrim, Htitle.
  assert (Htruthy : Js.truthy (col_id lane) = true)
    by (destruct (col_id lane); [congruence|reflexivity]).
  assert (Hor : Js.orElse (col_title lane) "Untitled" = col_title lane)
    by (destruct (col_title lane); [congruence|reflexivity]).
  rewrite Htruthy, Hor. unfold ret.
  set (written := flat_map (serializeCard localeCompare) (col_cards lane)).
  assert (Hsection : sectionLinesOf (EmptyString :: (written ++ [EmptyString]) ++ rest)
                     = EmptyString :: written ++ [EmptyString]).
  { change (EmptyString :: (written ++ [EmptyString]) ++ rest)
      with ((EmptyString :: written ++ [EmptyString]) ++ rest).
    rewrite sectionLinesOf_app, Hrest, app_nil_r; [reflexivity|].
    constructor; [reflexivity|]. apply Forall_app. split; [apply cards_no_heading|].
    now constructor. }
  rewrite Hsection. unfold parseCardsFromLines.
  rewrite (parseCardsAt_unfold localeCompare dateNow randomIndex EmptyString).
  change (Re.exec cardRegex EmptyString) with (@None Re.found).
  cbv beta iota.
  change (written ++ [EmptyString]) with (written ++ replicate 1 EmptyString) at 1.
  rewrite (parseCardsAt_blanks localeCompare dateNow randomIndex written 1 0 entropy).
  unfold written at 1. rewrite (parse_written_cards _ entropy Hcards).
  change (EmptyString :: (written ++ [EmptyString]) ++ rest)
    with ((EmptyString :: written ++ [EmptyString]) ++ rest).
  rewrite parseColumnsAt_skip.
  destruct (parseColumnsAt localeCompare dateNow randomIndex rest 0 entropy) as [sections e].
  reflexivity.
Qed.

Lemma parse_written_lanes (lanes : list Column) (entropy : Entropy) :
  Forall readableLane lanes ->
  parseColumnsAt localeCompare dateNow randomIndex
    (flat_map (laneLines localeCompare) lanes) 0 entropy
  = (map (sectionBack localeCompare) lanes, entropy).
Proof.
  induction 1 as [|lane lanes Hlane Hlanes IH]; [reflexivity|].
  cbn [flat_map map].
  rewrite (parse_written_lane lane _ entropy Hlane (sectionLinesOf_lanes _ Hlanes)).
  now rewrite IH.
Qed.

End LaneRoundTrip.

(** ** Lines and text *)

Lemma replaceCrLf_clean (s : string) :
  allChars notCarriageReturn s = true -> Js.replaceCrLf s = s.
Proof.
  induction s as [|a s IH]; [reflexivity|]. cbn [allChars]. intros H.
  apply andb_true_iff in H as [Ha Hs]. cbn [Js.replaceCrLf].
  destruct s as [|b s]; [reflexivity|]. rewrite (IH Hs).
  unfold notCarriageReturn in Ha.
  destruct (Ascii.eqb a "013"); [discriminate Ha|reflexivity].
Qed.

Lemma allChars_join (p : ascii -> bool) (lines : list string) :
  p "010"%char = true ->
  Forall (fun line => allChars p line = true) lines ->
  allChars p (Js.join newline lines) = true.
Proof.
  intros Hp. induction 1 as [|line lines Hline Hlines IH]; [reflexivity|].
  destruct lines as [|next lines]; [exact Hline|].
  rewrite join_cons by discriminate. rewrite !allChars_append, Hline, IH.
  cbn [newline allChars]. now rewrite Hp.
Qed.

Lemma splitLines_join (lines : list string) :
  lines <> [] ->
  Forall (fun line => allChars notLineTerminator line = true) lines ->
  Js.splitLines (Js.join newline lines) = lines.
Proof.
  intros Hfilled Hlines. induction Hlines as [|line lines Hline Hlines IH]; [congruence|].
  destruct lines as [|next lines]; [exact (splitLines_single line Hline)|].
  rewrite join_cons by discriminate.
  rewrite splitLines_append, (splitLines_single line Hline), IH by discriminate.
  reflexivity.
Qed.

Lemma splitLines_linesText (lines : list string) :
  Forall (fun line => allChars notLineTerminator line = true) lines ->
  Js.splitLines (linesText lines) = lines ++ [EmptyString].
Proof.
  intros Hlines. destruct lines as [|line lines]; [reflexivity|].
  unfold linesText.
  rewrite <- (append_empty (Js.join newline (line :: lines) +:+ newline)).
  rewrite append_assoc, splitLines_append.
  now rewrite splitLines_join by (discriminate || exact Hlines).
Qed.

Lemma includes_across (a b : string) (x : ascii) :
  x <> "%"%char ->
  Js.includes (a +:+ String x b) "%%" = Js.includes a "%%" || Js.includes b "%%".
Proof.
  intros Hx.
  assert (Hno : Ascii.eqb "%" x = false) by (apply Ascii.eqb_neq; congruence).
  induction a as [|y a IH].
  - change (EmptyString +:+ String x b) with (String x b).
    cbn [Js.includes Js.startsWith]. now rewrite Hno.
  - change (String y a +:+ String x b) with (String y (a +:+ String x b)).
    cbn [Js.includes]. rewrite IH, orb_assoc. f_equal. f_equal.
    cbn [Js.startsWith]. f_equal.
    destruct a as [|z a]; [|reflexivity].
    change (EmptyString +:+ String x b) with (String x b).
    cbn [Js.startsWith]. now rewrite Hno.
Qed.

Lemma noMarker_across (a b : string) (x : ascii) :
  x <> "%"%char -> noMarker a -> noMarker b -> noMarker (a +:+ String x b).
Proof. unfold noMarker. intros Hx Ha Hb. now rewrite includes_across, Ha, Hb. Qed.

Lemma noMarker_chars (s : string) :
  allChars (fun a => negb (Ascii.eqb "%" a)) s = true -> noMarker s.
Proof.
  unfold noMarker. induction s as [|a s IH]; [reflexivity|].
  cbn [allChars]. intros H. apply andb_true_iff in H as [Ha Hs].
  cbn [Js.includes Js.startsWith]. rewrite (IH Hs).
  now destruct (Ascii.eqb "%" a).
Qed.

Lemma noMarker_join (lines : list string) :
  noMarker (Js.join newline lines) <-> Forall noMarker lines.
Proof.
  induction lines as [|line lines IH].
  - split; [constructor|reflexivity].
  - destruct lines as [|next lines].
    + cbn [Js.join]. split; [now constructor|now inversion 1].
    + rewrite join_cons by discriminate.
      change (line +:+ newline +:+ Js.join newline (next :: lines))
        with (line +:+ String "010" (Js.join newline (next :: lines))).
      unfold noMarker at 1. rewrite includes_across by discriminate.
      rewrite orb_false_iff. split.
      * intros [Hline Hrest]. constructor; [exact Hline|now apply IH].
      * inversion 1; subst. split; [assumption|now apply IH].
Qed.

Lemma noMarker_lines (s : string) : noMarker s -> Forall noMarker (Js.splitLines s).
Proof. intros Hs. apply noMarker_join. now rewrite join_splitLines. Qed.

Lemma startsWith_prefix (a b p : string) :
  Js.startsWith a p = true -> Js.startsWith (a +:+ b) p = true.
Proof.
  revert a. induction p as [|x p IH]; intros a; [reflexivity|].
  destruct a as [|y a]; [discriminate|].
  change (String y a +:+ b) with (String y (a +:+ b)). cbn [Js.startsWith].
  intros H. apply andb_true_iff in H as [-> H]. now rewrite (IH a H).
Qed.

Lemma noMarker_prefix (a b : string) : noMarker (a +:+ b) -> noMarker a.
Proof.
  unfold noMarker. induction a as [|x a IH]; [reflexivity|].
  change (String x a +:+ b) with (String x (a +:+ b)). cbn [Js.includes].
  intros H. apply orb_false_iff in H as [Hhere Hlater].
  rewrite (IH Hlater), orb_false_r.
  destruct (Js.startsWith (String x a) "%%") eqn:Hstart; [|reflexivity].
  pose proof (startsWith_prefix (String x a) b "%%" Hstart) as Hmore.
  change (String x a +:+ b) with (String x (a +:+ b)) in Hmore. congruence.
Qed.

Lemma trimEnd_is_prefix (s : string) : exists t, s = Js.trimEnd s +:+ t.
Proof.
  induction s as [|a s (t & IH)]; [now exists EmptyString|].
  cbn [Js.trimEnd]. destruct (Js.trimEnd s) as [|b r] eqn:Hend.
  - destruct (Js.isSpace a).
    + now exists (String a s).
    + exists s. reflexivity.
  - exists t. simpl. now rewrite IH at 1.
Qed.

Lemma noMarker_trimEnd (s : string) : noMarker s -> noMarker (Js.trimEnd s).
Proof.
  intros Hs. destruct (trimEnd_is_prefix s) as (t & Ht). rewrite Ht in Hs.
  exact (noMarker_prefix _ _ Hs).
Qed.

Lemma noMarker_trimStart (s : string) : noMarker s -> noMarker (Js.trimStart s).
Proof.
  unfold noMarker. induction s as [|a s IH]; [reflexivity|].
  cbn [Js.trimStart]. destruct (Js.isSpace a); [|auto].
  cbn [Js.includes]. intros H. apply orb_false_iff in H as [_ H]. auto.
Qed.

Lemma noMarker_trim (s : string) : noMarker s -> noMarker (Js.trim s).
Proof. intros Hs. apply noMarker_trimEnd, noMarker_trimStart, Hs. Qed.

Lemma lines_of_clean_text (s : string) :
  allChars notCarriageReturn s = true ->
  Forall (fun line => allChars notLineTerminator line = true) (Js.splitLines s).
Proof.
  induction s as [|a s IH]; [now constructor|].
  cbn [allChars]. intros H. apply andb_true_iff in H as [Ha Hs].
  specialize (IH Hs). cbn [Js.splitLines].
  destruct (Ascii.eqb_spec a "010") as [->|Hline]; [constructor; [reflexivity|exact IH]|].
  assert (Ha' : notLineTerminator a = true).
  { unfold notLineTerminator, Js.isLineTerminator. unfold notCarriageReturn in Ha.
    destruct (Ascii.eqb_spec a "013") as [->|Hcr]; [discriminate Ha|].
    apply negb_true_iff, orb_false_iff. split; apply Nat.eqb_neq; intros Heq.
    - apply Hline. rewrite <- (ascii_nat_embedding a), Heq. reflexivity.
    - apply Hcr. rewrite <- (ascii_nat_embedding a), Heq. reflexivity. }
  destruct (Js.splitLines s) as [|l ls];
    [constructor; [cbn [allChars]; now rewrite Ha'|constructor]|].
  inversion IH as [|? ? Hl Hls]; subst. constructor; [|exact Hls].
  cbn [allChars]. now rewrite Hl, Ha'.
Qed.

Lemma allChars_trimEnd (p : ascii -> bool) (s : string) :
  allChars p s = true -> allChars p (Js.trimEnd s) = true.
Proof.
  intros Hs. destruct (trimEnd_is_prefix s) as (t & Ht). rewrite Ht in Hs.
  rewrite allChars_append in Hs. now apply andb_true_iff in Hs as [Hs _].
Qed.

(** [popEmptyLines] takes only empty lines, from the end *)
Lemma popEmptyLines_tail (lines : list string) :
  exists k, lines = popEmptyLines lines ++ replicate k EmptyString.
Proof.
  induction lines as [|line lines (k & IH)]; [now exists 0|].
  cbn [popEmptyLines]. destruct (popEmptyLines lines) as [|kept rest] eqn:Hkept.
  - destruct line as [|a line].
    + exists (S k). cbn [Js.truthy app replicate]. now rewrite IH at 1.
    + exists k. cbn [Js.truthy app]. now rewrite IH at 1.
  - exists k. cbn [app]. now rewrite IH at 1.
Qed.

Lemma popEmptyLines_cons (line : string) (lines : list string) :
  line <> EmptyString -> popEmptyLines (line :: lines) = line :: popEmptyLines lines.
Proof.
  intros Hline. cbn [popEmptyLines]. destruct (popEmptyLines lines); [|reflexivity].
  destruct line; [congruence|reflexivity].
Qed.

Lemma popEmptyLines_kept (line : string) (lines : list string) :
  popEmptyLines lines <> [] -> popEmptyLines (line :: lines) = line :: popEmptyLines lines.
Proof.
  intros Hkept. cbn [popEmptyLines]. destruct (popEmptyLines lines); [congruence|reflexivity].
Qed.

(** ** The header block of a written document *)

Lemma startsWith_before_newline (s r p : string) :
  allChars notLineTerminator p = true ->
  Js.startsWith (s +:+ String "010" r) p = true -> Js.startsWith s p = true.
Proof.
  revert s. induction p as [|b p IH]; intros s Hp; [reflexivity|].
  cbn [allChars] in Hp. apply andb_true_iff in Hp as [Hb Hp].
  destruct s as [|a s].
  - change (EmptyString +:+ String "010" r) with (String "010" r). cbn [Js.startsWith].
    destruct (Ascii.eqb_spec b "010") as [->|]; [discriminate Hb|discriminate].
  - change (String a s +:+ String "010" r) with (String a (s +:+ String "010" r)).
    cbn [Js.startsWith]. intros H. apply andb_true_iff in H as [-> H].
    now rewrite (IH s Hp H).
Qed.

Lemma untilFence_first (header rest : string) :
  Js.includes header fence = false ->
  untilFence (header +:+ fence +:+ rest) = Some (header, rest).
Proof.
  induction header as [|a header IH]; intros Hfree.
  - change (EmptyString +:+ fence +:+ rest) with (fence +:+ rest).
    rewrite untilFence_unfold, startsWith_app.
    change 4 with (String.length fence). now rewrite (sliceFrom_app fence rest).
  - cbn [Js.includes] in Hfree. apply orb_false_iff in Hfree as [Hhere Hlater].
    change (String a header +:+ fence +:+ rest)
      with (String a (header +:+ fence +:+ rest)).
    rewrite untilFence_unfold, (IH Hlater).
    destruct (Js.startsWith (String a (header +:+ fence +:+ rest)) fence) eqn:Hstart;
      [|reflexivity].
    exfalso. cbn [fence Js.startsWith] in Hstart, Hhere.
    apply andb_true_iff in Hstart as [Ha Hstart]. rewrite Ha in Hhere.
    cbn [andb] in Hhere.
    change (header +:+ fence +:+ rest) with (header +:+ String "010" ("---" +:+ rest))
      in Hstart.
    pose proof (startsWith_before_newline header _ "---" eq_refl Hstart) as Hin.
    cbn [Js.startsWith] in Hin. congruence.
Qed.

Lemma header_found (header body : string) :
  Js.includes header fence = false ->
  let text := opening +:+ header +:+ fence +:+ newline +:+ body in
  exists found,
    Re.exec frontmatterRegex text = Some found
    /\ Re.groupOr 1 (Re.caps found) = header
    /\ Js.sliceFrom (Re.stop found - Re.index found) text = body.
Proof.
  intros Hfree text. subst text. rewrite frontmatter_exec, startsWith_app.
  change 4 with (String.length opening) at 1. rewrite sliceFrom_app.
  rewrite (untilFence_first header (newline +:+ body) Hfree).
  rewrite startsWith_app. eexists. split; [reflexivity|]. split; [reflexivity|].
  cbn [Re.stop Re.index].
  replace (5 + String.length header + 4 - 0)
    with (String.length (opening +:+ header +:+ fence +:+ newline)).
  - rewrite <- (sliceFrom_app (opening +:+ header +:+ fence +:+ newline) body) at 2.
    now rewrite !append_assoc.
  - rewrite !append_length. simpl. lia.
Qed.

Lemma run_lit_fail (p : string) (r : Re.regex) (pos : nat) (s : string) (c : Re.captures)
  (k : Re.cont) :
  Js.startsWith s p = false -> Re.run (Re.Seq (Re.lit p) r) pos s c k = None.
Proof.
  revert pos s. induction p as [|b p IH]; intros pos s; [discriminate|].
  destruct s as [|a s]; [reflexivity|]. cbn [Js.startsWith Re.lit].
  rewrite !run_seq. unfold Re.chr at 1. cbn [Re.run].
  destruct (Ascii.eqb b a); [|reflexivity]. cbn [andb]. intros Hs.
  specialize (IH (S pos) s Hs). now rewrite run_seq in IH.
Qed.

Lemma search_without_marker (r : Re.regex) (pos : nat) (s : string) :
  noMarker s -> Re.searchFrom (Re.Seq (Re.lit "%%") r) pos s = None.
Proof.
  unfold noMarker. revert pos. induction s as [|a s IH]; intros pos Hfree.
  - reflexivity.
  - cbn [Js.includes] in Hfree. apply orb_false_iff in Hfree as [Hhere Hlater].
    cbn [Re.searchFrom]. rewrite (run_lit_fail "%%" _ pos (String a s) [] _ Hhere).
    apply IH, Hlater.
Qed.

Lemma no_archive_block (body : string) :
  noMarker body -> Re.exec archiveBlockRegex body = None.
Proof. apply search_without_marker. Qed.

(** ** The lines of a written lane *)

Lemma tagChar_plain (a : ascii) : isTagChar a = true -> isPlainChar a = true.
Proof. destruct a as [[] [] [] [] [] [] [] []]; vm_compute; congruence. Qed.

Lemma bodyLine_plain (line : string) : allChars isPlainChar line = true -> bodyLine line.
Proof.
  intros Hline. split.
  - apply (allChars_weaken isPlainChar); [|exact Hline].
    intros a Ha. now apply andb_true_iff in Ha as [Ha _].
  - apply noMarker_chars. apply (allChars_weaken isPlainChar); [|exact Hline].
    intros a Ha. now apply andb_true_iff in Ha as [_ Ha].
Qed.

Lemma datePattern_plain (d : string) :
  isDatePattern d = true -> allChars isPlainChar d = true.
Proof.
  intros Hd. apply datePattern_chars in Hd
    as (y1 & y2 & y3 & y4 & m1 & m2 & d1 & d2 & -> & Hdigits).
  assert (Hdigit : forall a, Js.isDigit a = true -> isPlainChar a = true)
    by (intros a; destruct a as [[] [] [] [] [] [] [] []]; vm_compute; congruence).
  repeat match goal with
         | H : Forall _ (_ :: _) |- _ => inversion H; clear H; subst
         | H : Forall _ [] |- _ => clear H
         end.
  cbn [allChars].
  repeat match goal with
         | H : Js.isDigit ?a = true |- _ => rewrite (Hdigit a H); clear H
         end.
  reflexivity.
Qed.

Lemma bodyLine_indented (line : string) : bodyLine line -> bodyLine ("  " +:+ line).
Proof.
  intros [Hline Hfree]. split.
  - rewrite allChars_append, Hline. reflexivity.
  - change ("  " +:+ line) with (" " +:+ String " " line).
    apply noMarker_across; [discriminate|reflexivity|exact Hfree].
Qed.

Lemma bodyLines_of_text (text : string) :
  allChars notCarriageReturn text = true -> noMarker text ->
  Forall bodyLine (Js.splitLines text).
Proof.
  intros Hclean Hfree.
  pose proof (lines_of_clean_text text Hclean) as Hlines.
  pose proof (noMarker_lines text Hfree) as Hfrees.
  apply Forall_forall. intros line Hin. split.
  - exact (proj1 (Forall_forall _ _) Hlines line Hin).
  - exact (proj1 (Forall_forall _ _) Hfrees line Hin).
Qed.

Section WrittenLines.

Variable localeCompare : string -> string -> comparison.

Lemma cardLine_bodyLine (checked : bool) (id title : string) :
  allChars isTagChar id = true ->
  allChars notLineTerminator title = true -> noMarker title ->
  bodyLine (cardLine checked id title).
Proof.
  intros Hid Hline Hfree.
  assert (Hplain : allChars isPlainChar id = true)
    by (apply (allChars_weaken isTagChar); [apply tagChar_plain|exact Hid]).
  destruct (bodyLine_plain id Hplain) as [Hid1 Hid2].
  unfold cardLine. split.
  - rewrite !allChars_append, Hid1, Hline. now destruct checked.
  - replace ("- [" +:+ (if checked then "x" else " ") +:+ "] [" +:+ id +:+ "] " +:+ title)
      with (("- [" +:+ (if checked then "x" else " ") +:+ "] [" +:+ id +:+ "]")
            +:+ String " " title)
      by (rewrite !append_assoc; reflexivity).
    apply noMarker_across; [discriminate| |exact Hfree].
    apply noMarker_chars. rewrite !allChars_append.
    assert (Hno : allChars (fun a => negb (Ascii.eqb "%" a)) id = true).
    { apply (allChars_weaken isPlainChar); [|exact Hplain].
      intros a Ha. now apply andb_true_iff in Ha as [_ Ha]. }
    rewrite Hno. now destruct checked.
Qed.

Lemma serializeCard_bodyLines (card : Card) :
  readable card -> cleanCard card ->
  Forall bodyLine (serializeCard localeCompare card).
Proof.
  intros (_ & Hid & Htitle & _) (Hclean & Hfree & Hfree').
  rewrite serializeCard_lines. cbn [app].
  constructor; [apply cardLine_bodyLine; [exact Hid|exact Htitle|now apply noMarker_trim]|].
  constructor.
  { apply (bodyLine_indented ("^" +:+ card_id card)). apply bodyLine_plain.
    cbn [String.append allChars]. apply andb_true_iff. split; [reflexivity|].
    apply (allChars_weaken isTagChar); [apply tagChar_plain|exact Hid]. }
  apply Forall_app. split; [|constructor; [now split|constructor]].
  apply Forall_forall. intros line Hin. apply list_elem_of_fmap in Hin as (l & -> & Hin).
  apply bodyLine_indented. apply elem_of_app in Hin as [Hin|Hin].
  - unfold descriptionLines in Hin.
    destruct (Js.truthy (Js.trim (card_description card))); [|now apply elem_of_nil in Hin].
    refine (proj1 (Forall_forall _ _) _ l Hin).
    apply bodyLines_of_text; [now apply allChars_trimEnd|now apply noMarker_trimEnd].
  - pose proof (normalizeDueDate_shaped (card_dueDate card)) as Hdue.
    destruct (normalizeDueDate (card_dueDate card)) as [d|];
      [|now apply elem_of_nil in Hin].
    apply list_elem_of_singleton in Hin as ->. destruct Hdue as [Hshape _].
    apply bodyLine_plain. rewrite allChars_append, (datePattern_plain d Hshape).
    reflexivity.
Qed.

Lemma cards_bodyLines (cards : list Card) :
  Forall readable cards -> Forall cleanCard cards ->
  Forall bodyLine (flat_map (serializeCard localeCompare) cards).
Proof.
  induction 1 as [|card cards Hcard _ IH]; intros Hclean; [constructor|].
  inversion Hclean; subst. cbn [flat_map]. apply Forall_app. split; [|now apply IH].
  now apply serializeCard_bodyLines.
Qed.

Lemma headingLine_bodyLine (id title : string) :
  allChars isHeadingIdChar id = true -> noMarker id ->
  allChars notLineTerminator title = true -> noMarker title ->
  bodyLine (headingLine id title).
Proof.
  intros Hid Hid' Hline Hfree. unfold headingLine. split.
  - rewrite !allChars_append, Hline, andb_true_r.
    rewrite (allChars_weaken isHeadingIdChar notLineTerminator id); [reflexivity| |exact Hid].
    intros a Ha. now apply andb_true_iff in Ha as [_ Ha].
  - change ("## [" +:+ id +:+ "] " +:+ title)
      with ("## " +:+ String "[" (id +:+ String "]" (EmptyString +:+ String " " title))).
    apply noMarker_across; [discriminate|reflexivity|].
    apply noMarker_across; [discriminate|exact Hid'|].
    apply noMarker_across; [discriminate|reflexivity|exact Hfree].
Qed.

End WrittenLines.

(** ** The header of a written document *)

Lemma header_kanban (board : BoardDocument) :
  prop (buildFrontmatter board) "kanban" = Some (YBool true).
Proof. reflexivity. Qed.

Lemma header_boardTitle (board : BoardDocument) :
  prop (buildFrontmatter board) "boardTitle" = Some (YStr (boardTitle board)).
Proof. reflexivity. Qed.

Lemma header_boardDescription (board : BoardDocument) :
  trimmedString (prop (buildFrontmatter board) "boardDescription")
  = Js.trim (boardDescription board).
Proof.
  unfold buildFrontmatter. destruct (boardDescription board) as [|a description];
    reflexivity.
Qed.

Lemma header_density (board : BoardDocument) :
  parseDensity (prop (buildFrontmatter board) "density") = density board.
Proof.
  unfold buildFrontmatter.
  destruct (Js.truthy (boardDescription board)); now destruct (density board).
Qed.

Lemma header_columns (board : BoardDocument) :
  prop (buildFrontmatter board) "columns"
  = Some (YSeq (map
                  (fun definition =>
                     YMap [("id", YStr (def_id definition));
                           ("title", YStr (def_title definition));
                           ("wipLimit", from_option YNum YNull (def_wipLimit definition))])
                  (normalizeColumns board))).
Proof. unfold buildFrontmatter. destruct (Js.truthy (boardDescription board)); reflexivity. Qed.

Lemma wholeLimit_back (limit : option number) :
  wholeLimit limit ->
  parseWipLimit
    (Some (from_option YNum YNull
             match limit with
             | Some n => if nonNegative n then Some n else None
             | None => None
             end))
  = limit.
Proof.
  destruct limit as [n|]; [|reflexivity]. intros [Hpositive Hwhole].
  rewrite Hpositive. cbn [from_option parseWipLimit].
  destruct n; try discriminate Hpositive; cbv zeta; rewrite Hwhole, Hpositive; reflexivity.
Qed.

Lemma header_lanes (board : BoardDocument) :
  Forall (fun column =>
            Js.trim (col_id column) = col_id column /\ col_id column <> EmptyString
            /\ Js.trim (col_title column) = col_title column
            /\ col_title column <> EmptyString
            /\ wholeLimit (col_wipLimit column))
    (columns board) ->
  parseColumnDefinitions (prop (buildFrontmatter board) "columns")
  = map laneDefinition (columns board).
Proof.
  rewrite header_columns. unfold parseColumnDefinitions, normalizeColumns.
  rewrite map_map.
  match goal with
  | |- context [fold_left ?f _ _] => set (step := f)
  end.
  generalize (columns board) as lanes. intros lanes Hlanes.
  assert (Hloop : forall defs,
             fold_left step
               (map (fun column =>
                       YMap [("id", YStr (col_id column));
                             ("title", YStr (col_title column));
                             ("wipLimit",
                              from_option YNum YNull
                                match col_wipLimit column with
                                | Some n => if nonNegative n then Some n else None
                                | None => None
                                end)]) lanes) defs
             = defs ++ map laneDefinition lanes).
  { induction Hlanes as [|lane lanes (Hid & Hfilled & Htitle & Htitled & Hlimit) _ IH];
      intros defs; [now rewrite app_nil_r|].
    cbn [map fold_left]. rewrite IH. unfold step. cbn [isObject negb].
    change (prop (YMap (("id", ?v) :: _)) "id") with (Some v).
    change (trimmedString (prop (YMap [("id", YStr ?i); ("title", YStr ?t); ?w]) "title"))
      with (Js.trim t).
    cbn [trimmedString]. rewrite Hid, Htitle.
    assert (Hi : Js.truthy (col_id lane) = true)
      by (destruct (col_id lane); [congruence|reflexivity]).
    assert (Ht : Js.truthy (col_title lane) = true)
      by (destruct (col_title lane); [congruence|reflexivity]).
    rewrite Hi, Ht. cbn [negb orb].
    change (prop (YMap [?i; ?t; ("wipLimit", ?w)]) "wipLimit") with (Some w).
    rewrite (wholeLimit_back _ Hlimit), <- app_assoc. reflexivity. }
  exact (Hloop []).
Qed.

Lemma filter_own_id (lanes : list Column) (lane : Column) :
  NoDup (map col_id lanes) -> lane ∈ lanes ->
  filter (fun column => col_id column = col_id lane) lanes = [lane].
Proof.
  induction lanes as [|first lanes IH]; intros Hdistinct Hin;
    [now apply elem_of_nil in Hin|].
  cbn [map] in Hdistinct. apply NoDup_cons in Hdistinct as [Hfresh Hdistinct].
  rewrite filter_cons. apply elem_of_cons in Hin as [->|Hin].
  - rewrite decide_True by reflexivity. f_equal.
    clear IH Hdistinct. induction lanes as [|other lanes IH]; [reflexivity|].
    rewrite filter_cons. cbn [map] in Hfresh. apply not_elem_of_cons in Hfresh as [Hne Hfresh].
    rewrite decide_False by congruence. now apply IH.
  - rewrite decide_False; [now apply IH|].
    intros Heq. apply Hfresh. rewrite Heq. now apply list_elem_of_fmap_2.
Qed.

Section Merged.

Variable localeCompare : string -> string -> comparison.

Lemma sectionWithId_own (lanes : list Column) (lane : Column) :
  NoDup (map col_id lanes) -> lane ∈ lanes ->
  sectionWithId (col_id lane) (map (sectionBack localeCompare) lanes)
  = Some (sectionBack localeCompare lane).
Proof.
  intros Hdistinct Hin. unfold sectionWithId.
  assert (Hfilter : filter (fun section => pc_id section = col_id lane)
                      (map (sectionBack localeCompare) lanes)
                    = map (sectionBack localeCompare)
                        (filter (fun column => col_id column = col_id lane) lanes)).
  { clear. induction lanes as [|first lanes IH]; [reflexivity|].
    cbn [map]. rewrite !filter_cons. cbn [sectionBack pc_id].
    destruct (decide (col_id first = col_id lane)); cbn [map]; now rewrite IH. }
  rewrite Hfilter, (filter_own_id lanes lane Hdistinct Hin). reflexivity.
Qed.

Lemma sections_all_declared (ids : list string) (lanes : list Column) :
  Forall (fun column => col_id column ∈ ids) lanes ->
  filter (fun section => pc_id section ∉ ids) (map (sectionBack localeCompare) lanes) = [].
Proof.
  induction 1 as [|first rest Hfirst _ IH]; [reflexivity|].
  cbn [map]. rewrite filter_cons. cbn [sectionBack pc_id].
  rewrite decide_False by (intros Hno; now apply Hno). exact IH.
Qed.

Lemma merge_written_lanes (lanes : list Column) :
  NoDup (map col_id lanes) ->
  Forall (fun column => col_title column <> EmptyString) lanes ->
  mergeColumns (map laneDefinition lanes) (map (sectionBack localeCompare) lanes)
  = map (laneBack localeCompare) lanes.
Proof.
  intros Hdistinct Htitled. rewrite mergeColumns_spec.
  assert (Hnone : filter (fun section => pc_id section ∉ map def_id (map laneDefinition lanes))
                    (map (sectionBack localeCompare) lanes) = []).
  { rewrite map_map. cbn [laneDefinition def_id].
    apply sections_all_declared. apply Forall_forall. intros column Hin.
    now apply (list_elem_of_fmap_2 col_id). }
  rewrite Hnone, app_nil_r, map_map.
  apply map_ext_in. intros lane Hin. apply list_elem_of_In in Hin.
  unfold headerColumn, laneBack. cbn [laneDefinition def_id def_title def_wipLimit].
  rewrite (sectionWithId_own lanes lane Hdistinct Hin). cbn [from_option sectionBack pc_cards].
  pose proof (proj1 (Forall_forall _ _) Htitled lane Hin) as Hfilled.
  assert (Hor : forall other, Js.orElse (col_title lane) other = col_title lane)
    by (intros other; destruct (col_title lane) eqn:Htitle; [congruence|reflexivity]).
  now rewrite Hor.
Qed.

End Merged.

(** ** The archive block of a written document *)

Lemma noMarker_suffix (a b : string) : noMarker (a +:+ b) -> noMarker b.
Proof.
  unfold noMarker. induction a as [|x a IH]; [auto|].
  change (String x a +:+ b) with (String x (a +:+ b)). cbn [Js.includes].
  intros H. apply orb_false_iff in H as [_ H]. auto.
Qed.

Lemma marker_not_here (b r : string) (x : ascii) :
  x <> "%"%char -> noMarker b -> Js.startsWith (b +:+ String x r) "%%" = false.
Proof.
  intros Hx Hb.
  assert (Hno : Ascii.eqb "%" x = false) by (apply Ascii.eqb_neq; congruence).
  destruct b as [|y b].
  - change (EmptyString +:+ String x r) with (String x r). cbn [Js.startsWith].
    now rewrite Hno.
  - unfold noMarker in Hb. cbn [Js.includes] in Hb.
    apply orb_false_iff in Hb as [Hb _].
    change (String y b +:+ String x r) with (String y (b +:+ String x r)).
    destruct b as [|z b]; [|exact Hb].
    change (EmptyString +:+ String x r) with (String x r). cbn [Js.startsWith].
    now rewrite Hno, andb_false_r.
Qed.

Lemma search_skips_text (r : Re.regex) (pos : nat) (p rest : string) (x : ascii) :
  x <> "%"%char -> noMarker p ->
  Re.searchFrom (Re.Seq (Re.lit "%%") r) pos (p +:+ String x rest)
  = Re.searchFrom (Re.Seq (Re.lit "%%") r) (S (String.length p + pos)) rest.
Proof.
  intros Hx. revert pos. induction p as [|y p IH]; intros pos Hp.
  - change (EmptyString +:+ String x rest) with (String x rest). cbn [Re.searchFrom].
    rewrite run_lit_fail; [reflexivity|].
    exact (marker_not_here EmptyString rest x Hx eq_refl).
  - pose proof (marker_not_here (String y p) rest x Hx Hp) as Hhere.
    change (String y p +:+ String x rest) with (String y (p +:+ String x rest)) in *.
    cbn [Re.searchFrom]. rewrite (run_lit_fail "%%" _ pos _ [] _ Hhere).
    rewrite IH by exact (noMarker_suffix (String y EmptyString) p Hp).
    f_equal. simpl. lia.
Qed.

Lemma run_lit (p : string) (pos : nat) (s : string) (c : Re.captures) (k : Re.cont) :
  Re.run (Re.lit p) pos (p +:+ s) c k = k (String.length p + pos) s c.
Proof.
  revert pos. induction p as [|b p IH]; intros pos; [reflexivity|].
  change (String b p +:+ s) with (String b (p +:+ s)). cbn [Re.lit].
  rewrite run_seq, run_chr, IH. f_equal. simpl. lia.
Qed.

Lemma firstSuffix_skips (k : Re.cont) (pos : nat) (mid tail : string) (c : Re.captures) :
  (forall a b, mid = a +:+ b -> b <> EmptyString ->
               k (String.length a + pos) (b +:+ tail) c = None) ->
  firstSuffix k pos (mid +:+ tail) c = firstSuffix k (String.length mid + pos) tail c.
Proof.
  revert pos. induction mid as [|x mid IH]; intros pos Hfail; [reflexivity|].
  change (String x mid +:+ tail) with (String x (mid +:+ tail)). cbn [firstSuffix].
  pose proof (Hfail EmptyString (String x mid) eq_refl) as Hhere.
  change (String x mid +:+ tail) with (String x (mid +:+ tail)) in Hhere.
  cbn [String.length Nat.add] in Hhere. rewrite Hhere by discriminate.
  rewrite IH.
  - f_equal. simpl. lia.
  - intros a b -> Hb.
    replace (String.length a + S pos) with (String.length (String x a) + pos)
      by (simpl; lia).
    now apply Hfail.
Qed.

Lemma run_opt (r : Re.regex) (pos : nat) (s : string) (c : Re.captures) (k : Re.cont) :
  Re.run (Re.opt r) pos s c k
  = match Re.run r pos s c k with
    | Some x => Some x
    | None => k pos s c
    end.
Proof. reflexivity. Qed.

Lemma run_lazy_any (pos : nat) (s : string) (c : Re.captures) (k : Re.cont) :
  Re.run (Re.Star false Re.any) pos s c k = firstSuffix k pos s c.
Proof. cbn [Re.run]. apply lazy_any. lia. Qed.

(** [\n?%%] and what follows fail where a text without [%%] goes on *)
Lemma closing_marker_fails (r : Re.regex) (pos : nat) (b tail : string) (c : Re.captures)
  (k : Re.cont) :
  b <> EmptyString -> noMarker b ->
  Re.run (Re.Seq (Re.opt (Re.chr "010")) (Re.Seq (Re.lit "%%") r)) pos
    (b +:+ String "010" tail) c k = None.
Proof.
  intros Hfilled Hb. rewrite run_seq, run_opt.
  pose proof (marker_not_here b tail "010" ltac:(discriminate) Hb) as Hhere.
  destruct b as [|x b]; [congruence|].
  change (String x b +:+ String "010" tail) with (String x (b +:+ String "010" tail)) in *.
  rewrite (run_lit_fail "%%" r pos _ c k Hhere).
  destruct (Ascii.eqb "010" x) eqn:Hx.
  - apply Ascii.eqb_eq in Hx as <-. rewrite run_chr. cbv beta.
    rewrite run_lit_fail; [reflexivity|].
    apply marker_not_here; [discriminate|].
    exact (noMarker_suffix (String "010" EmptyString) b Hb).
  - unfold Re.chr. now rewrite run_class_fail by exact Hx.
Qed.

Lemma archive_block_found (pre mid after : string) :
  noMarker pre -> noMarker mid ->
  let body := pre +:+ newline +:+ archiveStartMarker +:+ newline +:+ mid
              +:+ newline +:+ archiveEndMarker +:+ after in
  exists found,
    Re.exec archiveBlockRegex body = Some found
    /\ Re.groupOr 1 (Re.caps found) = mid
    /\ Js.sliceTo (Re.index found) body = pre +:+ newline
    /\ Js.sliceFrom (Re.stop found) body = after.
Proof.
  intros Hpre Hmid body.
  set (closing := String "010" (archiveEndMarker +:+ after)).
  set (opened := archiveStartMarker +:+ newline +:+ mid +:+ closing).
  assert (Hbody : body = pre +:+ String "010" opened) by reflexivity.
  assert (Hrun : Re.run archiveBlockRegex (S (String.length pre)) opened [] Re.final
                 = Some (String.length mid + 63 + String.length pre, [(1, mid)])).
  { unfold archiveBlockRegex, opened. cbn [Re.seqs].
    change (archiveStartMarker +:+ newline +:+ mid +:+ closing)
      with ("%%" +:+ (" " +:+ ("kanban-next:archive:start"
              +:+ (" " +:+ ("%%" +:+ String "010" (mid +:+ closing)))))).
    rewrite run_seq, run_lit. cbv beta. rewrite run_seq.
    apply (run_star Js.isSpace _ _ " " ("kanban-next:archive:start" +:+ (" " +:+ ("%%"
             +:+ String "010" (mid +:+ closing)))));
      [reflexivity|reflexivity|reflexivity|].
    cbv beta. rewrite run_seq, run_lit. cbv beta. rewrite run_seq.
    apply (run_star Js.isSpace _ _ " " ("%%" +:+ String "010" (mid +:+ closing)));
      [reflexivity|reflexivity|reflexivity|].
    cbv beta. rewrite run_seq, run_lit. cbv beta. rewrite run_seq.
    rewrite run_opt, run_chr. cbv beta.
    match goal with
    | |- match ?m with _ => _ end = _ =>
        assert (Hinner : m = Some (String.length mid + 63 + String.length pre, [(1, mid)]));
        [|now rewrite Hinner]
    end.
    rewrite run_seq, run_group, run_lazy_any.
    rewrite firstSuffix_skips.
    2:{ intros a b -> Hb. unfold closing.
        apply closing_marker_fails; [exact Hb|exact (noMarker_suffix a b Hmid)]. }
    unfold closing.
    match goal with
    | |- firstSuffix ?k ?q ?s ?c = _ =>
        assert (Hk : k q s c
                     = Some (String.length mid + 63 + String.length pre, [(1, mid)]));
        [|cbn [firstSuffix]; now rewrite Hk]
    end.
    cbv beta. rewrite run_seq, run_opt, run_chr. cbv beta.
    match goal with
    | |- match ?m with _ => _ end = _ =>
        assert (Hclosing : m = Some (String.length mid + 63 + String.length pre, [(1, mid)]));
        [|now rewrite Hclosing]
    end.
    change (archiveEndMarker +:+ after)
      with ("%%" +:+ (" " +:+ ("kanban-next:archive:end" +:+ (" " +:+ ("%%" +:+ after))))).
    rewrite run_seq, run_lit. cbv beta. rewrite run_seq.
    apply (run_star Js.isSpace _ _ " " ("kanban-next:archive:end" +:+ (" " +:+ ("%%"
             +:+ after))));
      [reflexivity|reflexivity|reflexivity|].
    cbv beta. rewrite run_seq, run_lit. cbv beta. rewrite run_seq.
    apply (run_star Js.isSpace _ _ " " ("%%" +:+ after));
      [reflexivity|reflexivity|reflexivity|].
    cbv beta. rewrite run_lit. unfold Re.final. f_equal. f_equal; [simpl; lia|].
    f_equal. f_equal.
    match goal with
    | |- Js.sliceTo ?n _ = _ => replace n with (String.length mid) by (simpl; lia)
    end.
    apply sliceTo_app. }
  exists (Re.mkFound (S (String.length pre))
            (String.length mid + 63 + String.length pre) [(1, mid)]).
  split; [|split; [reflexivity|split]].
  - unfold Re.exec, archiveBlockRegex in *. cbn [Re.seqs] in *.
    rewrite Hbody, search_skips_text by (discriminate || exact Hpre).
    rewrite Nat.add_0_r.
    destruct opened as [|x opened']; cbn [Re.searchFrom]; now rewrite Hrun.
  - cbn [Re.index]. unfold body.
    replace (S (String.length pre)) with (String.length (pre +:+ newline))
      by (rewrite append_length; simpl; lia).
    rewrite <- (sliceTo_app (pre +:+ newline)
                  (archiveStartMarker +:+ newline +:+ mid +:+ newline
                   +:+ archiveEndMarker +:+ after)) at 2.
    now rewrite !append_assoc.
  - cbn [Re.stop]. unfold body.
    replace (String.length mid + 63 + String.length pre)
      with (String.length (pre +:+ newline +:+ archiveStartMarker +:+ newline +:+ mid
                           +:+ newline +:+ archiveEndMarker))
      by (rewrite !append_length; simpl; lia).
    rewrite <- (sliceFrom_app (pre +:+ newline +:+ archiveStartMarker +:+ newline +:+ mid
                               +:+ newline +:+ archiveEndMarker) after) at 2.
    now rewrite !append_assoc.
Qed.

(** ** Documents written and read back *)

Lemma join_app (first second : list string) :
  first <> [] -> second <> [] ->
  Js.join newline (first ++ second)
  = Js.join newline first +:+ newline +:+ Js.join newline second.
Proof.
  intros Hfirst Hsecond. induction first as [|line first IH]; [congruence|].
  destruct first as [|next first].
  - cbn [app]. now rewrite join_cons.
  - change ((line :: next :: first) ++ second) with (line :: ((next :: first) ++ second)).
    rewrite !join_cons by discriminate. rewrite IH by discriminate.
    now rewrite !append_assoc.
Qed.

Lemma popEmptyLines_closed (lines : list string) (last : string) :
  last <> EmptyString ->
  popEmptyLines (lines ++ [last; EmptyString]) = lines ++ [last].
Proof.
  intros Hlast. induction lines as [|line lines IH].
  - cbn [app popEmptyLines Js.truthy]. destruct last; [congruence|reflexivity].
  - cbn [app]. rewrite popEmptyLines_kept; rewrite IH; [reflexivity|].
    now destruct lines.
Qed.

Lemma document_text (yamlText : string) (lines : list string) :
  Js.join newline ("---" :: yamlText :: "---" :: lines) +:+ newline
  = opening +:+ yamlText +:+ fence +:+ newline +:+ linesText lines.
Proof.
  rewrite !join_cons by discriminate.
  destruct lines as [|line lines].
  - cbn [Js.join linesText]. rewrite !append_assoc. reflexivity.
  - rewrite join_cons by discriminate. unfold linesText.
    rewrite !append_assoc. reflexivity.
Qed.

Lemma linesText_clean (lines : list string) :
  Forall (fun line => allChars notLineTerminator line = true) lines ->
  allChars notCarriageReturn (linesText lines) = true.
Proof.
  intros Hlines. destruct lines as [|line lines]; [reflexivity|]. unfold linesText.
  rewrite allChars_append, andb_true_r. apply allChars_join; [reflexivity|].
  apply (Forall_impl _ _ _ Hlines). intros l Hl.
  apply (allChars_weaken notLineTerminator); [|exact Hl].
  intros a Ha. unfold notLineTerminator, Js.isLineTerminator in Ha.
  unfold notCarriageReturn.
  destruct (Ascii.eqb_spec a "013") as [->|]; [discriminate Ha|reflexivity].
Qed.

Lemma linesText_noMarker (lines : list string) :
  Forall noMarker lines -> noMarker (linesText lines).
Proof.
  intros Hlines. destruct lines as [|line lines]; [reflexivity|]. unfold linesText.
  change (Js.join newline (line :: lines) +:+ newline)
    with (Js.join newline (line :: lines) +:+ String "010" EmptyString).
  apply noMarker_across; [discriminate|now apply noMarker_join|reflexivity].
Qed.

Section WrittenDocument.

Variable localeCompare : string -> string -> comparison.
Variable dateNow : nat -> N.
Variable randomIndex : nat -> nat.
Variable parseYaml : string -> option yaml.
Variable stringifyYaml : yaml -> string.

Lemma lanes_bodyLines (lanes : list Column) :
  Forall writableLane lanes -> Forall bodyLine (flat_map (laneLines localeCompare) lanes).
Proof.
  induction 1 as [|lane lanes Hlane _ IH]; [constructor|].
  destruct Hlane as ((_ & _ & Hid & (_ & _ & Hline) & Hcards) & Hid' & Htitle & _ & Hclean).
  cbn [flat_map]. apply Forall_app. split; [|exact IH].
  unfold laneLines. cbn [app].
  constructor; [now apply headingLine_bodyLine|].
  constructor; [now split|].
  apply Forall_app. split; [now apply cards_bodyLines|].
  constructor; [now split|constructor].
Qed.

Lemma parse_body_lines (lanes : list Column) (kept : list string) (k j : nat)
  (entropy : Entropy) :
  Forall readableLane lanes ->
  EmptyString :: flat_map (laneLines localeCompare) lanes = kept ++ replicate k EmptyString ->
  parseColumnsAt localeCompare dateNow randomIndex (kept ++ replicate j EmptyString) 0 entropy
  = (map (sectionBack localeCompare) lanes, entropy).
Proof.
  intros Hlanes Hkept.
  rewrite parseColumnsAt_blanks, <- (parseColumnsAt_blanks _ _ _ kept k), <- Hkept.
  rewrite parseColumnsAt_unfold.
  change (Re.exec headingRegex EmptyString) with (@None Re.found).
  now apply parse_written_lanes.
Qed.

Lemma written_text (board : BoardDocument) :
  serializeBoardMarkdown localeCompare stringifyYaml board
  = opening +:+ Js.trimEnd (stringifyYaml (buildFrontmatter board)) +:+ fence +:+ newline
    +:+ linesText
          (popEmptyLines
             (EmptyString :: flat_map (laneLines localeCompare) (columns board)
              ++ serializeArchive localeCompare (archive board))).
Proof.
  unfold serializeBoardMarkdown. cbv zeta. cbn [app].
  rewrite popEmptyLines_cons by discriminate.
  rewrite popEmptyLines_kept by (rewrite popEmptyLines_cons; discriminate).
  rewrite popEmptyLines_cons by discriminate.
  apply document_text.
Qed.

Lemma body_without_archive (lanes : list Column) (entropy : Entropy) :
  Forall writableLane lanes ->
  let body := linesText (popEmptyLines
                           (EmptyString :: flat_map (laneLines localeCompare) lanes)) in
  allChars notCarriageReturn body = true
  /\ extractArchiveSection localeCompare dateNow randomIndex body entropy
     = ((body, []), entropy)
  /\ parseColumnsFromBody localeCompare dateNow randomIndex body entropy
     = (map (sectionBack localeCompare) lanes, entropy).
Proof.
  intros Hlanes body.
  destruct (popEmptyLines_tail (EmptyString :: flat_map (laneLines localeCompare) lanes))
    as (k & Hkept).
  set (kept := popEmptyLines (EmptyString :: flat_map (laneLines localeCompare) lanes)) in *.
  assert (Hlines : Forall bodyLine kept).
  { assert (Hall : Forall bodyLine (kept ++ replicate k EmptyString)).
    { rewrite <- Hkept. constructor; [now split|now apply lanes_bodyLines]. }
    now apply Forall_app in Hall as [Hall _]. }
  assert (Hclean : allChars notCarriageReturn body = true).
  { apply linesText_clean. apply (Forall_impl _ _ _ Hlines). now intros l [Hl _]. }
  assert (Hfree : noMarker body).
  { apply linesText_noMarker. apply (Forall_impl _ _ _ Hlines). now intros l [_ Hl]. }
  split; [exact Hclean|]. split.
  - unfold extractArchiveSection, normalizeNewlines. cbv zeta.
    rewrite (replaceCrLf_clean body Hclean), (no_archive_block body Hfree). reflexivity.
  - unfold parseColumnsFromBody, normalizeNewlines.
    rewrite (replaceCrLf_clean body Hclean). unfold body.
    rewrite splitLines_linesText
      by (apply (Forall_impl _ _ _ Hlines); now intros l [Hl _]).
    apply (parse_body_lines lanes kept k 1 entropy); [|exact Hkept].
    apply (Forall_impl _ _ _ Hlanes). now intros lane [Hlane _].
Qed.

Lemma body_with_archive (lanes : list Column) (archived : list Card) (entropy : Entropy) :
  Forall writableLane lanes ->
  Forall readable archived -> Forall cleanCard archived -> archived <> [] ->
  let body := linesText (popEmptyLines
                           (EmptyString :: flat_map (laneLines localeCompare) lanes
                            ++ serializeArchive localeCompare archived)) in
  allChars notCarriageReturn body = true
  /\ exists remaining,
       extractArchiveSection localeCompare dateNow randomIndex body entropy
       = ((remaining, map (readBack localeCompare) archived), entropy)
       /\ parseColumnsFromBody localeCompare dateNow randomIndex remaining entropy
          = (map (sectionBack localeCompare) lanes, entropy).
Proof.
  intros Hlanes Hreadable Hcleaned Hfilled body.
  set (written := flat_map (laneLines localeCompare) lanes) in *.
  set (cards := flat_map (serializeCard localeCompare) archived) in *.
  set (before := (EmptyString :: written) ++ [EmptyString]).
  set (block := EmptyString :: cards).
  assert (Hkept : popEmptyLines (EmptyString :: written
                                 ++ serializeArchive localeCompare archived)
                  = before ++ [archiveStartMarker] ++ block ++ [archiveEndMarker]).
  { unfold serializeArchive. destruct archived as [|card archived]; [congruence|].
    fold cards.
    replace (EmptyString :: written
             ++ [EmptyString; archiveStartMarker; EmptyString]
             ++ cards ++ [archiveEndMarker; EmptyString])
      with ((before ++ [archiveStartMarker] ++ block) ++ [archiveEndMarker; EmptyString])
      by (unfold before, block; cbn [app]; rewrite <- !app_assoc; reflexivity).
    rewrite popEmptyLines_closed by discriminate. now rewrite <- !app_assoc. }
  unfold body. rewrite Hkept. clear body Hkept.
  assert (Hbefore : Forall bodyLine before).
  { unfold before. apply Forall_app. split; [|constructor; [now split|constructor]].
    constructor; [now split|now apply lanes_bodyLines]. }
  assert (Hblock : Forall bodyLine block).
  { unfold block. constructor; [now split|now apply cards_bodyLines]. }
  assert (Hlines : forall lines, Forall bodyLine lines ->
                     Forall (fun line => allChars notLineTerminator line = true) lines)
    by (intros lines H; apply (Forall_impl _ _ _ H); now intros l [Hl _]).
  assert (Hfrees : forall lines, Forall bodyLine lines -> Forall noMarker lines)
    by (intros lines H; apply (Forall_impl _ _ _ H); now intros l [_ Hl]).
  set (pre := Js.join newline before).
  set (mid := Js.join newline block).
  assert (Htext : linesText (before ++ [archiveStartMarker] ++ block ++ [archiveEndMarker])
                  = pre +:+ newline +:+ archiveStartMarker +:+ newline +:+ mid
                    +:+ newline +:+ archiveEndMarker +:+ newline).
  { assert (Hopen : forall more,
               linesText (before ++ more) = Js.join newline (before ++ more) +:+ newline)
      by (intros more; unfold before; reflexivity).
    rewrite Hopen.
    rewrite (join_app before) by (unfold before; discriminate).
    rewrite (join_app [archiveStartMarker] (block ++ [archiveEndMarker]))
      by (unfold block; discriminate).
    rewrite (join_app block [archiveEndMarker]) by (unfold block; discriminate).
    cbn [Js.join]. fold pre mid. now rewrite !append_assoc. }
  rewrite Htext.
  assert (Hclean : allChars notCarriageReturn
                     (pre +:+ newline +:+ archiveStartMarker +:+ newline +:+ mid
                      +:+ newline +:+ archiveEndMarker +:+ newline) = true).
  { rewrite <- Htext. apply linesText_clean.
    apply Forall_app. split; [now apply Hlines|].
    constructor; [reflexivity|]. apply Forall_app. split; [now apply Hlines|].
    constructor; [reflexivity|constructor]. }
  split; [exact Hclean|].
  destruct (archive_block_found pre mid newline) as (found & Hfound & Hgroup & Hindex & Hstop).
  { apply noMarker_join. now apply Hfrees. }
  { apply noMarker_join. now apply Hfrees. }
  cbv zeta in Hfound, Hindex, Hstop.
  exists ((pre +:+ newline) +:+ newline). split.
  - unfold extractArchiveSection, normalizeNewlines. cbv zeta.
    rewrite (replaceCrLf_clean _ Hclean), Hfound, Hgroup, Hindex, Hstop. unfold bind.
    unfold mid. rewrite splitLines_join by (unfold block; discriminate || now apply Hlines).
    unfold parseCardsFromLines, block.
    rewrite parseCardsAt_unfold.
    change (Re.exec cardRegex EmptyString) with (@None Re.found).
    unfold cards. rewrite (parse_written_cards _ _ _ _ entropy Hreadable). reflexivity.
  - unfold parseColumnsFromBody, normalizeNewlines.
    assert (Hrest : (pre +:+ newline) +:+ newline = linesText before +:+ newline +:+ EmptyString).
    { unfold linesText, before. cbn [app]. fold before. fold pre.
      now rewrite append_empty. }
    rewrite Hrest, replaceCrLf_clean.
    2:{ rewrite !allChars_append, (linesText_clean before) by now apply Hlines.
        reflexivity. }
    rewrite splitLines_append, splitLines_linesText by now apply Hlines.
    unfold before. rewrite <- !app_assoc.
    change ([EmptyString] ++ [EmptyString] ++ Js.splitLines EmptyString)
      with (replicate 3 EmptyString).
    apply (parse_body_lines lanes (EmptyString :: written) 0 3 entropy).
    + apply (Forall_impl _ _ _ Hlanes). now intros lane [Hlane _].
    + cbn [replicate]. now rewrite app_nil_r.
Qed.

Lemma body_read_back (board : BoardDocument) (entropy : Entropy) :
  writable board ->
  let body := linesText (popEmptyLines
                           (EmptyString :: flat_map (laneLines localeCompare) (columns board)
                            ++ serializeArchive localeCompare (archive board))) in
  allChars notCarriageReturn body = true
  /\ exists remaining,
       extractArchiveSection localeCompare dateNow randomIndex body entropy
       = ((remaining, map (readBack localeCompare) (archive board)), entropy)
       /\ parseColumnsFromBody localeCompare dateNow randomIndex remaining entropy
          = (map (sectionBack localeCompare) (columns board), entropy).
Proof.
  intros (_ & Hlanes & Hreadable & Hcleaned).
  destruct (archive board) as [|card archived] eqn:Harchive.
  - cbn [serializeArchive]. rewrite app_nil_r.
    destruct (body_without_archive (columns board) entropy Hlanes) as (Hclean & Hnone & Hbody).
    cbv zeta. split; [exact Hclean|]. eexists. split; [exact Hnone|exact Hbody].
  - apply body_with_archive; [exact Hlanes|exact Hreadable|exact Hcleaned|discriminate].
Qed.

Lemma written_again (board : BoardDocument) :
  Js.trim (boardTitle board) = boardTitle board ->
  boardTitle board <> EmptyString ->
  Js.trim (boardDescription board) = boardDescription board ->
  serializeBoardMarkdown localeCompare stringifyYaml (documentBack localeCompare board)
  = serializeBoardMarkdown localeCompare stringifyYaml board.
Proof.
  intros Htitle Hfilled Hdescription.
  assert (Hcards : forall cards,
             flat_map (serializeCard localeCompare) (map (readBack localeCompare) cards)
             = flat_map (serializeCard localeCompare) cards).
  { induction cards as [|card cards IH]; [reflexivity|].
    cbn [map flat_map]. now rewrite serializeCard_readBack, IH. }
  unfold serializeBoardMarkdown. cbv zeta.
  assert (Hheader : buildFrontmatter (documentBack localeCompare board)
                    = buildFrontmatter board).
  { assert (Hcolumns : normalizeColumns (documentBack localeCompare board)
                         = normalizeColumns board).
    { unfold normalizeColumns, documentBack. cbn [columns]. rewrite map_map.
      apply map_ext. reflexivity. }
    unfold buildFrontmatter. rewrite Hcolumns.
    cbn [documentBack boardTitle boardDescription density].
    rewrite Htitle, Hdescription.
    destruct (boardTitle board) eqn:Hname; [congruence|reflexivity]. }
  rewrite Hheader. do 4 f_equal.
  cbn [documentBack columns archive]. f_equal.
  - induction (columns board) as [|lane lanes IH]; [reflexivity|].
    cbn [map flat_map]. rewrite IH. cbn [laneBack col_id col_title col_cards].
    now rewrite Hcards.
  - unfold serializeArchive. rewrite Hcards.
    now destruct (archive board).
Qed.

Lemma parse_written_board (board : BoardDocument) (entropy : Entropy) :
  writable board ->
  headerReadBack parseYaml stringifyYaml board ->
  parseBoardMarkdown localeCompare dateNow randomIndex parseYaml
    (serializeBoardMarkdown localeCompare stringifyYaml board) entropy
  = (inr (documentBack localeCompare board), entropy).
Proof.
  intros Hboard (Hparse & Hfence & Hyaml).
  destruct (body_read_back board entropy Hboard)
    as (Hclean & remaining & Harchive & Hsections).
  destruct Hboard as (Hdistinct & Hlanes & _).
  rewrite written_text.
  set (yamlText := Js.trimEnd (stringifyYaml (buildFrontmatter board))) in *.
  set (body := linesText _) in *.
  destruct (header_found yamlText body Hfence) as (found & Hfound & Hgroup & Hslice).
  cbv zeta in Hfound, Hslice.
  unfold parseBoardMarkdown, splitFrontmatter, normalizeNewlines.
  rewrite replaceCrLf_clean
    by (rewrite !allChars_append, Hyaml, Hclean; reflexivity).
  rewrite Hfound, Hgroup, Hparse, Hslice.
  change (isObject (buildFrontmatter board)) with true. cbn [negb].
  rewrite header_kanban. unfold bind, assembleBoard. cbv zeta. unfold bind.
  rewrite Harchive. cbn [fst snd]. rewrite Hsections.
  rewrite header_boardTitle, header_boardDescription, header_density.
  rewrite header_lanes.
  2:{ apply (Forall_impl _ _ _ Hlanes).
      intros lane ((Hfilled & Htrim & _ & (Htitled & Htitle & _) & _) & _ & _ & Hlimit & _).
      repeat split; assumption. }
  rewrite merge_written_lanes.
  2:{ exact Hdistinct. }
  2:{ apply (Forall_impl _ _ _ Hlanes). now intros lane ((_ & _ & _ & (Htitled & _) & _) & _). }
  unfold ret, documentBack. cbn [trimmedString].
  destruct (columns board); reflexivity.
Qed.

(** X26.  A document written by [serializeBoardMarkdown] is read back by
    [parseBoardMarkdown]: no error, no identifier made up, the lanes in
    their order with ids, titles and limits as they were, the cards of
    every lane and of the archive one for one as [parseCardsFromLines]
    reads them (trimmed title, description without trailing whitespace,
    normalized due date), board title and description trimmed.  This
    holds when the lane ids are distinct, lanes and cards are readable and
    hold neither [%%] nor a carriage return, and the YAML library reads
    back the header it wrote.  When the board title is filled and it and
    the description are trimmed, writing the document read back gives the
    same text again. *)
Theorem written_board_is_read_back (board : BoardDocument) (entropy : Entropy) :
  writable board ->
  headerReadBack parseYaml stringifyYaml board ->
  parseBoardMarkdown localeCompare dateNow randomIndex parseYaml
    (serializeBoardMarkdown localeCompare stringifyYaml board) entropy
  = (inr (documentBack localeCompare board), entropy)
  /\ (Js.trim (boardTitle board) = boardTitle board ->
      boardTitle board <> EmptyString ->
      Js.trim (boardDescription board) = boardDescription board ->
      serializeBoardMarkdown localeCompare stringifyYaml (documentBack localeCompare board)
      = serializeBoardMarkdown localeCompare stringifyYaml board).
Proof.
  intros Hboard Hheader. split.
  - now apply parse_written_board.
  - apply written_again.
Qed.

Lemma descriptionLines_trimEnd (description : string) :
  descriptionLines (Js.trimEnd description) = descriptionLines description.
Proof.
  unfold descriptionLines. rewrite trimEnd_idempotent.
  now rewrite !truthy_trim, <- truthy_trimEnd, trimEnd_idempotent, truthy_trimEnd.
Qed.

Lemma readBack_idempotent (card : Card) :
  readBack localeCompare (readBack localeCompare card) = readBack localeCompare card.
Proof.
  unfold readBack, normalizeCard.
  cbn [card_id card_title card_description card_checked card_dueDate
       in_id in_title in_description in_checked in_dueDate].
  now rewrite trim_idempotent, trimEnd_idempotent, !normalizeDueDate_idempotent.
Qed.

Lemma readable_back (card : Card) : readable card -> readable (readBack localeCompare card).
Proof.
  intros (Hfilled & Hid & Htitle & Hplain). unfold readable, readBack, normalizeCard.
  cbn [card_id card_title card_description in_id in_title in_description].
  now rewrite trim_idempotent, descriptionLines_trimEnd.
Qed.

Lemma cleanCard_back (card : Card) : cleanCard card -> cleanCard (readBack localeCompare card).
Proof.
  intros (Hclean & Htitle & Hdescription). unfold cleanCard, readBack, normalizeCard.
  cbn [card_title card_description in_title in_description].
  split; [now apply allChars_trimEnd|].
  split; [now apply noMarker_trim|now apply noMarker_trimEnd].
Qed.

Lemma writable_back (board : BoardDocument) :
  writable board -> writable (documentBack localeCompare board).
Proof.
  assert (Hreadable : forall cards,
             Forall readable cards -> Forall readable (map (readBack localeCompare) cards)).
  { intros cards H. apply Forall_forall. intros back Hin.
    apply list_elem_of_fmap in Hin as (card & -> & Hin).
    apply readable_back. exact (proj1 (Forall_forall _ _) H card Hin). }
  assert (Hclean : forall cards,
             Forall cleanCard cards -> Forall cleanCard (map (readBack localeCompare) cards)).
  { intros cards H. apply Forall_forall. intros back Hin.
    apply list_elem_of_fmap in Hin as (card & -> & Hin).
    apply cleanCard_back. exact (proj1 (Forall_forall _ _) H card Hin). }
  intros (Hdistinct & Hlanes & Harchive & Hcleaned).
  unfold writable, documentBack. cbn [columns archive].
  split; [|split; [|split; [now apply Hreadable|now apply Hclean]]].
  - rewrite map_map. exact Hdistinct.
  - apply Forall_forall. intros back Hin.
    apply list_elem_of_fmap in Hin as (lane & -> & Hin).
    destruct (proj1 (Forall_forall _ _) Hlanes lane Hin)
      as ((Hfilled & Htrim & Hid & Htitle & Hcards) & Hid' & Htitle' & Hlimit & Hcleans).
    unfold writableLane, readableLane, laneBack.
    cbn [col_id col_title col_wipLimit col_cards].
    repeat split; try assumption; try apply Htitle; [now apply Hreadable|now apply Hclean].
Qed.

Lemma documentBack_idempotent (board : BoardDocument) :
  documentBack localeCompare (documentBack localeCompare board)
  = documentBack localeCompare board.
Proof.
  assert (Hcards : forall cards,
             map (readBack localeCompare) (map (readBack localeCompare) cards)
             = map (readBack localeCompare) cards).
  { intros cards. rewrite map_map. apply map_ext. apply readBack_idempotent. }
  unfold documentBack. cbn [boardTitle boardDescription density columns archive].
  rewrite trim_idempotent, Hcards. f_equal.
  - destruct (Js.trim (boardTitle board)) eqn:Htitle; [reflexivity|].
    cbn [Js.orElse]. rewrite <- Htitle, trim_idempotent, Htitle. reflexivity.
  - rewrite map_map. apply map_ext. intros lane. unfold laneBack.
    cbn [col_id col_title col_wipLimit col_cards]. now rewrite Hcards.
Qed.

(** X27.  What has been read back is a fixed point of writing and reading:
    the document [parseBoardMarkdown] makes of a written document can
    itself be written and read back, and reading what
    [serializeBoardMarkdown] writes for it gives that very document
    again, cards, lanes, archive and board fields alike. *)
Theorem read_back_document_is_stable (board : BoardDocument) (entropy : Entropy) :
  writable board ->
  headerReadBack parseYaml stringifyYaml (documentBack localeCompare board) ->
  writable (documentBack localeCompare board)
  /\ parseBoardMarkdown localeCompare dateNow randomIndex parseYaml
       (serializeBoardMarkdown localeCompare stringifyYaml (documentBack localeCompare board))
       entropy
     = (inr (documentBack localeCompare board), entropy).
Proof.
  intros Hboard Hheader.
  pose proof (writable_back board Hboard) as Hback.
  split; [exact Hback|].
  rewrite (parse_written_board _ entropy Hback Hheader).
  now rewrite documentBack_idempotent.
Qed.

End WrittenDocument.

Lemma written_board_is_read_back_witness :
  let card :=
    {| card_id := "c-1"; card_title := " Ship 50% of the #Release ";
       card_description := "first line" +:+ newline +:+ "  second line" +:+ newline;
       card_checked := true; card_dueDate := Some " 2026-03-01 ";
       card_tags := []; card_searchText := EmptyString |} in
  let board :=
    mkBoard "Product Board" "Sprint 3" compact
      [mkColumn "todo" "To Do" (Some (Finite 5)) [card];
       mkColumn "doing" "Doing" (Some (Finite 2)) []]
      [Fixture.plainCard "c-2" "Done long ago"] in
  let text := serializeBoardMarkdown codeUnitCompare Sample.stringifyYaml board in
  Sample.parse text = inr (documentBack codeUnitCompare board)
  /\ map (fun column => (col_id column, col_wipLimit column,
                         map (fun back => (card_title back, card_description back,
                                           card_dueDate back))
                           (col_cards column)))
       (columns (documentBack codeUnitCompare board))
     = [("todo", Some (Finite 5),
         [("Ship 50% of the #Release", "first line" +:+ newline +:+ "  second line",
           Some "2026-03-01")]);
        ("doing", Some (Finite 2), [])]
  /\ map card_title (archive (documentBack codeUnitCompare board)) = ["Done long ago"]
  /\ serializeBoardMarkdown codeUnitCompare Sample.stringifyYaml
       (documentBack codeUnitCompare board) = text.
Proof.
  intros card board text.
  assert (Hboard : writable board).
  { split; [apply (bool_decide_unpack (NoDup ["todo"; "doing"])); vm_compute; exact I|].
    repeat constructor; discriminate. }
  assert (Hheader : headerReadBack Sample.parseYaml Sample.stringifyYaml board)
    by (repeat split; vm_compute; reflexivity).
  destruct (written_board_is_read_back codeUnitCompare Fixture.clock Fixture.dice
              Sample.parseYaml Sample.stringifyYaml board Fixture.start Hboard Hheader)
    as [Hread Hagain].
  split; [unfold Sample.parse, text; now rewrite Hread|].
  split; [reflexivity|]. split; [reflexivity|].
  apply Hagain; [reflexivity|discriminate|reflexivity].
Defined.

Lemma read_back_document_is_stable_witness :
  let card :=
    {| card_id := "c-1"; card_title := " Ship 50% of the #Release ";
       card_description := "first line" +:+ newline +:+ "  second line" +:+ newline;
       card_checked := true; card_dueDate := Some " 2026-03-01 ";
       card_tags := []; card_searchText := EmptyString |} in
  let board :=
    mkBoard "Product Board" "Sprint 3" compact
      [mkColumn "todo" "To Do" (Some (Finite 5)) [card];
       mkColumn "doing" "Doing" (Some (Finite 2)) []]
      [Fixture.plainCard "c-2" "Done long ago"] in
  let back := documentBack codeUnitCompare board in
  back <> board
  /\ Sample.parse (serializeBoardMarkdown codeUnitCompare Sample.stringifyYaml back)
     = inr back.
Proof.
  intros card board back.
  assert (Hboard : writable board).
  { split; [apply (bool_decide_unpack (NoDup ["todo"; "doing"])); vm_compute; exact I|].
    repeat constructor; discriminate. }
  assert (Hheader : headerReadBack Sample.parseYaml Sample.stringifyYaml back)
    by (repeat split; vm_compute; reflexivity).
  split; [discriminate|].
  unfold Sample.parse, back.
  now rewrite (proj2 (read_back_document_is_stable codeUnitCompare Fixture.clock Fixture.dice
                        Sample.parseYaml Sample.stringifyYaml board Fixture.start
                        Hboard Hheader)).
Defined.

(** ** Newlines at the end of a body *)

Lemma replaceCrLf_newlines (k : nat) : Js.replaceCrLf (newlines k) = newlines k.
Proof. apply replaceCrLf_clean. induction k as [|k IH]; [reflexivity|exact IH]. Qed.

Lemma replaceCrLf_unfold (a b : ascii) (s : string) :
  Js.replaceCrLf (String a (String b s))
  = if Ascii.eqb a "013" && Ascii.eqb b "010"
    then String "010" (Js.replaceCrLf s)
    else String a (Js.replaceCrLf (String b s)).
Proof. reflexivity. Qed.

Lemma replaceCrLf_before_newlines (s : string) (k : nat) :
  lastChar s <> Some "013"%char ->
  Js.replaceCrLf (s +:+ newlines k) = Js.replaceCrLf s +:+ newlines k.
Proof.
  remember (String.length s) as n eqn:Hn. revert s Hn.
  induction n as [n IH] using lt_wf_ind. intros s Hn Hlast.
  destruct s as [|a [|b s]].
  - apply replaceCrLf_newlines.
  - change (String a EmptyString +:+ newlines k) with (String a (newlines k)).
    cbn [lastChar] in Hlast. destruct k as [|k]; [reflexivity|].
    cbn [newlines]. rewrite replaceCrLf_unfold.
    destruct (Ascii.eqb_spec a "013") as [->|_]; [congruence|]. cbn [andb].
    change (String "010" (newlines k)) with (newlines (S k)).
    now rewrite (replaceCrLf_newlines (S k)).
  - change (String a (String b s) +:+ newlines k)
      with (String a (String b (s +:+ newlines k))).
    rewrite !replaceCrLf_unfold. cbn [lastChar] in Hlast.
    destruct (Ascii.eqb a "013" && Ascii.eqb b "010").
    + rewrite (IH (String.length s)); [reflexivity|subst n; simpl; lia|reflexivity|].
      destruct s; [|exact Hlast]. cbn [lastChar]. discriminate.
    + change (String b (s +:+ newlines k)) with (String b s +:+ newlines k).
      rewrite (IH (String.length (String b s)));
        [reflexivity|subst n; simpl; lia|reflexivity|exact Hlast].
Qed.

Lemma splitLines_newlines (s : string) (k : nat) :
  Js.splitLines (s +:+ newlines k) = Js.splitLines s ++ replicate k EmptyString.
Proof.
  revert s. induction k as [|k IH]; intros s.
  - cbn [newlines replicate]. now rewrite append_empty, app_nil_r.
  - change (s +:+ newlines (S k)) with (s +:+ newline +:+ newlines k).
    rewrite splitLines_append.
    specialize (IH EmptyString). change (EmptyString +:+ newlines k) with (newlines k) in IH.
    rewrite IH. reflexivity.
Qed.

Section TrailingNewlines.

Variable localeCompare : string -> string -> comparison.
Variable dateNow : nat -> N.
Variable randomIndex : nat -> nat.

(** X28.  Blank lines at the end do not matter: [parseCardsFromLines]
    reads the same cards whatever number of empty lines is added to its
    lines, and [parseColumnsFromBody] reads the same lanes and cards
    whatever number of newlines is added to a body that does not end with
    a carriage return.  A blank tail makes no card and is no part of a
    description. *)
Theorem newlines_at_the_end_are_ignored (body : string) (lines : list string) (k : nat)
  (entropy : Entropy) :
  lastChar body <> Some "013"%char ->
  parseColumnsFromBody localeCompare dateNow randomIndex (body +:+ newlines k) entropy
  = parseColumnsFromBody localeCompare dateNow randomIndex body entropy
  /\ parseCardsFromLines localeCompare dateNow randomIndex
       (lines ++ replicate k EmptyString) entropy
     = parseCardsFromLines localeCompare dateNow randomIndex lines entropy.
Proof.
  intros Hlast. split.
  - unfold parseColumnsFromBody, normalizeNewlines.
    rewrite (replaceCrLf_before_newlines body k Hlast), splitLines_newlines.
    apply parseColumnsAt_blanks.
  - apply parseCardsAt_blanks.
Qed.

End TrailingNewlines.

Lemma newlines_at_the_end_are_ignored_witness :
  let body := "## [a] A" +:+ newline +:+ "- [ ] [c] Card" +:+ newline +:+ "  its text" in
  map (fun section => (pc_id section,
                       map (fun card => (card_title card, card_description card))
                         (pc_cards section)))
    (fst (parseColumnsFromBody codeUnitCompare Fixture.clock Fixture.dice
            (body +:+ newlines 3) Fixture.start))
  = [("a", [("Card", "its text")])]
  /\ (let cut := "## [a] A" +:+ newline +:+ "- [ ] [c] Card" +:+ String "013" EmptyString in
      map (fun section => length (pc_cards section))
        (fst (parseColumnsFromBody codeUnitCompare Fixture.clock Fixture.dice
                cut Fixture.start)) = [0]
      /\ map (fun section => length (pc_cards section))
           (fst (parseColumnsFromBody codeUnitCompare Fixture.clock Fixture.dice
                   (cut +:+ newlines 1) Fixture.start)) = [1]).
Proof.
  intros body. split; [|split; reflexivity].
  assert (Hlast : lastChar body <> Some "013"%char) by discriminate.
  rewrite (proj1 (newlines_at_the_end_are_ignored codeUnitCompare Fixture.clock Fixture.dice
                    body [] 3 Fixture.start Hlast)).
  reflexivity.
Defined.

(** ** Names of files *)

Lemma blankOut_clean (class : ascii -> bool) (s : string) :
  class " "%char = false -> allChars (fun a => negb (class a)) (blankOut class s) = true.
Proof.
  intros Hspace. induction s as [|a s IH]; [reflexivity|].
  cbn [blankOut allChars]. rewrite IH, andb_true_r.
  destruct (class a) eqn:Ha; [now rewrite Hspace|now rewrite Ha].
Qed.

Lemma blankOut_fixed (class : ascii -> bool) (s : string) :
  allChars (fun a => negb (class a)) s = true -> blankOut class s = s.
Proof.
  induction s as [|a s IH]; [reflexivity|]. cbn [allChars blankOut]. intros H.
  apply andb_true_iff in H as [Ha Hs]. rewrite (IH Hs).
  now destruct (class a).
Qed.

Lemma collapseSpaces_keeps (p : ascii -> bool) (inRun : bool) (s : string) :
  p " "%char = true -> allChars p s = true -> allChars p (collapseSpaces inRun s) = true.
Proof.
  intros Hspace. revert inRun. induction s as [|a s IH]; intros inRun; [reflexivity|].
  cbn [allChars collapseSpaces]. intros H. apply andb_true_iff in H as [Ha Hs].
  destruct (Js.isSpace a); [destruct inRun|]; cbn [allChars].
  - now apply IH.
  - now rewrite Hspace, IH.
  - now rewrite Ha, IH.
Qed.

Lemma collapseSpaces_head (s : string) :
  headOutside Js.isSpace (collapseSpaces true s).
Proof.
  induction s as [|a s IH]; [exact I|]. cbn [collapseSpaces].
  destruct (Js.isSpace a) eqn:Ha; [exact IH|exact Ha].
Qed.

Lemma collapseSpaces_singleSpaced (inRun : bool) (s : string) :
  singleSpaced (collapseSpaces inRun s) = true.
Proof.
  revert inRun. induction s as [|a s IH]; intros inRun; [reflexivity|].
  cbn [collapseSpaces]. destruct (Js.isSpace a) eqn:Ha.
  - destruct inRun; [apply IH|]. cbn [singleSpaced]. rewrite IH, andb_true_r.
    change (Js.isSpace " ") with true. cbv iota. cbn [Ascii.eqb andb].
    pose proof (collapseSpaces_head s) as Hhead.
    destruct (collapseSpaces true s) as [|b rest]; [reflexivity|].
    simpl in Hhead. now rewrite Hhead.
  - cbn [singleSpaced]. now rewrite Ha, IH.
Qed.

Lemma collapseSpaces_fixed (s : string) :
  singleSpaced s = true -> collapseSpaces false s = s.
Proof.
  induction s as [|a s IH]; [reflexivity|]. cbn [singleSpaced collapseSpaces].
  intros H. apply andb_true_iff in H as [Ha Hs].
  destruct (Js.isSpace a) eqn:Hspace; [|now rewrite (IH Hs)].
  apply andb_true_iff in Ha as [Heq Hnext]. apply Ascii.eqb_eq in Heq as ->.
  f_equal. destruct s as [|b s]; [reflexivity|].
  apply negb_true_iff in Hnext. cbn [collapseSpaces]. rewrite Hnext.
  specialize (IH Hs). cbn [collapseSpaces] in IH. rewrite Hnext in IH. exact IH.
Qed.

Lemma allChars_trimStart (p : ascii -> bool) (s : string) :
  allChars p s = true -> allChars p (Js.trimStart s) = true.
Proof.
  induction s as [|a s IH]; [reflexivity|]. cbn [allChars Js.trimStart]. intros H.
  destruct (Js.isSpace a); [|exact H]. apply andb_true_iff in H as [_ H]. auto.
Qed.

Lemma singleSpaced_trimStart (s : string) :
  singleSpaced s = true -> singleSpaced (Js.trimStart s) = true.
Proof.
  induction s as [|a s IH]; [reflexivity|]. intros H. cbn [Js.trimStart].
  destruct (Js.isSpace a); [|exact H].
  cbn [singleSpaced] in H. apply andb_true_iff in H as [_ H]. auto.
Qed.

Lemma singleSpaced_prefix (a b : string) :
  singleSpaced (a +:+ b) = true -> singleSpaced a = true.
Proof.
  induction a as [|x a IH]; [reflexivity|].
  change (String x a +:+ b) with (String x (a +:+ b)). cbn [singleSpaced].
  intros H. apply andb_true_iff in H as [Hx H]. rewrite (IH H), andb_true_r.
  destruct (Js.isSpace x); [|reflexivity].
  apply andb_true_iff in Hx as [-> Hnext]. destruct a as [|y a]; [reflexivity|exact Hnext].
Qed.

Lemma singleSpaced_trim (s : string) :
  singleSpaced s = true -> singleSpaced (Js.trim s) = true.
Proof.
  intros Hs. unfold Js.trim.
  destruct (trimEnd_is_prefix (Js.trimStart s)) as (t & Ht).
  apply (singleSpaced_prefix _ t). rewrite <- Ht. now apply singleSpaced_trimStart.
Qed.

Lemma sanitized_clean (class : ascii -> bool) (raw : string) :
  class " "%char = false ->
  cleanName class (Js.trim (collapseSpaces false (blankOut class raw))).
Proof.
  intros Hspace. split; [|split].
  - unfold Js.trim. apply allChars_trimEnd, allChars_trimStart.
    apply collapseSpaces_keeps; [now rewrite Hspace|now apply blankOut_clean].
  - apply trim_idempotent.
  - apply singleSpaced_trim, collapseSpaces_singleSpaced.
Qed.

Lemma clean_fixed (class : ascii -> bool) (name : string) :
  cleanName class name -> Js.trim (collapseSpaces false (blankOut class name)) = name.
Proof.
  intros (Hclean & Htrim & Hspaced).
  now rewrite (blankOut_fixed class name Hclean), (collapseSpaces_fixed name Hspaced).
Qed.

(** X29.  Names made for files are clean: [sanitizeFileBaseName] returns
    a text without backslash, slash, colon, asterisk, question mark,
    double quote, angle bracket or bar, and [sanitizeNoteBaseName] one
    without these and without square brackets; the
    result has no whitespace at either end and whitespace only as single
    spaces between other characters; a text of that shape is returned as
    it is, so sanitizing twice is sanitizing once. *)
Theorem sanitized_names_are_clean (raw : string) :
  (cleanName isReservedChar (sanitizeFileBaseName raw)
   /\ cleanName isReservedNoteChar (sanitizeNoteBaseName raw))
  /\ (forall name, cleanName isReservedChar name -> sanitizeFileBaseName name = name)
  /\ (forall name, cleanName isReservedNoteChar name -> sanitizeNoteBaseName name = name)
  /\ sanitizeFileBaseName (sanitizeFileBaseName raw) = sanitizeFileBaseName raw
  /\ sanitizeNoteBaseName (sanitizeNoteBaseName raw) = sanitizeNoteBaseName raw.
Proof.
  assert (Hfile : forall text, cleanName isReservedChar (sanitizeFileBaseName text))
    by (intros text; now apply sanitized_clean).
  assert (Hnote : forall text, cleanName isReservedNoteChar (sanitizeNoteBaseName text))
    by (intros text; now apply sanitized_clean).
  split; [split; [apply Hfile|apply Hnote]|].
  split; [intros name; apply clean_fixed|].
  split; [intros name; apply clean_fixed|].
  split; [apply (clean_fixed isReservedChar), Hfile|apply (clean_fixed isReservedNoteChar), Hnote].
Qed.

Example sanitized_names :
  sanitizeFileBaseName ("  Plan: Q3/Q4 " +:+ tab +:+ " <draft>  ") = "Plan Q3 Q4 draft"
  /\ sanitizeNoteBaseName "Fix [parser] *now*" = "Fix parser now"
  /\ sanitizeFileBaseName "Fix [parser] *now*" = "Fix [parser] now"
  /\ sanitizeFileBaseName " /:* " = EmptyString.
Proof. repeat split. Qed.

(** ** Paths of new files *)

Lemma append_inv_head (a b c : string) : a +:+ b = a +:+ c -> b = c.
Proof. induction a as [|x a IH]; [auto|]. simpl. intros [= H]. auto. Qed.

Lemma append_inv_tail (a b c : string) : a +:+ c = b +:+ c -> a = b.
Proof.
  revert b. induction a as [|x a IH]; intros b H.
  - destruct b as [|y b]; [reflexivity|].
    apply (f_equal String.length) in H. rewrite !append_length in H.
    cbn [String.length] in H. lia.
  - destruct b as [|y b].
    + apply (f_equal String.length) in H. rewrite !append_length in H.
      cbn [String.length] in H. lia.
    + change (String x (a +:+ c) = String y (b +:+ c)) in H.
      injection H as -> H. f_equal. auto.
Qed.

Lemma indexText_inj (i j : nat) : indexText i = indexText j -> i = j.
Proof.
  unfold indexText. intros H.
  assert (Hfilled : forall n, Nat.to_uint n <> Decimal.Nil).
  { intros n Hn. pose proof (Unsigned.of_to n) as Hback. rewrite Hn in Hback.
    cbn in Hback. subst n. discriminate Hn. }
  apply (f_equal NilZero.uint_of_string) in H.
  rewrite !NilZero.usu in H by apply Hfilled.
  injection H as H. now apply Unsigned.to_uint_inj.
Qed.

(** the first index from [from] on, below [from + span], at which [stop]
    holds *)
Lemma first_index (stop : nat -> bool) (span from k : nat) :
  from <= k -> k < from + span -> stop k = true ->
  exists first, from <= first /\ first <= k /\ stop first = true
                /\ forall j, from <= j -> j < first -> stop j = false.
Proof.
  revert from. induction span as [|span IH]; intros from Hfrom Hbelow Hstop; [lia|].
  destruct (stop from) eqn:Hhere.
  - exists from. repeat split; [lia|lia|exact Hhere|]. intros j Hj Hlt. lia.
  - assert (Hne : from <> k) by congruence.
    destruct (IH (S from)) as (first & Hge & Hle & Hfirst & Hearlier); [lia|lia|exact Hstop|].
    exists first. repeat split; [lia|lia|exact Hfirst|].
    intros j Hj Hlt. destruct (decide (j = from)) as [->|]; [exact Hhere|].
    apply Hearlier; lia.
Qed.

Section NewPaths.

Variable normalizePath : string -> string.
Variable vault : gset string.

Lemma candidates_apart (prefix baseName : string) :
  (forall a b, normalizePath a = normalizePath b -> a = b) ->
  forall i j, candidatePath normalizePath prefix baseName i
              = candidatePath normalizePath prefix baseName j -> i = j.
Proof.
  intros Hinj i j H. unfold candidatePath in H. apply Hinj in H.
  apply append_inv_head in H. apply append_inv_tail in H.
  destruct i as [|i], j as [|j]; cbn [Nat.eqb] in H.
  - reflexivity.
  - apply (f_equal String.length) in H. rewrite !append_length in H.
    cbn [String.length] in H. lia.
  - apply (f_equal String.length) in H. rewrite !append_length in H.
    cbn [String.length] in H. lia.
  - apply append_inv_head in H. apply (append_inv_head " ") in H.
    now apply indexText_inj.
Qed.

Lemma free_candidate (prefix baseName : string) :
  (forall i j, candidatePath normalizePath prefix baseName i
               = candidatePath normalizePath prefix baseName j -> i = j) ->
  exists k, k <= size vault /\ (candidatePath normalizePath prefix baseName k ∉ vault).
Proof.
  intros Hapart.
  set (candidate := candidatePath normalizePath prefix baseName) in *.
  set (tried := map candidate (seq 0 (S (size vault)))).
  destruct (decide (Forall (fun p => p ∈ vault) tried)) as [Hall|Hsome].
  - exfalso.
    assert (Hdistinct : NoDup tried).
    { apply NoDup_fmap_2; [intros i j; apply Hapart|apply NoDup_seq]. }
    assert (Hsub : (list_to_set tried : gset string) ⊆ vault).
    { intros p Hp. apply elem_of_list_to_set in Hp.
      exact (proj1 (Forall_forall _ _) Hall p Hp). }
    apply subseteq_size in Hsub. rewrite size_list_to_set in Hsub by exact Hdistinct.
    unfold tried in Hsub. rewrite length_map, length_seq in Hsub. lia.
  - apply not_Forall_Exists in Hsome; [|intros p; apply _].
    apply Exists_exists in Hsome as (p & Hin & Hfree).
    apply list_elem_of_fmap in Hin as (k & -> & Hk).
    apply elem_of_seq in Hk. exists k. split; [lia|exact Hfree].
Qed.

Lemma nextPathFrom_finds (fuel : nat) (prefix baseName : string)
  (currentPath : option string) (index k : nat) :
  let candidate := candidatePath normalizePath prefix baseName in
  let stop := fun i => negb (bool_decide (candidate i ∈ vault))
                       || bool_decide (currentPath = Some (candidate i)) in
  index <= k -> k < index + fuel -> stop k = true ->
  (forall j, index <= j -> j < k -> stop j = false) ->
  nextPathFrom normalizePath vault fuel prefix baseName currentPath index
  = Some (candidate k).
Proof.
  intros candidate stop. revert index.
  induction fuel as [|fuel IH]; intros index Hfrom Hbelow Hstop Hearlier; [lia|].
  cbn [nextPathFrom]. fold candidate. fold (stop index).
  destruct (decide (index = k)) as [->|Hne]; [now rewrite Hstop|].
  rewrite (Hearlier index) by lia.
  apply IH; [lia|lia|exact Hstop|]. intros j Hj Hlt. apply Hearlier; lia.
Qed.

(** X30.  A new file never takes the place of another one.  With more
    fuel than the vault has files and candidates that differ from one
    another, [getNextBoardPath] returns: the loop ends.  The path
    returned is the first of [name.md], [name 1.md], [name 2.md], ... that
    no file has, or that is the file's own path; every candidate before
    it is taken by another file.  So [renameBoardFile], for a title that
    is not blank once sanitized, either leaves the file alone, when the
    path chosen is its own, or renames it to a path that no file has; and
    [getNextNotePath] returns the first candidate that no file has. *)
Theorem new_paths_are_free (fuel : nat) (folderPath baseName : string)
  (currentPath : option string) :
  let candidate := candidatePath normalizePath (folderPrefix folderPath) baseName in
  (forall i j, candidate i = candidate j -> i = j) ->
  size vault < fuel ->
  (exists k,
      getNextBoardPath normalizePath vault fuel folderPath baseName currentPath
      = Some (candidate k)
      /\ k <= size vault
      /\ ((candidate k ∉ vault) \/ currentPath = Some (candidate k))
      /\ forall j, j < k -> (candidate j ∈ vault) /\ currentPath <> Some (candidate j))
  /\ (forall filePath desiredTitle,
        sanitizeFileBaseName desiredTitle = baseName ->
        baseName <> EmptyString ->
        renameBoardFile normalizePath vault fuel filePath folderPath desiredTitle
        = Some renameNotNeeded
        \/ exists targetPath,
             renameBoardFile normalizePath vault fuel filePath folderPath desiredTitle
             = Some (renamedTo targetPath)
             /\ (targetPath ∉ vault) /\ targetPath <> filePath)
  /\ (exists k,
        getNextNotePath normalizePath vault fuel folderPath baseName = Some (candidate k)
        /\ (candidate k ∉ vault)
        /\ forall j, j < k -> candidate j ∈ vault).
Proof.
  intros candidate Hapart Hfuel.
  assert (Hnext : forall current,
             exists k,
               getNextBoardPath normalizePath vault fuel folderPath baseName current
               = Some (candidate k)
               /\ k <= size vault
               /\ ((candidate k ∉ vault) \/ current = Some (candidate k))
               /\ forall j, j < k -> (candidate j ∈ vault) /\ current <> Some (candidate j)).
  { intros current.
    set (stop := fun i => negb (bool_decide (candidate i ∈ vault))
                          || bool_decide (current = Some (candidate i))).
    destruct (free_candidate (folderPrefix folderPath) baseName Hapart) as (free & Hle & Hfree).
    fold candidate in Hfree.
    assert (Hstop : stop free = true)
      by (unfold stop; now rewrite (bool_decide_eq_false_2 _ Hfree)).
    destruct (first_index stop (S (size vault)) 0 free) as (k & _ & Hk & Hfirst & Hearlier);
      [lia|lia|exact Hstop|].
    exists k. split; [|split; [lia|split]].
    - unfold getNextBoardPath.
      apply (nextPathFrom_finds fuel (folderPrefix folderPath) baseName current 0 k);
        [lia|lia|exact Hfirst|]. intros j Hj Hlt. apply Hearlier; lia.
    - unfold stop in Hfirst. apply orb_true_iff in Hfirst as [Hfirst|Hfirst].
      + left. apply negb_true_iff in Hfirst. now apply bool_decide_eq_false in Hfirst.
      + right. now apply bool_decide_eq_true in Hfirst.
    - intros j Hlt. specialize (Hearlier j ltac:(lia) Hlt). unfold stop in Hearlier.
      apply orb_false_iff in Hearlier as [Hin Hown].
      apply negb_false_iff in Hin. apply bool_decide_eq_true in Hin.
      apply bool_decide_eq_false in Hown. now split. }
  split; [apply Hnext|]. split.
  2:{ destruct (Hnext None) as (k & Hpath & _ & [Hfree|Hown] & Hearlier); [|discriminate Hown].
      exists k. split; [exact Hpath|]. split; [exact Hfree|].
      intros j Hlt. apply (Hearlier j Hlt). }
  intros filePath desiredTitle Hclean Hfilled.
  destruct (Hnext (Some filePath)) as (k & Hpath & _ & Hfree & _).
  unfold renameBoardFile. rewrite Hclean.
  assert (Htruthy : Js.truthy baseName = true)
    by (destruct baseName; [congruence|reflexivity]).
  rewrite Htruthy. cbn [negb]. rewrite Hpath.
  destruct (String.eqb_spec (candidate k) filePath) as [Hsame|Hother]; [now left|].
  right. exists (candidate k). split; [reflexivity|]. split; [|exact Hother].
  destruct Hfree as [Hfree|Hown]; [exact Hfree|congruence].
Qed.

End NewPaths.

Lemma new_paths_are_free_witness :
  let vault : gset string :=
    {[ "Boards/Plan.md" ]} ∪ {[ "Boards/Plan 1.md" ]} ∪ {[ "Boards/Other.md" ]} in
  let same := fun path : string => path in
  getNextBoardPath same vault 4 "Boards" "Plan" None = Some "Boards/Plan 2.md"
  /\ ("Boards/Plan 2.md" ∉ vault)
  /\ renameBoardFile same vault 4 "Boards/Other.md" "Boards" " Plan: "
     = Some (renamedTo "Boards/Plan 2.md")
  /\ renameBoardFile same vault 4 "Boards/Plan.md" "Boards" " Plan: " = Some renameNotNeeded
  /\ renameBoardFile same vault 4 "Boards/Plan 1.md" "Boards" " Plan: " = Some renameNotNeeded.
Proof.
  intros vault same.
  assert (Hapart : forall i j,
             candidatePath same (folderPrefix "Boards") "Plan" i
             = candidatePath same (folderPrefix "Boards") "Plan" j -> i = j)
    by (apply candidates_apart; auto).
  assert (Hfuel : size vault < 4) by (vm_compute; lia).
  destruct (new_paths_are_free same vault 4 "Boards" "Plan" None Hapart Hfuel)
    as [(k & Hpath & _ & [Hfree|Hown] & _) _]; [|discriminate Hown].
  assert (Hcomputed : getNextBoardPath same vault 4 "Boards" "Plan" None
                      = Some "Boards/Plan 2.md") by (vm_compute; reflexivity).
  assert (Hsame : candidatePath same (folderPrefix "Boards") "Plan" k = "Boards/Plan 2.md")
    by congruence.
  split; [exact Hcomputed|]. split; [now rewrite <- Hsame|].
  repeat split; vm_compute; reflexivity.
Defined.
